(** * The Optimal Calculus runtime: heap, linker, collector, rewriter,
      normalizer and reader, embedded from the TypeScript source.

    JavaScript numbers are modelled by [N]: every number the runtime builds
    is a non-negative integer, and the development covers heaps whose
    pointers stay below 2^53, where double arithmetic is exact.  A value
    read from an array may also be [undefined]; such a value is [None] in
    the type [Val].  On [undefined] the source's [get_tag] and [get_ex0]
    give 0 (ToInt32 of NaN), and every use of [get_pos]/[get_loc] in the
    runtime sits under a tag test that excludes [undefined], except the
    key of the normalizer's visited set, which is then NaN. *)

From stdpp Require Import gmap list.
From Stdlib Require Import NArith Lia String Ascii.

Local Open Scope N_scope.

(** ** Tags and the pointer encoding *)

Module Tag.
Definition NIL : N := 0.
Definition LAM : N := 1.
Definition APP : N := 2.
Definition PAR : N := 3.
Definition DP0 : N := 4.
Definition DP1 : N := 5.
Definition VAR : N := 6.
Definition LNK : N := 7.
Definition CTR : N := 8.
Definition CAL : N := 9.
End Tag.
Import Tag.

(** A JavaScript value held in a cell or a local: a number or [undefined]. *)
Abbreviation Val := (option N).

Definition MUL_A : N := 2 ^ 4.
Definition MUL_B : N := 2 ^ 12.
Definition MUL_C : N := 2 ^ 20.

(** [ptr(tag, pos, ex0 = 0, ex1 = 0)]; the argument order follows the
    source.  The source adds and divides IEEE doubles: its results are
    these as long as the pointer stays below 2^53. *)
Definition ptr (tag pos ex0 ex1 : N) : N :=
  tag + ex0 * MUL_A + ex1 * MUL_B + pos * MUL_C.

(** [ptr & 0xF]: ToInt32 keeps the low 32 bits, of which the mask keeps 4. *)
Definition get_tag (p : N) : N := N.land p 15.
Definition get_ex0 (p : N) : N := N.land (p / MUL_A) 255.
Definition get_ex1 (p : N) : N := N.land (p / MUL_B) 255.
Definition get_pos (p : N) : N := p / MUL_C.
Definition get_loc (p arg : N) : N := p / MUL_C + arg.

(** [get_tag] on a value that may be [undefined]. *)
Definition tag_of (v : Val) : N := from_option get_tag 0 v.

(** ** The global state

    [RE0]..[RE3] are the four reuse stacks (the head of the list is the
    last position pushed, which [pop] returns first).  [MEM] is the cell
    array: a JavaScript array is a finite map from indices to values with
    a [length]; an index that is absent reads as [undefined], and a write
    past the end grows [length] and leaves the skipped indices absent.
    [LIM] is [None] for the source's [Infinity]. *)
Record State : Type := mkState {
  RE0 : list N;
  RE1 : list N;
  RE2 : list N;
  RE3 : list N;
  MEM : gmap N N;
  MEM_length : N;
  IS_FREED : gset N;
  GAS : N;
  LIM : option N
}.

(** The state of a freshly loaded module. *)
Definition init : State := mkState [] [] [] [] ∅ 0 ∅ 0 None.

Definition set_RE0 (l : list N) (s : State) : State :=
  mkState l (RE1 s) (RE2 s) (RE3 s) (MEM s) (MEM_length s) (IS_FREED s) (GAS s) (LIM s).
Definition set_RE1 (l : list N) (s : State) : State :=
  mkState (RE0 s) l (RE2 s) (RE3 s) (MEM s) (MEM_length s) (IS_FREED s) (GAS s) (LIM s).
Definition set_RE2 (l : list N) (s : State) : State :=
  mkState (RE0 s) (RE1 s) l (RE3 s) (MEM s) (MEM_length s) (IS_FREED s) (GAS s) (LIM s).
Definition set_RE3 (l : list N) (s : State) : State :=
  mkState (RE0 s) (RE1 s) (RE2 s) l (MEM s) (MEM_length s) (IS_FREED s) (GAS s) (LIM s).
Definition set_GAS (g : N) (s : State) : State :=
  mkState (RE0 s) (RE1 s) (RE2 s) (RE3 s) (MEM s) (MEM_length s) (IS_FREED s) g (LIM s).
Definition set_LIM (l : option N) (s : State) : State :=
  mkState (RE0 s) (RE1 s) (RE2 s) (RE3 s) (MEM s) (MEM_length s) (IS_FREED s) (GAS s) l.

(** [MEM[pos]] *)
Definition mem_get (pos : N) (s : State) : Val := MEM s !! pos.

(** [MEM[pos] = v].  Storing [undefined] leaves an index that reads as
    [undefined], which the map models by the absence of the key. *)
Definition mem_set (pos : N) (v : Val) (s : State) : State :=
  mkState (RE0 s) (RE1 s) (RE2 s) (RE3 s)
          (match v with Some x => <[pos := x]> (MEM s) | None => delete pos (MEM s) end)
          (N.max (MEM_length s) (pos + 1)) (IS_FREED s) (GAS s) (LIM s).

(** [MEM.push(0)] *)
Definition mem_push0 (s : State) : State := mem_set (MEM_length s) (Some 0) s.

(** [IS_FREED[k] = 1] *)
Definition mark_freed (k : N) (s : State) : State :=
  mkState (RE0 s) (RE1 s) (RE2 s) (RE3 s) (MEM s) (MEM_length s)
          ({[k]} ∪ IS_FREED s) (GAS s) (LIM s).

(** [get_arg(term, idx)] *)
Definition get_arg (term idx : N) (s : State) : Val := mem_get (get_loc term idx) s.

(** ** Linker *)

Definition link (pos : N) (term : Val) (s : State) : State :=
  let s1 := mem_set pos term s in
  match term with
  | Some t =>
      if get_tag t =? VAR then mem_set (get_loc t 0) (Some (ptr LNK pos 0 0)) s1
      else if get_tag t =? DP0 then mem_set (get_loc t 0) (Some (ptr LNK pos 0 0)) s1
      else if get_tag t =? DP1 then mem_set (get_loc t 1) (Some (ptr LNK pos 0 0)) s1
      else s1
  | None => s1
  end.

(** ** Allocator *)

(** [RE.pop()]: the last pushed position, or [undefined] on an empty stack. *)
Definition pop (l : list N) : Val * list N :=
  match l with
  | [] => (None, [])
  | x :: r => (Some x, r)
  end.

(** The [for] loop of [alloc]: [size] times [MEM.push(0)]. *)
Fixpoint push_zeros (k : nat) (s : State) : State :=
  match k with
  | O => s
  | S k' => push_zeros k' (mem_push0 s)
  end.

Definition alloc (size : N) (s : State) : N * State :=
  let '(reuse, s1) :=
    if size =? 0 then let '(r, l) := pop (RE0 s) in (r, set_RE0 l s)
    else if size =? 1 then let '(r, l) := pop (RE1 s) in (r, set_RE1 l s)
    else if size =? 2 then let '(r, l) := pop (RE2 s) in (r, set_RE2 l s)
    else if size =? 3 then let '(r, l) := pop (RE3 s) in (r, set_RE3 l s)
    else (None, s) in
  match reuse with
  | Some p => (p, s1)
  | None =>
      if 0 <? size
      then (MEM_length s1, push_zeros (N.to_nat size) s1)
      else (0, s1)
  end.

(** The [for] loop of [free]: [k] runs over [size] cells from [pos]. *)
Fixpoint zero_cells (n : nat) (k : N) (s : State) : State :=
  match n with
  | O => s
  | S n' => zero_cells n' (k + 1) (mem_set k (Some 0) (mark_freed k s))
  end.

Definition free (pos size : N) (s : State) : State :=
  let s1 := zero_cells (N.to_nat size) pos s in
  if size =? 0 then set_RE0 (pos :: RE0 s1) s1
  else if size =? 1 then set_RE1 (pos :: RE1 s1) s1
  else if size =? 2 then set_RE2 (pos :: RE2 s1) s1
  else if size =? 3 then set_RE3 (pos :: RE3 s1) s1
  else s1.

(** ** Local collector

    [collect], [reduce] and [normal] recurse along the graph and need not
    terminate on a cyclic heap; the embedding gives them a recursion
    budget and returns [None] when it runs out.  [host] is [null] ([None])
    or a position; the source tests it with [if (host)], which is also
    false for position 0. *)

Definition truthy (host : option N) : bool :=
  match host with
  | Some h => negb (h =? 0)
  | None => false
  end.

(** The [for] loop over the arguments of a Ctr or Cal node. *)
Fixpoint collect_args (rec : Val -> option N -> State -> option State)
    (term i : N) (n : nat) (s : State) : option State :=
  match n with
  | O => Some s
  | S n' =>
      s1 ← rec (get_arg term i s) (Some (get_loc term i)) s;
      collect_args rec term (i + 1) n' s1
  end.

Fixpoint collect (fuel : nat) (term : Val) (host : option N) (s : State)
    : option State :=
  match fuel with
  | O => None
  | S f =>
    match term with
    | None => Some s
    | Some t =>
      if get_tag t =? LAM then
        let s1 :=
          match get_arg t 0 s with
          | Some l =>
              if get_tag l =? NIL then s
              else link (get_loc l 0) (Some (ptr NIL 0 0 0)) s
          | None => s
          end in
        s2 ← collect f (get_arg t 1 s1) (Some (get_loc t 1)) s1;
        Some (free (get_loc t 0) 2 s2)
      else if get_tag t =? APP then
        s1 ← collect f (get_arg t 0 s) (Some (get_loc t 0)) s;
        s2 ← collect f (get_arg t 1 s1) (Some (get_loc t 1)) s1;
        Some (free (get_loc t 0) 2 s2)
      else if get_tag t =? PAR then
        s1 ← collect f (get_arg t 0 s) (Some (get_loc t 0)) s;
        s2 ← collect f (get_arg t 1 s1) (Some (get_loc t 1)) s1;
        let s3 := free (get_loc t 0) 2 s2 in
        Some (match host with
              | Some h => if truthy host then link h (Some (ptr NIL 0 0 0)) s3 else s3
              | None => s3
              end)
      else if get_tag t =? DP0 then
        let s1 := link (get_loc t 0) (Some (ptr NIL 0 0 0)) s in
        Some (match host with
              | Some h => if truthy host then free h 1 s1 else s1
              | None => s1
              end)
      else if get_tag t =? DP1 then
        let s1 := link (get_loc t 1) (Some (ptr NIL 0 0 0)) s in
        Some (match host with
              | Some h => if truthy host then free h 1 s1 else s1
              | None => s1
              end)
      else if (get_tag t =? CTR) || (get_tag t =? CAL) then
        let arity := get_ex0 t in
        s1 ← collect_args (collect f) t 0 (N.to_nat arity) s;
        Some (free (get_loc t 0) arity s1)
      else if get_tag t =? VAR then
        let s1 := link (get_loc t 0) (Some (ptr NIL 0 0 0)) s in
        Some (match host with
              | Some h => if truthy host then free h 1 s1 else s1
              | None => s1
              end)
      else Some s
    end
  end.

(** ** Substitution *)

Definition subst (fuel : nat) (lnk val : Val) (s : State) : option State :=
  if tag_of lnk =? NIL then collect fuel val None s
  else match lnk with
       | Some l => Some (link (get_loc l 0) val s)
       | None => Some s
       end.

(** ** Gas *)

(** [GAS >= LIM] *)
Definition gas_out (s : State) : bool :=
  match LIM s with
  | Some l => l <=? GAS s
  | None => false
  end.

(** [++GAS] *)
Definition tick (s : State) : State := set_GAS (GAS s + 1) s.

(** ** The six rewrite rules

    Each definition is the body of one [case] of [reduce], from the
    statement after the gas test to the statement before [continue] or
    [return]; [s] is the state after [++GAS]. *)

(** APP-LAM: [(λx:b a)]. *)
Definition app_lam (fuel : nat) (host term func : N) (s : State) : option State :=
  s1 ← subst fuel (get_arg func 0 s) (get_arg term 1 s) s;
  let s2 := link host (get_arg func 1 s1) s1 in
  let s3 := free (get_loc term 0) 2 s2 in
  Some (free (get_loc func 0) 2 s3).

(** APP-PAR: [(&A<a b> c)]. *)
Definition app_par (host term func : N) (s : State) : State :=
  let '(let0, s) := alloc 3 s in
  let '(app0, s) := alloc 2 s in
  let '(app1, s) := alloc 2 s in
  let '(par0, s) := alloc 2 s in
  let s := link (let0 + 2) (get_arg term 1 s) s in
  let s := link (app0 + 0) (get_arg func 0 s) s in
  let s := link (app0 + 1) (Some (ptr DP0 let0 (get_ex0 func) 0)) s in
  let s := link (app1 + 0) (get_arg func 1 s) s in
  let s := link (app1 + 1) (Some (ptr DP1 let0 (get_ex0 func) 0)) s in
  let s := link (par0 + 0) (Some (ptr APP app0 0 0)) s in
  let s := link (par0 + 1) (Some (ptr APP app1 0 0)) s in
  let s := link host (Some (ptr PAR par0 (get_ex0 func) 0)) s in
  let s := free (get_loc term 0) 2 s in
  free (get_loc func 0) 2 s.

(** LET-LAM: [!A<r s> = λx: f]. *)
Definition let_lam (fuel : nat) (host term expr : N) (s : State) : option State :=
  let '(lam0, s) := alloc 2 s in
  let '(lam1, s) := alloc 2 s in
  let '(par0, s) := alloc 2 s in
  let '(let0, s) := alloc 3 s in
  let s := link (lam0 + 1) (Some (ptr DP0 let0 (get_ex0 term) 0)) s in
  let s := link (lam1 + 1) (Some (ptr DP1 let0 (get_ex0 term) 0)) s in
  let s := link (par0 + 0) (Some (ptr VAR lam0 0 0)) s in
  let s := link (par0 + 1) (Some (ptr VAR lam1 0 0)) s in
  let s := link (let0 + 2) (get_arg expr 1 s) s in
  s ← subst fuel (get_arg term 0 s) (Some (ptr LAM lam0 0 0)) s;
  s ← subst fuel (get_arg term 1 s) (Some (ptr LAM lam1 0 0)) s;
  s ← subst fuel (get_arg expr 0 s) (Some (ptr PAR par0 (get_ex0 term) 0)) s;
  let s := link host (Some (ptr LAM (if get_tag term =? DP0 then lam0 else lam1) 0 0)) s in
  let s := free (get_loc term 0) 3 s in
  Some (free (get_loc expr 0) 2 s).

(** LET-PAR with equal colors. *)
Definition let_par_annihilate (fuel : nat) (host term expr : N) (s : State)
    : option State :=
  s ← subst fuel (get_arg term 0 s) (get_arg expr 0 s) s;
  s ← subst fuel (get_arg term 1 s) (get_arg expr 1 s) s;
  let s := link host (get_arg expr (if get_tag term =? DP0 then 0 else 1) s) s in
  let s := free (get_loc term 0) 3 s in
  Some (free (get_loc expr 0) 2 s).

(** LET-PAR with different colors. *)
Definition let_par_commute (fuel : nat) (host term expr : N) (s : State)
    : option State :=
  let '(par0, s) := alloc 2 s in
  let '(par1, s) := alloc 2 s in
  let '(let0, s) := alloc 3 s in
  let '(let1, s) := alloc 3 s in
  let s := link (par0 + 0) (Some (ptr DP0 let0 (get_ex0 term) 0)) s in
  let s := link (par0 + 1) (Some (ptr DP0 let1 (get_ex0 term) 0)) s in
  let s := link (par1 + 0) (Some (ptr DP1 let0 (get_ex0 term) 0)) s in
  let s := link (par1 + 1) (Some (ptr DP1 let1 (get_ex0 term) 0)) s in
  let s := link (let0 + 2) (get_arg expr 0 s) s in
  let s := link (let1 + 2) (get_arg expr 1 s) s in
  s ← subst fuel (get_arg term 0 s) (Some (ptr PAR par0 (get_ex0 expr) 0)) s;
  s ← subst fuel (get_arg term 1 s) (Some (ptr PAR par1 (get_ex0 expr) 0)) s;
  let s := link host (Some (ptr PAR (if get_tag term =? DP0 then par0 else par1)
                                (get_ex0 expr) 0)) s in
  let s := free (get_loc term 0) 3 s in
  Some (free (get_loc expr 0) 2 s).

(** The [for] loop of LET-CTR: one fresh duplicator per field. *)
Fixpoint let_ctr_fields (expr ctr0 ctr1 i : N) (n : nat) (s : State) : State :=
  match n with
  | O => s
  | S n' =>
      let '(leti, s) := alloc 3 s in
      let s := link (ctr0 + i) (Some (ptr DP0 leti 0 0)) s in
      let s := link (ctr1 + i) (Some (ptr DP1 leti 0 0)) s in
      let s := link (leti + 2) (get_arg expr i s) s in
      let_ctr_fields expr ctr0 ctr1 (i + 1) n' s
  end.

(** LET-CTR: [!A<x y> = $V:L{a b c ...}]. *)
Definition let_ctr (fuel : nat) (host term expr : N) (s : State) : option State :=
  let arit := get_ex0 expr in
  let func := get_ex1 expr in
  let '(ctr0, s) := alloc arit s in
  let '(ctr1, s) := alloc arit s in
  let s := let_ctr_fields expr ctr0 ctr1 0 (N.to_nat arit) s in
  s ← subst fuel (get_arg term 0 s) (Some (ptr CTR ctr0 arit func)) s;
  s ← subst fuel (get_arg term 1 s) (Some (ptr CTR ctr1 arit func)) s;
  let s := link host (Some (ptr CTR (if get_tag term =? DP0 then ctr0 else ctr1)
                                arit func)) s in
  let s := free (get_loc term 0) 3 s in
  Some (free (get_loc expr 0) arit s).

(** ** WHNF driver

    One unit of [fuel] is spent per nested call and per turn of the
    [while (true)] loop. *)
Fixpoint reduce (fuel : nat) (host : N) (s : State) : option (Val * State) :=
  match fuel with
  | O => None
  | S f =>
    let term := mem_get host s in
    match term with
    | None => Some (term, s)
    | Some t =>
      if get_tag t =? APP then
        '(func, s1) ← reduce f (get_loc t 0) s;
        match func with
        | None => Some (term, s1)
        | Some fn =>
          if get_tag fn =? LAM then
            if gas_out s1 then Some (term, s1)
            else s2 ← app_lam f host t fn (tick s1); reduce f host s2
          else if get_tag fn =? PAR then
            if gas_out s1 then Some (term, s1)
            else let s2 := app_par host t fn (tick s1) in
                 Some (mem_get host s2, s2)
          else Some (term, s1)
        end
      else if (get_tag t =? DP0) || (get_tag t =? DP1) then
        '(expr, s1) ← reduce f (get_loc t 2) s;
        match expr with
        | None => Some (term, s1)
        | Some ex =>
          if get_tag ex =? LAM then
            if gas_out s1 then Some (term, s1)
            else s2 ← let_lam f host t ex (tick s1); reduce f host s2
          else if get_tag ex =? PAR then
            if gas_out s1 then Some (term, s1)
            else if get_ex0 t =? get_ex0 ex then
              s2 ← let_par_annihilate f host t ex (tick s1); reduce f host s2
            else
              s2 ← let_par_commute f host t ex (tick s1);
              Some (mem_get host s2, s2)
          else if get_tag ex =? CTR then
            if gas_out s1 then Some (term, s1)
            else s2 ← let_ctr f host t ex (tick s1);
                 Some (mem_get host s2, s2)
          else Some (term, s1)
        end
      else Some (term, s)
    end
  end.

(** ** Normalizer *)

(** The key [get_loc(term,0)] of the visited set; [None] is NaN, the key
    an [undefined] term yields. *)
Definition seen_key (term : Val) : option N := (fun t => get_loc t 0) <$> term.

(** The [for] loop of [go] over the fields of a Ctr or Cal node. *)
Fixpoint go_args
    (rec : N -> gset (option N) * State -> option (Val * (gset (option N) * State)))
    (term i : N) (n : nat) (st : gset (option N) * State)
    : option (gset (option N) * State) :=
  match n with
  | O => Some st
  | S n' =>
      '(r, (seen, s)) ← rec (get_loc term i) st;
      go_args rec term (i + 1) n' (seen, link (get_loc term i) r s)
  end.

Fixpoint go (fuel : nat) (host : N) (st : gset (option N) * State)
    : option (Val * (gset (option N) * State)) :=
  match fuel with
  | O => None
  | S f =>
    let '(seen, s) := st in
    let term := mem_get host s in
    if decide (seen_key term ∈ seen) then Some (term, (seen, s))
    else
      '(term, s) ← reduce f host s;
      let seen := {[seen_key term]} ∪ seen in
      match term with
      | None => Some (term, (seen, s))
      | Some t =>
        if get_tag t =? LAM then
          '(r, (seen, s)) ← go f (get_loc t 1) (seen, s);
          Some (term, (seen, link (get_loc t 1) r s))
        else if (get_tag t =? APP) || (get_tag t =? PAR) then
          '(r, (seen, s)) ← go f (get_loc t 0) (seen, s);
          let s := link (get_loc t 0) r s in
          '(r, (seen, s)) ← go f (get_loc t 1) (seen, s);
          Some (term, (seen, link (get_loc t 1) r s))
        else if (get_tag t =? DP0) || (get_tag t =? DP1) then
          '(r, (seen, s)) ← go f (get_loc t 2) (seen, s);
          Some (term, (seen, link (get_loc t 2) r s))
        else if (get_tag t =? CAL) || (get_tag t =? CTR) then
          st ← go_args (go f) t 0 (N.to_nat (get_ex0 t)) (seen, s);
          Some (term, st)
        else Some (term, (seen, s))
      end
  end.

Definition normal (fuel : nat) (host : N) (s : State) : option (Val * State) :=
  '(r, (_, s)) ← go fuel host (∅, s);
  Some (r, s).

(** ** Reader

    A JavaScript string is a sequence of UTF-16 code units.  [js] turns a
    literal of this file (UTF-8 bytes) into the code units of the same
    text, for characters of one to three bytes. *)
Abbreviation jstring := (list N).

Fixpoint js_bytes (l : list N) : jstring :=
  match l with
  | [] => []
  | b :: r =>
      if b <? 192 then b :: js_bytes r
      else if b <? 224 then
        match r with
        | b1 :: r' => ((b - 192) * 64 + (b1 - 128)) :: js_bytes r'
        | [] => [b]
        end
      else
        match r with
        | b1 :: b2 :: r' =>
            ((b - 224) * 4096 + (b1 - 128) * 64 + (b2 - 128)) :: js_bytes r'
        | _ => b :: js_bytes r
        end
  end.

Definition js (s : string) : jstring :=
  js_bytes (map N_of_ascii (list_ascii_of_string s)).

(** What a call of the reader ends in: a value, a thrown message, or the
    end of the recursion budget. *)
Inductive result (A : Type) : Type :=
  | Ret (a : A)
  | Throw (msg : jstring)
  | OutOfFuel.
Arguments Ret {A} a.
Arguments Throw {A} msg.
Arguments OutOfFuel {A}.

(** The variables [read] closes over, and the global state.  The five
    name tables are JavaScript objects used as maps; the finite maps stand
    for them on names that are not properties every object inherits
    (such as [constructor]), which a lookup in the source would find. *)
Record Reader : Type := mkReader {
  code : jstring;
  lams : gmap jstring N;
  let0s : gmap jstring N;
  let1s : gmap jstring N;
  tag0s : gmap jstring N;
  tag1s : gmap jstring N;
  vars : list (jstring * N);
  heap : State
}.

Definition P (A : Type) : Type := Reader -> result (A * Reader).

Definition pret {A : Type} (a : A) : P A := fun r => Ret (a, r).

Definition pbind {A B : Type} (m : P A) (k : A -> P B) : P B :=
  fun r =>
    match m r with
    | Ret (a, r') => k a r'
    | Throw msg => Throw msg
    | OutOfFuel => OutOfFuel
    end.

Notation "x <~ m ;; k" := (pbind m (fun x => k))
  (at level 100, m at next level, right associativity).
Notation "m >>~ k" := (pbind m (fun _ => k))
  (at level 100, right associativity).

Definition get_code : P jstring := fun r => Ret (code r, r).

Definition set_code (c : jstring) : P unit := fun r =>
  Ret (tt, mkReader c (lams r) (let0s r) (let1s r) (tag0s r) (tag1s r) (vars r) (heap r)).

(** Runs a step of the global state inside the reader. *)
Definition on_heap {A : Type} (f : State -> A * State) : P A := fun r =>
  let '(a, h) := f (heap r) in
  Ret (a, mkReader (code r) (lams r) (let0s r) (let1s r) (tag0s r) (tag1s r) (vars r) h).

Definition p_link (pos : N) (term : Val) : P unit :=
  on_heap (fun h => (tt, link pos term h)).

Definition p_alloc (size : N) : P N := on_heap (alloc size).

Definition set_lam (name : jstring) (node : N) : P unit := fun r =>
  Ret (tt, mkReader (code r) (<[name := node]> (lams r)) (let0s r) (let1s r)
                    (tag0s r) (tag1s r) (vars r) (heap r)).

(** [let0s[nam0] = node; tag0s[nam0] = col; let1s[nam1] = node;
    tag1s[nam1] = col] *)
Definition set_lets (nam0 nam1 : jstring) (node col : N) : P unit := fun r =>
  Ret (tt, mkReader (code r) (lams r) (<[nam0 := node]> (let0s r))
                    (<[nam1 := node]> (let1s r)) (<[nam0 := col]> (tag0s r))
                    (<[nam1 := col]> (tag1s r)) (vars r) (heap r)).

(** [vars.push([name, local])] *)
Definition push_var (name : jstring) (local : N) : P unit := fun r =>
  Ret (tt, mkReader (code r) (lams r) (let0s r) (let1s r) (tag0s r) (tag1s r)
                    (vars r ++ [(name, local)]) (heap r)).

(** [while (code[0] === " " || code[0] === "\n") code = code.slice(1)] *)
Fixpoint skip_spaces (c : jstring) : jstring :=
  match c with
  | x :: r => if (x =? 32) || (x =? 10) then skip_spaces r else c
  | [] => []
  end.

Definition skip : P unit := c <~ get_code ;; set_code (skip_spaces c).

Definition is_name_char (x : N) : bool :=
  ((97 <=? x) && (x <=? 122)) || ((65 <=? x) && (x <=? 90))
  || ((48 <=? x) && (x <=? 57)) || (95 =? x) || (46 =? x).

(** The loop of [parse_name]: the name read and the rest of the code. *)
Fixpoint take_name (c : jstring) : jstring * jstring :=
  match c with
  | x :: r =>
      if is_name_char x then let '(n, r') := take_name r in (x :: n, r')
      else ([], c)
  | [] => ([], [])
  end.

Definition parse_name : P jstring :=
  skip >>~
  c <~ get_code ;;
  let '(name, rest) := take_name c in
  set_code rest >>~ pret name.

(** ["Bad parse: "] *)
Definition bad_parse : jstring := js "Bad parse: ".

(** [consume(str)] returns the rest of the code; its callers assign it
    to [code]. *)
Definition consume (str : jstring) : P jstring :=
  skip >>~
  c <~ get_code ;;
  if decide (take (List.length str) c = str)
  then pret (drop (List.length str) c)
  else fun _ => Throw (bad_parse ++ str).

(** [code = consume(str)] *)
Definition eat (str : jstring) : P unit := c <~ consume str ;; set_code c.

Definition is_digit (x : N) : bool := (48 <=? x) && (x <=? 57).

(** The loop of [parse_numb], with [Number(num)] computed on the way;
    [Number] gives this value as long as it is below 2^53. *)
Fixpoint take_numb (acc : N) (c : jstring) : N * jstring :=
  match c with
  | x :: r => if is_digit x then take_numb (acc * 10 + (x - 48)) r else (acc, c)
  | [] => (acc, [])
  end.

Definition parse_numb : P N :=
  c <~ get_code ;;
  let '(n, rest) := take_numb 0 c in
  set_code rest >>~ pret n.

(** [for (i < arit) args.push(parse_term(node + i))] *)
Fixpoint parse_args (rec : N -> P N) (node i : N) (n : nat) : P (list N) :=
  match n with
  | O => pret []
  | S n' =>
      a <~ rec (node + i) ;;
      l <~ parse_args rec node (i + 1) n' ;;
      pret (a :: l)
  end.

(** [for (i < arit) link(node + i, args[i])] *)
Fixpoint link_args (node i : N) (args : list N) : P unit :=
  match args with
  | [] => pret tt
  | a :: l => p_link (node + i) (Some a) >>~ link_args node (i + 1) l
  end.

Fixpoint parse_term (fuel : nat) (local : N) : P N :=
  match fuel with
  | O => fun _ => OutOfFuel
  | S f =>
    skip >>~
    c <~ get_code ;;
    let default :=
      name <~ parse_name ;;
      push_var name local >>~
      pret (ptr NIL 0 0 0) in
    match c with
    | [] => default
    | x :: _ =>
      if x =? 955 then
        eat (js "λ") >>~
        node <~ p_alloc 2 ;;
        name <~ parse_name ;;
        eat (js ":") >>~
        body <~ parse_term f (node + 1) ;;
        p_link (node + 0) (Some (ptr NIL 0 0 0)) >>~
        p_link (node + 1) (Some body) >>~
        set_lam name node >>~
        pret (ptr LAM node 0 0)
      else if x =? 40 then
        eat (js "(") >>~
        node <~ p_alloc 2 ;;
        func <~ parse_term f (node + 0) ;;
        argm <~ parse_term f (node + 1) ;;
        eat (js ")") >>~
        p_link (node + 0) (Some func) >>~
        p_link (node + 1) (Some argm) >>~
        pret (ptr APP node 0 0)
      else if x =? 38 then
        eat (js "&") >>~
        col <~ parse_numb ;;
        eat (js "<") >>~
        eat (js ">") >>~
        node <~ p_alloc 2 ;;
        val0 <~ parse_term f (node + 0) ;;
        val1 <~ parse_term f (node + 1) ;;
        p_link (node + 0) (Some val0) >>~
        p_link (node + 1) (Some val1) >>~
        skip >>~
        pret (ptr PAR node col 0)
      else if x =? 33 then
        eat (js "!") >>~
        col <~ parse_numb ;;
        eat (js "<") >>~
        nam0 <~ parse_name ;;
        nam1 <~ parse_name ;;
        eat (js ">") >>~
        eat (js "=") >>~
        node <~ p_alloc 3 ;;
        expr <~ parse_term f (node + 2) ;;
        eat (js ";") >>~
        body <~ parse_term f local ;;
        p_link (node + 0) (Some (ptr NIL 0 0 0)) >>~
        p_link (node + 1) (Some (ptr NIL 0 0 0)) >>~
        p_link (node + 2) (Some expr) >>~
        set_lets nam0 nam1 node col >>~
        pret body
      else if (x =? 36) || (x =? 64) then
        eat [x] >>~
        func <~ parse_numb ;;
        eat (js ":") >>~
        arit <~ parse_numb ;;
        eat (js "{") >>~
        node <~ p_alloc arit ;;
        args <~ parse_args (parse_term f) node 0 (N.to_nat arit) ;;
        eat (js "}") >>~
        link_args node 0 args >>~
        pret (ptr (if x =? 36 then CTR else CAL) node arit func)
      else default
    end
  end.

(** The names every JavaScript object inherits from [Object.prototype]
    (ECMAScript 20.1.3 and B.2.2): looking one of them up in an object
    used as a map finds the inherited property, where the finite maps of
    [Reader] find nothing. *)
Definition inherited_names : list jstring :=
  map js ["constructor"; "hasOwnProperty"; "isPrototypeOf";
          "propertyIsEnumerable"; "toLocaleString"; "toString"; "valueOf";
          "__proto__"; "__defineGetter__"; "__defineSetter__";
          "__lookupGetter__"; "__lookupSetter__"]%string.

(** One turn of the loop of [build]. *)
Definition build_var (r : Reader) (h : State) (v : jstring * N) : State :=
  let '(var_name, var_pos) := v in
  let h :=
    match lams r !! var_name with
    | Some lam => link var_pos (Some (ptr VAR lam 0 0)) h
    | None => h
    end in
  let h :=
    match let0s r !! var_name with
    | Some let0 =>
        link var_pos (Some (ptr DP0 let0 (default 0 (tag0s r !! var_name)) 0)) h
    | None => h
    end in
  match let1s r !! var_name with
  | Some let1 =>
      link var_pos (Some (ptr DP1 let1 (default 0 (tag1s r !! var_name)) 0)) h
  | None => h
  end.

Definition build (r : Reader) : State := foldl (build_var r) (heap r) (vars r).

(** [MEM = [ptr(NIL,0)]] *)
Definition reset_mem (s : State) : State :=
  mkState (RE0 s) (RE1 s) (RE2 s) (RE3 s) {[0 := ptr NIL 0 0 0]} 1
          (IS_FREED s) (GAS s) (LIM s).

(** [read(code)]: the pointer stored at the root and the state left. *)
Definition read (fuel : nat) (text : jstring) (s : State) : result (Val * State) :=
  let r0 := mkReader text ∅ ∅ ∅ ∅ ∅ [] (reset_mem s) in
  match (t <~ parse_term fuel 0 ;; p_link 0 (Some t)) r0 with
  | Ret (_, r) => let h := build r in Ret (mem_get 0 h, h)
  | Throw msg => Throw msg
  | OutOfFuel => OutOfFuel
  end.

(** ** Debug: the checks of [sanity_check]

    [sanity_check] throws at the first cell that fails; [cell_sane] is the
    test on one cell ([true] when nothing is thrown there).  A cell that
    reads [undefined] has tag 0 and passes; on a Var, Dp0 or Dp1 cell whose
    binder slot reads [undefined] the position compared is NaN and the
    check fails. *)
Definition cell_sane (i : N) (s : State) : bool :=
  match mem_get i s with
  | None => true
  | Some c =>
      if (get_tag c =? VAR) || (get_tag c =? DP0) then
        match mem_get (get_loc c 0) s with
        | Some l => get_loc l 0 =? i
        | None => false
        end
      else if get_tag c =? DP1 then
        match mem_get (get_loc c 1) s with
        | Some l => get_loc l 0 =? i
        | None => false
        end
      else if get_tag c =? LAM then
        negb (bool_decide (mem_get (get_loc c 1) s = Some 0))
      else true
  end.

Definition sanity_check (s : State) : bool :=
  forallb (fun i => cell_sane (N.of_nat i) s) (seq 0 (N.to_nat (MEM_length s))).

(** ** Notions the statements use *)

(** The binder slot a Var, Dp0 or Dp1 pointer names. *)
Definition binder_slot (c : N) : option N :=
  if (get_tag c =? VAR) || (get_tag c =? DP0) then Some (get_loc c 0)
  else if get_tag c =? DP1 then Some (get_loc c 1)
  else None.

(** Back-edge integrity: the binder slot named by every Var, Dp0 or Dp1
    cell holds a Lnk pointer whose position is the index of the cell. *)
Definition back_edge_integrity (s : State) : Prop :=
  forall i c slot,
    mem_get i s = Some c -> binder_slot c = Some slot ->
    exists l, mem_get slot s = Some l /\ get_tag l = LNK /\ get_pos l = i.

(** The same with the very pointer [link] writes, [ptr(LNK, i)]. *)
Definition bonded (s : State) : Prop :=
  forall i c slot,
    mem_get i s = Some c -> binder_slot c = Some slot ->
    mem_get slot s = Some (ptr LNK i 0 0).

(** Every index that holds a number is below [MEM.length]. *)
Definition array_wf (s : State) : Prop :=
  forall k, is_Some (MEM s !! k) -> k < MEM_length s.

(** [spine s host d]: following function slots of Apps and expression
    slots of duplicators from [host] ends within [d] steps. *)
Inductive spine (s : State) : N -> nat -> Prop :=
  | spine_stop host d :
      (forall t, mem_get host s = Some t ->
                 get_tag t <> APP /\ get_tag t <> DP0 /\ get_tag t <> DP1) ->
      spine s host d
  | spine_app host t d :
      mem_get host s = Some t -> get_tag t = APP ->
      spine s (get_loc t 0) d -> spine s host (S d)
  | spine_dup host t d :
      mem_get host s = Some t -> get_tag t = DP0 \/ get_tag t = DP1 ->
      spine s (get_loc t 2) d -> spine s host (S d).

(** A sequence of driver calls, each run on the state the previous one
    left. *)
Inductive call : Type :=
  | Reduce (host : N)
  | Normal (host : N).

Definition call_host (c : call) : N :=
  match c with Reduce h => h | Normal h => h end.

Definition run_call (fuel : nat) (c : call) (s : State) : option (Val * State) :=
  match c with
  | Reduce h => reduce fuel h s
  | Normal h => normal fuel h s
  end.

Fixpoint run_calls (fuel : nat) (cs : list call) (s : State)
    : option (list Val * State) :=
  match cs with
  | [] => Some ([], s)
  | c :: cs' =>
      '(r, s1) ← run_call fuel c s;
      '(rs, s2) ← run_calls fuel cs' s1;
      Some (r :: rs, s2)
  end.

(** A sequence of [alloc] calls: the positions returned, in order. *)
Fixpoint allocs (sizes : list N) (s : State) : list N * State :=
  match sizes with
  | [] => ([], s)
  | n :: ns =>
      let '(p, s1) := alloc n s in
      let '(ps, s2) := allocs ns s1 in
      (p :: ps, s2)
  end.

(** The four reuse stacks. *)
Definition buckets (s : State) : list N * list N * list N * list N :=
  (RE0 s, RE1 s, RE2 s, RE3 s).

(** Everything in the state but the cell array. *)
Definition registers (s : State)
    : list N * list N * list N * list N * gset N * N * option N :=
  (RE0 s, RE1 s, RE2 s, RE3 s, IS_FREED s, GAS s, LIM s).

(** The stack [alloc(n)] pops and [free(p, n)] pushes on; sizes above 3
    have none. *)
Definition bucket (n : N) (s : State) : list N :=
  if n =? 0 then RE0 s
  else if n =? 1 then RE1 s
  else if n =? 2 then RE2 s
  else if n =? 3 then RE3 s
  else [].

(** The rewrite counter and its limit. *)
Definition budget (s : State) : N * option N := (GAS s, LIM s).

(** What a call leaves of the counter: the limit is kept, the counter does
    not go down, and a call that leaves the counter where it was has
    rewritten nothing. *)
Definition quiet_or_counted (s : State) (at_entry r : Val) (s' : State) : Prop :=
  LIM s' = LIM s /\ GAS s <= GAS s' /\ (GAS s' = GAS s -> s' = s /\ r = at_entry).

(** The number of cells of the node a pointer names: the slots [collect],
    [reduce] and [normal] read through it. *)
Definition node_size (c : N) : N :=
  if (get_tag c =? LAM) || (get_tag c =? APP) || (get_tag c =? PAR) then 2
  else if (get_tag c =? DP0) || (get_tag c =? DP1) then 3
  else if (get_tag c =? CTR) || (get_tag c =? CAL) then get_ex0 c
  else 0.

(** Every slot of every node a cell points to lies inside the array. *)
Definition slots_in_range (s : State) : Prop :=
  forall i c k, mem_get i s = Some c -> k < node_size c ->
                get_loc c k < MEM_length s.

(** A heap on which [link] has nothing to repair. *)
Definition well_linked (s : State) : Prop :=
  array_wf s /\ bonded s /\ slots_in_range s.

(** A checker for [well_linked] on a given heap. *)
Definition cell_linked (s : State) (i c : N) : bool :=
  (i <? MEM_length s)
  && match binder_slot c with
     | Some slot => bool_decide (mem_get slot s = Some (ptr LNK i 0 0))
     | None => true
     end
  && ((node_size c =? 0) || (get_loc c (node_size c) <=? MEM_length s)).

Definition check_linked (s : State) : bool :=
  forallb (fun ic => cell_linked s (fst ic) (snd ic)) (map_to_list (MEM s)).

(** A checker for [spine]. *)
Fixpoint spine_ok (d : nat) (host : N) (s : State) : bool :=
  match mem_get host s with
  | None => true
  | Some t =>
      if get_tag t =? APP then
        match d with O => false | S d' => spine_ok d' (get_loc t 0) s end
      else if (get_tag t =? DP0) || (get_tag t =? DP1) then
        match d with O => false | S d' => spine_ok d' (get_loc t 2) s end
      else true
  end.

Definition check_spines (d : nat) (s : State) : bool :=
  forallb (fun ic => spine_ok d (fst ic) s) (map_to_list (MEM s)).

(** The keys the visited set of [normal] can receive on a heap that does
    not change: NaN and the base position of every pointer in a cell. *)
Definition seen_keys (s : State) : gset (option N) :=
  {[None]} ∪ list_to_set (map (fun ic => Some (get_loc (snd ic) 0)) (map_to_list (MEM s))).

(** ** Example heaps *)

(** Scenario S1. *)
Definition S1_text : jstring := js "(λx: x λa: λb: a)".

(** The example of the source's note on scope violations,
    [(t 1 (λt.0 λa.λb.a))], with closed terms for 1 and 0: the variable
    [t] is used outside the lambda that binds it. *)
Definition scope_text : jstring := js "((t λu:u) (λt:λz:z λa:λb:a))".

(** A closed term, every variable used once and inside its binder: a
    lambda shared by a duplicator, each copy applied once, whose body
    applies a variable bound further out. *)
Definition lazy_copy_text : jstring :=
  js "λy: !0<f g> = λx: (y x); &1<> (f λa:a) (g (λz:z λw:w))".

(** A closed term, every variable used at most once and inside its
    binder, in which an erased argument has a variable as its head and a
    constructor of arity 1 is duplicated. *)
Definition overlap_text : jstring :=
  js "λq: !0<p r> = &0<> f (q λm:m); !1<f g> = λx: x; !2<c d> = $7:1{λk:k}; ((p c) g)".

(** A closed term, every variable used at most once and inside its
    binder, in which an erased argument is a constructor of arity 4 whose
    last field is a variable bound further out. *)
Definition erased_ctr_text : jstring :=
  js "λv: (λx: λy: y $7:4{λa:a λb:b λc:c v})".

(** A term that uses its bound variable twice. *)
Definition twice_text : jstring := js "λx: (x x)".

(** An application of a bound variable, under its binder. *)
Definition stuck_text : jstring := js "λf: (f λa:a)".

(** A projection of a duplicated application of bound variables. *)
Definition dup_stuck_text : jstring := js "λf: λg: !0<a b> = (f g); a".

(** The heap [read] builds from a text in a fresh module; the empty heap
    if the text does not parse. *)
Definition heap_of (text : jstring) : State :=
  match read (S (List.length text)) text init with
  | Ret (_, h) => h
  | _ => init
  end.

(** The heap a pass of [normal] from the root leaves of it. *)
Definition normalized (text : jstring) : State :=
  match normal (S (List.length text)) 0 (heap_of text) with
  | Some (_, s) => s
  | None => init
  end.

(** The same state with the limit set to the gas already spent. *)
Definition out_of_gas (s : State) : State := set_LIM (Some (GAS s)) s.

(** A duplicator over a Par of its own color; the reader takes the two
    components of a Par after [&c<>]. *)
Definition annihilate_text : jstring := js "!0<a b> = &0<> λx:x λy:y; (a b)".

(** A duplicator of color 1 over a Par of color 0. *)
Definition commute_text : jstring := js "!1<a b> = &0<> λx:x λy:y; (a b)".

(** ** Stringification *)

(** [str.slice(start)] for an integer [start]: a negative start counts
    from the end of the string, and [-0] is [0]. *)
Definition slice_from (start : Z) (str : jstring) : jstring :=
  if (start <? 0)%Z
  then drop (Z.to_nat (Z.max (Z.of_nat (List.length str) + start) 0)) str
  else drop (Z.to_nat (Z.min start (Z.of_nat (List.length str)))) str.

(** The [while] loop of [pad]: a space in front as long as the string is
    shorter than [len]; [fuel] bounds the number of turns. *)
Fixpoint pad_loop (fuel : nat) (str : jstring) (len : Z) : jstring :=
  match fuel with
  | O => str
  | S f =>
      if (Z.of_nat (List.length str) <? len)%Z then pad_loop f (32 :: str) len
      else str
  end.

(** [pad(str, len)], for an integer [len]; the loop takes at most [len]
    turns. *)
Definition pad (str : jstring) (len : Z) : jstring :=
  slice_from (- len) (pad_loop (Z.to_nat len) str len).

(** The text JavaScript gives a non-negative integer below 10^21 when it
    is concatenated to a string: its decimal digits. *)
Fixpoint decimal_digits (fuel : nat) (n : N) : jstring :=
  match fuel with
  | O => []
  | S f =>
      if n <? 10 then [48 + n]
      else decimal_digits f (n / 10) ++ [48 + n mod 10]
  end.

Definition number_to_string (n : N) : jstring :=
  decimal_digits (S (N.to_nat (N.log2 n))) n.

(** [show_tag]: the [switch] has no default, so a tag above 9 gives
    [undefined]. *)
Definition show_tag (tag : N) : option jstring :=
  if tag =? LAM then Some (js "LAM")
  else if tag =? APP then Some (js "APP")
  else if tag =? PAR then Some (js "PAR")
  else if tag =? DP0 then Some (js "DP0")
  else if tag =? DP1 then Some (js "DP1")
  else if tag =? VAR then Some (js "VAR")
  else if tag =? LNK then Some (js "LNK")
  else if tag =? NIL then Some (js "NIL")
  else if tag =? CTR then Some (js "CTR")
  else if tag =? CAL then Some (js "CAL")
  else None.

(** [show_ptr]; [undefined + ":"] is the text ["undefined:"]. *)
Definition show_ptr (p : N) : jstring :=
  default (js "undefined") (show_tag (get_tag p)) ++ js ":"
  ++ number_to_string (get_pos p)
  ++ (if get_ex0 p =? 0 then [] else js "|" ++ number_to_string (get_ex0 p)).

(** The reuse stacks of [s'] are those of [s] with positions pushed on
    top. *)
Definition stacks_grow (s s' : State) : Prop :=
  RE0 s `suffix_of` RE0 s' /\ RE1 s `suffix_of` RE1 s' /\
  RE2 s `suffix_of` RE2 s' /\ RE3 s `suffix_of` RE3 s'.

(** A step of the reader keeps [Q] when the global state it ends with is
    related by [Q] to the one it started from. *)
Definition keeps (Q : State -> State -> Prop) {A : Type} (m : P A) : Prop :=
  forall r a r', m r = Ret (a, r') -> Q (heap r) (heap r').

(** The characters that open a form of the term syntax; any other first
    character makes [parse_term] read a name. *)
Definition opens_form (x : N) : bool :=
  (x =? 955) || (x =? 40) || (x =? 38) || (x =? 33) || (x =? 36) || (x =? 64).

(** The binder slot named by the pointer a cell holds, if it is a Var, a
    Dp0 or a Dp1. *)
Definition slot_of (v : Val) : option N := v ≫= binder_slot.

(** An application of a Par of color 3. *)
Definition dup_app_text : jstring := js "(&3<> λx:x λy:y λz:z)".

(** A duplicator over a Lam whose variable is used under a second Lam. *)
Definition dup_lam_text : jstring := js "!0<a b> = λx:λy:x; (a b)".

(** A duplicator over a constructor of three fields. *)
Definition dup_ctr_text : jstring := js "!0<a b> = $7:3{λk:k λm:m λq:q}; (a b)".

(** [bonded], but for the cells in [X]. *)
Definition bonded_but (X : N -> Prop) (s : State) : Prop :=
  forall i c slot,
    ~ X i -> mem_get i s = Some c -> binder_slot c = Some slot ->
    mem_get slot s = Some (ptr LNK i 0 0).

(** The heap of LET-CTR after [k] turns of its loop, from the heap [s] of
    length [L] before the rule: the constructor has [n] fields from [E],
    the duplicator sits at [D] and its projections at [o0] and [o1]. *)
Definition fields_split (s : State) (L n D E o0 o1 k : N) (st : State) : Prop :=
  MEM_length st = L + 2 * n + 3 * k /\
  registers st = registers s /\
  array_wf st /\ slots_in_range st /\
  bonded_but (fun i => E <= i < E + k) st /\
  (forall i, i < L -> (forall h, mem_get i s <> Some (ptr LNK h 0 0)) ->
             mem_get i st = mem_get i s) /\
  mem_get D st = Some (ptr LNK o0 0 0) /\
  mem_get (D + 1) st = Some (ptr LNK o1 0 0) /\
  (forall j, j < k ->
     mem_get (L + j) st = Some (ptr DP0 (L + 2 * n + 3 * j) 0 0) /\
     mem_get (L + n + j) st = Some (ptr DP1 (L + 2 * n + 3 * j) 0 0) /\
     mem_get (L + 2 * n + 3 * j) st = Some (ptr LNK (L + j) 0 0) /\
     mem_get (L + 2 * n + 3 * j + 1) st = Some (ptr LNK (L + n + j) 0 0) /\
     mem_get (L + 2 * n + 3 * j + 2) st = mem_get (E + j) s) /\
  (forall j, k <= j < n ->
     mem_get (L + j) st = Some 0 /\ mem_get (L + n + j) st = Some 0).

(** The reader with its code replaced. *)
Definition with_code (c : jstring) (r : Reader) : Reader :=
  mkReader c (lams r) (let0s r) (let1s r) (tag0s r) (tag1s r) (vars r) (heap r).

(** * Properties *)

(** ** Pointer encoding *)

Section Encoding.
Variables tag pos ex0 ex1 : N.
Hypothesis Htag : tag < 16.
Hypothesis Hex0 : ex0 < 256.
Hypothesis Hex1 : ex1 < 256.

Lemma ptr_split :
  ptr tag pos ex0 ex1 = tag + 16 * (ex0 + 256 * (ex1 + 256 * pos)).
Proof. unfold ptr, MUL_A, MUL_B, MUL_C. simpl. lia. Qed.

Lemma get_tag_ptr : get_tag (ptr tag pos ex0 ex1) = tag.
Proof.
  unfold get_tag. rewrite ptr_split.
  change 15 with (N.ones 4). rewrite N.land_ones. change (2 ^ 4) with 16.
  replace (tag + 16 * (ex0 + 256 * (ex1 + 256 * pos)))
    with (tag + (ex0 + 256 * (ex1 + 256 * pos)) * 16) by lia.
  rewrite N.Div0.mod_add. apply N.mod_small; lia.
Qed.

Lemma get_ex0_ptr : get_ex0 (ptr tag pos ex0 ex1) = ex0.
Proof.
  unfold get_ex0, MUL_A. rewrite ptr_split. change (2 ^ 4) with 16.
  replace ((tag + 16 * (ex0 + 256 * (ex1 + 256 * pos))) / 16)
    with (ex0 + 256 * (ex1 + 256 * pos)).
  - change 255 with (N.ones 8). rewrite N.land_ones. change (2 ^ 8) with 256.
    replace (ex0 + 256 * (ex1 + 256 * pos))
      with (ex0 + (ex1 + 256 * pos) * 256) by lia.
    rewrite N.Div0.mod_add. apply N.mod_small; lia.
  - symmetry.
    replace (tag + 16 * (ex0 + 256 * (ex1 + 256 * pos)))
      with ((ex0 + 256 * (ex1 + 256 * pos)) * 16 + tag) by lia.
    rewrite N.div_add_l by lia. rewrite (N.div_small tag); lia.
Qed.

Lemma get_ex1_ptr : get_ex1 (ptr tag pos ex0 ex1) = ex1.
Proof.
  unfold get_ex1, MUL_B. rewrite ptr_split. change (2 ^ 12) with 4096.
  replace ((tag + 16 * (ex0 + 256 * (ex1 + 256 * pos))) / 4096)
    with (ex1 + 256 * pos).
  - change 255 with (N.ones 8). rewrite N.land_ones. change (2 ^ 8) with 256.
    replace (ex1 + 256 * pos) with (ex1 + pos * 256) by lia.
    rewrite N.Div0.mod_add. apply N.mod_small; lia.
  - symmetry.
    replace (tag + 16 * (ex0 + 256 * (ex1 + 256 * pos)))
      with ((ex1 + 256 * pos) * 4096 + (tag + 16 * ex0)) by lia.
    rewrite N.div_add_l by lia. rewrite (N.div_small (tag + 16 * ex0)); lia.
Qed.

Lemma get_pos_ptr : get_pos (ptr tag pos ex0 ex1) = pos.
Proof.
  unfold get_pos, MUL_C. rewrite ptr_split. change (2 ^ 20) with 1048576.
  replace (tag + 16 * (ex0 + 256 * (ex1 + 256 * pos)))
    with (pos * 1048576 + (tag + 16 * ex0 + 4096 * ex1)) by lia.
  rewrite N.div_add_l by lia.
  rewrite (N.div_small (tag + 16 * ex0 + 4096 * ex1)); lia.
Qed.

Lemma get_loc_ptr arg : get_loc (ptr tag pos ex0 ex1) arg = pos + arg.
Proof. unfold get_loc. fold (get_pos (ptr tag pos ex0 ex1)). now rewrite get_pos_ptr. Qed.
End Encoding.

(** ** The cell array *)

Lemma state_eta (s : State) :
  mkState (RE0 s) (RE1 s) (RE2 s) (RE3 s) (MEM s) (MEM_length s)
          (IS_FREED s) (GAS s) (LIM s) = s.
Proof. now destruct s. Qed.

Lemma mem_get_set_eq p v s : mem_get p (mem_set p v s) = v.
Proof.
  unfold mem_get, mem_set; simpl. destruct v.
  - apply lookup_insert_eq.
  - apply lookup_delete_eq.
Qed.

Lemma mem_get_set_ne p q v s : p <> q -> mem_get q (mem_set p v s) = mem_get q s.
Proof.
  intros Hpq. unfold mem_get, mem_set; simpl. destruct v.
  - now apply lookup_insert_ne.
  - now apply lookup_delete_ne.
Qed.

Lemma mem_set_length p v s :
  MEM_length (mem_set p v s) = N.max (MEM_length s) (p + 1).
Proof. reflexivity. Qed.

(** Writing back what a cell below [MEM.length] already holds changes
    nothing. *)
Lemma mem_set_same p s :
  p < MEM_length s -> mem_set p (mem_get p s) s = s.
Proof.
  intros Hp. unfold mem_set, mem_get. destruct s as [r0 r1 r2 r3 m len fr g lim]; simpl in *.
  f_equal; [|lia].
  destruct (m !! p) eqn:E.
  - now apply insert_id.
  - now apply delete_id.
Qed.

(** ** Linker: what it leaves alone *)

Lemma link_registers pos term s : registers (link pos term s) = registers s.
Proof.
  unfold link. destruct term as [t|]; [|reflexivity].
  repeat case_match; reflexivity.
Qed.

(** ** Allocator *)

Lemma push_zeros_spec k s :
  registers (push_zeros k s) = registers s /\
  MEM_length (push_zeros k s) = MEM_length s + N.of_nat k /\
  (forall i, MEM_length s <= i < MEM_length s + N.of_nat k ->
             mem_get i (push_zeros k s) = Some 0) /\
  (forall i, ~ (MEM_length s <= i < MEM_length s + N.of_nat k) ->
             mem_get i (push_zeros k s) = mem_get i s).
Proof.
  revert s. induction k as [|k IH]; intros s; simpl.
  - repeat split; intros; try lia; try reflexivity. 
  - destruct (IH (mem_push0 s)) as (Hr & Hl & Hz & Ho).
    assert (MEM_length (mem_push0 s) = MEM_length s + 1) as Hlen
      by (unfold mem_push0; rewrite mem_set_length; lia).
    rewrite Hlen in *.
    repeat split.
    + now rewrite Hr.
    + lia.
    + intros i Hi. destruct (decide (i = MEM_length s)) as [->|Hne].
      * rewrite Ho by lia. apply mem_get_set_eq.
      * apply Hz. lia.
    + intros i Hi. rewrite Ho by lia. apply mem_get_set_ne. lia.
Qed.

Lemma alloc_fresh n s :
  bucket n s = [] -> 0 < n ->
  alloc n s = (MEM_length s, push_zeros (N.to_nat n) s).
Proof.
  intros Hb Hn. unfold alloc, bucket in *.
  destruct (N.eqb_spec n 0); [lia|].
  assert ((0 <? n) = true) as Hpos by (apply N.ltb_lt; lia).
  destruct (N.eqb_spec n 1); [|destruct (N.eqb_spec n 2); [|destruct (N.eqb_spec n 3)]];
    rewrite ?Hb; simpl; rewrite ?Hpos; simpl; try reflexivity.
  - unfold set_RE1. rewrite <- Hb, state_eta. reflexivity.
  - unfold set_RE2. rewrite <- Hb, state_eta. reflexivity.
  - unfold set_RE3. rewrite <- Hb, state_eta. reflexivity.
Qed.

Lemma alloc_zero_empty s : RE0 s = [] -> alloc 0 s = (0, s).
Proof.
  intros Hb. unfold alloc. simpl. rewrite Hb. simpl.
  unfold set_RE0. now rewrite <- Hb, state_eta.
Qed.

Lemma alloc_reuse n p l s :
  n <= 3 -> bucket n s = p :: l ->
  fst (alloc n s) = p /\ bucket n (snd (alloc n s)) = l /\
  MEM (snd (alloc n s)) = MEM s /\
  MEM_length (snd (alloc n s)) = MEM_length s /\
  GAS (snd (alloc n s)) = GAS s /\ LIM (snd (alloc n s)) = LIM s.
Proof.
  intros Hn Hb. unfold alloc, bucket in *.
  destruct (N.eqb_spec n 0) as [->|]; [simpl in *; rewrite Hb; simpl; auto 10|].
  destruct (N.eqb_spec n 1) as [->|]; [simpl in *; rewrite Hb; simpl; auto 10|].
  destruct (N.eqb_spec n 2) as [->|]; [simpl in *; rewrite Hb; simpl; auto 10|].
  destruct (N.eqb_spec n 3) as [->|]; [simpl in *; rewrite Hb; simpl; auto 10|].
  lia.
Qed.

Lemma zero_cells_spec n k s :
  buckets (zero_cells n k s) = buckets s /\
  GAS (zero_cells n k s) = GAS s /\ LIM (zero_cells n k s) = LIM s /\
  (forall i, k <= i < k + N.of_nat n -> mem_get i (zero_cells n k s) = Some 0) /\
  (forall i, ~ (k <= i < k + N.of_nat n) ->
             mem_get i (zero_cells n k s) = mem_get i s) /\
  MEM_length s <= MEM_length (zero_cells n k s) /\
  (n <> O -> k + N.of_nat n <= MEM_length (zero_cells n k s)).
Proof.
  revert k s. induction n as [|n IH]; intros k s; simpl.
  - repeat split; intros; try lia; try reflexivity.
  - destruct (IH (k + 1) (mem_set k (Some 0) (mark_freed k s)))
      as (Hb & Hg & Hl & Hz & Ho & Hlen & Hend).
    repeat split.
    + now rewrite Hb.
    + now rewrite Hg.
    + now rewrite Hl.
    + intros i Hi. destruct (decide (i = k)) as [->|Hne].
      * rewrite Ho by lia. apply mem_get_set_eq.
      * apply Hz. lia.
    + intros i Hi. rewrite Ho by lia. rewrite mem_get_set_ne by lia. reflexivity.
    + rewrite mem_set_length in Hlen. simpl in Hlen. lia.
    + intros _. rewrite mem_set_length in Hlen. simpl in Hlen.
      destruct n; [simpl in *; lia|]. specialize (Hend ltac:(congruence)). lia.
Qed.

Lemma free_cells p n s :
  (forall i, p <= i < p + n -> mem_get i (free p n s) = Some 0) /\
  (forall i, ~ (p <= i < p + n) -> mem_get i (free p n s) = mem_get i s) /\
  GAS (free p n s) = GAS s /\ LIM (free p n s) = LIM s /\
  MEM_length s <= MEM_length (free p n s) /\
  (0 < n -> p + n <= MEM_length (free p n s)).
Proof.
  destruct (zero_cells_spec (N.to_nat n) p s) as (Hb & Hg & Hl & Hz & Ho & Hlen & Hend).
  rewrite N2Nat.id in *.
  assert (forall s1 : State,
    let s2 := (if n =? 0 then set_RE0 (p :: RE0 s1) s1
               else if n =? 1 then set_RE1 (p :: RE1 s1) s1
               else if n =? 2 then set_RE2 (p :: RE2 s1) s1
               else if n =? 3 then set_RE3 (p :: RE3 s1) s1 else s1) in
    MEM s2 = MEM s1 /\ MEM_length s2 = MEM_length s1 /\
    GAS s2 = GAS s1 /\ LIM s2 = LIM s1) as Hpush
    by (intros s1; simpl; repeat case_match; simpl; auto).
  specialize (Hpush (zero_cells (N.to_nat n) p s)). simpl in Hpush.
  destruct Hpush as (Hm & Hml & Hmg & Hmlim).
  unfold free, mem_get in *. rewrite Hm, Hml, Hmg, Hmlim.
  repeat split; auto. intros Hn. apply Hend. lia.
Qed.

Lemma free_buckets_large p n s : 3 < n -> buckets (free p n s) = buckets s.
Proof.
  intros Hn. unfold free.
  destruct (N.eqb_spec n 0); [lia|]. destruct (N.eqb_spec n 1); [lia|].
  destruct (N.eqb_spec n 2); [lia|]. destruct (N.eqb_spec n 3); [lia|].
  apply zero_cells_spec.
Qed.

Lemma free_bucket_small p n s : n <= 3 -> bucket n (free p n s) = p :: bucket n s.
Proof.
  intros Hn.
  pose proof (zero_cells_spec (N.to_nat n) p s) as (Hb & _).
  unfold buckets in Hb. injection Hb as H0 H1 H2 H3.
  unfold free, bucket.
  destruct (N.eqb_spec n 0); [simpl; congruence|].
  destruct (N.eqb_spec n 1); [simpl; congruence|].
  destruct (N.eqb_spec n 2); [simpl; congruence|].
  destruct (N.eqb_spec n 3); [simpl; congruence|]. lia.
Qed.

(** Where the position [alloc] returns comes from, and what it leaves of
    the stacks. *)
Lemma alloc_position n s :
  (fst (alloc n s) ∈ bucket n s \/ fst (alloc n s) = MEM_length s /\ 0 < n
   \/ fst (alloc n s) = 0 /\ n = 0) /\
  (forall m, bucket m (snd (alloc n s)) ⊆ bucket m s) /\
  MEM_length s <= MEM_length (snd (alloc n s)).
Proof.
  destruct (bucket n s) as [|p l] eqn:Hb.
  - destruct (N.eq_dec n 0) as [->|Hn].
    + rewrite alloc_zero_empty by exact Hb. simpl. split; [auto|]. split; [set_solver|lia].
    + rewrite alloc_fresh by (auto; lia). simpl.
      destruct (push_zeros_spec (N.to_nat n) s) as (Hr & Hl & _).
      split; [right; left; split; [reflexivity|lia]|]. split; [|lia].
      intros m. unfold registers in Hr. injection Hr as H0 H1 H2 H3 _ _ _.
      unfold bucket. rewrite H0, H1, H2, H3. reflexivity.
  - assert (n <= 3) as Hn.
    { unfold bucket in Hb. repeat case_match; try discriminate;
        repeat match goal with H : (_ =? _) = true |- _ => apply N.eqb_eq in H end; lia. }
    destruct (alloc_reuse n p l s Hn Hb) as (Hp & Hl & Hm & Hlen & _).
    split; [left; rewrite Hp; set_solver|]. split; [|lia].
    intros m. destruct (N.eq_dec m n) as [->|Hmn].
    + rewrite Hl, Hb. set_solver.
    + unfold alloc, bucket in *.
      destruct (N.eqb_spec n 0) as [->|]; [rewrite Hb; simpl; repeat case_match; set_solver|].
      destruct (N.eqb_spec n 1) as [->|]; [rewrite Hb; simpl; repeat case_match; set_solver|].
      destruct (N.eqb_spec n 2) as [->|]; [rewrite Hb; simpl; repeat case_match; set_solver|].
      destruct (N.eqb_spec n 3) as [->|]; [rewrite Hb; simpl; repeat case_match; set_solver|].
      lia.
Qed.

Lemma bucket_pooled m q s :
  q ∈ bucket m s -> q ∈ RE0 s ++ RE1 s ++ RE2 s ++ RE3 s.
Proof.
  unfold bucket. repeat case_match; set_solver.
Qed.

Lemma allocs_positions sizes : forall s q,
  q ∈ fst (allocs sizes s) ->
  q ∈ RE0 s ++ RE1 s ++ RE2 s ++ RE3 s \/ MEM_length s <= q \/ q = 0.
Proof.
  induction sizes as [|n ns IH]; intros s q Hq; simpl in Hq.
  - set_solver.
  - destruct (alloc_position n s) as (Hp & Hsub & Hlen).
    destruct (alloc n s) as [p s1] eqn:Ha. simpl in *.
    specialize (IH s1). destruct (allocs ns s1) as [ps s2] eqn:Hb. simpl in *.
    apply elem_of_cons in Hq as [->|Hq].
    + destruct Hp as [Hp|[[-> _]|[-> _]]]; [|right; left; lia|auto].
      left. eapply bucket_pooled; eauto.
    + destruct (IH q Hq) as [Hin|[Hge|H0]]; [|right; left; lia|auto].
      left. 
      assert (forall m, bucket m s1 ⊆ bucket m s) as Hs by exact Hsub.
      pose proof (Hs 0) as S0. pose proof (Hs 1) as S1.
      pose proof (Hs 2) as S2. pose proof (Hs 3) as S3.
      unfold bucket in S0, S1, S2, S3. simpl in *. set_solver.
Qed.



(** C9, as stated, fails on a heap the program reaches.  [erased_ctr_text]
    is closed and uses no variable twice; the heap read passes
    [sanity_check].  APP-LAM at the body of the outer lambda erases the
    argument, a constructor of arity 4 at cells 9 to 12 whose last field is
    the variable [v]: [collect] frees the cell of that field on its own,
    [free(12, 1)], and then the node, [free(9, 4)].  The second call pushes
    nothing, but cell 12 is on the size-1 stack already, and the next
    [alloc(1)] returns it: a position of a block freed with size 4. *)
Lemma freed_field_cell_is_recycled :
  let s := heap_of erased_ctr_text in
  sanity_check s = true /\
  mem_get 2 s = Some (ptr APP 3 0 0) /\
  mem_get 3 s = Some (ptr LAM 5 0 0) /\
  mem_get 5 s = Some (ptr NIL 0 0 0) /\
  mem_get 4 s = Some (ptr CTR 9 4 7) /\
  mem_get 12 s = Some (ptr VAR 1 0 0) /\
  (exists s1,
     collect 6 (Some (ptr CTR 9 4 7)) None (tick s) = Some (free 9 4 s1) /\
     RE1 s1 = [12] /\
     buckets (free 9 4 s1) = buckets s1 /\
     mem_get 12 (free 9 4 s1) = Some 0 /\
     fst (alloc 1 (free 9 4 s1)) = 12) /\
  (exists r s',
     reduce 8 2 s = Some (r, s') /\
     RE1 s' = [12] /\ fst (alloc 1 s') = 12).
Proof.
  intros s.
  split; [vm_compute; reflexivity|]. split; [vm_compute; reflexivity|].
  split; [vm_compute; reflexivity|]. split; [vm_compute; reflexivity|].
  split; [vm_compute; reflexivity|]. split; [vm_compute; reflexivity|].
  split.
  - eassert (collect_args (collect 5) (ptr CTR 9 4 7) 0 4 (tick s) = Some _) as E
      by (vm_compute; reflexivity).
    eexists. split.
    + change (collect 6 (Some (ptr CTR 9 4 7)) None (tick s))
        with (s1 ← collect_args (collect 5) (ptr CTR 9 4 7) 0 4 (tick s);
              Some (free 9 4 s1)).
      rewrite E. reflexivity.
    + split; [vm_compute; reflexivity|]. split; [vm_compute; reflexivity|].
      split; vm_compute; reflexivity.
  - destruct (reduce 8 2 s) as [[r s']|] eqn:E; [|vm_compute in E; discriminate E].
    exists r, s'. split; [reflexivity|].
    vm_compute in E. injection E as _ <-. split; vm_compute; reflexivity.
Qed.

(** C9, amended. For a size above 3, [free(p, n)] zeroes the [n] cells from
    [p] and pushes on no stack: the four stacks are what they were, so a
    position of the block that a run of [alloc] calls returns afterwards
    was on a stack before the call (or is the fixed answer 0 of an empty
    size-0 stack), never put there by this [free]; when no stack held a
    position of the block and the block does not start at 0, no [alloc] of
    such a run returns one.  The last statement of LET-CTR is such a call
    when the arity is above 3.  For a size of 0 to 3, the cells are
    zeroed, [p] is pushed on the stack of that size, and the next [alloc]
    of that size returns [p]. *)
Theorem free_reuse_by_size (p : N) (s : State) :
  (forall n, 3 < n ->
     buckets (free p n s) = buckets s /\
     (forall i, p <= i < p + n -> mem_get i (free p n s) = Some 0) /\
     (forall sizes q,
        q ∈ fst (allocs sizes (free p n s)) -> p <= q < p + n ->
        q ∈ RE0 s ++ RE1 s ++ RE2 s ++ RE3 s \/ q = 0) /\
     (0 < p ->
      (forall x, x ∈ RE0 s ++ RE1 s ++ RE2 s ++ RE3 s -> ~ (p <= x < p + n)) ->
      forall sizes q,
        q ∈ fst (allocs sizes (free p n s)) -> ~ (p <= q < p + n))) /\
  (forall n, n <= 3 ->
     (forall i, p <= i < p + n -> mem_get i (free p n s) = Some 0) /\
     bucket n (free p n s) = p :: bucket n s /\
     fst (alloc n (free p n s)) = p) /\
  (forall fuel host term expr s',
     3 < get_ex0 expr ->
     let_ctr fuel host term expr s = Some s' ->
     exists s1, s' = free (get_loc expr 0) (get_ex0 expr) s1 /\
                buckets s' = buckets s1).
Proof.
  split; [|split].
  - intros n Hn.
    destruct (free_cells p n s) as (Hz & _ & _ & _ & _ & Hend).
    pose proof (free_buckets_large p n s Hn) as Hb.
    assert (forall sizes q,
              q ∈ fst (allocs sizes (free p n s)) -> p <= q < p + n ->
              q ∈ RE0 s ++ RE1 s ++ RE2 s ++ RE3 s \/ q = 0) as Hold.
    { intros sizes q Hq Hrange.
      destruct (allocs_positions sizes _ q Hq) as [Hin|[Hge|H0]]; [|lia|auto].
      left. unfold buckets in Hb. injection Hb as H0 H1 H2 H3.
      rewrite H0, H1, H2, H3 in Hin. exact Hin. }
    split; [exact Hb|]. split; [exact Hz|]. split; [exact Hold|].
    intros Hp Hnone sizes q Hq Hrange.
    destruct (Hold sizes q Hq Hrange) as [Hin|H0]; [|lia].
    exact (Hnone q Hin Hrange).
  - intros n Hn.
    destruct (free_cells p n s) as (Hz & _).
    pose proof (free_bucket_small p n s Hn) as Hb.
    split; [exact Hz|]. split; [exact Hb|].
    now destruct (alloc_reuse n p _ (free p n s) Hn Hb).
  - intros fuel host term expr s' Har Hrun. unfold let_ctr in Hrun.
    repeat match type of Hrun with
      | context [alloc ?n ?st] => destruct (alloc n st) as [? ?]
      end.
    repeat match type of Hrun with
      | (mbind _ ?m) = Some _ =>
          let E := fresh "E" in destruct m eqn:E; simpl in Hrun; [|discriminate]
      end.
    injection Hrun as <-. eexists. split; [reflexivity|].
    now apply free_buckets_large.
Qed.

Lemma free_reuse_by_size_witness :
  buckets (free 1 4 (reset_mem init)) = buckets (reset_mem init) /\
  (forall q, q ∈ fst (allocs [2; 3; 1; 4] (free 1 4 (reset_mem init))) ->
             ~ (1 <= q < 1 + 4)) /\
  fst (alloc 2 (free 1 2 (reset_mem init))) = 1.
Proof.
  destruct (free_reuse_by_size 1 (reset_mem init)) as (Hbig & Hsmall & _).
  split; [|split].
  - apply (Hbig 4). lia.
  - intros q. destruct (Hbig 4) as (_ & _ & _ & Hnever); [lia|].
    apply Hnever; [lia|]. intros x Hx. simpl in Hx. set_solver.
  - apply (Hsmall 2). lia.
Defined.

(** ** The gas counter: who touches it *)

(** The primitives are used through their lemmas from here on. *)
#[local] Arguments link : simpl never.
#[local] Arguments free : simpl never.
#[local] Arguments alloc : simpl never.
#[local] Arguments mem_set : simpl never.
#[local] Arguments mem_get : simpl never.
#[local] Arguments get_arg : simpl never.
#[local] Arguments truthy : simpl never.
#[local] Arguments get_tag : simpl never.
#[local] Arguments get_ex0 : simpl never.
#[local] Arguments get_ex1 : simpl never.
#[local] Arguments get_loc : simpl never.
#[local] Arguments ptr : simpl never.
#[local] Arguments N.eqb : simpl never.
#[local] Arguments N.leb : simpl never.
#[local] Arguments N.add : simpl never.

(** Splits a hypothesis [x ← m; k = Some r] into the two runs. *)
Ltac bind_inv H :=
  match type of H with
  | mbind _ ?m = Some _ =>
      let E := fresh "E" in
      destruct m as [?|] eqn:E; simpl in H; [|discriminate H]
  end.

Lemma link_budget pos term s : budget (link pos term s) = budget s.
Proof.
  pose proof (link_registers pos term s) as H. unfold registers in H.
  unfold budget. congruence.
Qed.

Lemma free_budget p n s : budget (free p n s) = budget s.
Proof.
  destruct (free_cells p n s) as (_ & _ & Hg & Hl & _). unfold budget. congruence.
Qed.

Lemma alloc_budget n s : budget (snd (alloc n s)) = budget s.
Proof.
  destruct (bucket n s) as [|p l] eqn:Hb.
  - destruct (N.eq_dec n 0) as [->|Hn].
    + now rewrite alloc_zero_empty.
    + rewrite alloc_fresh by (auto; lia). simpl.
      destruct (push_zeros_spec (N.to_nat n) s) as (Hr & _).
      unfold registers in Hr. unfold budget. congruence.
  - assert (n <= 3) as Hn.
    { unfold bucket in Hb. repeat case_match; try discriminate;
        repeat match goal with H : (_ =? _) = true |- _ => apply N.eqb_eq in H end; lia. }
    destruct (alloc_reuse n p l s Hn Hb) as (_ & _ & _ & _ & Hg & Hl).
    unfold budget. congruence.
Qed.

Lemma collect_args_budget (rec : Val -> option N -> State -> option State) :
  (forall v h s s', rec v h s = Some s' -> budget s' = budget s) ->
  forall n term i s s',
    collect_args rec term i n s = Some s' -> budget s' = budget s.
Proof.
  intros Hrec. induction n as [|n IH]; intros term i s s' H; simpl in H.
  - now injection H as <-.
  - bind_inv H. apply IH in H. apply Hrec in E. congruence.
Qed.

Lemma collect_budget fuel : forall term host s s',
  collect fuel term host s = Some s' -> budget s' = budget s.
Proof.
  induction fuel as [|f IH]; intros term host s s' H; simpl in H; [discriminate|].
  destruct term as [t|]; [|now injection H as <-].
  assert (forall h st, budget (match h with
            | Some h0 => if truthy h then free h0 1 st else st
            | None => st end) = budget st) as Hfree.
  { intros [h0|] st; [|reflexivity].
    destruct (truthy (Some h0)); [apply free_budget|reflexivity]. }
  destruct (get_tag t =? LAM).
  { bind_inv H. injection H as <-. rewrite free_budget. apply IH in E. rewrite E.
    destruct (get_arg t 0 s) as [l|]; [|reflexivity].
    destruct (get_tag l =? NIL); [reflexivity|apply link_budget]. }
  destruct (get_tag t =? APP).
  { bind_inv H. bind_inv H. injection H as <-. rewrite free_budget.
    apply IH in E, E0. congruence. }
  destruct (get_tag t =? PAR).
  { bind_inv H. bind_inv H. injection H as <-. apply IH in E, E0.
    transitivity (budget (free (get_loc t 0) 2 s1)).
    - destruct host as [h0|]; [|reflexivity].
      destruct (truthy (Some h0)); [apply link_budget|reflexivity].
    - rewrite free_budget. congruence. }
  destruct (get_tag t =? DP0).
  { injection H as <-. rewrite Hfree. apply link_budget. }
  destruct (get_tag t =? DP1).
  { injection H as <-. rewrite Hfree. apply link_budget. }
  destruct ((get_tag t =? CTR) || (get_tag t =? CAL)).
  { bind_inv H. injection H as <-. rewrite free_budget.
    eapply collect_args_budget; [|exact E]. exact IH. }
  destruct (get_tag t =? VAR).
  { injection H as <-. rewrite Hfree. apply link_budget. }
  now injection H as <-.
Qed.

Lemma subst_budget fuel lnk val s s' :
  subst fuel lnk val s = Some s' -> budget s' = budget s.
Proof.
  unfold subst. destruct (tag_of lnk =? NIL).
  - apply collect_budget.
  - destruct lnk; intros H; injection H as <-; [apply link_budget|reflexivity].
Qed.

(** Rewrites the budget of a state built from the primitives back to the
    budget of the state it was built from. *)
Ltac budget_step :=
  repeat first
    [ rewrite free_budget
    | rewrite link_budget
    | match goal with
      | H : alloc ?n ?s = (_, ?s1) |- context [budget ?s1] =>
          replace (budget s1) with (budget s)
            by (rewrite <- (alloc_budget n s), H; reflexivity); clear H
      | H : subst _ _ _ ?s = Some ?s1 |- context [budget ?s1] =>
          rewrite (subst_budget _ _ _ _ _ H); clear H
      end ].

Lemma app_lam_budget fuel host term func s s' :
  app_lam fuel host term func s = Some s' -> budget s' = budget s.
Proof.
  unfold app_lam. intros H. bind_inv H. injection H as <-. now budget_step.
Qed.

Lemma app_par_budget host term func s :
  budget (app_par host term func s) = budget s.
Proof.
  unfold app_par.
  destruct (alloc 3 s) as [let0 s1] eqn:A1. destruct (alloc 2 s1) as [app0 s2] eqn:A2.
  destruct (alloc 2 s2) as [app1 s3] eqn:A3. destruct (alloc 2 s3) as [par0 s4] eqn:A4.
  now budget_step.
Qed.

Lemma let_lam_budget fuel host term expr s s' :
  let_lam fuel host term expr s = Some s' -> budget s' = budget s.
Proof.
  unfold let_lam. intros H.
  destruct (alloc 2 s) as [lam0 s1] eqn:A1. destruct (alloc 2 s1) as [lam1 s2] eqn:A2.
  destruct (alloc 2 s2) as [par0 s3] eqn:A3. destruct (alloc 3 s3) as [let0 s4] eqn:A4.
  bind_inv H. bind_inv H. bind_inv H. injection H as <-. now budget_step.
Qed.

Lemma let_par_annihilate_budget fuel host term expr s s' :
  let_par_annihilate fuel host term expr s = Some s' -> budget s' = budget s.
Proof.
  unfold let_par_annihilate. intros H.
  bind_inv H. bind_inv H. injection H as <-. now budget_step.
Qed.

Lemma let_par_commute_budget fuel host term expr s s' :
  let_par_commute fuel host term expr s = Some s' -> budget s' = budget s.
Proof.
  unfold let_par_commute. intros H.
  destruct (alloc 2 s) as [par0 s1] eqn:A1. destruct (alloc 2 s1) as [par1 s2] eqn:A2.
  destruct (alloc 3 s2) as [let0 s3] eqn:A3. destruct (alloc 3 s3) as [let1 s4] eqn:A4.
  bind_inv H. bind_inv H. injection H as <-. now budget_step.
Qed.

Lemma let_ctr_fields_budget expr ctr0 ctr1 n : forall i s,
  budget (let_ctr_fields expr ctr0 ctr1 i n s) = budget s.
Proof.
  induction n as [|n IH]; intros i s; simpl; [reflexivity|].
  destruct (alloc 3 s) as [leti s1] eqn:A1. rewrite IH. now budget_step.
Qed.

Lemma let_ctr_budget fuel host term expr s s' :
  let_ctr fuel host term expr s = Some s' -> budget s' = budget s.
Proof.
  unfold let_ctr. intros H.
  destruct (alloc (get_ex0 expr) s) as [ctr0 s1] eqn:A1.
  destruct (alloc (get_ex0 expr) s1) as [ctr1 s2] eqn:A2.
  bind_inv H. bind_inv H. injection H as <-. budget_step.
  rewrite let_ctr_fields_budget. now budget_step.
Qed.

Lemma tick_budget s : budget (tick s) = (GAS s + 1, LIM s).
Proof. reflexivity. Qed.

Lemma counted_after_rule s s1 s2 s' at_entry r :
  quiet_or_counted s at_entry at_entry s1 \/ quiet_or_counted s at_entry r s1 ->
  budget s2 = budget (tick s1) ->
  LIM s' = LIM s2 -> GAS s2 <= GAS s' ->
  quiet_or_counted s at_entry r s'.
Proof.
  intros Hq Hb HL HG. rewrite tick_budget in Hb. unfold budget in Hb.
  injection Hb as Hg Hl.
  assert (LIM s1 = LIM s /\ GAS s <= GAS s1) as [H1 H2]
    by (destruct Hq as [(?&?&?)|(?&?&?)]; auto).
  unfold quiet_or_counted. repeat split; try congruence; try lia.
Qed.

Lemma quiet_refl s v : quiet_or_counted s v v s.
Proof. unfold quiet_or_counted. repeat split; auto; lia. Qed.

Lemma reduce_counted fuel : forall host s r s',
  reduce fuel host s = Some (r, s') ->
  quiet_or_counted s (mem_get host s) r s'.
Proof.
  induction fuel as [|f IH]; intros host s r s' H; [discriminate|].
  simpl in H.
  destruct (mem_get host s) as [t|] eqn:Et;
    [|injection H as <- <-; apply quiet_refl].
  destruct (get_tag t =? APP).
  { destruct (reduce f (get_loc t 0) s) as [[func s1]|] eqn:E1; simpl in H; [|discriminate].
    apply IH in E1.
    assert (quiet_or_counted s (Some t) (Some t) s1) as Hq.
    { destruct E1 as (HL & HG & HE). repeat split; auto. now apply HE. }
    destruct func as [fn|]; [|now injection H as <- <-].
    destruct (get_tag fn =? LAM).
    { destruct (gas_out s1); [now injection H as <- <-|].
      bind_inv H. apply app_lam_budget in E. apply IH in H as (HL & HG & _).
      eapply counted_after_rule; eauto. }
    destruct (get_tag fn =? PAR).
    { destruct (gas_out s1); [now injection H as <- <-|].
      injection H as <- <-.
      eapply counted_after_rule; [left; exact Hq|apply app_par_budget|reflexivity|lia]. }
    now injection H as <- <-. }
  destruct ((get_tag t =? DP0) || (get_tag t =? DP1)).
  { destruct (reduce f (get_loc t 2) s) as [[expr s1]|] eqn:E1; simpl in H; [|discriminate].
    apply IH in E1.
    assert (quiet_or_counted s (Some t) (Some t) s1) as Hq.
    { destruct E1 as (HL & HG & HE). repeat split; auto. now apply HE. }
    destruct expr as [ex|]; [|now injection H as <- <-].
    destruct (get_tag ex =? LAM).
    { destruct (gas_out s1); [now injection H as <- <-|].
      bind_inv H. apply let_lam_budget in E. apply IH in H as (HL & HG & _).
      eapply counted_after_rule; eauto. }
    destruct (get_tag ex =? PAR).
    { destruct (gas_out s1); [now injection H as <- <-|].
      destruct (get_ex0 t =? get_ex0 ex).
      - bind_inv H. apply let_par_annihilate_budget in E.
        apply IH in H as (HL & HG & _). eapply counted_after_rule; eauto.
      - bind_inv H. apply let_par_commute_budget in E. injection H as <- <-.
        eapply counted_after_rule; [left; exact Hq|exact E|reflexivity|lia]. }
    destruct (get_tag ex =? CTR).
    { destruct (gas_out s1); [now injection H as <- <-|].
      bind_inv H. apply let_ctr_budget in E. injection H as <- <-.
      eapply counted_after_rule; [left; exact Hq|exact E|reflexivity|lia]. }
    now injection H as <- <-. }
  injection H as <- <-. apply quiet_refl.
Qed.

(** ** Linking a cell to what it already holds *)

Lemma link_same pos s :
  well_linked s -> pos < MEM_length s -> link pos (mem_get pos s) s = s.
Proof.
  intros (Hwf & Hb & _) Hpos. unfold link. rewrite (mem_set_same pos s Hpos).
  destruct (mem_get pos s) as [t|] eqn:Et; [|reflexivity].
  assert (forall slot, binder_slot t = Some slot ->
            mem_set slot (Some (ptr LNK pos 0 0)) s = s) as Hslot.
  { intros slot Hs. pose proof (Hb pos t slot Et Hs) as Hl.
    rewrite <- Hl. apply mem_set_same. apply Hwf. unfold mem_get in Hl. eauto. }
  unfold binder_slot in Hslot.
  destruct (get_tag t =? VAR); [now apply Hslot|].
  destruct (get_tag t =? DP0); [now apply Hslot|].
  destruct (get_tag t =? DP1); [now apply Hslot|].
  reflexivity.
Qed.

(** ** The normalizer and the counter *)

Lemma go_args_mono
    (rec : N -> gset (option N) * State -> option (Val * (gset (option N) * State))) :
  (forall host seen s r seen' s',
     rec host (seen, s) = Some (r, (seen', s')) -> LIM s' = LIM s /\ GAS s <= GAS s') ->
  forall n term i seen s seen' s',
    go_args rec term i n (seen, s) = Some (seen', s') ->
    LIM s' = LIM s /\ GAS s <= GAS s'.
Proof.
  intros Hrec. induction n as [|n IH]; intros term i seen s seen' s' H; simpl in H.
  - injection H as <- <-. split; [reflexivity|lia].
  - destruct (rec (get_loc term i) (seen, s)) as [[r [seen1 s1]]|] eqn:E;
      simpl in H; [|discriminate].
    apply Hrec in E as (HL1 & HG1). apply IH in H as (HL2 & HG2).
    pose proof (link_budget (get_loc term i) r s1) as Hlb. unfold budget in Hlb.
    injection Hlb as HgL HlL. split; [congruence|lia].
Qed.

Lemma go_mono fuel : forall host seen s r seen' s',
  go fuel host (seen, s) = Some (r, (seen', s')) ->
  LIM s' = LIM s /\ GAS s <= GAS s'.
Proof.
  induction fuel as [|f IH]; intros host seen s r seen' s' H; [discriminate|].
  simpl in H.
  destruct (decide (seen_key (mem_get host s) ∈ seen));
    [injection H as <- <- <-; split; [reflexivity|lia]|].
  destruct (reduce f host s) as [[term s1]|] eqn:ER; simpl in H; [|discriminate].
  apply reduce_counted in ER as (HL0 & HG0 & _).
  assert (forall p v st, LIM (link p v st) = LIM st /\ GAS (link p v st) = GAS st) as Hlk.
  { intros p v st. pose proof (link_budget p v st) as Hb. unfold budget in Hb.
    injection Hb as ? ?. auto. }
  destruct term as [t|]; [|injection H as <- <- <-; split; [congruence|lia]].
  destruct (get_tag t =? LAM).
  { destruct (go f (get_loc t 1) _) as [[r1 [seen1 s2]]|] eqn:E1; simpl in H; [|discriminate].
    injection H as <- <- <-. apply IH in E1 as (HL1 & HG1).
    destruct (Hlk (get_loc t 1) r1 s2). split; [congruence|lia]. }
  destruct ((get_tag t =? APP) || (get_tag t =? PAR)).
  { destruct (go f (get_loc t 0) _) as [[r1 [seen1 s2]]|] eqn:E1; simpl in H; [|discriminate].
    destruct (go f (get_loc t 1) _) as [[r2 [seen2 s3]]|] eqn:E2; simpl in H; [|discriminate].
    injection H as <- <- <-. apply IH in E1 as (HL1 & HG1). apply IH in E2 as (HL2 & HG2).
    destruct (Hlk (get_loc t 0) r1 s2). destruct (Hlk (get_loc t 1) r2 s3).
    split; [congruence|lia]. }
  destruct ((get_tag t =? DP0) || (get_tag t =? DP1)).
  { destruct (go f (get_loc t 2) _) as [[r1 [seen1 s2]]|] eqn:E1; simpl in H; [|discriminate].
    injection H as <- <- <-. apply IH in E1 as (HL1 & HG1).
    destruct (Hlk (get_loc t 2) r1 s2). split; [congruence|lia]. }
  destruct ((get_tag t =? CAL) || (get_tag t =? CTR)).
  { destruct (go_args _ _ _ _ _) as [[seen1 s2]|] eqn:E1; simpl in H; [|discriminate].
    injection H as <- <- <-. apply (go_args_mono _ IH) in E1 as (HL1 & HG1).
    split; [congruence|lia]. }
  injection H as <- <- <-. split; [congruence|lia].
Qed.

Lemma go_args_quiet
    (rec : N -> gset (option N) * State -> option (Val * (gset (option N) * State))) :
  (forall host seen s r seen' s',
     rec host (seen, s) = Some (r, (seen', s')) -> LIM s' = LIM s /\ GAS s <= GAS s') ->
  (forall host seen s r seen' s',
     well_linked s -> rec host (seen, s) = Some (r, (seen', s')) ->
     GAS s' = GAS s -> s' = s /\ r = mem_get host s) ->
  forall n term i seen s seen' s',
    well_linked s ->
    (forall k, i <= k < i + N.of_nat n -> get_loc term k < MEM_length s) ->
    go_args rec term i n (seen, s) = Some (seen', s') ->
    GAS s' = GAS s -> s' = s.
Proof.
  intros Hmono Hquiet.
  induction n as [|n IH]; intros term i seen s seen' s' Hw Hrange H Hg; simpl in H.
  - now injection H as <- <-.
  - destruct (rec (get_loc term i) (seen, s)) as [[r [seen1 s1]]|] eqn:E;
      simpl in H; [|discriminate].
    pose proof (Hmono _ _ _ _ _ _ E) as (_ & HG1).
    pose proof (go_args_mono rec Hmono _ _ _ _ _ _ _ H) as (_ & HG2).
    pose proof (link_budget (get_loc term i) r s1) as Hlb. unfold budget in Hlb.
    injection Hlb as HgL _.
    destruct (Hquiet _ _ _ _ _ _ Hw E ltac:(lia)) as [-> ->].
    rewrite link_same in H by (auto; apply Hrange; lia).
    eapply IH; eauto. intros k Hk. apply Hrange. lia.
Qed.

Lemma go_quiet fuel : forall host seen s r seen' s',
  well_linked s ->
  go fuel host (seen, s) = Some (r, (seen', s')) ->
  GAS s' = GAS s -> s' = s /\ r = mem_get host s.
Proof.
  induction fuel as [|f IH]; intros host seen s r seen' s' Hw H Hg; [discriminate|].
  simpl in H.
  destruct (decide (seen_key (mem_get host s) ∈ seen));
    [now injection H as <- <- <-|].
  destruct (reduce f host s) as [[term s1]|] eqn:ER; simpl in H; [|discriminate].
  apply reduce_counted in ER as (HL0 & HG0 & HQ0).
  assert (forall p v st, GAS (link p v st) = GAS st) as Hlk.
  { intros p v st. pose proof (link_budget p v st) as Hb. unfold budget in Hb.
    now injection Hb as ? ?. }
  pose proof Hw as (_ & _ & Hrange).
  destruct term as [t|];
    [|injection H as <- <- <-; destruct (HQ0 Hg) as [-> ->]; auto].
  assert (forall k, GAS s1 = GAS s -> k < node_size t -> get_loc t k < MEM_length s)
    as Hslot.
  { intros k Hg1 Hk. destruct (HQ0 Hg1) as [_ Ht]. symmetry in Ht. eapply Hrange; eauto. }
  destruct (get_tag t =? LAM) eqn:TL.
  { assert (node_size t = 2) as Hns by (unfold node_size; now rewrite TL).
    rewrite Hns in Hslot. destruct (go f (get_loc t 1) _) as [[r1 [seen1 s2]]|] eqn:E1; simpl in H; [|discriminate].
    injection H as <- <- <-. rewrite Hlk in Hg.
    pose proof (go_mono _ _ _ _ _ _ _ E1) as (_ & HG1).
    destruct (HQ0 ltac:(lia)) as [-> ->].
    destruct (IH _ _ _ _ _ _ Hw E1 Hg) as [-> ->].
    rewrite link_same; auto. apply Hslot; lia. }
  destruct ((get_tag t =? APP) || (get_tag t =? PAR)) eqn:TA.
  { assert (node_size t = 2) as Hns
      by (unfold node_size; rewrite TL; simpl; now rewrite TA).
    rewrite Hns in Hslot. destruct (go f (get_loc t 0) _) as [[r1 [seen1 s2]]|] eqn:E1; simpl in H; [|discriminate].
    destruct (go f (get_loc t 1) _) as [[r2 [seen2 s3]]|] eqn:E2; simpl in H; [|discriminate].
    injection H as <- <- <-. rewrite Hlk in Hg.
    pose proof (go_mono _ _ _ _ _ _ _ E1) as (_ & HG1).
    pose proof (go_mono _ _ _ _ _ _ _ E2) as (_ & HG2). rewrite Hlk in HG2.
    destruct (HQ0 ltac:(lia)) as [-> ->].
    destruct (IH _ _ _ _ _ _ Hw E1 ltac:(lia)) as [-> ->].
    assert (forall k, k < 2 -> get_loc t k < MEM_length s) as Hk
      by (intros k Hk; now apply Hslot).
    rewrite link_same in E2 by (auto; apply Hk; lia).
    destruct (IH _ _ _ _ _ _ Hw E2 Hg) as [-> ->].
    rewrite link_same; auto. apply Hk; lia. }
  destruct ((get_tag t =? DP0) || (get_tag t =? DP1)) eqn:TD.
  { assert (node_size t = 3) as Hns
      by (unfold node_size; rewrite TL; simpl; now rewrite TA, TD).
    rewrite Hns in Hslot. destruct (go f (get_loc t 2) _) as [[r1 [seen1 s2]]|] eqn:E1; simpl in H; [|discriminate].
    injection H as <- <- <-. rewrite Hlk in Hg.
    pose proof (go_mono _ _ _ _ _ _ _ E1) as (_ & HG1).
    destruct (HQ0 ltac:(lia)) as [-> ->].
    destruct (IH _ _ _ _ _ _ Hw E1 Hg) as [-> ->].
    rewrite link_same; auto. apply Hslot; [reflexivity|lia]. }
  destruct ((get_tag t =? CAL) || (get_tag t =? CTR)) eqn:TC.
  { assert (node_size t = get_ex0 t) as Hns
      by (unfold node_size; rewrite TL; simpl; rewrite TA, TD;
          rewrite orb_comm in TC; now rewrite TC).
    rewrite Hns in Hslot. destruct (go_args _ _ _ _ _) as [[seen1 s2]|] eqn:E1; simpl in H; [|discriminate].
    injection H as <- <- <-.
    pose proof (go_args_mono _ (go_mono f) _ _ _ _ _ _ _ E1) as (_ & HG1).
    destruct (HQ0 ltac:(lia)) as [-> ->]. split; [|reflexivity].
    eapply (go_args_quiet _ (go_mono f) IH); eauto.
    intros k Hk. apply Hslot; [reflexivity|]. lia. }
  injection H as <- <- <-. destruct (HQ0 Hg) as [-> ->]. auto.
Qed.

(** ** Checking a given heap *)

Lemma check_linked_sound s : check_linked s = true -> well_linked s.
Proof.
  unfold check_linked. rewrite forallb_forall. intros Hall.
  assert (forall i c, mem_get i s = Some c -> cell_linked s i c = true) as Hcell.
  { intros i c Hic. apply (Hall (i, c)). apply list_elem_of_In.
    now apply elem_of_map_to_list. }
  unfold cell_linked in Hcell.
  split; [|split].
  - intros k [c Hc]. specialize (Hcell k c Hc).
    apply andb_prop in Hcell as [Hcell _]. apply andb_prop in Hcell as [Hlt _].
    now apply N.ltb_lt.
  - intros i c slot Hic Hslot. specialize (Hcell i c Hic).
    apply andb_prop in Hcell as [Hcell _]. apply andb_prop in Hcell as [_ Hb].
    rewrite Hslot in Hb. now apply bool_decide_eq_true in Hb.
  - intros i c k Hic Hk. specialize (Hcell i c Hic).
    apply andb_prop in Hcell as [_ Hr]. apply orb_prop in Hr as [Hz|Hle].
    + apply N.eqb_eq in Hz. lia.
    + apply N.leb_le in Hle. unfold get_loc in *. lia.
Qed.

Lemma spine_ok_sound s : forall d host, spine_ok d host s = true -> spine s host d.
Proof.
  induction d as [|d IH]; intros host H; simpl in H.
  - destruct (mem_get host s) as [t|] eqn:Et; [|apply spine_stop; congruence].
    destruct (get_tag t =? APP) eqn:TA; [discriminate|].
    destruct (get_tag t =? DP0) eqn:T0; [discriminate|].
    destruct (get_tag t =? DP1) eqn:T1; [discriminate|].
    apply spine_stop. intros t' Ht'. rewrite Et in Ht'. injection Ht' as <-.
    apply N.eqb_neq in TA, T0, T1. auto.
  - destruct (mem_get host s) as [t|] eqn:Et; [|apply spine_stop; congruence].
    destruct (get_tag t =? APP) eqn:TA.
    { apply N.eqb_eq in TA. eapply spine_app; eauto. }
    destruct (get_tag t =? DP0) eqn:T0.
    { apply N.eqb_eq in T0. eapply spine_dup; eauto. }
    destruct (get_tag t =? DP1) eqn:T1.
    { apply N.eqb_eq in T1. eapply spine_dup; eauto. }
    apply spine_stop. intros t' Ht'. rewrite Et in Ht'. injection Ht' as <-.
    apply N.eqb_neq in TA, T0, T1. auto.
Qed.

Lemma check_spines_sound d s : check_spines d s = true -> forall host, spine s host d.
Proof.
  unfold check_spines. rewrite forallb_forall. intros Hall host.
  destruct (mem_get host s) as [t|] eqn:Et.
  - apply spine_ok_sound. apply (Hall (host, t)). apply list_elem_of_In.
    now apply elem_of_map_to_list.
  - apply spine_stop. congruence.
Qed.

Lemma normal_inv fuel host s r s' :
  normal fuel host s = Some (r, s') ->
  exists seen', go fuel host (∅, s) = Some (r, (seen', s')).
Proof.
  unfold normal. intros H.
  destruct (go fuel host (∅, s)) as [[r0 [seen0 s0]]|]; simpl in H; [|discriminate].
  injection H as <- <-. eauto.
Qed.

Lemma normal_of_go fuel host s r seen' s' :
  go fuel host (∅, s) = Some (r, (seen', s')) -> normal fuel host s = Some (r, s').
Proof. unfold normal. now intros ->. Qed.

Lemma budget_tick_gas s s' : budget s' = budget (tick s) -> GAS s' = GAS s + 1.
Proof. rewrite tick_budget. unfold budget. congruence. Qed.

(** C5. The gas counter never decreases across a call of [reduce] or of
    [normal], and a call of [reduce] that leaves it where it was has
    rewritten nothing.  Each of the six rewrite rules (APP-LAM, APP-PAR,
    LET-LAM, annihilating LET-PAR, commuting LET-PAR, LET-CTR) adds
    exactly one each time [reduce] applies it, that is when the host
    holds an App or a projection, its slot has reduced to the node the
    rule wants, leaving the state [s1], and the counter is below the
    limit.  After APP-PAR, commuting LET-PAR and LET-CTR the state
    [reduce] returns has the counter exactly one above [s1].  After
    APP-LAM, LET-LAM and annihilating LET-PAR the state the rule leaves
    has the counter exactly one above [s1], [reduce] goes on from that
    state at the host, and what it returns is at least one above. *)
Theorem gas_monotone_and_counted :
  (forall fuel host s r s',
     reduce fuel host s = Some (r, s') ->
     GAS s <= GAS s' /\ (GAS s' = GAS s -> s' = s /\ r = mem_get host s)) /\
  (forall fuel host s r s',
     normal fuel host s = Some (r, s') -> GAS s <= GAS s') /\
  (forall fuel host t fn s s1,
     mem_get host s = Some t -> get_tag t = APP ->
     reduce fuel (get_loc t 0) s = Some (Some fn, s1) ->
     gas_out s1 = false ->
     (get_tag fn = LAM ->
      (forall s2, app_lam fuel host t fn (tick s1) = Some s2 ->
         GAS s2 = GAS s1 + 1 /\ reduce (S fuel) host s = reduce fuel host s2) /\
      (forall r s', reduce (S fuel) host s = Some (r, s') -> GAS s1 + 1 <= GAS s')) /\
     (get_tag fn = PAR ->
      exists s', reduce (S fuel) host s = Some (mem_get host s', s') /\
                 GAS s' = GAS s1 + 1)) /\
  (forall fuel host t ex s s1,
     mem_get host s = Some t -> get_tag t = DP0 \/ get_tag t = DP1 ->
     reduce fuel (get_loc t 2) s = Some (Some ex, s1) ->
     gas_out s1 = false ->
     (get_tag ex = LAM ->
      (forall s2, let_lam fuel host t ex (tick s1) = Some s2 ->
         GAS s2 = GAS s1 + 1 /\ reduce (S fuel) host s = reduce fuel host s2) /\
      (forall r s', reduce (S fuel) host s = Some (r, s') -> GAS s1 + 1 <= GAS s')) /\
     (get_tag ex = PAR -> get_ex0 t = get_ex0 ex ->
      (forall s2, let_par_annihilate fuel host t ex (tick s1) = Some s2 ->
         GAS s2 = GAS s1 + 1 /\ reduce (S fuel) host s = reduce fuel host s2) /\
      (forall r s', reduce (S fuel) host s = Some (r, s') -> GAS s1 + 1 <= GAS s')) /\
     (get_tag ex = PAR -> get_ex0 t <> get_ex0 ex ->
      (forall s2, let_par_commute fuel host t ex (tick s1) = Some s2 ->
         reduce (S fuel) host s = Some (mem_get host s2, s2)) /\
      (forall r s', reduce (S fuel) host s = Some (r, s') ->
         GAS s' = GAS s1 + 1 /\ r = mem_get host s')) /\
     (get_tag ex = CTR ->
      (forall s2, let_ctr fuel host t ex (tick s1) = Some s2 ->
         reduce (S fuel) host s = Some (mem_get host s2, s2)) /\
      (forall r s', reduce (S fuel) host s = Some (r, s') ->
         GAS s' = GAS s1 + 1 /\ r = mem_get host s'))).
Proof.
  (* a rule that goes on reducing at the host *)
  assert (forall fuel host s s1 (rule : option State),
            (forall s2, rule = Some s2 -> GAS s2 = GAS s1 + 1) ->
            reduce (S fuel) host s = (s2 ← rule; reduce fuel host s2) ->
            (forall s2, rule = Some s2 ->
               GAS s2 = GAS s1 + 1 /\ reduce (S fuel) host s = reduce fuel host s2) /\
            (forall r s', reduce (S fuel) host s = Some (r, s') ->
               GAS s1 + 1 <= GAS s')) as Hcont.
  { intros fuel host s s1 rule Hg Hstep. split.
    - intros s2 H2. split; [now apply Hg|]. rewrite Hstep, H2. reflexivity.
    - intros r s' H. rewrite Hstep in H.
      destruct rule as [s2|]; simpl in H; [|discriminate H].
      rewrite <- (Hg s2 eq_refl).
      now apply reduce_counted in H as (_ & H & _). }
  (* a rule that returns what the host holds *)
  assert (forall fuel host s s1 (rule : option State),
            (forall s2, rule = Some s2 -> GAS s2 = GAS s1 + 1) ->
            reduce (S fuel) host s = (s2 ← rule; Some (mem_get host s2, s2)) ->
            (forall s2, rule = Some s2 ->
               reduce (S fuel) host s = Some (mem_get host s2, s2)) /\
            (forall r s', reduce (S fuel) host s = Some (r, s') ->
               GAS s' = GAS s1 + 1 /\ r = mem_get host s')) as Hret.
  { intros fuel host s s1 rule Hg Hstep. split.
    - intros s2 H2. rewrite Hstep, H2. reflexivity.
    - intros r s' H. rewrite Hstep in H.
      destruct rule as [s2|]; simpl in H; [|discriminate H].
      injection H as <- <-. split; [now apply Hg|reflexivity]. }
  split; [|split; [|split]].
  - intros fuel host s r s' H. apply reduce_counted in H as (_ & HG & HQ). auto.
  - intros fuel host s r s' H. apply normal_inv in H as [seen' H].
    now apply go_mono in H.
  - intros fuel host t fn s s1 Ht Tt Hr Hgas.
    assert (reduce (S fuel) host s
            = if get_tag fn =? LAM
              then s2 ← app_lam fuel host t fn (tick s1); reduce fuel host s2
              else if get_tag fn =? PAR
                   then Some (mem_get host (app_par host t fn (tick s1)),
                              app_par host t fn (tick s1))
                   else Some (Some t, s1)) as Hstep.
    { simpl. rewrite Ht, Tt. simpl. rewrite Hr. simpl. rewrite Hgas.
      destruct (get_tag fn =? LAM); [reflexivity|].
      destruct (get_tag fn =? PAR); reflexivity. }
    split.
    + intros Tfn. rewrite Tfn in Hstep. change (LAM =? LAM) with true in Hstep.
      cbv iota in Hstep. apply (Hcont _ _ _ _ _ ltac:(
        intros s2 H2; apply budget_tick_gas; eapply app_lam_budget; exact H2) Hstep).
    + intros Tfn. rewrite Tfn in Hstep. change (PAR =? LAM) with false in Hstep.
      change (PAR =? PAR) with true in Hstep. cbv iota in Hstep.
      eexists. split; [exact Hstep|]. apply budget_tick_gas. apply app_par_budget.
  - intros fuel host t ex s s1 Ht Tt Hr Hgas.
    assert (reduce (S fuel) host s
            = if get_tag ex =? LAM
              then s2 ← let_lam fuel host t ex (tick s1); reduce fuel host s2
              else if get_tag ex =? PAR
                   then if get_ex0 t =? get_ex0 ex
                        then s2 ← let_par_annihilate fuel host t ex (tick s1);
                             reduce fuel host s2
                        else s2 ← let_par_commute fuel host t ex (tick s1);
                             Some (mem_get host s2, s2)
                   else if get_tag ex =? CTR
                        then s2 ← let_ctr fuel host t ex (tick s1);
                             Some (mem_get host s2, s2)
                        else Some (Some t, s1)) as Hstep.
    { simpl. rewrite Ht.
      assert ((get_tag t =? APP) = false) as ->
        by (apply N.eqb_neq; destruct Tt as [-> | ->]; discriminate).
      assert ((get_tag t =? DP0) || (get_tag t =? DP1) = true) as ->
        by (destruct Tt as [-> | ->]; reflexivity).
      rewrite Hr. simpl. rewrite Hgas.
      destruct (get_tag ex =? LAM); [reflexivity|].
      destruct (get_tag ex =? PAR); [reflexivity|].
      destruct (get_tag ex =? CTR); reflexivity. }
    split; [|split; [|split]].
    + intros Tex. rewrite Tex in Hstep. change (LAM =? LAM) with true in Hstep.
      cbv iota in Hstep. apply (Hcont _ _ _ _ _ ltac:(
        intros s2 H2; apply budget_tick_gas; eapply let_lam_budget; exact H2) Hstep).
    + intros Tex Hcol. rewrite Tex in Hstep.
      change (PAR =? LAM) with false in Hstep. change (PAR =? PAR) with true in Hstep.
      cbv iota in Hstep. apply N.eqb_eq in Hcol. rewrite Hcol in Hstep.
      apply (Hcont _ _ _ _ _ ltac:(
        intros s2 H2; apply budget_tick_gas; eapply let_par_annihilate_budget;
        exact H2) Hstep).
    + intros Tex Hcol. rewrite Tex in Hstep.
      change (PAR =? LAM) with false in Hstep. change (PAR =? PAR) with true in Hstep.
      cbv iota in Hstep. apply N.eqb_neq in Hcol. rewrite Hcol in Hstep.
      apply (Hret _ _ _ _ _ ltac:(
        intros s2 H2; apply budget_tick_gas; eapply let_par_commute_budget;
        exact H2) Hstep).
    + intros Tex. rewrite Tex in Hstep.
      change (CTR =? LAM) with false in Hstep. change (CTR =? PAR) with false in Hstep.
      change (CTR =? CTR) with true in Hstep. cbv iota in Hstep.
      apply (Hret _ _ _ _ _ ltac:(
        intros s2 H2; apply budget_tick_gas; eapply let_ctr_budget; exact H2) Hstep).
Qed.

Lemma gas_monotone_and_counted_witness :
  (exists s2,
     GAS s2 = GAS (heap_of S1_text) + 1 /\
     reduce 5 0 (heap_of S1_text) = reduce 4 0 s2) /\
  (exists s',
     reduce 5 10 (heap_of commute_text) = Some (mem_get 10 s', s') /\
     GAS s' = GAS (heap_of commute_text) + 1).
Proof.
  destruct gas_monotone_and_counted as (_ & _ & Happ & Hdup).
  split.
  - destruct (Happ 4%nat 0 (ptr APP 1 0 0) (ptr LAM 3 0 0)
                (heap_of S1_text) (heap_of S1_text)) as [Hlam _];
      [vm_compute; reflexivity|reflexivity|vm_compute; reflexivity|reflexivity|].
    destruct (Hlam eq_refl) as [Hrule _].
    eassert (app_lam 4 0 (ptr APP 1 0 0) (ptr LAM 3 0 0) (tick (heap_of S1_text))
             = Some _) as E by (vm_compute; reflexivity).
    destruct (Hrule _ E) as (Hg & Hred).
    eexists. split; [exact Hg|exact Hred].
  - destruct (Hdup 4%nat 10 (ptr DP0 1 1 0) (ptr PAR 4 0 0)
                (heap_of commute_text) (heap_of commute_text))
      as (_ & _ & Hcom & _);
      [vm_compute; reflexivity|left; reflexivity|vm_compute; reflexivity
      |reflexivity|].
    destruct Hcom as [_ Hres]; [reflexivity|vm_compute; discriminate|].
    destruct (reduce 5 10 (heap_of commute_text)) as [[r s']|] eqn:E;
      [|vm_compute in E; discriminate E].
    destruct (Hres r s' eq_refl) as (Hg & ->).
    exists s'. split; [reflexivity|exact Hg].
Defined.

(** C7. When the host holds an App whose function slot reduces to
    something that is neither a Lam nor a Par, or a Dp0 or Dp1 whose
    expression slot reduces to something that is none of Lam, Par and Ctr,
    [reduce] rewrites nothing at the host: it returns the pointer it read
    there, and the state, gas included, is the one the reduction of the
    slot left. *)
Theorem reduce_stuck (fuel : nat) (host t : N) (v : Val) (s s1 : State) :
  mem_get host s = Some t ->
  (get_tag t = APP /\
   reduce fuel (get_loc t 0) s = Some (v, s1) /\
   tag_of v <> LAM /\ tag_of v <> PAR)
  \/
  ((get_tag t = DP0 \/ get_tag t = DP1) /\
   reduce fuel (get_loc t 2) s = Some (v, s1) /\
   tag_of v <> LAM /\ tag_of v <> PAR /\ tag_of v <> CTR) ->
  reduce (S fuel) host s = Some (Some t, s1).
Proof.
  intros Ht Hcase. simpl. rewrite Ht.
  destruct Hcase as [(Tt & Hr & HL & HP)|(Tt & Hr & HL & HP & HC)].
  - rewrite Tt. simpl. rewrite Hr. simpl.
    destruct v as [fn|]; [|reflexivity]. simpl in HL, HP.
    apply N.eqb_neq in HL, HP. now rewrite HL, HP.
  - assert ((get_tag t =? APP) = false) as ->
      by (apply N.eqb_neq; destruct Tt as [-> | ->]; discriminate).
    assert ((get_tag t =? DP0) || (get_tag t =? DP1) = true) as ->
      by (destruct Tt as [-> | ->]; reflexivity).
    rewrite Hr. simpl.
    destruct v as [ex|]; [|reflexivity]. simpl in HL, HP, HC.
    apply N.eqb_neq in HL, HP, HC. now rewrite HL, HP, HC.
Qed.

Lemma reduce_stuck_witness :
  reduce 3 2 (heap_of stuck_text) = Some (Some (ptr APP 3 0 0), heap_of stuck_text) /\
  reduce 4 4 (heap_of dup_stuck_text)
    = Some (Some (ptr DP0 5 0 0), heap_of dup_stuck_text).
Proof.
  split.
  - apply (reduce_stuck 2 2 (ptr APP 3 0 0) (Some (ptr VAR 1 0 0))).
    + vm_compute; reflexivity.
    + left. split; [reflexivity|]. split; [vm_compute; reflexivity|].
      split; vm_compute; discriminate.
  - apply (reduce_stuck 3 4 (ptr DP0 5 0 0) (Some (ptr APP 8 0 0))).
    + vm_compute; reflexivity.
    + right. split; [left; reflexivity|]. split; [vm_compute; reflexivity|].
      repeat split; vm_compute; discriminate.
Defined.

(** C6, as stated, fails, and on a closed well-scoped term: the first
    pass of [normal] over [lazy_copy_text] rewrites three times and leaves
    the redex [(λz:z λw:w)] inside a duplicated application it has already
    visited; the second pass finds it and rewrites once more, so the gas
    goes up by one, not by zero, and the heap changes; a third pass adds
    nothing.  On the source's own example of a scope violation the first
    pass even returns an App at the root and the second a Lam. *)
Lemma normal_not_idempotent :
  (exists r1 s1 r2 s2 r3 s3,
     check_linked (heap_of lazy_copy_text) = true /\
     normal 60 0 (heap_of lazy_copy_text) = Some (r1, s1) /\
     normal 60 0 s1 = Some (r2, s2) /\
     normal 60 0 s2 = Some (r3, s3) /\
     GAS (heap_of lazy_copy_text) = 0 /\ GAS s1 = 3 /\ GAS s2 = 4 /\ GAS s3 = 4 /\
     mem_get 29 s1 = Some (ptr APP 18 0 0) /\ mem_get 29 s2 = Some (ptr LAM 22 0 0)) /\
  (exists r1 s1 r2 s2,
     normal 30 0 (heap_of scope_text) = Some (r1, s1) /\
     normal 30 0 s1 = Some (r2, s2) /\
     get_tag <$> r1 = Some APP /\ get_tag <$> r2 = Some LAM /\
     GAS (heap_of scope_text) = 0 /\ GAS s1 = 1 /\ GAS s2 = 3).
Proof.
  split.
  - eexists _, _, _, _, _, _.
    do 9 (split; [vm_compute; reflexivity|]). vm_compute; reflexivity.
  - eexists _, _, _, _.
    do 6 (split; [vm_compute; reflexivity|]). vm_compute; reflexivity.
Qed.

(** C6, amended. A pass of [normal] that leaves the gas counter where it
    was, on a heap where every pointer has its slots inside the array and
    every Var, Dp0 and Dp1 cell is bonded to its binder slot, changes
    nothing at all: it returns the pointer found at the host, and a second
    pass returns the same pointer, on the same state, with no gas added.
    (A pass that does rewrite may leave redexes behind it.) *)
Theorem normal_quiet_fixpoint (fuel : nat) (host : N) (s : State) (r : Val) (s' : State) :
  well_linked s ->
  normal fuel host s = Some (r, s') ->
  GAS s' = GAS s ->
  s' = s /\ r = mem_get host s /\ normal fuel host s' = Some (r, s').
Proof.
  intros Hw H Hg. pose proof H as H0.
  apply normal_inv in H as [seen' H].
  destruct (go_quiet _ _ _ _ _ _ _ Hw H Hg) as [-> ->].
  auto.
Qed.

Lemma normal_quiet_fixpoint_witness :
  well_linked (normalized S1_text) /\
  normal 20 0 (normalized S1_text)
    = Some (mem_get 0 (normalized S1_text), normalized S1_text).
Proof.
  assert (well_linked (normalized S1_text)) as Hw
    by (apply check_linked_sound; vm_compute; reflexivity).
  split; [exact Hw|].
  eassert (normal 20 0 (normalized S1_text) = Some (_, _)) as E
    by (vm_compute; reflexivity).
  destruct (normal_quiet_fixpoint 20 0 (normalized S1_text) _ _ Hw E) as (_ & _ & Hn).
  - vm_compute; reflexivity.
  - vm_compute in Hn. vm_compute. exact Hn.
Defined.

(** ** Out of gas *)

Lemma gas_out_registers s s' :
  registers s' = registers s -> gas_out s' = gas_out s.
Proof.
  unfold registers, gas_out. intros H. injection H as _ _ _ _ _ Hg Hl.
  now rewrite Hg, Hl.
Qed.

Lemma reduce_gas_out_inv fuel : forall host s r s',
  gas_out s = true ->
  reduce fuel host s = Some (r, s') -> r = mem_get host s /\ s' = s.
Proof.
  induction fuel as [|f IH]; intros host s r s' Hout H; [discriminate|].
  simpl in H.
  destruct (mem_get host s) as [t|] eqn:Et; [|now injection H as <- <-].
  destruct (get_tag t =? APP).
  { destruct (reduce f (get_loc t 0) s) as [[func s1]|] eqn:E1; simpl in H; [|discriminate].
    apply IH in E1 as [_ ->]; [|assumption]. rewrite Hout in H.
    destruct func as [fn|]; [|now injection H as <- <-].
    destruct (get_tag fn =? LAM); [now injection H as <- <-|].
    destruct (get_tag fn =? PAR); now injection H as <- <-. }
  destruct ((get_tag t =? DP0) || (get_tag t =? DP1)).
  { destruct (reduce f (get_loc t 2) s) as [[expr s1]|] eqn:E1; simpl in H; [|discriminate].
    apply IH in E1 as [_ ->]; [|assumption]. rewrite Hout in H.
    destruct expr as [ex|]; [|now injection H as <- <-].
    destruct (get_tag ex =? LAM); [now injection H as <- <-|].
    destruct (get_tag ex =? PAR); [now injection H as <- <-|].
    destruct (get_tag ex =? CTR); now injection H as <- <-. }
  now injection H as <- <-.
Qed.

Lemma reduce_gas_out_total s :
  gas_out s = true ->
  forall host d, spine s host d ->
  forall fuel, (d < fuel)%nat -> reduce fuel host s = Some (mem_get host s, s).
Proof.
  intros Hout host d Hsp.
  induction Hsp as [host d Hstop|host t d Et Tt Hsp IH|host t d Et Tt Hsp IH];
    intros fuel Hfuel; (destruct fuel as [|f]; [lia|]); simpl.
  - destruct (mem_get host s) as [t|] eqn:Et; [|reflexivity].
    destruct (Hstop t eq_refl) as (HA & H0 & H1).
    apply N.eqb_neq in HA, H0, H1. now rewrite HA, H0, H1.
  - rewrite Et, Tt. simpl. rewrite IH by lia. simpl. rewrite Hout.
    destruct (mem_get (get_loc t 0) s) as [fn|]; [|reflexivity].
    now repeat destruct (_ =? _).
  - rewrite Et.
    assert ((get_tag t =? APP) = false) as ->
      by (apply N.eqb_neq; destruct Tt as [-> | ->]; discriminate).
    assert ((get_tag t =? DP0) || (get_tag t =? DP1) = true) as ->
      by (destruct Tt as [-> | ->]; reflexivity).
    rewrite IH by lia. simpl. rewrite Hout.
    destruct (mem_get (get_loc t 2) s) as [ex|]; [|reflexivity].
    now repeat destruct (_ =? _).
Qed.

Lemma go_args_gas_out_inv
    (rec : N -> gset (option N) * State -> option (Val * (gset (option N) * State))) :
  (forall host seen s r seen' s',
     gas_out s = true -> rec host (seen, s) = Some (r, (seen', s')) ->
     r = mem_get host s /\ registers s' = registers s) ->
  forall n term i seen s seen' s',
    gas_out s = true ->
    go_args rec term i n (seen, s) = Some (seen', s') ->
    registers s' = registers s.
Proof.
  intros Hrec. induction n as [|n IH]; intros term i seen s seen' s' Hout H; simpl in H.
  - now injection H as <- <-.
  - destruct (rec (get_loc term i) (seen, s)) as [[r [seen1 s1]]|] eqn:E;
      simpl in H; [|discriminate].
    apply Hrec in E as [_ Hr1]; [|assumption].
    apply IH in H.
    + rewrite H, link_registers. exact Hr1.
    + rewrite <- Hout. apply gas_out_registers. now rewrite link_registers.
Qed.

Lemma go_gas_out_inv fuel : forall host seen s r seen' s',
  gas_out s = true ->
  go fuel host (seen, s) = Some (r, (seen', s')) ->
  r = mem_get host s /\ registers s' = registers s.
Proof.
  induction fuel as [|f IH]; intros host seen s r seen' s' Hout H; [discriminate|].
  simpl in H.
  destruct (decide (seen_key (mem_get host s) ∈ seen));
    [now injection H as <- <- <-|].
  destruct (reduce f host s) as [[term s1]|] eqn:ER; simpl in H; [|discriminate].
  apply reduce_gas_out_inv in ER as [-> ->]; [|assumption].
  assert (forall p v st, registers st = registers s ->
            gas_out (link p v st) = true /\ registers (link p v st) = registers s)
    as Hlk.
  { intros p v st Hst. rewrite link_registers. split; [|exact Hst].
    rewrite <- Hout. apply gas_out_registers. now rewrite link_registers. }
  destruct (mem_get host s) as [t|] eqn:Et; [|now injection H as <- <- <-].
  destruct (get_tag t =? LAM).
  { destruct (go f (get_loc t 1) _) as [[r1 [seen1 s2]]|] eqn:E1; simpl in H; [|discriminate].
    injection H as <- <- <-. apply IH in E1 as [_ H1]; [|assumption].
    split; [reflexivity|]. now apply Hlk. }
  destruct ((get_tag t =? APP) || (get_tag t =? PAR)).
  { destruct (go f (get_loc t 0) _) as [[r1 [seen1 s2]]|] eqn:E1; simpl in H; [|discriminate].
    destruct (go f (get_loc t 1) _) as [[r2 [seen2 s3]]|] eqn:E2; simpl in H; [|discriminate].
    injection H as <- <- <-. apply IH in E1 as [_ H1]; [|assumption].
    destruct (Hlk (get_loc t 0) r1 s2 H1) as [Hout2 Hr2].
    apply IH in E2 as [_ H2]; [|assumption].
    split; [reflexivity|]. apply Hlk. congruence. }
  destruct ((get_tag t =? DP0) || (get_tag t =? DP1)).
  { destruct (go f (get_loc t 2) _) as [[r1 [seen1 s2]]|] eqn:E1; simpl in H; [|discriminate].
    injection H as <- <- <-. apply IH in E1 as [_ H1]; [|assumption].
    split; [reflexivity|]. now apply Hlk. }
  destruct ((get_tag t =? CAL) || (get_tag t =? CTR)).
  { destruct (go_args _ _ _ _ _) as [[seen1 s2]|] eqn:E1; simpl in H; [|discriminate].
    injection H as <- <- <-. split; [reflexivity|].
    eapply (go_args_gas_out_inv _ IH); eauto. }
  now injection H as <- <- <-.
Qed.

Section OutOfGas.
Variable s : State.
Variable D : nat.
Hypothesis Hout : gas_out s = true.
Hypothesis Hw : well_linked s.
Hypothesis Hsp : forall host, spine s host D.

Lemma key_in_universe host : seen_key (mem_get host s) ∈ seen_keys s.
Proof.
  unfold seen_keys. destruct (mem_get host s) as [t|] eqn:Et; simpl; [|set_solver].
  apply elem_of_union_r. apply elem_of_list_to_set. apply list_elem_of_In.
  apply in_map_iff. exists (host, t). split; [reflexivity|].
  apply list_elem_of_In. now apply elem_of_map_to_list.
Qed.

Lemma unseen_drop (key : option N) (seen : gset (option N)) n :
  key ∈ seen_keys s -> key ∉ seen ->
  (size (seen_keys s ∖ seen) <= S n)%nat ->
  (size (seen_keys s ∖ ({[key]} ∪ seen)) <= n)%nat.
Proof.
  intros Hk Hns Hsize.
  assert (seen_keys s ∖ ({[key]} ∪ seen) ⊂ seen_keys s ∖ seen) as Hsub.
  { split; [set_solver|]. intros Hc. assert (key ∈ seen_keys s ∖ seen) as Hin by set_solver.
    apply Hc in Hin. set_solver. }
  apply subset_size in Hsub. lia.
Qed.

Lemma unseen_mono (seen seen' : gset (option N)) n :
  seen ⊆ seen' ->
  (size (seen_keys s ∖ seen) <= n)%nat -> (size (seen_keys s ∖ seen') <= n)%nat.
Proof.
  intros Hsub Hsize.
  assert (seen_keys s ∖ seen' ⊆ seen_keys s ∖ seen) as H by set_solver.
  apply subseteq_size in H. lia.
Qed.

Lemma slot_in_range host t k :
  mem_get host s = Some t -> k < node_size t -> get_loc t k < MEM_length s.
Proof. destruct Hw as (_ & _ & Hr). apply Hr. Qed.

Lemma go_args_gas_out_total f n :
  (forall seen host, (size (seen_keys s ∖ seen) <= n)%nat ->
     exists seen', go f host (seen, s) = Some (mem_get host s, (seen', s))
                   /\ seen ⊆ seen') ->
  forall m term i seen,
    (size (seen_keys s ∖ seen) <= n)%nat ->
    (forall k, i <= k < i + N.of_nat m -> get_loc term k < MEM_length s) ->
    exists seen', go_args (go f) term i m (seen, s) = Some (seen', s)
                  /\ seen ⊆ seen'.
Proof.
  intros Hgo. induction m as [|m IH]; intros term i seen Hsize Hrange; simpl.
  - exists seen. split; [reflexivity|set_solver].
  - destruct (Hgo seen (get_loc term i) Hsize) as (seen1 & E & Hsub).
    rewrite E. simpl. rewrite link_same by (auto; apply Hrange; lia).
    destruct (IH term (i + 1) seen1) as (seen2 & E2 & Hsub2).
    + eapply unseen_mono; eauto.
    + intros k Hk. apply Hrange. lia.
    + exists seen2. split; [exact E2|set_solver].
Qed.

Lemma go_gas_out_total : forall n seen host fuel,
  (size (seen_keys s ∖ seen) <= n)%nat -> (n + D + 2 <= fuel)%nat ->
  exists seen', go fuel host (seen, s) = Some (mem_get host s, (seen', s))
                /\ seen ⊆ seen'.
Proof.
  induction n as [|n IH]; intros seen host fuel Hsize Hfuel;
    (destruct fuel as [|f]; [lia|]); simpl;
    (destruct (decide (seen_key (mem_get host s) ∈ seen)) as [Hin|Hnin];
      [exists seen; split; [reflexivity|set_solver]|]).
  - exfalso. pose proof (key_in_universe host) as Hk.
    assert (seen_keys s ∖ seen ≡ ∅) as He by (apply size_empty_iff; lia).
    set_solver.
  - rewrite (reduce_gas_out_total s Hout host D (Hsp host)) by lia. simpl.
    pose proof (unseen_drop _ _ _ (key_in_universe host) Hnin Hsize) as Hsize1.
    set (seen1 := {[seen_key (mem_get host s)]} ∪ seen) in *.
    assert (seen ⊆ seen1) as Hsub1 by set_solver.
    assert (forall seen0 host0, (size (seen_keys s ∖ seen0) <= n)%nat ->
              exists seen', go f host0 (seen0, s) = Some (mem_get host0 s, (seen', s))
                            /\ seen0 ⊆ seen') as Hgo
      by (intros seen0 host0 H0; apply IH; [exact H0|lia]).
    clearbody seen1.
    destruct (mem_get host s) as [t|] eqn:Et;
      [|exists seen1; split; [reflexivity|exact Hsub1]].
    pose proof (slot_in_range host t) as Hslot. specialize (Hslot) .
    destruct (get_tag t =? LAM) eqn:TL.
    { assert (node_size t = 2) as Hns by (unfold node_size; now rewrite TL).
      destruct (Hgo seen1 (get_loc t 1) Hsize1) as (seen2 & E & Hsub2).
      rewrite E. simpl. rewrite link_same by (auto; apply Hslot; auto; lia).
      exists seen2. split; [reflexivity|set_solver]. }
    destruct ((get_tag t =? APP) || (get_tag t =? PAR)) eqn:TA.
    { assert (node_size t = 2) as Hns
        by (unfold node_size; rewrite TL; simpl; now rewrite TA).
      destruct (Hgo seen1 (get_loc t 0) Hsize1) as (seen2 & E & Hsub2).
      rewrite E. simpl. rewrite link_same by (auto; apply Hslot; auto; lia).
      destruct (Hgo seen2 (get_loc t 1)) as (seen3 & E3 & Hsub3);
        [eapply unseen_mono; eauto|].
      rewrite E3. simpl. rewrite link_same by (auto; apply Hslot; auto; lia).
      exists seen3. split; [reflexivity|set_solver]. }
    destruct ((get_tag t =? DP0) || (get_tag t =? DP1)) eqn:TD.
    { assert (node_size t = 3) as Hns
        by (unfold node_size; rewrite TL; simpl; now rewrite TA, TD).
      destruct (Hgo seen1 (get_loc t 2) Hsize1) as (seen2 & E & Hsub2).
      rewrite E. simpl. rewrite link_same by (auto; apply Hslot; auto; lia).
      exists seen2. split; [reflexivity|set_solver]. }
    destruct ((get_tag t =? CAL) || (get_tag t =? CTR)) eqn:TC.
    { assert (node_size t = get_ex0 t) as Hns
        by (unfold node_size; rewrite TL; simpl; rewrite TA, TD;
            rewrite orb_comm in TC; now rewrite TC).
      destruct (go_args_gas_out_total f n Hgo (N.to_nat (get_ex0 t)) t 0 seen1 Hsize1)
        as (seen2 & E & Hsub2).
      { intros k Hk. apply Hslot; auto. lia. }
      rewrite E. simpl. exists seen2. split; [reflexivity|set_solver]. }
    exists seen1. split; [reflexivity|exact Hsub1].
Qed.

Lemma run_calls_gas_out cs : forall fuel,
  (size (seen_keys s) + D + 2 <= fuel)%nat ->
  run_calls fuel cs s = Some (map (fun c => mem_get (call_host c) s) cs, s).
Proof.
  induction cs as [|c cs IH]; intros fuel Hfuel; simpl; [reflexivity|].
  assert (run_call fuel c s = Some (mem_get (call_host c) s, s)) as ->.
  { destruct c as [h|h]; simpl.
    - apply (reduce_gas_out_total s Hout h D (Hsp h)). lia.
    - destruct (go_gas_out_total (size (seen_keys s)) ∅ h fuel) as (seen' & E & _).
      + apply subseteq_size. set_solver.
      + lia.
      + now apply normal_of_go in E. }
  simpl. rewrite IH by assumption. reflexivity.
Qed.
End OutOfGas.

(** C3. Once the gas counter has reached the limit, no rule fires.
    [reduce] returns the pointer found at the host (in weak head normal
    form or not) and leaves the whole state as it was, and it does return
    as soon as the spine from the host is finite.  [normal] returns the
    pointer found at the host without any rewrite: the gas, the limit and
    the reuse stacks are untouched (its [link] calls can only re-point
    binder slots).  On a heap where [link] has nothing to repair and all
    spines end, every sequence of later [reduce] and [normal] calls
    returns, each call giving the pointer at its host and leaving the
    state exactly as it was. *)
Theorem gas_exhausted_noop (s : State) :
  gas_out s = true ->
  (forall fuel host r s',
     reduce fuel host s = Some (r, s') -> r = mem_get host s /\ s' = s) /\
  (forall host d fuel,
     spine s host d -> (d < fuel)%nat ->
     reduce fuel host s = Some (mem_get host s, s)) /\
  (forall fuel host r s',
     normal fuel host s = Some (r, s') ->
     r = mem_get host s /\ registers s' = registers s) /\
  (forall D,
     well_linked s -> (forall host, spine s host D) ->
     forall cs fuel,
       (size (seen_keys s) + D + 2 <= fuel)%nat ->
       run_calls fuel cs s = Some (map (fun c => mem_get (call_host c) s) cs, s)).
Proof.
  intros Hout. repeat split.
  - eapply reduce_gas_out_inv; eauto.
  - eapply reduce_gas_out_inv; eauto.
  - intros host d fuel Hsp Hfuel. eapply reduce_gas_out_total; eauto.
  - apply normal_inv in H as [seen' H]. eapply go_gas_out_inv; eauto.
  - apply normal_inv in H as [seen' H]. eapply go_gas_out_inv; eauto.
  - intros D Hw Hsp cs fuel Hfuel. eapply run_calls_gas_out; eauto.
Qed.

Lemma gas_exhausted_noop_witness :
  gas_out (out_of_gas (heap_of S1_text)) = true /\
  get_tag <$> mem_get 0 (out_of_gas (heap_of S1_text)) = Some APP /\
  run_calls 30 [Normal 0; Reduce 0; Normal 0] (out_of_gas (heap_of S1_text))
  = Some (map (fun c => mem_get (call_host c) (out_of_gas (heap_of S1_text)))
              [Normal 0; Reduce 0; Normal 0],
          out_of_gas (heap_of S1_text)).
Proof.
  split; [reflexivity|]. split; [vm_compute; reflexivity|].
  destruct (gas_exhausted_noop (out_of_gas (heap_of S1_text)) eq_refl)
    as (_ & _ & _ & Hseq).
  apply (Hseq 3%nat).
  - apply check_linked_sound. vm_compute. reflexivity.
  - apply check_spines_sound. vm_compute. reflexivity.
  - apply Nat.leb_le. vm_compute. reflexivity.
Defined.

(** ** The rules as [reduce] applies them *)

(** C2, as stated, fails when the gas counter has reached the limit: on
    the heap of S1 with the limit at the gas spent, the root holds an App
    whose function slot reduces to a Lam, and [reduce] returns the App and
    leaves the state as it is, whatever the fuel; gas is not incremented,
    the body is not installed, nothing is freed. *)
Lemma app_lam_waits_for_gas :
  let s := out_of_gas (heap_of S1_text) in
  mem_get 0 s = Some (ptr APP 1 0 0) /\
  reduce 4 (get_loc (ptr APP 1 0 0) 0) s = Some (Some (ptr LAM 3 0 0), s) /\
  reduce 5 0 s = Some (Some (ptr APP 1 0 0), s) /\
  (forall fuel r s', reduce fuel 0 s = Some (r, s') ->
                     r = Some (ptr APP 1 0 0) /\ GAS s' = GAS s /\ s' = s).
Proof.
  intros s. split; [vm_compute; reflexivity|].
  split; [vm_compute; reflexivity|]. split; [vm_compute; reflexivity|].
  intros fuel r s' H.
  apply reduce_gas_out_inv in H as [-> ->]; [|reflexivity].
  split; [vm_compute; reflexivity|]. split; reflexivity.
Qed.

(** C2, amended. When the host holds an App whose function slot reduces to
    a Lam and the gas counter is below the limit, [reduce] increments the
    gas by one; substitutes the argument of the App for the variable, by
    linking it into the cell the binder slot's back-link names, or
    collects the argument when the binder slot is Nil; links the body of
    the Lam into the host; frees the two cells of the App and the two
    cells of the Lam; and goes on reducing at the host.  (With the counter
    at the limit it returns the App and rewrites nothing.) *)
Theorem app_lam_rule (fuel : nat) (host t fn : N) (s s1 : State) :
  mem_get host s = Some t -> get_tag t = APP ->
  reduce fuel (get_loc t 0) s = Some (Some fn, s1) -> get_tag fn = LAM ->
  gas_out s1 = false ->
  let s2 := tick s1 in
  let binder := get_arg fn 0 s2 in
  let argm := get_arg t 1 s2 in
  GAS s2 = GAS s1 + 1 /\
  (tag_of binder = NIL -> subst fuel binder argm s2 = collect fuel argm None s2) /\
  (forall l, binder = Some l -> get_tag l <> NIL ->
             subst fuel binder argm s2 = Some (link (get_loc l 0) argm s2)) /\
  (forall s3, subst fuel binder argm s2 = Some s3 ->
     let s4 := link host (get_arg fn 1 s3) s3 in
     let s5 := free (get_loc fn 0) 2 (free (get_loc t 0) 2 s4) in
     GAS s5 = GAS s1 + 1 /\
     reduce (S fuel) host s = reduce fuel host s5) /\
  (subst fuel binder argm s2 = None -> reduce (S fuel) host s = None).
Proof.
  intros Ht Tt Hr Tfn Hgas s2 binder argm.
  assert (reduce (S fuel) host s
          = (s5 ← app_lam fuel host t fn s2; reduce fuel host s5)) as Hstep.
  { simpl. rewrite Ht, Tt. simpl. rewrite Hr. simpl. rewrite Tfn. simpl.
    now rewrite Hgas. }
  split; [reflexivity|]. split; [|split; [|split]].
  - intros Hnil. unfold subst. now rewrite Hnil.
  - intros l Hl Hne. unfold subst. rewrite Hl. simpl.
    apply N.eqb_neq in Hne. now rewrite Hne.
  - intros s3 Hs3 s4 s5. split.
    + unfold s5, s4. pose proof (subst_budget _ _ _ _ _ Hs3) as Hb.
      assert (budget (free (get_loc fn 0) 2 (free (get_loc t 0) 2
                (link host (get_arg fn 1 s3) s3))) = budget s2) as Hb5
        by (rewrite !free_budget, link_budget; exact Hb).
      now apply budget_tick_gas in Hb5.
    + rewrite Hstep. unfold app_lam. fold binder argm. rewrite Hs3. reflexivity.
  - intros Hnone. rewrite Hstep. unfold app_lam. fold binder argm.
    now rewrite Hnone.
Qed.

Lemma app_lam_rule_witness :
  exists s5,
    GAS s5 = 1 /\ mem_get 0 s5 = Some (ptr LAM 5 0 0) /\
    RE2 s5 = [3; 1] /\
    reduce 5 0 (heap_of S1_text) = reduce 4 0 s5.
Proof.
  destruct (app_lam_rule 4 0 (ptr APP 1 0 0) (ptr LAM 3 0 0)
              (heap_of S1_text) (heap_of S1_text))
    as (_ & _ & _ & Hgo & _);
    [vm_compute; reflexivity|reflexivity|vm_compute; reflexivity|reflexivity
    |reflexivity|].
  eassert (subst 4 (get_arg (ptr LAM 3 0 0) 0 (tick (heap_of S1_text)))
             (get_arg (ptr APP 1 0 0) 1 (tick (heap_of S1_text)))
             (tick (heap_of S1_text)) = Some _) as Hs
    by (vm_compute; reflexivity).
  destruct (Hgo _ Hs) as [Hg Hred].
  eexists. split; [exact Hg|].
  split; [vm_compute; reflexivity|]. split; [vm_compute; reflexivity|].
  exact Hred.
Defined.




(** Runs the next step by evaluation and feeds its result to [H]. *)
Ltac feed_run H :=
  match type of H with
  | forall st, ?run = Some st -> _ =>
      let E := fresh "E" in
      eassert (run = Some _) as E by (vm_compute; reflexivity);
      specialize (H _ E); clear E
  | forall p st, ?run = (p, st) -> _ =>
      let E := fresh "E" in
      eassert (run = (_, _)) as E by (vm_compute; reflexivity);
      specialize (H _ _ E); clear E
  end.


(** ** Back edges *)

Lemma bonded_integrity s : bonded s -> back_edge_integrity s.
Proof.
  intros Hb i c slot Hic Hslot. exists (ptr LNK i 0 0).
  split; [now apply (Hb i c slot)|].
  split; [apply get_tag_ptr|apply get_pos_ptr]; unfold LNK; lia.
Qed.

(** The cells a call [link(pos, v)] writes. *)
Lemma link_frame pos v s i :
  i <> pos -> (forall p slot, v = Some p -> binder_slot p = Some slot -> i <> slot) ->
  mem_get i (link pos v s) = mem_get i s.
Proof.
  intros Hpos Hslot. unfold link.
  destruct v as [p|]; [|now apply mem_get_set_ne].
  assert (forall slot, binder_slot p = Some slot -> slot <> i) as Hs
    by (intros slot Hp E; now apply (Hslot p slot eq_refl Hp)).
  unfold binder_slot in Hs.
  destruct (get_tag p =? VAR); simpl in Hs;
    [rewrite !mem_get_set_ne; auto|].
  destruct (get_tag p =? DP0); simpl in Hs;
    [rewrite !mem_get_set_ne; auto|].
  destruct (get_tag p =? DP1); simpl in Hs;
    [rewrite !mem_get_set_ne; auto|].
  now apply mem_get_set_ne.
Qed.

Lemma link_plain pos v s :
  (forall p, v = Some p -> binder_slot p = None) ->
  mem_get pos (link pos v s) = v.
Proof.
  intros Hv. unfold link. destruct v as [p|]; [|apply mem_get_set_eq].
  specialize (Hv p eq_refl). unfold binder_slot in Hv.
  destruct (get_tag p =? VAR); [discriminate|]. simpl in Hv.
  destruct (get_tag p =? DP0); [discriminate|].
  destruct (get_tag p =? DP1); [discriminate|]. apply mem_get_set_eq.
Qed.

Lemma link_occurrence pos p slot s :
  binder_slot p = Some slot ->
  mem_get slot (link pos (Some p) s) = Some (ptr LNK pos 0 0) /\
  (slot <> pos -> mem_get pos (link pos (Some p) s) = Some p).
Proof.
  intros Hslot. unfold link, binder_slot in *.
  destruct (get_tag p =? VAR); simpl in Hslot;
    [injection Hslot as <-; split; [apply mem_get_set_eq|];
     intros Hne; rewrite mem_get_set_ne by exact Hne; apply mem_get_set_eq|].
  destruct (get_tag p =? DP0); simpl in Hslot;
    [injection Hslot as <-; split; [apply mem_get_set_eq|];
     intros Hne; rewrite mem_get_set_ne by exact Hne; apply mem_get_set_eq|].
  destruct (get_tag p =? DP1); [|discriminate].
  injection Hslot as <-. split; [apply mem_get_set_eq|].
  intros Hne. rewrite mem_get_set_ne by exact Hne. apply mem_get_set_eq.
Qed.

Lemma binder_slot_lnk pos : binder_slot (ptr LNK pos 0 0) = None.
Proof.
  unfold binder_slot.
  assert (get_tag (ptr LNK pos 0 0) = LNK) as -> by (apply get_tag_ptr; unfold LNK; lia).
  reflexivity.
Qed.

(** [read] does not check that a bound variable is used once: on a
    term that uses it twice, [build] links both occurrences to the one
    binder slot, the slot keeps the back-link of the second only, and
    [sanity_check] throws on the first. *)
Lemma read_twice_breaks_integrity :
  mem_get 3 (heap_of twice_text) = Some (ptr VAR 1 0 0) /\
  mem_get 4 (heap_of twice_text) = Some (ptr VAR 1 0 0) /\
  mem_get 1 (heap_of twice_text) = Some (ptr LNK 4 0 0) /\
  sanity_check (heap_of twice_text) = false /\
  ~ back_edge_integrity (heap_of twice_text).
Proof.
  do 4 (split; [vm_compute; reflexivity|]).
  intros H.
  destruct (H 3 (ptr VAR 1 0 0) 1) as (l & Hl & _ & Hpos);
    [vm_compute; reflexivity|vm_compute; reflexivity|].
  assert (mem_get 1 (heap_of twice_text) = Some (ptr LNK 4 0 0)) as E
    by (vm_compute; reflexivity).
  rewrite E in Hl. injection Hl as <-. vm_compute in Hpos. discriminate Hpos.
Qed.



(** C4, the code against it.  [overlap_text] is closed, uses no variable
    twice, and the heap read from it is well linked.  Reducing the body of
    its outer lambda (which is what [normal] does first) breaks back-edge
    integrity on the live graph.  The erased argument [(q λm:m)] is
    collected; its head, a Var, sits in slot 0 of the App, and [collect]
    frees that one cell on its own ([free(host, 1)]) before the App is
    freed whole, so position 8 is on the size-1 stack and on the size-2
    stack at once.  LET-LAM then takes the node at 8 for the second copy
    of [λx: x], whose binder slot is cell 8 and whose variable sits in
    cell 9; LET-CTR takes position 8 again for the one field of its first
    constructor and writes a Dp0 there.  Cell 9 then holds [Var(8)] while
    its binder slot holds a Dp0 pointer of position 3: [sanity_check]
    throws ["Bad var at 9"].  The lambda at 8 is the argument of the
    application the reduction returns, and after a full pass of [normal]
    cell 9 is still not bonded. *)
Theorem erased_head_variable_breaks_integrity :
  check_linked (heap_of overlap_text) = true /\
  sanity_check (heap_of overlap_text) = true /\
  (exists r s',
     reduce 20 2 (heap_of overlap_text) = Some (r, s') /\
     r = Some (ptr APP 23 0 0) /\
     mem_get 23 s' = Some (ptr CTR 8 1 7) /\
     mem_get 24 s' = Some (ptr LAM 8 0 0) /\
     mem_get 9 s' = Some (ptr VAR 8 0 0) /\
     mem_get 8 s' = Some (ptr DP0 3 0 0) /\
     RE1 s' = [20; 27; 27] /\
     sanity_check s' = false /\
     ~ back_edge_integrity s') /\
  (exists r s',
     normal 60 0 (heap_of overlap_text) = Some (r, s') /\
     mem_get 24 s' = Some (ptr LAM 8 0 0) /\
     mem_get 9 s' = Some (ptr VAR 8 0 0) /\
     mem_get 8 s' = Some (ptr LAM 10 0 0) /\
     sanity_check s' = false /\
     ~ back_edge_integrity s').
Proof.
  split; [vm_compute; reflexivity|]. split; [vm_compute; reflexivity|].
  split.
  - eexists _, _. split; [vm_compute; reflexivity|].
    do 7 (split; [vm_compute; reflexivity|]).
    intros H.
    edestruct (H 9 (ptr VAR 8 0 0) 8) as (l & Hl & _ & Hpos);
      [vm_compute; reflexivity|vm_compute; reflexivity|].
    vm_compute in Hl. injection Hl as <-. vm_compute in Hpos. discriminate Hpos.
  - eexists _, _. split; [vm_compute; reflexivity|].
    do 4 (split; [vm_compute; reflexivity|]).
    intros H.
    edestruct (H 9 (ptr VAR 8 0 0) 8) as (l & Hl & Htag & _);
      [vm_compute; reflexivity|vm_compute; reflexivity|].
    vm_compute in Hl. injection Hl as <-. vm_compute in Htag. discriminate Htag.
Qed.

(** ** Scenario S1 *)

(** C8. Reading [(λx: x λa: λb: a)] in a fresh module and normalizing from
    the root returns a Lam whose body is a Lam whose body is the variable
    of the outer Lam, bonded to the outer binder slot, the inner binder
    slot being Nil (its variable is unused); the gas counter, 0 before, is
    1 after: the single rewrite is the APP-LAM at the root. *)
Theorem scenario_S1 :
  exists root h outer s',
    read 18 S1_text init = Ret (Some root, h) /\
    get_tag root = APP /\ GAS h = 0 /\
    normal 18 0 h = Some (Some outer, s') /\
    mem_get 0 s' = Some outer /\
    get_tag outer = LAM /\
    (exists inner,
       mem_get (get_loc outer 1) s' = Some inner /\
       get_tag inner = LAM /\
       mem_get (get_loc inner 1) s' = Some (ptr VAR (get_pos outer) 0 0) /\
       mem_get (get_loc outer 0) s' = Some (ptr LNK (get_loc inner 1) 0 0) /\
       mem_get (get_loc inner 0) s' = Some (ptr NIL 0 0 0)) /\
    GAS s' = 1.
Proof.
  eexists _, _, _, _.
  split; [vm_compute; reflexivity|].
  split; [vm_compute; reflexivity|]. split; [vm_compute; reflexivity|].
  split; [vm_compute; reflexivity|].
  split; [vm_compute; reflexivity|]. split; [vm_compute; reflexivity|].
  split; [|vm_compute; reflexivity].
  eexists. split; [vm_compute; reflexivity|].
  split; [vm_compute; reflexivity|].
  split; [vm_compute; reflexivity|].
  split; vm_compute; reflexivity.
Qed.

(** * Further properties of the runtime *)

(** ** Pointer encoding *)

(** X1. The accessors read back what [ptr] packed, for a tag below 16,
    payloads below 256 and a position below 2^33: the pointer is then
    below 2^53, where the sums and quotients of the source are exact
    ([get_loc] for an argument that keeps the sum below 2^53). *)
Theorem ptr_fields (tag pos ex0 ex1 : N) :
  tag < 16 -> ex0 < 256 -> ex1 < 256 -> pos < 2 ^ 33 ->
  ptr tag pos ex0 ex1 < 2 ^ 53 /\
  get_tag (ptr tag pos ex0 ex1) = tag /\
  get_ex0 (ptr tag pos ex0 ex1) = ex0 /\
  get_ex1 (ptr tag pos ex0 ex1) = ex1 /\
  get_pos (ptr tag pos ex0 ex1) = pos /\
  (forall arg, pos + arg < 2 ^ 53 ->
               get_loc (ptr tag pos ex0 ex1) arg = pos + arg).
Proof.
  intros Ht H0 H1 Hpos.
  split.
  { rewrite ptr_split by assumption.
    change (2 ^ 53) with 9007199254740992. change (2 ^ 33) with 8589934592 in Hpos.
    lia. }
  split; [now apply get_tag_ptr|]. split; [now apply get_ex0_ptr|].
  split; [now apply get_ex1_ptr|]. split; [now apply get_pos_ptr|].
  intros arg _. now apply get_loc_ptr.
Qed.

Lemma ptr_fields_witness :
  get_tag (ptr CTR 20 1 7) = CTR /\ get_ex0 (ptr CTR 20 1 7) = 1 /\
  get_ex1 (ptr CTR 20 1 7) = 7 /\ get_pos (ptr CTR 20 1 7) = 20.
Proof.
  destruct (ptr_fields CTR 20 1 7) as (_ & Ht & H0 & H1 & Hp & _);
    [unfold CTR; lia|lia|lia|reflexivity|auto].
Defined.

(** X2. Every number is the pointer of its own four fields: packing what
    the accessors read gives the number back. *)
Theorem ptr_of_fields (p : N) :
  ptr (get_tag p) (get_pos p) (get_ex0 p) (get_ex1 p) = p.
Proof.
  unfold ptr, get_tag, get_pos, get_ex0, get_ex1, MUL_A, MUL_B, MUL_C.
  change 15 with (N.ones 4). change 255 with (N.ones 8).
  rewrite !N.land_ones.
  change (2 ^ 4) with 16. change (2 ^ 8) with 256.
  change (2 ^ 12) with 4096. change (2 ^ 20) with 1048576.
  assert (p / 4096 = p / 16 / 256) as E1 by (rewrite N.Div0.div_div; reflexivity).
  assert (p / 1048576 = p / 16 / 256 / 256) as E2
    by (rewrite !N.Div0.div_div; reflexivity).
  rewrite E1, E2.
  pose proof (N.Div0.div_mod p 16) as D1.
  pose proof (N.Div0.div_mod (p / 16) 256) as D2.
  pose proof (N.Div0.div_mod (p / 16 / 256) 256) as D3.
  lia.
Qed.

(** X3. [ptr] does not mask its payloads: a first payload of 256 or more
    spills into the second and, past that, into the position.  The
    accessors then read the first payload modulo 256 and the second and
    the position with the carry added.  This is for a pointer below 2^53,
    where the sums and quotients of the source are exact. *)
Theorem ptr_overflow (tag pos ex0 ex1 : N) :
  tag < 16 -> ptr tag pos ex0 ex1 < 2 ^ 53 ->
  get_tag (ptr tag pos ex0 ex1) = tag /\
  get_ex0 (ptr tag pos ex0 ex1) = ex0 mod 256 /\
  get_ex1 (ptr tag pos ex0 ex1) = (ex1 + ex0 / 256) mod 256 /\
  get_pos (ptr tag pos ex0 ex1) = pos + (ex1 + ex0 / 256) / 256.
Proof.
  intros Ht _.
  assert (ptr tag pos ex0 ex1
          = ptr tag (pos + (ex1 + ex0 / 256) / 256) (ex0 mod 256)
                ((ex1 + ex0 / 256) mod 256)) as ->.
  { unfold ptr, MUL_A, MUL_B, MUL_C.
    change (2 ^ 4) with 16. change (2 ^ 12) with 4096.
    change (2 ^ 20) with 1048576.
    pose proof (N.Div0.div_mod ex0 256) as D1.
    pose proof (N.Div0.div_mod (ex1 + ex0 / 256) 256) as D2.
    lia. }
  assert (ex0 mod 256 < 256) as H0 by (apply N.mod_lt; lia).
  assert ((ex1 + ex0 / 256) mod 256 < 256) as H1 by (apply N.mod_lt; lia).
  split; [now apply get_tag_ptr|]. split; [now apply get_ex0_ptr|].
  split; [now apply get_ex1_ptr|now apply get_pos_ptr].
Qed.

Lemma ptr_overflow_witness :
  get_ex0 (ptr CTR 20 256 7) = 0 /\ get_ex1 (ptr CTR 20 256 7) = 8.
Proof.
  destruct (ptr_overflow CTR 20 256 7) as (_ & H0 & H1 & _);
    [unfold CTR; lia|vm_compute; reflexivity|].
  split; [exact H0|exact H1].
Defined.

(** ** Utils: [pad] *)

Lemma pad_loop_spec : forall fuel str len,
  (len - Z.of_nat (List.length str) <= Z.of_nat fuel)%Z ->
  pad_loop fuel str len
  = replicate (Z.to_nat (len - Z.of_nat (List.length str))) 32 ++ str.
Proof.
  induction fuel as [|f IH]; intros str len Hfuel; simpl.
  - replace (Z.to_nat (len - Z.of_nat (List.length str))) with O by lia. reflexivity.
  - destruct (Z.ltb_spec (Z.of_nat (List.length str)) len) as [Hlt|Hge].
    + rewrite IH by (change (List.length (32 :: str)) with (S (List.length str)); lia).
      change (List.length (32 :: str)) with (S (List.length str)).
      replace (Z.to_nat (len - Z.of_nat (List.length str)))
        with (S (Z.to_nat (len - Z.of_nat (S (List.length str))))) by lia.
      rewrite replicate_S_end, <- app_assoc. reflexivity.
    + replace (Z.to_nat (len - Z.of_nat (List.length str))) with O by lia. reflexivity.
Qed.

(** X4. [pad(str, len)] for a positive [len] has exactly [len] characters:
    the string with spaces in front when it is shorter, its last [len]
    characters when it is longer.  For [len = 0] it does not give the
    empty string but [str] itself ([slice(-0)] is [slice(0)]), and for a
    negative [len] it drops the first [-len] characters. *)
Theorem pad_spec (str : jstring) (len : Z) :
  ((0 < len)%Z -> List.length (pad str len) = Z.to_nat len) /\
  ((0 < len)%Z -> (Z.of_nat (List.length str) <= len)%Z ->
     pad str len = replicate (Z.to_nat len - List.length str) 32 ++ str) /\
  ((0 < len)%Z -> (len < Z.of_nat (List.length str))%Z ->
     pad str len = drop (List.length str - Z.to_nat len) str) /\
  (len = 0%Z -> pad str len = str) /\
  ((len < 0)%Z -> pad str len = drop (Z.to_nat (- len)) str).
Proof.
  unfold pad. rewrite pad_loop_spec by lia.
  set (k := Z.to_nat (len - Z.of_nat (List.length str))).
  assert (List.length (replicate k 32 ++ str) = (k + List.length str)%nat) as Hlen
    by (rewrite length_app, length_replicate; reflexivity).
  assert (k = O -> replicate k 32 ++ str = str) as Hk0 by (intros ->; reflexivity).
  unfold slice_from. rewrite Hlen.
  repeat split.
  - intros Hpos. destruct (Z.ltb_spec (- len) 0) as [_|]; [|lia].
    rewrite length_drop, Hlen. subst k. lia.
  - intros Hpos Hshort. destruct (Z.ltb_spec (- len) 0) as [_|]; [|lia].
    replace (Z.to_nat (Z.max (Z.of_nat (k + List.length str) + - len) 0)) with O
      by (subst k; lia).
    rewrite drop_0. f_equal. f_equal. subst k. lia.
  - intros Hpos Hlong. destruct (Z.ltb_spec (- len) 0) as [_|]; [|lia].
    rewrite Hk0 by (subst k; lia). f_equal. subst k. lia.
  - intros ->. rewrite Hk0 by (subst k; lia).
    replace (Z.to_nat (Z.min (- 0) (Z.of_nat (k + List.length str)))) with O by lia.
    apply drop_0.
  - intros Hneg. destruct (Z.ltb_spec (- len) 0) as [|_]; [lia|].
    rewrite Hk0 by (subst k; lia).
    destruct (Z.le_ge_cases (- len) (Z.of_nat (List.length str))) as [Hle|Hge].
    + f_equal. lia.
    + rewrite !drop_ge by lia. reflexivity.
Qed.

Lemma pad_spec_witness :
  pad (js "ab") 4 = js "  ab" /\ pad (js "abcdef") 4 = js "cdef" /\
  pad (js "ab") 0 = js "ab" /\ pad (js "abc") (-1) = js "bc".
Proof.
  destruct (pad_spec (js "ab") 4) as (_ & H1 & _).
  destruct (pad_spec (js "abcdef") 4) as (_ & _ & H2 & _).
  destruct (pad_spec (js "ab") 0) as (_ & _ & _ & H3 & _).
  destruct (pad_spec (js "abc") (-1)) as (_ & _ & _ & _ & H4).
  split; [apply H1; vm_compute; congruence|].
  split; [apply H2; vm_compute; congruence|].
  split; [apply H3; reflexivity|apply H4; reflexivity].
Defined.

(** ** Numbers as text: [parse_numb] against the printing of numbers *)

Lemma take_numb_app : forall ds acc rest,
  Forall (fun d => is_digit d = true) ds ->
  (forall x, head rest = Some x -> is_digit x = false) ->
  take_numb acc (ds ++ rest)
  = (fold_left (fun a d => a * 10 + (d - 48)) ds acc, rest).
Proof.
  induction ds as [|d ds IH]; intros acc rest Hds Hrest; simpl.
  - destruct rest as [|x r]; [reflexivity|]. simpl.
    now rewrite (Hrest x eq_refl).
  - apply Forall_cons in Hds as [Hd Hds]. rewrite Hd. now apply IH.
Qed.

Lemma pow2_succ (f : nat) : 2 ^ N.of_nat (S f) = 2 * 2 ^ N.of_nat f.
Proof. rewrite Nat2N.inj_succ. apply N.pow_succ_r'. Qed.

Lemma decimal_digits_S (f : nat) (n : N) :
  decimal_digits (S f) n
  = if n <? 10 then [48 + n]
    else decimal_digits f (n / 10) ++ [48 + n mod 10].
Proof. reflexivity. Qed.

Lemma decimal_digits_spec : forall f n,
  n < 2 ^ N.of_nat (S f) ->
  Forall (fun d => is_digit d = true) (decimal_digits (S f) n) /\
  decimal_digits (S f) n <> [] /\
  (forall acc,
     fold_left (fun a d => a * 10 + (d - 48)) (decimal_digits (S f) n) acc
     = acc * 10 ^ N.of_nat (List.length (decimal_digits (S f) n)) + n).
Proof.
  assert (forall n, n < 10 -> is_digit (48 + n) = true) as Hdig.
  { intros n Hn. unfold is_digit. apply andb_true_intro.
    split; apply N.leb_le; lia. }
  assert (forall n acc, n < 10 ->
            fold_left (fun a d => a * 10 + (d - 48)) [48 + n] acc
            = acc * 10 ^ N.of_nat (List.length [48 + n]) + n) as Hone.
  { intros n acc Hn. cbn [fold_left List.length].
    change (10 ^ N.of_nat 1) with 10. lia. }
  induction f as [|f IH]; intros n Hn.
  - assert (n < 10) as Hlt by (rewrite pow2_succ in Hn; simpl in Hn; lia).
    cbn [decimal_digits]. apply N.ltb_lt in Hlt as Hb. rewrite Hb.
    split; [constructor; [now apply Hdig|constructor]|].
    split; [discriminate|]. intros acc. now apply Hone.
  - rewrite (decimal_digits_S (S f)).
    destruct (N.ltb_spec n 10) as [Hlt|Hge].
    + split; [constructor; [now apply Hdig|constructor]|].
      split; [discriminate|]. intros acc. now apply Hone.
    + assert (n / 10 < 2 ^ N.of_nat (S f)) as Hdiv.
      { rewrite pow2_succ in Hn. apply N.Div0.div_lt_upper_bound. lia. }
      destruct (IH (n / 10) Hdiv) as (Hall & Hne & Hfold).
      assert (n mod 10 < 10) as Hmod by (apply N.mod_lt; lia).
      split; [apply Forall_app; split; [exact Hall|]; constructor;
              [now apply Hdig|constructor]|].
      split; [intros E; apply app_eq_nil in E as [_ E]; discriminate|].
      intros acc. rewrite fold_left_app, Hfold. cbn [fold_left].
      rewrite length_app. cbn [List.length].
      replace (N.of_nat (List.length (decimal_digits (S f) (n / 10)) + 1))
        with (N.succ (N.of_nat (List.length (decimal_digits (S f) (n / 10)))))
        by lia.
      rewrite N.pow_succ_r'.
      generalize (10 ^ N.of_nat (List.length (decimal_digits (S f) (n / 10)))).
      intros pw. pose proof (N.Div0.div_mod n 10) as D.
      rewrite (N.add_comm 48), N.add_sub.
      rewrite D at 3. ring.
Qed.

Lemma number_to_string_spec n :
  Forall (fun d => is_digit d = true) (number_to_string n) /\
  number_to_string n <> [] /\
  fold_left (fun a d => a * 10 + (d - 48)) (number_to_string n) 0 = n.
Proof.
  assert (n < 2 ^ N.of_nat (S (N.to_nat (N.log2 n)))) as Hfuel.
  { rewrite Nat2N.inj_succ, N2Nat.id.
    destruct (N.eq_dec n 0) as [->|Hn]; [cbn; lia|].
    apply N.log2_spec. lia. }
  unfold number_to_string.
  destruct (decimal_digits_spec _ n Hfuel) as (A & B & C).
  split; [exact A|]. split; [exact B|]. rewrite C. lia.
Qed.

Lemma take_numb_number (n : N) (rest : jstring) :
  (forall x, head rest = Some x -> is_digit x = false) ->
  take_numb 0 (number_to_string n ++ rest) = (n, rest).
Proof.
  intros Hrest. destruct (number_to_string_spec n) as (Hd & _ & Hv).
  rewrite take_numb_app by assumption. now rewrite Hv.
Qed.

(** X5. [parse_numb] reads back the decimal text of a number below 2^53
    (which [Number] converts exactly): on code that starts with the digits
    printed for [n], followed by the end of the text or by a character
    that is no digit, it returns [n] and leaves the code that follows the
    digits.  On code that does not start with a digit it returns 0 and
    consumes nothing.  Nothing else of the reader changes, and it never
    throws. *)
Theorem parse_numb_reads_decimal (r : Reader) (rest : jstring) :
  (forall x, head rest = Some x -> is_digit x = false) ->
  (forall n, n < 2 ^ 53 -> code r = number_to_string n ++ rest ->
     parse_numb r
     = Ret (n, mkReader rest (lams r) (let0s r) (let1s r) (tag0s r) (tag1s r)
                        (vars r) (heap r))) /\
  (code r = rest -> parse_numb r = Ret (0, r)).
Proof.
  intros Hrest. split.
  - intros n _ Hcode. unfold parse_numb, pbind, get_code, set_code, pret.
    rewrite Hcode, take_numb_number by assumption. reflexivity.
  - intros Hcode. unfold parse_numb, pbind, get_code, set_code, pret.
    assert (take_numb 0 (code r) = (0, code r)) as ->.
    { rewrite Hcode. destruct rest as [|x rest']; [reflexivity|].
      simpl. now rewrite (Hrest x eq_refl). }
    destruct r; reflexivity.
Qed.

Lemma parse_numb_reads_decimal_witness :
  parse_numb (mkReader (js "1048576<a b>") ∅ ∅ ∅ ∅ ∅ [] init)
  = Ret (1048576, mkReader (js "<a b>") ∅ ∅ ∅ ∅ ∅ [] init) /\
  parse_numb (mkReader (js "<a b>") ∅ ∅ ∅ ∅ ∅ [] init)
  = Ret (0, mkReader (js "<a b>") ∅ ∅ ∅ ∅ ∅ [] init).
Proof.
  assert (forall x, head (js "<a b>") = Some x -> is_digit x = false) as Hrest
    by (intros x [= <-]; reflexivity).
  destruct (parse_numb_reads_decimal
              (mkReader (js "1048576<a b>") ∅ ∅ ∅ ∅ ∅ [] init) (js "<a b>") Hrest)
    as [H1 _].
  destruct (parse_numb_reads_decimal
              (mkReader (js "<a b>") ∅ ∅ ∅ ∅ ∅ [] init) (js "<a b>") Hrest)
    as [_ H2].
  split; [apply (H1 1048576); vm_compute; reflexivity|apply H2; reflexivity].
Defined.

(** ** Stringification: [show_tag] and [show_ptr] *)

Lemma show_tag_name (tag : N) :
  tag <= 9 -> exists name, show_tag tag = Some name /\ List.length name = 3%nat.
Proof.
  intros Ht.
  assert (tag = 0 \/ tag = 1 \/ tag = 2 \/ tag = 3 \/ tag = 4 \/ tag = 5 \/
          tag = 6 \/ tag = 7 \/ tag = 8 \/ tag = 9) as H by lia.
  repeat destruct H as [->|H]; try subst tag; eexists; split;
    vm_compute; reflexivity.
Qed.

Lemma show_tag_inj (a b : N) :
  a <= 9 -> b <= 9 -> show_tag a = show_tag b -> a = b.
Proof.
  intros Ha Hb.
  assert (a = 0 \/ a = 1 \/ a = 2 \/ a = 3 \/ a = 4 \/ a = 5 \/
          a = 6 \/ a = 7 \/ a = 8 \/ a = 9) as HA by lia.
  assert (b = 0 \/ b = 1 \/ b = 2 \/ b = 3 \/ b = 4 \/ b = 5 \/
          b = 6 \/ b = 7 \/ b = 8 \/ b = 9) as HB by lia.
  repeat destruct HA as [->|HA]; try subst a;
    repeat destruct HB as [->|HB]; try subst b;
    intros E; try reflexivity; vm_compute in E; discriminate E.
Qed.

(** The text [show_ptr] puts after the position: nothing for color 0. *)
Lemma show_color_no_digit (c : N) (x : N) :
  head (if c =? 0 then [] else js "|" ++ number_to_string c) = Some x ->
  is_digit x = false.
Proof.
  destruct (c =? 0); [discriminate|]. intros [= <-]. reflexivity.
Qed.

(** X6. The text [show_ptr] gives a pointer of one of the ten tags tells
    exactly its tag, its position and its first payload: two such pointers
    are shown alike if and only if they agree on these three.  The second
    payload (the function of a Ctr or Cal) is not shown. *)
Theorem show_ptr_faithful (p q : N) :
  get_tag p <= 9 -> get_tag q <= 9 ->
  (show_ptr p = show_ptr q <->
   get_tag p = get_tag q /\ get_pos p = get_pos q /\ get_ex0 p = get_ex0 q).
Proof.
  intros Hp Hq. split.
  - unfold show_ptr. intros E.
    destruct (show_tag_name _ Hp) as (np & Enp & Lp).
    destruct (show_tag_name _ Hq) as (nq & Enq & Lq).
    rewrite Enp, Enq in E.
    change (default (js "undefined") (Some np)) with np in E.
    change (default (js "undefined") (Some nq)) with nq in E.
    apply app_inj_1 in E as [En E]; [|congruence].
    assert (get_tag p = get_tag q) as Ht
      by (apply show_tag_inj; [assumption..|congruence]).
    apply app_inv_head in E.
    assert (take_numb 0 (number_to_string (get_pos p) ++
              (if get_ex0 p =? 0 then []
               else js "|" ++ number_to_string (get_ex0 p)))
            = take_numb 0 (number_to_string (get_pos q) ++
              (if get_ex0 q =? 0 then []
               else js "|" ++ number_to_string (get_ex0 q)))) as T
      by (now rewrite E).
    rewrite !take_numb_number in T by apply show_color_no_digit.
    injection T as Epos Ecol.
    split; [exact Ht|]. split; [exact Epos|].
    destruct (N.eqb_spec (get_ex0 p) 0) as [Zp|Zp];
      destruct (N.eqb_spec (get_ex0 q) 0) as [Zq|Zq];
      [congruence|discriminate Ecol|discriminate Ecol|].
    assert (number_to_string (get_ex0 p) = number_to_string (get_ex0 q)) as Ed
      by (injection Ecol; auto).
    assert (take_numb 0 (number_to_string (get_ex0 p) ++ [])
            = take_numb 0 (number_to_string (get_ex0 q) ++ [])) as T
      by (now rewrite Ed).
    rewrite !take_numb_number in T by discriminate.
    now injection T.
  - intros (Ht & Hpos & Hcol). unfold show_ptr. now rewrite Ht, Hpos, Hcol.
Qed.

Lemma show_ptr_faithful_witness :
  show_ptr (ptr CTR 20 2 7) = show_ptr (ptr CTR 20 2 9) /\
  show_ptr (ptr CTR 20 2 7) = js "CTR:20|2" /\
  show_ptr (ptr DP0 20 2 0) <> show_ptr (ptr DP0 20 0 0).
Proof.
  split; [|split; [vm_compute; reflexivity|]].
  - apply (show_ptr_faithful (ptr CTR 20 2 7) (ptr CTR 20 2 9));
      [vm_compute; discriminate|vm_compute; discriminate|].
    repeat split; vm_compute; reflexivity.
  - intros E.
    apply (show_ptr_faithful (ptr DP0 20 2 0) (ptr DP0 20 0 0)) in E
      as (_ & _ & E); [|vm_compute; discriminate|vm_compute; discriminate].
    vm_compute in E. discriminate E.
Defined.

(** ** What every step of the runtime preserves

    A relation between states that is reflexive and transitive and holds
    across each call of [link], [free] and [alloc], and across [++GAS]
    where the gas test lets it happen, holds across [collect], [subst],
    the six rules, [reduce] and [normal]. *)

Section Preserved.

Variable R : State -> State -> Prop.
Hypothesis R_refl : forall s, R s s.
Hypothesis R_trans : forall s1 s2 s3, R s1 s2 -> R s2 s3 -> R s1 s3.
Hypothesis R_link : forall pos v s, R s (link pos v s).
Hypothesis R_free : forall p n s, R s (free p n s).
Hypothesis R_alloc : forall n s, R s (snd (alloc n s)).
Hypothesis R_tick : forall s, gas_out s = false -> R s (tick s).

(** Walks back from the state in the goal to the state it was built from. *)
Ltac chain :=
  repeat first
    [ assumption
    | apply R_refl
    | eapply R_trans; [|apply R_free]
    | eapply R_trans; [|apply R_link]
    | match goal with
      | A : alloc ?n ?s0 = (_, ?s1) |- R _ ?s1 =>
          apply (R_trans _ s0);
          [|let h := fresh in
            pose proof (R_alloc n s0) as h; rewrite A in h; exact h];
          clear A
      | H : R ?s0 ?s1 |- R _ ?s1 => apply (R_trans _ s0); [|exact H]; clear H
      end ].

Lemma collect_args_preserves (rec : Val -> option N -> State -> option State) :
  (forall v h s s', rec v h s = Some s' -> R s s') ->
  forall n term i s s',
    collect_args rec term i n s = Some s' -> R s s'.
Proof.
  intros Hrec. induction n as [|n IH]; intros term i s s' H; simpl in H.
  - injection H as <-. apply R_refl.
  - bind_inv H. apply IH in H. apply Hrec in E. exact (R_trans _ _ _ E H).
Qed.

Lemma collect_preserves fuel : forall term host s s',
  collect fuel term host s = Some s' -> R s s'.
Proof.
  induction fuel as [|f IH]; intros term host s s' H; simpl in H; [discriminate|].
  destruct term as [t|]; [|injection H as <-; apply R_refl].
  assert (forall h st, R st (match h with
            | Some h0 => if truthy h then free h0 1 st else st
            | None => st end)) as Hfree.
  { intros [h0|] st; [|apply R_refl].
    destruct (truthy (Some h0)); [apply R_free|apply R_refl]. }
  assert (forall h st, R st (match h with
            | Some h0 => if truthy h then link h0 (Some (ptr NIL 0 0 0)) st else st
            | None => st end)) as Hlink.
  { intros [h0|] st; [|apply R_refl].
    destruct (truthy (Some h0)); [apply R_link|apply R_refl]. }
  destruct (get_tag t =? LAM).
  { bind_inv H. injection H as <-. apply IH in E.
    eapply R_trans; [|apply R_free]. eapply R_trans; [|exact E].
    destruct (get_arg t 0 s) as [l|]; [|apply R_refl].
    destruct (get_tag l =? NIL); [apply R_refl|apply R_link]. }
  destruct (get_tag t =? APP).
  { bind_inv H. bind_inv H. injection H as <-. apply IH in E, E0.
    eapply R_trans; [|apply R_free]. exact (R_trans _ _ _ E E0). }
  destruct (get_tag t =? PAR).
  { bind_inv H. bind_inv H. injection H as <-. apply IH in E, E0.
    eapply R_trans; [|apply Hlink].
    eapply R_trans; [|apply R_free]. exact (R_trans _ _ _ E E0). }
  destruct (get_tag t =? DP0).
  { injection H as <-. eapply R_trans; [apply R_link|apply Hfree]. }
  destruct (get_tag t =? DP1).
  { injection H as <-. eapply R_trans; [apply R_link|apply Hfree]. }
  destruct ((get_tag t =? CTR) || (get_tag t =? CAL)).
  { bind_inv H. injection H as <-. eapply R_trans; [|apply R_free].
    eapply collect_args_preserves; [|exact E]. exact IH. }
  destruct (get_tag t =? VAR).
  { injection H as <-. eapply R_trans; [apply R_link|apply Hfree]. }
  injection H as <-. apply R_refl.
Qed.

Lemma subst_preserves fuel lnk val s s' :
  subst fuel lnk val s = Some s' -> R s s'.
Proof.
  unfold subst. destruct (tag_of lnk =? NIL).
  - apply collect_preserves.
  - destruct lnk; intros H; injection H as <-; [apply R_link|apply R_refl].
Qed.

Lemma app_lam_preserves fuel host term func s s' :
  app_lam fuel host term func s = Some s' -> R s s'.
Proof.
  unfold app_lam. intros H. bind_inv H. injection H as <-.
  apply subst_preserves in E. chain.
Qed.

Lemma app_par_preserves host term func s : R s (app_par host term func s).
Proof.
  unfold app_par.
  destruct (alloc 3 s) as [let0 s1] eqn:A1. destruct (alloc 2 s1) as [app0 s2] eqn:A2.
  destruct (alloc 2 s2) as [app1 s3] eqn:A3. destruct (alloc 2 s3) as [par0 s4] eqn:A4.
  chain.
Qed.

Lemma let_lam_preserves fuel host term expr s s' :
  let_lam fuel host term expr s = Some s' -> R s s'.
Proof.
  unfold let_lam. intros H.
  destruct (alloc 2 s) as [lam0 s1] eqn:A1. destruct (alloc 2 s1) as [lam1 s2] eqn:A2.
  destruct (alloc 2 s2) as [par0 s3] eqn:A3. destruct (alloc 3 s3) as [let0 s4] eqn:A4.
  bind_inv H. bind_inv H. bind_inv H. injection H as <-.
  apply subst_preserves in E, E0, E1. chain.
Qed.

Lemma let_par_annihilate_preserves fuel host term expr s s' :
  let_par_annihilate fuel host term expr s = Some s' -> R s s'.
Proof.
  unfold let_par_annihilate. intros H.
  bind_inv H. bind_inv H. injection H as <-.
  apply subst_preserves in E, E0. chain.
Qed.

Lemma let_par_commute_preserves fuel host term expr s s' :
  let_par_commute fuel host term expr s = Some s' -> R s s'.
Proof.
  unfold let_par_commute. intros H.
  destruct (alloc 2 s) as [par0 s1] eqn:A1. destruct (alloc 2 s1) as [par1 s2] eqn:A2.
  destruct (alloc 3 s2) as [let0 s3] eqn:A3. destruct (alloc 3 s3) as [let1 s4] eqn:A4.
  bind_inv H. bind_inv H. injection H as <-.
  apply subst_preserves in E, E0. chain.
Qed.

Lemma let_ctr_fields_preserves expr ctr0 ctr1 n : forall i s,
  R s (let_ctr_fields expr ctr0 ctr1 i n s).
Proof.
  induction n as [|n IH]; intros i s; simpl; [apply R_refl|].
  destruct (alloc 3 s) as [leti s1] eqn:A1.
  eapply R_trans; [|apply IH]. chain.
Qed.

Lemma let_ctr_preserves fuel host term expr s s' :
  let_ctr fuel host term expr s = Some s' -> R s s'.
Proof.
  unfold let_ctr. intros H.
  destruct (alloc (get_ex0 expr) s) as [ctr0 s1] eqn:A1.
  destruct (alloc (get_ex0 expr) s1) as [ctr1 s2] eqn:A2.
  bind_inv H. bind_inv H. injection H as <-.
  apply subst_preserves in E, E0.
  pose proof (let_ctr_fields_preserves expr ctr0 ctr1
                (N.to_nat (get_ex0 expr)) 0 s2) as F.
  chain.
Qed.

Lemma reduce_preserves fuel : forall host s r s',
  reduce fuel host s = Some (r, s') -> R s s'.
Proof.
  induction fuel as [|f IH]; intros host s r s' H; [discriminate|].
  simpl in H.
  destruct (mem_get host s) as [t|] eqn:Et;
    [|injection H as <- <-; apply R_refl].
  destruct (get_tag t =? APP).
  { destruct (reduce f (get_loc t 0) s) as [[func s1]|] eqn:E1; simpl in H; [|discriminate].
    apply IH in E1.
    destruct func as [fn|]; [|injection H as <- <-; exact E1].
    destruct (get_tag fn =? LAM).
    { destruct (gas_out s1) eqn:G; [injection H as <- <-; exact E1|].
      bind_inv H. apply app_lam_preserves in E. apply IH in H.
      exact (R_trans _ _ _ E1 (R_trans _ _ _ (R_tick _ G) (R_trans _ _ _ E H))). }
    destruct (get_tag fn =? PAR).
    { destruct (gas_out s1) eqn:G; [injection H as <- <-; exact E1|].
      injection H as <- <-.
      exact (R_trans _ _ _ E1 (R_trans _ _ _ (R_tick _ G) (app_par_preserves _ _ _ _))). }
    injection H as <- <-. exact E1. }
  destruct ((get_tag t =? DP0) || (get_tag t =? DP1)).
  { destruct (reduce f (get_loc t 2) s) as [[expr s1]|] eqn:E1; simpl in H; [|discriminate].
    apply IH in E1.
    destruct expr as [ex|]; [|injection H as <- <-; exact E1].
    destruct (get_tag ex =? LAM).
    { destruct (gas_out s1) eqn:G; [injection H as <- <-; exact E1|].
      bind_inv H. apply let_lam_preserves in E. apply IH in H.
      exact (R_trans _ _ _ E1 (R_trans _ _ _ (R_tick _ G) (R_trans _ _ _ E H))). }
    destruct (get_tag ex =? PAR).
    { destruct (gas_out s1) eqn:G; [injection H as <- <-; exact E1|].
      destruct (get_ex0 t =? get_ex0 ex).
      - bind_inv H. apply let_par_annihilate_preserves in E. apply IH in H.
        exact (R_trans _ _ _ E1 (R_trans _ _ _ (R_tick _ G) (R_trans _ _ _ E H))).
      - bind_inv H. apply let_par_commute_preserves in E. injection H as <- <-.
        exact (R_trans _ _ _ E1 (R_trans _ _ _ (R_tick _ G) E)). }
    destruct (get_tag ex =? CTR).
    { destruct (gas_out s1) eqn:G; [injection H as <- <-; exact E1|].
      bind_inv H. apply let_ctr_preserves in E. injection H as <- <-.
      exact (R_trans _ _ _ E1 (R_trans _ _ _ (R_tick _ G) E)). }
    injection H as <- <-. exact E1. }
  injection H as <- <-. apply R_refl.
Qed.

Lemma go_args_preserves
    (rec : N -> gset (option N) * State -> option (Val * (gset (option N) * State))) :
  (forall host seen s r seen' s',
     rec host (seen, s) = Some (r, (seen', s')) -> R s s') ->
  forall n term i seen s seen' s',
    go_args rec term i n (seen, s) = Some (seen', s') -> R s s'.
Proof.
  intros Hrec. induction n as [|n IH]; intros term i seen s seen' s' H; simpl in H.
  - injection H as <- <-. apply R_refl.
  - destruct (rec (get_loc term i) (seen, s)) as [[r [seen1 s1]]|] eqn:E;
      simpl in H; [|discriminate].
    apply Hrec in E. apply IH in H.
    exact (R_trans _ _ _ E (R_trans _ _ _ (R_link _ _ _) H)).
Qed.

Lemma go_preserves fuel : forall host seen s r seen' s',
  go fuel host (seen, s) = Some (r, (seen', s')) -> R s s'.
Proof.
  induction fuel as [|f IH]; intros host seen s r seen' s' H; [discriminate|].
  simpl in H.
  destruct (decide (seen_key (mem_get host s) ∈ seen));
    [injection H as <- <- <-; apply R_refl|].
  destruct (reduce f host s) as [[term s1]|] eqn:ER; simpl in H; [|discriminate].
  apply reduce_preserves in ER.
  destruct term as [t|]; [|injection H as <- <- <-; exact ER].
  destruct (get_tag t =? LAM).
  { destruct (go f (get_loc t 1) _) as [[r1 [seen1 s2]]|] eqn:E1; simpl in H; [|discriminate].
    injection H as <- <- <-. apply IH in E1. chain. }
  destruct ((get_tag t =? APP) || (get_tag t =? PAR)).
  { destruct (go f (get_loc t 0) _) as [[r1 [seen1 s2]]|] eqn:E1; simpl in H; [|discriminate].
    destruct (go f (get_loc t 1) _) as [[r2 [seen2 s3]]|] eqn:E2; simpl in H; [|discriminate].
    injection H as <- <- <-. apply IH in E1. apply IH in E2. chain. }
  destruct ((get_tag t =? DP0) || (get_tag t =? DP1)).
  { destruct (go f (get_loc t 2) _) as [[r1 [seen1 s2]]|] eqn:E1; simpl in H; [|discriminate].
    injection H as <- <- <-. apply IH in E1. chain. }
  destruct ((get_tag t =? CAL) || (get_tag t =? CTR)).
  { destruct (go_args _ _ _ _ _) as [[seen1 s2]|] eqn:E1; simpl in H; [|discriminate].
    injection H as <- <- <-. apply (go_args_preserves _ IH) in E1. chain. }
  injection H as <- <- <-. exact ER.
Qed.

Lemma normal_preserves fuel host s r s' :
  normal fuel host s = Some (r, s') -> R s s'.
Proof.
  intros H. apply normal_inv in H as [seen' H]. now apply go_preserves in H.
Qed.

End Preserved.

(** ** Allocator and collector: what the reuse stacks receive *)

Lemma free_stacks p n s :
  RE0 (free p n s) = (if n =? 0 then p :: RE0 s else RE0 s) /\
  RE1 (free p n s) = (if n =? 1 then p :: RE1 s else RE1 s) /\
  RE2 (free p n s) = (if n =? 2 then p :: RE2 s else RE2 s) /\
  RE3 (free p n s) = (if n =? 3 then p :: RE3 s else RE3 s).
Proof.
  pose proof (zero_cells_spec (N.to_nat n) p s) as (Hb & _).
  unfold buckets in Hb. injection Hb as H0 H1 H2 H3.
  unfold free.
  destruct (N.eqb_spec n 0) as [->|]; [simpl; repeat split; congruence|].
  destruct (N.eqb_spec n 1) as [->|]; [simpl; repeat split; congruence|].
  destruct (N.eqb_spec n 2) as [->|]; [simpl; repeat split; congruence|].
  destruct (N.eqb_spec n 3) as [->|]; [simpl; repeat split; congruence|].
  auto.
Qed.

Lemma stacks_grow_refl s : stacks_grow s s.
Proof. unfold stacks_grow. auto. Qed.

Lemma stacks_grow_trans s1 s2 s3 :
  stacks_grow s1 s2 -> stacks_grow s2 s3 -> stacks_grow s1 s3.
Proof.
  intros (A0 & A1 & A2 & A3) (B0 & B1 & B2 & B3).
  unfold stacks_grow. repeat split; etrans; eauto.
Qed.

Lemma link_stacks_grow pos v s : stacks_grow s (link pos v s).
Proof.
  pose proof (link_registers pos v s) as H. unfold registers in H.
  injection H as H0 H1 H2 H3 _ _ _. unfold stacks_grow.
  rewrite H0, H1, H2, H3. auto.
Qed.

Lemma free_stacks_grow p n s : stacks_grow s (free p n s).
Proof.
  destruct (free_stacks p n s) as (H0 & H1 & H2 & H3). unfold stacks_grow.
  rewrite H0, H1, H2, H3.
  clear. destruct (n =? 0), (n =? 1), (n =? 2), (n =? 3);
    repeat split; try reflexivity; apply suffix_cons_r; reflexivity.
Qed.

Lemma collect_stacks_grow fuel term host s s' :
  collect fuel term host s = Some s' -> stacks_grow s s'.
Proof.
  apply (collect_preserves stacks_grow stacks_grow_refl stacks_grow_trans
           link_stacks_grow free_stacks_grow).
Qed.

(** What [collect] does with a Var, Dp0 or Dp1 pointer. *)
Lemma collect_occurrence f v host s :
  get_tag v = VAR \/ get_tag v = DP0 \/ get_tag v = DP1 ->
  collect (S f) (Some v) host s
  = Some (let s1 := link (get_loc v (if get_tag v =? DP1 then 1 else 0))
                         (Some (ptr NIL 0 0 0)) s in
          match host with
          | Some h => if truthy host then free h 1 s1 else s1
          | None => s1
          end).
Proof.
  intros [T|[T|T]]; simpl; rewrite T; reflexivity.
Qed.

(** X8. [free] does not look at [IS_FREED]: a block of size 0 to 3 that
    is freed twice sits twice on the stack of its size, and the next two
    calls of [alloc] for that size both return it, so that two nodes
    share their cells. *)
Theorem double_free_aliases (p n : N) (s : State) :
  n <= 3 ->
  bucket n (free p n (free p n s)) = p :: p :: bucket n s /\
  fst (alloc n (free p n (free p n s))) = p /\
  fst (alloc n (snd (alloc n (free p n (free p n s))))) = p.
Proof.
  intros Hn.
  assert (bucket n (free p n (free p n s)) = p :: p :: bucket n s) as Hb
    by (rewrite !free_bucket_small by exact Hn; reflexivity).
  destruct (alloc_reuse n p _ _ Hn Hb) as (H1 & H2 & _).
  destruct (alloc_reuse n p _ _ Hn H2) as (H3 & _).
  auto.
Qed.

Lemma double_free_aliases_witness :
  fst (alloc 2 (free 1 2 (free 1 2 (reset_mem init)))) = 1 /\
  fst (alloc 2 (snd (alloc 2 (free 1 2 (free 1 2 (reset_mem init)))))) = 1.
Proof.
  destruct (double_free_aliases 1 2 (reset_mem init)) as (_ & H1 & H2); [lia|].
  split; [exact H1|exact H2].
Defined.

(** X9. [alloc] leaves the heap it finds alone: no cell below the length
    changes, the length does not go down, and the gas counter and its
    limit are kept.  A block taken from a stack is handed out as it is:
    the array is not touched at all, so the block holds what was written
    there since it was freed. *)
Theorem alloc_keeps_heap (n : N) (s : State) :
  (forall i, i < MEM_length s -> mem_get i (snd (alloc n s)) = mem_get i s) /\
  MEM_length s <= MEM_length (snd (alloc n s)) /\
  GAS (snd (alloc n s)) = GAS s /\ LIM (snd (alloc n s)) = LIM s /\
  (bucket n s <> [] ->
     MEM (snd (alloc n s)) = MEM s /\ MEM_length (snd (alloc n s)) = MEM_length s).
Proof.
  pose proof (alloc_budget n s) as Hb. unfold budget in Hb. injection Hb as Hg Hl.
  destruct (alloc_position n s) as (_ & _ & Hlen).
  assert (bucket n s <> [] ->
          MEM (snd (alloc n s)) = MEM s /\
          MEM_length (snd (alloc n s)) = MEM_length s) as Hre.
  { intros Hne. destruct (bucket n s) as [|p l] eqn:Hbk; [congruence|].
    assert (n <= 3) as Hn.
    { unfold bucket in Hbk. repeat case_match; try discriminate;
        repeat match goal with H : (_ =? _) = true |- _ => apply N.eqb_eq in H end; lia. }
    destruct (alloc_reuse n p l s Hn Hbk) as (_ & _ & Hm & Hml & _). auto. }
  split; [|auto].
  intros i Hi. destruct (bucket n s) as [|p l] eqn:Hbk.
  - destruct (N.eq_dec n 0) as [->|Hn0].
    + now rewrite alloc_zero_empty.
    + rewrite alloc_fresh by (auto; lia). simpl.
      destruct (push_zeros_spec (N.to_nat n) s) as (_ & _ & _ & Ho).
      apply Ho. lia.
  - destruct Hre as [Hm _]; [discriminate|]. unfold mem_get. now rewrite Hm.
Qed.

(** X10. [collect] and [subst] only give back: they pop no reuse stack
    (each stack after the call is the stack before it with positions
    pushed on top), and they leave the gas counter and its limit alone. *)
Theorem collect_only_frees :
  (forall fuel term host s s',
     collect fuel term host s = Some s' ->
     stacks_grow s s' /\ GAS s' = GAS s /\ LIM s' = LIM s) /\
  (forall fuel lnk val s s',
     subst fuel lnk val s = Some s' ->
     stacks_grow s s' /\ GAS s' = GAS s /\ LIM s' = LIM s).
Proof.
  split.
  - intros fuel term host s s' H.
    pose proof (collect_budget _ _ _ _ _ H) as Hb. unfold budget in Hb.
    injection Hb as Hg Hl.
    split; [now apply collect_stacks_grow in H|auto].
  - intros fuel lnk val s s' H.
    pose proof (subst_budget _ _ _ _ _ H) as Hb. unfold budget in Hb.
    injection Hb as Hg Hl.
    split; [|auto].
    apply (subst_preserves stacks_grow stacks_grow_refl stacks_grow_trans
             link_stacks_grow free_stacks_grow) in H. exact H.
Qed.

Lemma collect_only_frees_witness :
  match collect 5 (Some (ptr APP 8 0 0)) None (heap_of overlap_text) with
  | Some s' => stacks_grow (heap_of overlap_text) s' /\ GAS s' = 0
  | None => False
  end.
Proof.
  destruct (collect 5 (Some (ptr APP 8 0 0)) None (heap_of overlap_text))
    as [s'|] eqn:E.
  - destruct (proj1 collect_only_frees _ _ _ _ _ E) as (Hs & Hg & _).
    split; [exact Hs|]. rewrite Hg. vm_compute. reflexivity.
  - vm_compute in E. discriminate E.
Defined.

(** X11. Collecting an App or a Par whose first slot holds a Var, Dp0 or
    Dp1 frees that slot twice, once as a block of one cell (the
    [free(host, 1)] of the variable case) and once as the first cell of
    the node: after the call the position of the node is on the size-1
    stack, and it is the position the next [alloc(2)] returns. *)
Theorem collect_frees_head_twice
    (fuel : nat) (t v : N) (host : option N) (s s' : State) :
  get_tag t = APP \/ get_tag t = PAR ->
  mem_get (get_loc t 0) s = Some v ->
  get_tag v = VAR \/ get_tag v = DP0 \/ get_tag v = DP1 ->
  get_loc t 0 <> 0 ->
  collect fuel (Some t) host s = Some s' ->
  get_loc t 0 ∈ RE1 s' /\ fst (alloc 2 s') = get_loc t 0.
Proof.
  intros Tt Hv Tv Hne H.
  destruct fuel as [|f]; [discriminate|]. simpl in H.
  assert ((get_tag t =? LAM) = false) as E1
    by (destruct Tt as [-> | ->]; reflexivity).
  rewrite E1 in H.
  assert (truthy (Some (get_loc t 0)) = true) as Htr
    by (unfold truthy; apply negb_true_iff; now apply N.eqb_neq).
  assert (exists s1 s2,
            collect f (Some v) (Some (get_loc t 0)) s = Some s1 /\
            collect f (get_arg t 1 s1) (Some (get_loc t 1)) s1 = Some s2 /\
            registers s' = registers (free (get_loc t 0) 2 s2)) as (s1 & s2 & C1 & C2 & Hr).
  { change (get_arg t 0 s) with (mem_get (get_loc t 0) s) in H. rewrite Hv in H.
    destruct Tt as [Tt|Tt]; rewrite Tt in H.
    - change (APP =? APP) with true in H. cbv iota in H.
      bind_inv H. bind_inv H. injection H as <-. eauto.
    - change (PAR =? APP) with false in H. change (PAR =? PAR) with true in H.
      cbv iota in H.
      bind_inv H. bind_inv H. injection H as <-. exists s0, s1.
      split; [reflexivity|]. split; [exact E0|].
      destruct host as [h|]; [|reflexivity].
      destruct (truthy (Some h)); [apply link_registers|reflexivity]. }
  destruct f as [|f]; [discriminate|].
  rewrite collect_occurrence in C1 by exact Tv. cbv zeta in C1.
  rewrite Htr in C1. injection C1 as <-.
  apply collect_stacks_grow in C2 as (_ & S1 & _).
  destruct (free_stacks (get_loc t 0) 1
              (link (get_loc v (if get_tag v =? DP1 then 1 else 0))
                    (Some (ptr NIL 0 0 0)) s)) as (_ & F1 & _).
  change (1 =? 1) with true in F1. cbv iota in F1.
  destruct (free_stacks (get_loc t 0) 2 s2) as (_ & G1 & G2 & _).
  change (2 =? 1) with false in G1. change (2 =? 2) with true in G2.
  cbv iota in G1, G2.
  unfold registers in Hr. injection Hr as _ R1 R2 _ _ _ _.
  rewrite ?G1 in R1. rewrite ?G2 in R2.
  split.
  - rewrite R1. destruct S1 as [k ->]. rewrite F1. set_solver.
  - apply (alloc_reuse 2 (get_loc t 0) (RE2 s2)); [lia|].
    unfold bucket. change (2 =? 0) with false. change (2 =? 1) with false.
    change (2 =? 2) with true. cbv iota. exact R2.
Qed.

Lemma collect_frees_head_twice_witness :
  match collect 5 (Some (ptr APP 8 0 0)) None (heap_of overlap_text) with
  | Some s' => 8 ∈ RE1 s' /\ fst (alloc 2 s') = 8
  | None => False
  end.
Proof.
  destruct (collect 5 (Some (ptr APP 8 0 0)) None (heap_of overlap_text))
    as [s'|] eqn:E.
  - apply (collect_frees_head_twice 5 (ptr APP 8 0 0) (ptr VAR 1 0 0) None
             (heap_of overlap_text) s');
      [left; reflexivity|vm_compute; reflexivity|left; reflexivity
      |vm_compute; discriminate|exact E].
  - vm_compute in E. discriminate E.
Defined.

(** ** The runtime as a whole: the array and the counter *)

Lemma link_length pos v s : MEM_length s <= MEM_length (link pos v s).
Proof.
  unfold link. destruct v as [t|]; repeat case_match;
    rewrite ?mem_set_length; lia.
Qed.

(** X12. The cell array never shrinks: the length of [MEM] does not go
    down across [collect], [reduce] or [normal].  Freed cells are zeroed
    and kept for reuse, never given up. *)
Theorem heap_never_shrinks :
  (forall fuel term host s s',
     collect fuel term host s = Some s' -> MEM_length s <= MEM_length s') /\
  (forall fuel host s r s',
     reduce fuel host s = Some (r, s') -> MEM_length s <= MEM_length s') /\
  (forall fuel host s r s',
     normal fuel host s = Some (r, s') -> MEM_length s <= MEM_length s').
Proof.
  set (R := fun s s' : State => MEM_length s <= MEM_length s').
  assert (forall s, R s s) as R_refl by (intros s; unfold R; lia).
  assert (forall s1 s2 s3, R s1 s2 -> R s2 s3 -> R s1 s3) as R_trans
    by (unfold R; intros; lia).
  assert (forall pos v s, R s (link pos v s)) as R_link
    by (intros; apply link_length).
  assert (forall p n s, R s (free p n s)) as R_free
    by (intros p n s; apply free_cells).
  assert (forall n s, R s (snd (alloc n s))) as R_alloc
    by (intros n s; apply alloc_position).
  assert (forall s, gas_out s = false -> R s (tick s)) as R_tick
    by (intros s _; unfold R; simpl; lia).
  split; [|split].
  - intros fuel term host s s'. now apply (collect_preserves R).
  - intros fuel host s r s'. now apply (reduce_preserves R).
  - intros fuel host s r s'. now apply (normal_preserves R).
Qed.

Lemma heap_never_shrinks_witness :
  match normal 20 0 (heap_of S1_text) with
  | Some (_, s') => MEM_length (heap_of S1_text) <= MEM_length s'
  | None => False
  end.
Proof.
  destruct (normal 20 0 (heap_of S1_text)) as [[r s']|] eqn:E.
  - exact (proj2 (proj2 heap_never_shrinks) _ _ _ _ _ E).
  - vm_compute in E. discriminate E.
Defined.

(** X13. The gas counter never passes the limit: from a state whose
    counter is at most the limit, [reduce] and [normal] end in a state
    whose counter is at most the limit, and the limit is what it was. *)
Theorem gas_within_limit (L : N) :
  (forall fuel host s r s',
     LIM s = Some L -> GAS s <= L ->
     reduce fuel host s = Some (r, s') -> LIM s' = Some L /\ GAS s' <= L) /\
  (forall fuel host s r s',
     LIM s = Some L -> GAS s <= L ->
     normal fuel host s = Some (r, s') -> LIM s' = Some L /\ GAS s' <= L).
Proof.
  set (R := fun s s' : State =>
              LIM s' = LIM s /\ (LIM s = Some L -> GAS s <= L -> GAS s' <= L)).
  assert (forall s s', budget s' = budget s -> R s s') as R_budget.
  { intros s s' Hb. unfold budget in Hb. injection Hb as Hg Hl.
    split; [exact Hl|]. intros _ Hle. now rewrite Hg. }
  assert (forall s, R s s) as R_refl by (intros s; now apply R_budget).
  assert (forall s1 s2 s3, R s1 s2 -> R s2 s3 -> R s1 s3) as R_trans.
  { intros s1 s2 s3 [A1 A2] [B1 B2]. split; [congruence|].
    intros HL Hle. apply B2; [congruence|auto]. }
  assert (forall pos v s, R s (link pos v s)) as R_link
    by (intros; apply R_budget, link_budget).
  assert (forall p n s, R s (free p n s)) as R_free
    by (intros; apply R_budget, free_budget).
  assert (forall n s, R s (snd (alloc n s))) as R_alloc
    by (intros; apply R_budget, alloc_budget).
  assert (forall s, gas_out s = false -> R s (tick s)) as R_tick.
  { intros s Hgas. split; [reflexivity|]. intros HL _.
    unfold gas_out in Hgas. rewrite HL in Hgas. apply N.leb_gt in Hgas.
    simpl. lia. }
  split.
  - intros fuel host s r s' HL Hle H.
    apply (reduce_preserves R) in H as [H1 H2]; auto.
    split; [congruence|auto].
  - intros fuel host s r s' HL Hle H.
    apply (normal_preserves R) in H as [H1 H2]; auto.
    split; [congruence|auto].
Qed.

Lemma gas_within_limit_witness :
  match normal 20 0 (set_LIM (Some 1) (heap_of lazy_copy_text)) with
  | Some (_, s') => LIM s' = Some 1 /\ GAS s' <= 1
  | None => False
  end.
Proof.
  destruct (normal 20 0 (set_LIM (Some 1) (heap_of lazy_copy_text)))
    as [[r s']|] eqn:E.
  - apply (proj2 (gas_within_limit 1) 20%nat 0
             (set_LIM (Some 1) (heap_of lazy_copy_text)) r s');
      [reflexivity|vm_compute; discriminate|exact E].
  - vm_compute in E. discriminate E.
Defined.

(** ** The reader and the global state *)

Section ReaderKeeps.

Variable Q : State -> State -> Prop.
Hypothesis Q_refl : forall s, Q s s.
Hypothesis Q_trans : forall s1 s2 s3, Q s1 s2 -> Q s2 s3 -> Q s1 s3.
Hypothesis Q_link : forall pos v s, Q s (link pos v s).
Hypothesis Q_alloc : forall n s, Q s (snd (alloc n s)).

Lemma keeps_pret {A : Type} (a : A) : keeps Q (pret a).
Proof. intros r b r' [= <- <-]. apply Q_refl. Qed.

Lemma keeps_bind {A B : Type} (m : P A) (k : A -> P B) :
  keeps Q m -> (forall a, keeps Q (k a)) -> keeps Q (pbind m k).
Proof.
  intros Hm Hk r b r' H. unfold pbind in H.
  destruct (m r) as [[a r1]| |] eqn:E; try discriminate.
  apply (Q_trans _ (heap r1)); [eapply Hm; eauto|eapply Hk; eauto].
Qed.

Lemma keeps_get_code : keeps Q get_code.
Proof. intros r a r' [= <- <-]. apply Q_refl. Qed.

Lemma keeps_set_code c : keeps Q (set_code c).
Proof. intros r a r' [= <- <-]. apply Q_refl. Qed.

Lemma keeps_set_lam name node : keeps Q (set_lam name node).
Proof. intros r a r' [= <- <-]. apply Q_refl. Qed.

Lemma keeps_set_lets nam0 nam1 node col : keeps Q (set_lets nam0 nam1 node col).
Proof. intros r a r' [= <- <-]. apply Q_refl. Qed.

Lemma keeps_push_var name local : keeps Q (push_var name local).
Proof. intros r a r' [= <- <-]. apply Q_refl. Qed.

Lemma keeps_p_link pos v : keeps Q (p_link pos v).
Proof. intros r a r' [= <- <-]. apply Q_link. Qed.

Lemma keeps_p_alloc n : keeps Q (p_alloc n).
Proof.
  intros r a r' H. unfold p_alloc, on_heap in H.
  pose proof (Q_alloc n (heap r)) as HQ.
  destruct (alloc n (heap r)) as [p h]. injection H as <- <-. exact HQ.
Qed.

Lemma keeps_skip : keeps Q skip.
Proof.
  unfold skip. apply keeps_bind; [apply keeps_get_code|].
  intros c. apply keeps_set_code.
Qed.

Lemma keeps_parse_name : keeps Q parse_name.
Proof.
  unfold parse_name. apply keeps_bind; [apply keeps_skip|intros _].
  apply keeps_bind; [apply keeps_get_code|intros c].
  destruct (take_name c) as [name rest].
  apply keeps_bind; [apply keeps_set_code|intros _]. apply keeps_pret.
Qed.

Lemma keeps_parse_numb : keeps Q parse_numb.
Proof.
  unfold parse_numb. apply keeps_bind; [apply keeps_get_code|intros c].
  destruct (take_numb 0 c) as [n rest].
  apply keeps_bind; [apply keeps_set_code|intros _]. apply keeps_pret.
Qed.

Lemma keeps_eat str : keeps Q (eat str).
Proof.
  unfold eat, consume. apply keeps_bind; [|intros c; apply keeps_set_code].
  apply keeps_bind; [apply keeps_skip|intros _].
  apply keeps_bind; [apply keeps_get_code|intros c].
  destruct (decide (take (List.length str) c = str)); [apply keeps_pret|].
  intros r a r' H. discriminate H.
Qed.

Lemma keeps_parse_args (rec : N -> P N) node :
  (forall local, keeps Q (rec local)) ->
  forall n i, keeps Q (parse_args rec node i n).
Proof.
  intros Hrec. induction n as [|n IH]; intros i; simpl; [apply keeps_pret|].
  apply keeps_bind; [apply Hrec|intros a].
  apply keeps_bind; [apply IH|intros l]. apply keeps_pret.
Qed.

Lemma keeps_link_args node : forall args i, keeps Q (link_args node i args).
Proof.
  induction args as [|a l IH]; intros i; simpl; [apply keeps_pret|].
  apply keeps_bind; [apply keeps_p_link|intros _]. apply IH.
Qed.

Lemma keeps_parse_term : forall fuel local, keeps Q (parse_term fuel local).
Proof.
  induction fuel as [|f IH]; intros local; [intros r a r' H; discriminate H|].
  simpl.
  apply keeps_bind; [apply keeps_skip|intros _].
  apply keeps_bind; [apply keeps_get_code|intros c].
  assert (keeps Q (name <~ parse_name ;; push_var name local >>~
                   pret (ptr NIL 0 0 0))) as Hdefault.
  { apply keeps_bind; [apply keeps_parse_name|intros name].
    apply keeps_bind; [apply keeps_push_var|intros _]. apply keeps_pret. }
  destruct c as [|x c']; [exact Hdefault|].
  repeat match goal with
    | |- keeps Q (if ?b then _ else _) => destruct b
    end;
    try exact Hdefault;
    repeat first
      [ apply keeps_pret | apply keeps_eat | apply keeps_parse_name
      | apply keeps_parse_numb | apply keeps_p_link | apply keeps_p_alloc
      | apply keeps_set_lam | apply keeps_set_lets | apply keeps_link_args
      | apply keeps_skip | apply IH
      | apply keeps_parse_args; exact IH
      | apply keeps_bind; [|intros ?] ].
Qed.

Lemma build_keeps (r : Reader) : Q (heap r) (build r).
Proof.
  unfold build. generalize (heap r) as h. induction (vars r) as [|v l IH]; intros h.
  - apply Q_refl.
  - simpl. eapply Q_trans; [|apply IH].
    unfold build_var. destruct v as [var_name var_pos].
    repeat match goal with
      | |- context [match ?m !! ?k with _ => _ end] => destruct (m !! k)
      end;
      repeat first [apply Q_refl | eapply Q_trans; [|apply Q_link]].
Qed.

Lemma read_keeps fuel text s v s' :
  read fuel text s = Ret (v, s') -> Q (reset_mem s) s'.
Proof.
  unfold read. intros H.
  destruct (pbind _ _ _) as [[u r]| |] eqn:E; try discriminate.
  injection H as _ <-.
  assert (keeps Q (t <~ parse_term fuel 0 ;; p_link 0 (Some t))) as Hk
    by (apply keeps_bind; [apply keeps_parse_term|intros t; apply keeps_p_link]).
  apply Hk in E. simpl in E. exact (Q_trans _ _ _ E (build_keeps r)).
Qed.

End ReaderKeeps.

Lemma alloc_stacks_shrink n s : stacks_grow (snd (alloc n s)) s.
Proof.
  assert (forall k st, stacks_grow (push_zeros k st) st) as Hpz.
  { intros k st. destruct (push_zeros_spec k st) as (Hr & _).
    unfold registers in Hr. injection Hr as H0 H1 H2 H3 _ _ _.
    unfold stacks_grow. rewrite H0, H1, H2, H3. auto. }
  assert (forall l : list N, l `suffix_of` l) as Hrefl by reflexivity.
  assert (forall (p : N) l, l `suffix_of` p :: l) as Hcons
    by (intros p l; apply suffix_cons_r; reflexivity).
  assert (forall l : list N, [] `suffix_of` l) as Hnil
    by (intros l; apply suffix_nil).
  unfold alloc.
  destruct (n =? 0); [|destruct (n =? 1); [|destruct (n =? 2); [|destruct (n =? 3)]]].
  - destruct (RE0 s) as [|p l] eqn:E; simpl;
      [destruct (0 <? n); simpl; [eapply stacks_grow_trans; [apply Hpz|]|]|];
      unfold stacks_grow; simpl; rewrite ?E; auto.
  - destruct (RE1 s) as [|p l] eqn:E; simpl;
      [destruct (0 <? n); simpl; [eapply stacks_grow_trans; [apply Hpz|]|]|];
      unfold stacks_grow; simpl; rewrite ?E; auto.
  - destruct (RE2 s) as [|p l] eqn:E; simpl;
      [destruct (0 <? n); simpl; [eapply stacks_grow_trans; [apply Hpz|]|]|];
      unfold stacks_grow; simpl; rewrite ?E; auto.
  - destruct (RE3 s) as [|p l] eqn:E; simpl;
      [destruct (0 <? n); simpl; [eapply stacks_grow_trans; [apply Hpz|]|]|];
      unfold stacks_grow; simpl; rewrite ?E; auto.
  - destruct (0 <? n); simpl; [apply Hpz|apply stacks_grow_refl].
Qed.

(** X14. [read] starts a new cell array but keeps the rest of the global
    state: the gas counter and its limit are what they were, and each
    reuse stack is what is left of the old one after the reader's [alloc]
    calls popped from it.  Positions freed in the heap of an earlier term
    are thus handed out to the nodes of the new one. *)
Theorem read_keeps_registers
    (fuel : nat) (text : jstring) (s : State) (v : Val) (s' : State) :
  read fuel text s = Ret (v, s') ->
  GAS s' = GAS s /\ LIM s' = LIM s /\ stacks_grow s' s.
Proof.
  intros H.
  set (Q := fun h h' : State => budget h' = budget h /\ stacks_grow h' h).
  assert (Q (reset_mem s) s') as [Hb Hs].
  { apply (read_keeps Q) with (fuel := fuel) (text := text) (v := v); auto.
    - intros st. split; [reflexivity|apply stacks_grow_refl].
    - intros s1 s2 s3 [A1 A2] [B1 B2].
      split; [congruence|eapply stacks_grow_trans; eauto].
    - intros pos u st. split; [apply link_budget|].
      pose proof (link_registers pos u st) as Hr. unfold registers in Hr.
      injection Hr as H0 H1 H2 H3 _ _ _. unfold stacks_grow.
      rewrite H0, H1, H2, H3. auto.
    - intros n st. split; [apply alloc_budget|apply alloc_stacks_shrink]. }
  unfold budget in Hb. injection Hb as Hg Hl. auto.
Qed.

Lemma read_keeps_registers_witness :
  match read 18 S1_text (normalized S1_text) with
  | Ret (_, s') =>
      GAS s' = 1 /\ RE2 (normalized S1_text) = [3; 1] /\ RE2 s' = [] /\
      stacks_grow s' (normalized S1_text)
  | _ => False
  end.
Proof.
  destruct (read 18 S1_text (normalized S1_text)) as [[v s']| |] eqn:E.
  - destruct (read_keeps_registers _ _ _ _ _ E) as (Hg & _ & Hs).
    split; [rewrite Hg; vm_compute; reflexivity|].
    split; [vm_compute; reflexivity|]. split; [|exact Hs].
    vm_compute in E. injection E as _ <-. reflexivity.
  - vm_compute in E. discriminate E.
  - vm_compute in E. discriminate E.
Defined.

Lemma skip_spaces_idem c : skip_spaces (skip_spaces c) = skip_spaces c.
Proof.
  induction c as [|x c IH]; [reflexivity|]. simpl.
  destruct ((x =? 32) || (x =? 10)) eqn:E; [exact IH|]. simpl. now rewrite E.
Qed.

(** [parse_term] on code that opens none of the six forms. *)
Lemma parse_term_plain fuel local r :
  (forall x, head (skip_spaces (code r)) = Some x -> opens_form x = false) ->
  parse_term (S fuel) local r
  = Ret (ptr NIL 0 0 0,
         mkReader (snd (take_name (skip_spaces (code r)))) (lams r) (let0s r)
                  (let1s r) (tag0s r) (tag1s r)
                  (vars r ++ [(fst (take_name (skip_spaces (code r))), local)])
                  (heap r)).
Proof.
  intros Hplain.
  assert ((name <~ parse_name ;; push_var name local >>~ pret (ptr NIL 0 0 0))
            (mkReader (skip_spaces (code r)) (lams r) (let0s r) (let1s r)
                      (tag0s r) (tag1s r) (vars r) (heap r))
          = Ret (ptr NIL 0 0 0,
         mkReader (snd (take_name (skip_spaces (code r)))) (lams r) (let0s r)
                  (let1s r) (tag0s r) (tag1s r)
                  (vars r ++ [(fst (take_name (skip_spaces (code r))), local)])
                  (heap r))) as Hdefault.
  { unfold parse_name, skip, pbind, get_code, set_code, push_var, pret. simpl.
    rewrite skip_spaces_idem.
    destruct (take_name (skip_spaces (code r))) as [name rest]. reflexivity. }
  simpl. unfold pbind at 1. unfold skip at 1. unfold pbind at 1.
  unfold get_code at 1. unfold set_code at 1. unfold pbind at 1.
  unfold get_code at 1. cbn [code].
  remember (mkReader (skip_spaces (code r)) (lams r) (let0s r) (let1s r)
                     (tag0s r) (tag1s r) (vars r) (heap r)) as r1 eqn:Er1.
  remember (Ret (ptr NIL 0 0 0,
         mkReader (snd (take_name (skip_spaces (code r)))) (lams r) (let0s r)
                  (let1s r) (tag0s r) (tag1s r)
                  (vars r ++ [(fst (take_name (skip_spaces (code r))), local)])
                  (heap r))) as res eqn:Eres.
  clear Er1 Eres.
  destruct (skip_spaces (code r)) as [|x c']; [exact Hdefault|].
  specialize (Hplain x eq_refl). unfold opens_form in Hplain.
  repeat (apply orb_false_elim in Hplain as [Hplain ?]).
  repeat match goal with H : (_ =? _) = false |- _ => rewrite H; clear H end.
  exact Hdefault.
Qed.

Lemma link_root_nil s : link 0 (Some (ptr NIL 0 0 0)) (reset_mem s) = reset_mem s.
Proof.
  unfold link. change (get_tag (ptr NIL 0 0 0)) with 0.
  change (0 =? VAR) with false. change (0 =? DP0) with false.
  change (0 =? DP1) with false. cbv iota.
  unfold mem_set, reset_mem. simpl. f_equal.
Qed.

(** X15. A text whose first character after spaces and newlines opens
    none of the six forms (that is neither [λ], [(], [&], [!], [$] nor
    [@]), the empty text included, is read as a variable: when the name
    read is none of those every object inherits (such as [constructor]),
    [read] throws nothing, returns Nil and leaves the array [[Nil]],
    whatever follows the name and even when the name is empty.  A
    variable no binder declares is left unlinked without a complaint. *)
Theorem read_plain_text (fuel : nat) (text : jstring) (s : State) :
  (forall x, head (skip_spaces text) = Some x -> opens_form x = false) ->
  fst (take_name (skip_spaces text)) ∉ inherited_names ->
  read (S fuel) text s = Ret (Some (ptr NIL 0 0 0), reset_mem s).
Proof.
  intros Hplain _. unfold read. unfold pbind at 1.
  rewrite parse_term_plain by exact Hplain.
  unfold p_link, on_heap. cbn [heap code lams let0s let1s tag0s tag1s vars].
  rewrite link_root_nil.
  unfold build. cbn [heap code lams let0s let1s tag0s tag1s vars].
  simpl. rewrite !lookup_empty.
  unfold mem_get, reset_mem. simpl. rewrite lookup_singleton_eq. reflexivity.
Qed.

Lemma read_plain_text_witness :
  read 1 (js "  f (λx: x)") init = Ret (Some (ptr NIL 0 0 0), reset_mem init) /\
  read 1 (js "#") init = Ret (Some (ptr NIL 0 0 0), reset_mem init) /\
  read 1 [] init = Ret (Some (ptr NIL 0 0 0), reset_mem init).
Proof.
  split; [|split]; apply read_plain_text;
    try (intros x H; vm_compute in H; try discriminate H; injection H as <-;
         reflexivity);
    apply (bool_decide_unpack _); vm_compute; exact I.
Defined.

(** ** Debug: [sanity_check] against back-edge integrity *)

Lemma get_loc_0 (l : N) : get_loc l 0 = get_pos l.
Proof. unfold get_loc, get_pos. apply N.add_0_r. Qed.

(** X16. What [sanity_check] checks.  On a heap that passes, every Var,
    Dp0 and Dp1 cell of the array names a binder slot that holds a
    pointer whose position is the index of the cell; the tag of that
    pointer is not looked at.  Conversely a heap with back-edge integrity
    in which no Lam cell has a body slot holding 0 passes. *)
Theorem sanity_check_meaning (s : State) :
  (sanity_check s = true ->
     forall i c slot, i < MEM_length s -> mem_get i s = Some c ->
       binder_slot c = Some slot ->
       exists l, mem_get slot s = Some l /\ get_pos l = i) /\
  (back_edge_integrity s ->
   (forall i c, mem_get i s = Some c -> get_tag c = LAM ->
                mem_get (get_loc c 1) s <> Some 0) ->
   sanity_check s = true).
Proof.
  unfold sanity_check. rewrite forallb_forall. split.
  - intros Hall i c slot Hi Hc Hslot.
    assert (cell_sane i s = true) as Hsane.
    { rewrite <- (N2Nat.id i). apply Hall. apply in_seq. lia. }
    unfold cell_sane in Hsane. rewrite Hc in Hsane.
    unfold binder_slot in Hslot.
    destruct ((get_tag c =? VAR) || (get_tag c =? DP0)).
    + injection Hslot as <-.
      destruct (mem_get (get_loc c 0) s) as [l|]; [|discriminate].
      exists l. split; [reflexivity|].
      apply N.eqb_eq in Hsane. now rewrite <- get_loc_0.
    + destruct (get_tag c =? DP1); [|discriminate].
      injection Hslot as <-.
      destruct (mem_get (get_loc c 1) s) as [l|]; [|discriminate].
      exists l. split; [reflexivity|].
      apply N.eqb_eq in Hsane. now rewrite <- get_loc_0.
  - intros Hint Hlam k _. unfold cell_sane.
    destruct (mem_get (N.of_nat k) s) as [c|] eqn:Hc; [|reflexivity].
    pose proof (Hint (N.of_nat k) c) as Hb. unfold binder_slot in Hb.
    destruct ((get_tag c =? VAR) || (get_tag c =? DP0)).
    + destruct (Hb _ Hc eq_refl) as (l & -> & _ & Hp).
      apply N.eqb_eq. now rewrite get_loc_0.
    + destruct (get_tag c =? DP1).
      * destruct (Hb _ Hc eq_refl) as (l & -> & _ & Hp).
        apply N.eqb_eq. now rewrite get_loc_0.
      * destruct (N.eqb_spec (get_tag c) LAM) as [Tl|]; [|reflexivity].
        apply negb_true_iff, bool_decide_eq_false. now apply (Hlam (N.of_nat k)).
Qed.

Lemma sanity_check_meaning_witness :
  exists l, mem_get 5 (heap_of S1_text) = Some l /\ get_pos l = 8.
Proof.
  apply (proj1 (sanity_check_meaning (heap_of S1_text)))
    with (c := ptr VAR 5 0 0); vm_compute; reflexivity.
Defined.

(** ** The reader's lexer *)

Lemma take_name_spec : forall c,
  c = fst (take_name c) ++ snd (take_name c) /\
  Forall (fun x => is_name_char x = true) (fst (take_name c)) /\
  (forall x, head (snd (take_name c)) = Some x -> is_name_char x = false).
Proof.
  induction c as [|x c (IH1 & IH2 & IH3)]; simpl.
  - split; [reflexivity|]. split; [constructor|discriminate].
  - destruct (is_name_char x) eqn:E.
    + destruct (take_name c) as [n r']. simpl in *.
      split; [now f_equal|]. split; [now constructor|exact IH3].
    + simpl. split; [reflexivity|]. split; [constructor|].
      intros y [= <-]. exact E.
Qed.

(** X17. [parse_name] skips spaces and newlines and then takes the
    longest run of name characters (letters, digits, [_] and [.]): the
    code it found is the name followed by the code it leaves, and the code
    it leaves does not start with a name character.  It throws nothing
    and returns the empty name when no name character comes first; the
    rest of the reader's state is kept. *)
Theorem parse_name_longest (r : Reader) :
  exists name rest,
    parse_name r
    = Ret (name, mkReader rest (lams r) (let0s r) (let1s r) (tag0s r) (tag1s r)
                          (vars r) (heap r)) /\
    skip_spaces (code r) = name ++ rest /\
    Forall (fun x => is_name_char x = true) name /\
    (forall x, head rest = Some x -> is_name_char x = false).
Proof.
  destruct (take_name_spec (skip_spaces (code r))) as (H1 & H2 & H3).
  exists (fst (take_name (skip_spaces (code r)))),
         (snd (take_name (skip_spaces (code r)))).
  split; [|auto].
  unfold parse_name, skip, pbind, get_code, set_code, pret. simpl.
  destruct (take_name (skip_spaces (code r))) as [name rest]. reflexivity.
Qed.

(** X18. [consume(str)] skips spaces and newlines and then succeeds
    exactly when the code starts with [str]: it returns what follows
    [str], and otherwise throws ["Bad parse: "] followed by [str].  It
    assigns only the skipped code: its callers store the result. *)
Theorem consume_prefix (str : jstring) (r : Reader) :
  (forall rest, skip_spaces (code r) = str ++ rest ->
     consume str r
     = Ret (rest, mkReader (str ++ rest) (lams r) (let0s r) (let1s r)
                           (tag0s r) (tag1s r) (vars r) (heap r))) /\
  ((forall rest, skip_spaces (code r) <> str ++ rest) ->
     consume str r = Throw (bad_parse ++ str)).
Proof.
  split.
  - intros rest Hc.
    unfold consume, skip, pbind, get_code, set_code, pret. simpl.
    rewrite Hc, take_app_length, drop_app_length.
    destruct (decide (str = str)); [reflexivity|congruence].
  - intros Hno.
    unfold consume, skip, pbind, get_code, set_code, pret. simpl.
    destruct (decide (take (List.length str) (skip_spaces (code r)) = str))
      as [E|]; [|reflexivity].
    exfalso. apply (Hno (drop (List.length str) (skip_spaces (code r)))).
    pose proof (take_drop (List.length str) (skip_spaces (code r))) as Htd.
    rewrite E in Htd. now symmetry.
Qed.

Lemma consume_prefix_witness :
  consume (js ")") (mkReader (js "  ) b") ∅ ∅ ∅ ∅ ∅ [] init)
  = Ret (js " b", mkReader (js ") b") ∅ ∅ ∅ ∅ ∅ [] init) /\
  consume (js ")") (mkReader (js " b)") ∅ ∅ ∅ ∅ ∅ [] init)
  = Throw (js "Bad parse: )").
Proof.
  split.
  - apply (proj1 (consume_prefix (js ")")
                    (mkReader (js "  ) b") ∅ ∅ ∅ ∅ ∅ [] init)) (js " b")).
    vm_compute. reflexivity.
  - apply (proj2 (consume_prefix (js ")")
                    (mkReader (js " b)") ∅ ∅ ∅ ∅ ∅ [] init))).
    intros rest H. vm_compute in H. discriminate H.
Defined.

(** ** The normalizer's answer *)

(** X19. What [normal] returns is what [reduce] returned at the host on
    entry, the weak head normal form found before any subterm was
    normalized; it is not read again from the host afterwards. *)
Theorem normal_returns_whnf (fuel : nat) (host : N) (s : State) (r : Val) (s' : State) :
  normal (S fuel) host s = Some (r, s') ->
  exists s1, reduce fuel host s = Some (r, s1).
Proof.
  intros H. apply normal_inv in H as [seen' H]. simpl in H.
  destruct (decide (seen_key (mem_get host s) ∈ ∅)) as [Hin|_]; [set_solver|].
  destruct (reduce fuel host s) as [[term s1]|] eqn:ER; simpl in H; [|discriminate].
  exists s1. f_equal. f_equal.
  destruct term as [t|]; [|now injection H as <- _ _].
  repeat match type of H with
    | (if ?b then _ else _) = _ => destruct b
    | mbind _ ?m = Some _ =>
        destruct m as [[? [? ?]]|] eqn:?; simpl in H; [|discriminate H]
    end;
    try (now injection H as <- _ _).
Qed.

Lemma normal_returns_whnf_witness :
  exists s1, reduce 29 0 (heap_of scope_text) = Some (Some (ptr APP 1 0 0), s1).
Proof.
  eassert (normal 30 0 (heap_of scope_text) = Some (Some (ptr APP 1 0 0), _)) as E
    by (vm_compute; reflexivity).
  exact (normal_returns_whnf 29 0 _ _ _ E).
Defined.

(** ** APP-PAR on a well-linked heap

    The cells of the state after the rule, read off the sequence of
    writes: the last write to a cell wins. *)

Lemma link_get pos v s i :
  mem_get i (link pos v s)
  = if decide (slot_of v = Some i) then Some (ptr LNK pos 0 0)
    else if decide (i = pos) then v else mem_get i s.
Proof.
  destruct (decide (slot_of v = Some i)) as [Hs|Hs].
  - destruct v as [p|]; [|discriminate]. simpl in Hs.
    now destruct (link_occurrence pos p i s Hs).
  - destruct (decide (i = pos)) as [->|Hne].
    + destruct v as [p|]; [|apply link_plain; discriminate].
      destruct (binder_slot p) as [slot|] eqn:Hp.
      * destruct (link_occurrence pos p slot s Hp) as [_ H]. apply H.
        intros ->. apply Hs. exact Hp.
      * apply link_plain. intros ? [= <-]. exact Hp.
    + apply link_frame; [exact Hne|].
      intros p slot -> Hp ->. apply Hs. exact Hp.
Qed.

Lemma free_get p n s i :
  mem_get i (free p n s) = if decide (p <= i < p + n) then Some 0 else mem_get i s.
Proof.
  destruct (free_cells p n s) as (Hz & Ho & _).
  destruct (decide (p <= i < p + n)); [now apply Hz|now apply Ho].
Qed.

Lemma alloc_fresh_get n s :
  bucket n s = [] -> 0 < n ->
  fst (alloc n s) = MEM_length s /\
  registers (snd (alloc n s)) = registers s /\
  MEM_length (snd (alloc n s)) = MEM_length s + n /\
  (forall i, mem_get i (snd (alloc n s))
             = if decide (MEM_length s <= i < MEM_length s + n) then Some 0
               else mem_get i s).
Proof.
  intros Hb Hn. rewrite alloc_fresh by assumption. simpl.
  destruct (push_zeros_spec (N.to_nat n) s) as (Hr & Hl & Hz & Ho).
  rewrite N2Nat.id in *. repeat split; auto.
  intros i. destruct (decide _); [now apply Hz|now apply Ho].
Qed.

Lemma get_loc_add p k : get_loc p k = get_loc p 0 + k.
Proof. unfold get_loc. lia. Qed.

Lemma get_ex0_bound p : get_ex0 p < 256.
Proof.
  unfold get_ex0. change 255 with (N.ones 8). rewrite N.land_ones.
  apply N.mod_lt. discriminate.
Qed.

Lemma lnk_inj i j : ptr LNK i 0 0 = ptr LNK j 0 0 -> i = j.
Proof.
  intros H. apply (f_equal get_pos) in H.
  rewrite !get_pos_ptr in H by (unfold LNK; lia). exact H.
Qed.

Lemma lnk_tag i : get_tag (ptr LNK i 0 0) = LNK.
Proof. apply get_tag_ptr; unfold LNK; lia. Qed.

Lemma binder_slot_tag p :
  (get_tag p = VAR -> binder_slot p = Some (get_loc p 0)) /\
  (get_tag p = DP0 -> binder_slot p = Some (get_loc p 0)) /\
  (get_tag p = DP1 -> binder_slot p = Some (get_loc p 1)) /\
  (get_tag p <> VAR -> get_tag p <> DP0 -> get_tag p <> DP1 -> binder_slot p = None).
Proof.
  unfold binder_slot. repeat split.
  - intros ->. reflexivity.
  - intros ->. reflexivity.
  - intros ->. reflexivity.
  - intros H1 H2 H3. apply N.eqb_neq in H1, H2, H3. now rewrite H1, H2, H3.
Qed.

Lemma zero_cells_length : forall n k s,
  MEM_length (zero_cells n k s)
  = N.max (MEM_length s) (match n with O => 0 | S _ => k + N.of_nat n end).
Proof.
  induction n as [|n IH]; intros k s; simpl; [lia|].
  rewrite IH, mem_set_length. simpl. destruct n; lia.
Qed.

Lemma free_length p n s :
  MEM_length (free p n s) = N.max (MEM_length s) (if n =? 0 then 0 else p + n).
Proof.
  assert (MEM_length (free p n s) = MEM_length (zero_cells (N.to_nat n) p s)) as ->.
  { unfold free. repeat case_match; reflexivity. }
  rewrite zero_cells_length.
  destruct (N.eqb_spec n 0) as [->|Hn]; [reflexivity|].
  destruct (N.to_nat n) eqn:E; lia.
Qed.

Lemma link_length_eq pos v s :
  MEM_length (link pos v s)
  = N.max (N.max (MEM_length s) (pos + 1))
          (match slot_of v with Some slot => slot + 1 | None => 0 end).
Proof.
  unfold link, slot_of. destruct v as [p|]; simpl; [|rewrite ?mem_set_length; lia].
  unfold binder_slot.
  destruct (get_tag p =? VAR); simpl; [rewrite ?mem_set_length; lia|].
  destruct (get_tag p =? DP0); simpl; [rewrite ?mem_set_length; lia|].
  destruct (get_tag p =? DP1); simpl; rewrite ?mem_set_length; lia.
Qed.

Lemma link_length_same B pos v s :
  MEM_length s = B -> pos < B -> (forall x, slot_of v = Some x -> x < B) ->
  MEM_length (link pos v s) = B.
Proof.
  intros HB Hpos Hslot. rewrite link_length_eq.
  destruct (slot_of v) as [x|]; [specialize (Hslot x eq_refl)|]; lia.
Qed.

Lemma free_length_same B p n s :
  MEM_length s = B -> p + n <= B -> MEM_length (free p n s) = B.
Proof.
  intros HB Hp. rewrite free_length. destruct (n =? 0); lia.
Qed.

Lemma link_REs pos v s :
  RE2 (link pos v s) = RE2 s /\ RE3 (link pos v s) = RE3 s.
Proof.
  pose proof (link_registers pos v s) as H. unfold registers in H.
  injection H as H0 H1 H2 H3 _ _ _. auto.
Qed.

Lemma slot_of_ptr pos c0 :
  c0 < 256 ->
  slot_of (Some (ptr DP0 pos c0 0)) = Some pos /\
  slot_of (Some (ptr DP1 pos c0 0)) = Some (pos + 1) /\
  slot_of (Some (ptr APP pos 0 0)) = None /\
  slot_of (Some (ptr PAR pos c0 0)) = None /\
  slot_of (Some (ptr LNK pos 0 0)) = None /\
  slot_of (Some 0) = None.
Proof.
  intros Hc0. unfold slot_of. simpl.
  assert (forall t e, t < 16 -> e < 256 -> get_tag (ptr t pos e 0) = t) as Ht
    by (intros; apply get_tag_ptr; lia).
  assert (forall t e k, t < 16 -> e < 256 -> get_loc (ptr t pos e 0) k = pos + k) as Hl
    by (intros; apply get_loc_ptr; lia).
  split; [|split; [|split; [|split; [|split]]]].
  - rewrite (proj1 (proj2 (binder_slot_tag _))) by (apply Ht; [unfold DP0|]; lia).
    rewrite Hl by (unfold DP0; lia). f_equal. lia.
  - rewrite (proj1 (proj2 (proj2 (binder_slot_tag _)))) by (apply Ht; [unfold DP1|]; lia).
    rewrite Hl by (unfold DP1; lia). reflexivity.
  - apply binder_slot_tag; rewrite Ht by (unfold APP; lia); discriminate.
  - apply binder_slot_tag; rewrite Ht by (unfold PAR; lia); discriminate.
  - apply binder_slot_lnk.
  - reflexivity.
Qed.

Lemma if_decide_some {A : Type} (x i : N) (u v : A) :
  (if decide (Some x = Some i) then u else v) = (if decide (i = x) then u else v).
Proof. repeat case_decide; congruence. Qed.

Lemma node_size_ptr tag pos c0 :
  tag < 16 -> c0 < 256 ->
  node_size (ptr tag pos c0 0)
  = (if (tag =? LAM) || (tag =? APP) || (tag =? PAR) then 2
     else if (tag =? DP0) || (tag =? DP1) then 3
     else if (tag =? CTR) || (tag =? CAL) then c0 else 0) /\
  (forall k, get_loc (ptr tag pos c0 0) k = pos + k).
Proof.
  intros Ht Hc0. split.
  - unfold node_size. rewrite get_tag_ptr, get_ex0_ptr by lia. reflexivity.
  - intros k. apply get_loc_ptr; lia.
Qed.

Section AppPar.

Variables (host term func : N) (s : State).
Variables (L T F col : N) (c a b : Val).
Hypothesis EL : L = MEM_length s.
Hypothesis ET : T = get_loc term 0.
Hypothesis EF : F = get_loc func 0.
Hypothesis Ecol : col = get_ex0 func.
Hypothesis Ec : c = get_arg term 1 s.
Hypothesis Ea : a = get_arg func 0 s.
Hypothesis Eb : b = get_arg func 1 s.
Hypothesis Hw : well_linked s.
Hypothesis HRE2 : RE2 s = [].
Hypothesis HRE3 : RE3 s = [].
Hypothesis Hhost : mem_get host s = Some term.
Hypothesis Tterm : get_tag term = APP.
Hypothesis Hfunc : mem_get T s = Some func.
Hypothesis Tfunc : get_tag func = PAR.
Hypothesis Hc : tag_of c <> LNK.
Hypothesis Ha : tag_of a <> LNK.
Hypothesis Hb : tag_of b <> LNK.
Hypothesis Hapart : T + 2 <= F \/ F + 2 <= T.
Hypothesis Hh : host <> T + 1 /\ host <> F /\ host <> F + 1.

Lemma app_par_cells :
  mem_get (T + 1) s = c /\ mem_get F s = a /\ mem_get (F + 1) s = b.
Proof.
  subst. unfold get_arg. rewrite !(get_loc_add _ 1). auto.
Qed.

Lemma app_par_ranges : host < L /\ T + 2 <= L /\ F + 2 <= L /\ host <> T.
Proof.
  destruct Hw as (Hwf & Hbd & Hrange).
  assert (host < L) as H1 by (subst L; apply Hwf; unfold mem_get in Hhost; eauto).
  assert (node_size term = 2) as N1 by (unfold node_size; rewrite Tterm; reflexivity).
  assert (node_size func = 2) as N2 by (unfold node_size; rewrite Tfunc; reflexivity).
  pose proof (Hrange host term 1 Hhost ltac:(lia)) as H2.
  pose proof (Hrange T func 1 Hfunc ltac:(lia)) as H3.
  rewrite get_loc_add in H2, H3. rewrite <- ET, <- EL in H2. rewrite <- EF, <- EL in H3.
  repeat split; try lia.
  intros E. rewrite <- E in Hfunc. rewrite Hhost in Hfunc.
  injection Hfunc as ->. rewrite Tterm in Tfunc. discriminate.
Qed.

(** Cells that hold a back-link are apart from the host and the two nodes. *)
Lemma app_par_lnk_apart slot h :
  mem_get slot s = Some (ptr LNK h 0 0) ->
  slot < L /\ slot <> host /\ ~ (T <= slot < T + 2) /\ ~ (F <= slot < F + 2).
Proof.
  intros Hl. destruct Hw as (Hwf & _ & _).
  destruct app_par_cells as (Cc & Ca & Cb).
  split; [subst L; apply Hwf; unfold mem_get in Hl; eauto|].
  split; [|split].
  - intros ->. rewrite Hhost in Hl. injection Hl as ->.
    rewrite lnk_tag in Tterm. discriminate.
  - intros Hr. assert (slot = T \/ slot = T + 1) as [->| ->] by lia.
    + rewrite Hfunc in Hl. injection Hl as ->.
      rewrite lnk_tag in Tfunc. discriminate.
    + apply Hc. rewrite <- Cc, Hl. simpl. apply lnk_tag.
  - intros Hr. assert (slot = F \/ slot = F + 1) as [->| ->] by lia.
    + apply Ha. rewrite <- Ca, Hl. simpl. apply lnk_tag.
    + apply Hb. rewrite <- Cb, Hl. simpl. apply lnk_tag.
Qed.

(** The binder slot a cell names holds the back-link to the cell. *)
Lemma app_par_slot h v slot :
  mem_get h s = v -> slot_of v = Some slot ->
  mem_get slot s = Some (ptr LNK h 0 0).
Proof.
  intros Hv Hs. destruct v as [p|]; [|discriminate].
  destruct Hw as (_ & Hbd & _). exact (Hbd h p slot Hv Hs).
Qed.

Lemma app_par_slots_apart slot :
  (slot_of c = Some slot ->
     slot < L /\ slot <> host /\ ~ (T <= slot < T + 2) /\ ~ (F <= slot < F + 2) /\
     slot_of a <> Some slot /\ slot_of b <> Some slot) /\
  (slot_of a = Some slot ->
     slot < L /\ slot <> host /\ ~ (T <= slot < T + 2) /\ ~ (F <= slot < F + 2) /\
     slot_of b <> Some slot) /\
  (slot_of b = Some slot ->
     slot < L /\ slot <> host /\ ~ (T <= slot < T + 2) /\ ~ (F <= slot < F + 2)).
Proof.
  destruct app_par_cells as (Cc & Ca & Cb).
  assert (forall h h', mem_get slot s = Some (ptr LNK h 0 0) ->
                       mem_get slot s = Some (ptr LNK h' 0 0) -> h = h') as Hinj
    by (intros h h' H1 H2; apply lnk_inj; congruence).
  split; [|split].
  - intros Hs. pose proof (app_par_slot _ _ _ Cc Hs) as Hl.
    destruct (app_par_lnk_apart _ _ Hl) as (A1 & A2 & A3 & A4).
    do 4 (split; [assumption|]). split.
    + intros Hs'. pose proof (app_par_slot _ _ _ Ca Hs') as Hl'.
      pose proof (Hinj _ _ Hl Hl'). lia.
    + intros Hs'. pose proof (app_par_slot _ _ _ Cb Hs') as Hl'.
      pose proof (Hinj _ _ Hl Hl'). lia.
  - intros Hs. pose proof (app_par_slot _ _ _ Ca Hs) as Hl.
    destruct (app_par_lnk_apart _ _ Hl) as (A1 & A2 & A3 & A4).
    do 4 (split; [assumption|]).
    intros Hs'. pose proof (app_par_slot _ _ _ Cb Hs') as Hl'.
    pose proof (Hinj _ _ Hl Hl'). lia.
  - intros Hs. pose proof (app_par_slot _ _ _ Cb Hs) as Hl.
    exact (app_par_lnk_apart _ _ Hl).
Qed.

(** Closes a case that contradicts what is known of the binder slots. *)
Ltac slots_absurd :=
  exfalso;
  repeat match goal with
    | H : slot_of c = Some ?x |- _ =>
        let X := fresh in
        pose proof (proj1 (app_par_slots_apart x) H) as X; revert H;
        destruct X as (? & ? & ? & ? & ? & ?)
    | H : slot_of a = Some ?x |- _ =>
        let X := fresh in
        pose proof (proj1 (proj2 (app_par_slots_apart x)) H) as X; revert H;
        destruct X as (? & ? & ? & ? & ?)
    | H : slot_of b = Some ?x |- _ =>
        let X := fresh in
        pose proof (proj2 (proj2 (app_par_slots_apart x)) H) as X; revert H;
        destruct X as (? & ? & ? & ?)
    end;
  intros;
  first [lia | congruence | contradiction
        | match goal with H : _ <> _ |- _ => apply H; congruence end].

Ltac table_cases :=
  repeat (case_decide; try (exfalso; lia); try slots_absurd).

Lemma RE2_free2 p st : RE2 (free p 2 st) = p :: RE2 st.
Proof. now destruct (free_stacks p 2 st) as (_ & _ & -> & _). Qed.

Lemma RE2_link pos v st : RE2 (link pos v st) = RE2 st.
Proof. apply link_REs. Qed.

(** The rule with its four allocations and its three reads resolved. *)
Lemma app_par_unfold :
  exists s4,
    (forall j, mem_get j s4
               = if decide (L <= j < L + 9) then Some 0 else mem_get j s) /\
    RE2 s4 = [] /\ MEM_length s4 = L + 9 /\
    app_par host term func s
    = free F 2 (free T 2
        (link host (Some (ptr PAR (L + 7) col 0))
        (link (L + 8) (Some (ptr APP (L + 5) 0 0))
        (link (L + 7) (Some (ptr APP (L + 3) 0 0))
        (link (L + 6) (Some (ptr DP1 L col 0))
        (link (L + 5) b
        (link (L + 4) (Some (ptr DP0 L col 0))
        (link (L + 3) a
        (link (L + 2) c s4))))))))).
Proof.
  destruct app_par_ranges as (R1 & R2 & R3 & R4).
  destruct app_par_cells as (Cc & Ca & Cb).
  assert (col < 256) as Hcol by (subst col; apply get_ex0_bound).
  destruct (alloc_fresh_get 3 s) as (P1 & Q1 & Len1 & G1); [exact HRE3|lia|].
  destruct (alloc 3 s) as [let0 s1] eqn:A1. simpl in P1, Q1, Len1, G1.
  assert (RE2 s1 = []) as B1
    by (unfold registers in Q1; injection Q1 as _ _ -> _ _ _ _; exact HRE2).
  destruct (alloc_fresh_get 2 s1) as (P2 & Q2 & Len2 & G2); [exact B1|lia|].
  destruct (alloc 2 s1) as [app0 s2] eqn:A2. simpl in P2, Q2, Len2, G2.
  assert (RE2 s2 = []) as B2
    by (unfold registers in Q2; injection Q2 as _ _ -> _ _ _ _; exact B1).
  destruct (alloc_fresh_get 2 s2) as (P3 & Q3 & Len3 & G3); [exact B2|lia|].
  destruct (alloc 2 s2) as [app1 s3] eqn:A3. simpl in P3, Q3, Len3, G3.
  assert (RE2 s3 = []) as B3
    by (unfold registers in Q3; injection Q3 as _ _ -> _ _ _ _; exact B2).
  destruct (alloc_fresh_get 2 s3) as (P4 & Q4 & Len4 & G4); [exact B3|lia|].
  destruct (alloc 2 s3) as [par0 s4] eqn:A4. simpl in P4, Q4, Len4, G4.
  assert (RE2 s4 = []) as B4
    by (unfold registers in Q4; injection Q4 as _ _ -> _ _ _ _; exact B3).
  assert (let0 = L) as -> by lia. assert (app0 = L + 3) as -> by lia.
  assert (app1 = L + 5) as -> by lia. assert (par0 = L + 7) as -> by lia.
  assert (forall j, mem_get j s4
                    = if decide (L <= j < L + 9) then Some 0 else mem_get j s) as G.
  { intros j. rewrite G4, G3, G2, G1.
    repeat case_decide; try lia; reflexivity. }
  exists s4. split; [exact G|]. split; [exact B4|]. split; [lia|].
  unfold app_par. rewrite A1. cbv beta iota. rewrite A2. cbv beta iota.
  rewrite A3. cbv beta iota. rewrite A4. cbv beta iota zeta.
  rewrite <- EF, <- ET, <- Ecol.
  destruct (slot_of_ptr L col Hcol) as (S0 & _).
  assert (get_arg term 1 s4 = c) as ->.
  { unfold get_arg. rewrite get_loc_add, <- ET, G. rewrite decide_False by lia.
    exact Cc. }
  assert (get_arg func 0 (link (L + 2) c s4) = a) as ->.
  { unfold get_arg. rewrite <- EF, link_get, G. table_cases. exact Ca. }
  assert (get_arg func 1 (link (L + 3 + 1) (Some (ptr DP0 L col 0))
                            (link (L + 3 + 0) a (link (L + 2) c s4))) = b) as ->.
  { unfold get_arg. rewrite get_loc_add, <- EF, !link_get, G, S0.
    table_cases; try (exfalso; simplify_eq; lia). exact Cb. }
  rewrite !N.add_0_r.
  replace (L + 7 + 1) with (L + 8) by lia. replace (L + 5 + 1) with (L + 6) by lia.
  replace (L + 3 + 1) with (L + 4) by lia. reflexivity.
Qed.

Lemma app_par_table i :
  mem_get i (app_par host term func s)
  = if decide (F <= i < F + 2) then Some 0
    else if decide (T <= i < T + 2) then Some 0
    else if decide (i = host) then Some (ptr PAR (L + 7) col 0)
    else if decide (i = L + 8) then Some (ptr APP (L + 5) 0 0)
    else if decide (i = L + 7) then Some (ptr APP (L + 3) 0 0)
    else if decide (i = L + 1) then Some (ptr LNK (L + 6) 0 0)
    else if decide (i = L + 6) then Some (ptr DP1 L col 0)
    else if decide (slot_of b = Some i) then Some (ptr LNK (L + 5) 0 0)
    else if decide (i = L + 5) then b
    else if decide (i = L) then Some (ptr LNK (L + 4) 0 0)
    else if decide (i = L + 4) then Some (ptr DP0 L col 0)
    else if decide (slot_of a = Some i) then Some (ptr LNK (L + 3) 0 0)
    else if decide (i = L + 3) then a
    else if decide (slot_of c = Some i) then Some (ptr LNK (L + 2) 0 0)
    else if decide (i = L + 2) then c
    else if decide (L <= i < L + 9) then Some 0
    else mem_get i s.
Proof.
  destruct app_par_unfold as (s4 & G & _ & _ & ->).
  assert (col < 256) as Hcol by (subst col; apply get_ex0_bound).
  destruct (slot_of_ptr L col Hcol) as (S0 & S1 & _).
  destruct (slot_of_ptr (L + 3) col Hcol) as (_ & _ & SA3 & _).
  destruct (slot_of_ptr (L + 5) col Hcol) as (_ & _ & SA5 & _).
  destruct (slot_of_ptr (L + 7) col Hcol) as (_ & _ & _ & SP & _).
  rewrite !free_get, !link_get, G, S0, S1, SA3, SA5, SP.
  rewrite !if_decide_some.
  destruct (decide (None = Some i)) as [?|_]; [discriminate|]. reflexivity.
Qed.

Lemma app_par_registers :
  RE2 (app_par host term func s) = [F; T] /\
  MEM_length (app_par host term func s) = L + 9.
Proof.
  destruct app_par_ranges as (R1 & R2 & R3 & R4).
  destruct app_par_unfold as (s4 & _ & B4 & Len & ->).
  assert (col < 256) as Hcol by (subst col; apply get_ex0_bound).
  split.
  - rewrite !RE2_free2, !RE2_link, B4. reflexivity.
  - destruct (slot_of_ptr L col Hcol) as (S0 & S1 & _).
    destruct (slot_of_ptr (L + 3) col Hcol) as (_ & _ & SA3 & _).
    destruct (slot_of_ptr (L + 5) col Hcol) as (_ & _ & SA5 & _).
    destruct (slot_of_ptr (L + 7) col Hcol) as (_ & _ & _ & SP & _).
    repeat first [apply free_length_same | apply link_length_same];
      try lia; try exact Len; intros x Hx;
      rewrite ?S0, ?S1, ?SA3, ?SA5, ?SP in Hx; try discriminate Hx;
      try (injection Hx as <-; lia);
      first [ destruct (proj2 (proj2 (app_par_slots_apart x)) Hx) as (? & _)
            | destruct (proj1 (proj2 (app_par_slots_apart x)) Hx) as (? & _)
            | destruct (proj1 (app_par_slots_apart x) Hx) as (? & _) ];
      lia.
Qed.

(** Walks down the table in a hypothesis, one row at a time. *)
Ltac table_rows H :=
  repeat match type of H with
    | (if @decide ?P ?d then _ else _) = _ => destruct (@decide P d)
    | is_Some (if @decide ?P ?d then _ else _) => destruct (@decide P d)
    end.

(** Reads the table in the goal at an index the context pins down. *)
Ltac table_read :=
  rewrite app_par_table;
  repeat match goal with
    | |- (if @decide ?P ?d then _ else _) = _ =>
        destruct (@decide P d); try (exfalso; lia); try slots_absurd
    end.

Lemma app_par_bonded : bonded (app_par host term func s).
Proof.
  destruct app_par_ranges as (R1 & R2 & R3 & R4).
  destruct app_par_cells as (Cc & Ca & Cb).
  assert (col < 256) as Hcol by (subst col; apply get_ex0_bound).
  destruct (slot_of_ptr L col Hcol) as (S0 & S1 & _ & _ & _ & SZ).
  destruct (slot_of_ptr (L + 3) col Hcol) as (_ & _ & SA3 & _).
  destruct (slot_of_ptr (L + 5) col Hcol) as (_ & _ & SA5 & _).
  destruct (slot_of_ptr (L + 7) col Hcol) as (_ & _ & _ & SP & _).
  assert (forall p, slot_of (Some (ptr LNK p 0 0)) = None) as SL
    by (intros p; apply binder_slot_lnk).
  intros i x slot Hi Hslot.
  assert (forall v, v = Some x -> slot_of v = Some slot) as Hv
    by (intros v ->; exact Hslot).
  rewrite app_par_table in Hi. table_rows Hi;
    try (apply Hv in Hi; rewrite ?SZ, ?SP, ?SA3, ?SA5, ?SL in Hi; discriminate Hi).
  - (* the Dp1 of the second application *)
    apply Hv in Hi. rewrite S1 in Hi. injection Hi as <-. subst i.
    table_read. reflexivity.
  - (* the second component, moved *)
    apply Hv in Hi. subst i. table_read. reflexivity.
  - (* the Dp0 of the first application *)
    apply Hv in Hi. rewrite S0 in Hi. injection Hi as <-. subst i.
    table_read. reflexivity.
  - (* the first component, moved *)
    apply Hv in Hi. subst i. table_read. reflexivity.
  - (* the argument, moved *)
    apply Hv in Hi. subst i. table_read. reflexivity.
  - (* a cell the rule did not write *)
    destruct Hw as (_ & Hbd & _).
    pose proof (Hbd i x slot Hi Hslot) as Hl.
    destruct (app_par_lnk_apart _ _ Hl) as (A1 & A2 & A3 & A4).
    assert (forall h v, mem_get h s = v -> slot_of v = Some slot -> h = i) as Hhome.
    { intros h v Hh' Hs. apply lnk_inj.
      pose proof (app_par_slot _ _ _ Hh' Hs) as Hl'. congruence. }
    assert (slot_of b <> Some slot) as Nb
      by (intros Hs; pose proof (Hhome _ _ Cb Hs); lia).
    assert (slot_of a <> Some slot) as Na
      by (intros Hs; pose proof (Hhome _ _ Ca Hs); lia).
    assert (slot_of c <> Some slot) as Nc
      by (intros Hs; pose proof (Hhome _ _ Cc Hs); lia).
    rewrite app_par_table. clear - A1 A2 A3 A4 Nb Na Nc R1 R2 R3 Hl.
    repeat match goal with
      | |- (if @decide ?P ?d then _ else _) = _ =>
          destruct (@decide P d) as [?|_]; [exfalso; first [contradiction|lia]|]
      end.
    exact Hl.
Qed.

Lemma app_par_array_wf : array_wf (app_par host term func s).
Proof.
  destruct app_par_ranges as (R1 & R2 & R3 & R4).
  destruct app_par_registers as (_ & Len).
  intros k Hk. rewrite Len.
  change (is_Some (mem_get k (app_par host term func s))) in Hk.
  rewrite app_par_table in Hk. table_rows Hk; try lia.
  - destruct (proj2 (proj2 (app_par_slots_apart k))) as (? & _); [assumption|lia].
  - destruct (proj1 (proj2 (app_par_slots_apart k))) as (? & _); [assumption|lia].
  - destruct (proj1 (app_par_slots_apart k)) as (? & _); [assumption|lia].
  - destruct Hw as (Hwf & _). specialize (Hwf k Hk). lia.
Qed.

Lemma app_par_slots_in_range : slots_in_range (app_par host term func s).
Proof.
  destruct app_par_ranges as (R1 & R2 & R3 & R4).
  destruct app_par_cells as (Cc & Ca & Cb).
  destruct app_par_registers as (_ & Len).
  assert (col < 256) as Hcol by (subst col; apply get_ex0_bound).
  destruct Hw as (_ & _ & Hrange).
  assert (forall h x k, mem_get h s = Some x -> k < node_size x ->
                        get_loc x k < L + 9) as Hold
    by (intros h x k Hx Hk; pose proof (Hrange h x k Hx Hk); lia).
  destruct (node_size_ptr PAR (L + 7) col) as (NP & LP); [unfold PAR; lia|lia|].
  destruct (node_size_ptr APP (L + 5) 0) as (NA5 & LA5); [unfold APP; lia|lia|].
  destruct (node_size_ptr APP (L + 3) 0) as (NA3 & LA3); [unfold APP; lia|lia|].
  destruct (node_size_ptr DP1 L col) as (ND1 & LD1); [unfold DP1; lia|lia|].
  destruct (node_size_ptr DP0 L col) as (ND0 & LD0); [unfold DP0; lia|lia|].
  assert (forall p, node_size (ptr LNK p 0 0) = 0) as NL
    by (intros p; apply node_size_ptr; [unfold LNK|]; lia).
  change (if (PAR =? LAM) || (PAR =? APP) || (PAR =? PAR) then 2
          else if (PAR =? DP0) || (PAR =? DP1) then 3
          else if (PAR =? CTR) || (PAR =? CAL) then col else 0) with 2 in NP.
  change (if (APP =? LAM) || (APP =? APP) || (APP =? PAR) then 2
          else if (APP =? DP0) || (APP =? DP1) then 3
          else if (APP =? CTR) || (APP =? CAL) then 0 else 0) with 2 in NA5, NA3.
  change (if (DP1 =? LAM) || (DP1 =? APP) || (DP1 =? PAR) then 2
          else if (DP1 =? DP0) || (DP1 =? DP1) then 3
          else if (DP1 =? CTR) || (DP1 =? CAL) then col else 0) with 3 in ND1.
  change (if (DP0 =? LAM) || (DP0 =? APP) || (DP0 =? PAR) then 2
          else if (DP0 =? DP0) || (DP0 =? DP1) then 3
          else if (DP0 =? CTR) || (DP0 =? CAL) then col else 0) with 3 in ND0.
  intros i x k Hi Hk. rewrite Len.
  rewrite app_par_table in Hi. table_rows Hi;
    first
      [ injection Hi as <-; change (node_size 0) with 0 in Hk; lia
      | injection Hi as <-;
        rewrite ?NP, ?NA5, ?NA3, ?ND1, ?ND0, ?NL in Hk;
        rewrite ?LP, ?LA5, ?LA3, ?LD1, ?LD0; lia
      | eapply Hold; [|exact Hk];
        first [exact Hi | rewrite Cb; exact Hi | rewrite Ca; exact Hi
              | rewrite Cc; exact Hi] ].
Qed.

Lemma app_par_new_cells :
  mem_get host (app_par host term func s) = Some (ptr PAR (L + 7) col 0) /\
  mem_get (L + 7) (app_par host term func s) = Some (ptr APP (L + 3) 0 0) /\
  mem_get (L + 8) (app_par host term func s) = Some (ptr APP (L + 5) 0 0) /\
  mem_get (L + 3) (app_par host term func s) = a /\
  mem_get (L + 4) (app_par host term func s) = Some (ptr DP0 L col 0) /\
  mem_get (L + 5) (app_par host term func s) = b /\
  mem_get (L + 6) (app_par host term func s) = Some (ptr DP1 L col 0) /\
  mem_get L (app_par host term func s) = Some (ptr LNK (L + 4) 0 0) /\
  mem_get (L + 1) (app_par host term func s) = Some (ptr LNK (L + 6) 0 0) /\
  mem_get (L + 2) (app_par host term func s) = c /\
  (forall i, T <= i < T + 2 \/ F <= i < F + 2 ->
             mem_get i (app_par host term func s) = Some 0).
Proof.
  destruct app_par_ranges as (R1 & R2 & R3 & R4).
  destruct Hh as (Hh1 & Hh2 & Hh3).
  do 10 (split; [table_read; reflexivity|]).
  intros i Hi. table_read; reflexivity.
Qed.

Lemma app_par_all :
  well_linked (app_par host term func s) /\
  MEM_length (app_par host term func s) = L + 9 /\
  RE2 (app_par host term func s) = [F; T] /\
  mem_get host (app_par host term func s) = Some (ptr PAR (L + 7) col 0) /\
  mem_get (L + 7) (app_par host term func s) = Some (ptr APP (L + 3) 0 0) /\
  mem_get (L + 8) (app_par host term func s) = Some (ptr APP (L + 5) 0 0) /\
  mem_get (L + 3) (app_par host term func s) = a /\
  mem_get (L + 4) (app_par host term func s) = Some (ptr DP0 L col 0) /\
  mem_get (L + 5) (app_par host term func s) = b /\
  mem_get (L + 6) (app_par host term func s) = Some (ptr DP1 L col 0) /\
  mem_get L (app_par host term func s) = Some (ptr LNK (L + 4) 0 0) /\
  mem_get (L + 1) (app_par host term func s) = Some (ptr LNK (L + 6) 0 0) /\
  mem_get (L + 2) (app_par host term func s) = c /\
  (forall i, T <= i < T + 2 \/ F <= i < F + 2 ->
             mem_get i (app_par host term func s) = Some 0).
Proof.
  destruct app_par_registers as (HR & HL).
  split; [|split; [exact HL|split; [exact HR|exact app_par_new_cells]]].
  unfold well_linked. split; [|split].
  - exact app_par_array_wf.
  - exact app_par_bonded.
  - exact app_par_slots_in_range.
Qed.

End AppPar.



(** ** APP-LAM on a well-linked heap *)

Lemma var_tag p : get_tag (ptr VAR p 0 0) = VAR.
Proof. apply get_tag_ptr; unfold VAR; lia. Qed.

Section AppLam.

Variables (host term func : N) (s : State).
Variables (L T F occ : N) (argm body : Val).
Hypothesis EL : L = MEM_length s.
Hypothesis ET : T = get_loc term 0.
Hypothesis EF : F = get_loc func 0.
Hypothesis Eargm : argm = get_arg term 1 s.
Hypothesis Ebody : body = get_arg func 1 s.
Hypothesis Hw : well_linked s.
Hypothesis Hhost : mem_get host s = Some term.
Hypothesis Tterm : get_tag term = APP.
Hypothesis Hfunc : mem_get T s = Some func.
Hypothesis Tfunc : get_tag func = LAM.
Hypothesis Hbinder : mem_get F s = Some (ptr LNK occ 0 0).
Hypothesis Hocc : mem_get occ s = Some (ptr VAR F 0 0).
Hypothesis Hargm : tag_of argm <> LNK.
Hypothesis Hbody : tag_of body <> LNK.
Hypothesis Hapart : T + 2 <= F \/ F + 2 <= T.
Hypothesis Hh : host <> T + 1 /\ host <> F /\ host <> F + 1.
Hypothesis Hscope : occ <> T + 1.

Lemma app_lam_cells : mem_get (T + 1) s = argm /\ mem_get (F + 1) s = body.
Proof.
  subst. unfold get_arg. rewrite !(get_loc_add _ 1). auto.
Qed.

Lemma app_lam_ranges :
  host < L /\ T + 2 <= L /\ F + 2 <= L /\ host <> T /\ occ < L /\
  occ <> host /\ occ <> T /\ occ <> F.
Proof.
  destruct Hw as (Hwf & Hbd & Hrange).
  assert (host < L) as H1 by (subst L; apply Hwf; unfold mem_get in Hhost; eauto).
  assert (occ < L) as H0 by (subst L; apply Hwf; unfold mem_get in Hocc; eauto).
  assert (node_size term = 2) as N1 by (unfold node_size; rewrite Tterm; reflexivity).
  assert (node_size func = 2) as N2 by (unfold node_size; rewrite Tfunc; reflexivity).
  pose proof (Hrange host term 1 Hhost ltac:(lia)) as H2.
  pose proof (Hrange T func 1 Hfunc ltac:(lia)) as H3.
  rewrite get_loc_add in H2, H3. rewrite <- ET, <- EL in H2. rewrite <- EF, <- EL in H3.
  do 3 (split; [lia|]). split; [|split; [exact H0|split; [|split]]].
  - intros E. rewrite <- E in Hfunc. rewrite Hhost in Hfunc.
    injection Hfunc as ->. rewrite Tterm in Tfunc. discriminate.
  - intros E. rewrite E in Hocc. rewrite Hhost in Hocc. injection Hocc as ->.
    rewrite var_tag in Tterm. discriminate.
  - intros E. rewrite E in Hocc. rewrite Hfunc in Hocc. injection Hocc as ->.
    rewrite var_tag in Tfunc. discriminate.
  - intros E. rewrite E in Hocc. rewrite Hbinder in Hocc. injection Hocc as Hx.
    apply (f_equal get_tag) in Hx. rewrite var_tag, lnk_tag in Hx. discriminate.
Qed.

(** Where a cell that holds a back-link can be. *)
Lemma app_lam_lnk_apart slot h :
  mem_get slot s = Some (ptr LNK h 0 0) ->
  slot < L /\ slot <> host /\ ~ (T <= slot < T + 2) /\ slot <> F + 1 /\
  slot <> occ /\ (slot = F -> h = occ).
Proof.
  intros Hl. destruct Hw as (Hwf & _ & _).
  destruct app_lam_cells as (Ca & Cb).
  split; [subst L; apply Hwf; unfold mem_get in Hl; eauto|].
  split; [|split; [|split; [|split]]].
  - intros ->. rewrite Hhost in Hl. injection Hl as ->.
    rewrite lnk_tag in Tterm. discriminate.
  - intros Hr. assert (slot = T \/ slot = T + 1) as [->| ->] by lia.
    + rewrite Hfunc in Hl. injection Hl as ->.
      rewrite lnk_tag in Tfunc. discriminate.
    + apply Hargm. rewrite <- Ca, Hl. simpl. apply lnk_tag.
  - intros ->. apply Hbody. rewrite <- Cb, Hl. simpl. apply lnk_tag.
  - intros ->. rewrite Hocc in Hl. injection Hl as Hx.
    apply (f_equal get_tag) in Hx. rewrite var_tag, lnk_tag in Hx. discriminate.
  - intros ->. rewrite Hbinder in Hl. injection Hl as Hx.
    symmetry. now apply lnk_inj.
Qed.

Lemma app_lam_slot h v slot :
  mem_get h s = v -> slot_of v = Some slot ->
  mem_get slot s = Some (ptr LNK h 0 0).
Proof.
  intros Hv Hs. destruct v as [p|]; [|discriminate].
  destruct Hw as (_ & Hbd & _). exact (Hbd h p slot Hv Hs).
Qed.

(** The binder slots of the argument and of the body. *)
Lemma app_lam_slots_apart slot :
  (slot_of argm = Some slot ->
     slot < L /\ slot <> host /\ ~ (T <= slot < T + 2) /\ ~ (F <= slot < F + 2) /\
     slot <> occ /\ slot_of body <> Some slot) /\
  (slot_of body = Some slot ->
     slot < L /\ slot <> host /\ ~ (T <= slot < T + 2) /\ slot <> F + 1 /\
     slot <> occ /\ (slot = F -> occ = F + 1)).
Proof.
  destruct app_lam_cells as (Ca & Cb).
  split.
  - intros Hs. pose proof (app_lam_slot _ _ _ Ca Hs) as Hl.
    destruct (app_lam_lnk_apart _ _ Hl) as (A1 & A2 & A3 & A4 & A5 & A6).
    do 3 (split; [assumption|]). split; [|split; [assumption|]].
    + intros Hr. assert (slot = F) as E by lia. specialize (A6 E). lia.
    + intros Hs'. pose proof (app_lam_slot _ _ _ Cb Hs') as Hl'.
      assert (T + 1 = F + 1) by (apply lnk_inj; congruence). lia.
  - intros Hs. pose proof (app_lam_slot _ _ _ Cb Hs) as Hl.
    destruct (app_lam_lnk_apart _ _ Hl) as (A1 & A2 & A3 & A4 & A5 & A6).
    do 5 (split; [assumption|]). intros E. symmetry. now apply A6.
Qed.

Lemma app_lam_unfold fuel :
  app_lam fuel host term func s
  = Some (free F 2 (free T 2
            (link host (if decide (occ = F + 1) then argm else body)
               (link occ argm s)))).
Proof.
  destruct app_lam_cells as (Ca & Cb).
  destruct app_lam_ranges as (R1 & R2 & R3 & R4 & R5 & R6 & R7 & R8).
  unfold app_lam.
  assert (get_arg func 0 s = Some (ptr LNK occ 0 0)) as ->
    by (unfold get_arg; rewrite <- EF; exact Hbinder).
  rewrite <- Eargm.
  assert (subst fuel (Some (ptr LNK occ 0 0)) argm s = Some (link occ argm s)) as ->.
  { unfold subst. simpl. rewrite lnk_tag. change (LNK =? NIL) with false. cbv iota.
    rewrite get_loc_0, get_pos_ptr by (unfold LNK; lia). reflexivity. }
  simpl. rewrite <- ET, <- EF.
  assert (get_arg func 1 (link occ argm s)
          = if decide (occ = F + 1) then argm else body) as ->; [|reflexivity].
  unfold get_arg. rewrite get_loc_add, <- EF, link_get.
  destruct (decide (slot_of argm = Some (F + 1))) as [Hs|_].
  { destruct (proj1 (app_lam_slots_apart (F + 1)) Hs) as (_ & _ & _ & H4 & _). lia. }
  destruct (decide (F + 1 = occ)) as [E|Hne].
  - rewrite decide_True by congruence. reflexivity.
  - rewrite decide_False by congruence. exact Cb.
Qed.

Ltac rows_in H :=
  repeat match type of H with
    | (if @decide ?P ?d then _ else _) = _ => destruct (@decide P d)
    | is_Some (if @decide ?P ?d then _ else _) => destruct (@decide P d)
    end.

Ltac rows_goal small :=
  repeat match goal with
    | |- (if @decide ?P ?d then _ else _) = _ =>
        let Hyes := fresh "Hyes" in
        destruct (@decide P d) as [Hyes|?];
        try (exfalso; first [contradiction | congruence | small Hyes])
    end.

Lemma app_lam_bonded :
  bonded (free F 2 (free T 2
            (link host (if decide (occ = F + 1) then argm else body)
               (link occ argm s)))).
Proof.
  destruct app_lam_cells as (Ca & Cb).
  destruct app_lam_ranges as (R1 & R2 & R3 & R4 & R5 & R6 & R7 & R8).
  destruct Hh as (Hh1 & Hh2 & Hh3).
  assert (slot_of (Some 0) = None) as SZ by reflexivity.
  assert (forall p, slot_of (Some (ptr LNK p 0 0)) = None) as SL
    by (intros p; apply binder_slot_lnk).
  intros i x slot Hi Hslot.
  assert (forall v, v = Some x -> slot_of v = Some slot) as Hv
    by (intros v ->; exact Hslot).
  assert (forall h v, mem_get i s = Some x -> mem_get h s = v ->
                      slot_of v = Some slot -> h = i) as Hhome.
  { intros h v Hx Hh' Hs. apply lnk_inj.
    pose proof (app_lam_slot _ _ _ Hh' Hs) as Hl'.
    pose proof (app_lam_slot _ _ _ Hx (Hv _ eq_refl)) as Hl. congruence. }
  rewrite !free_get, !link_get in Hi. rewrite !free_get, !link_get.
  destruct (decide (occ = F + 1)) as [Eo|No].
  - rows_in Hi;
      try (apply Hv in Hi; rewrite ?SZ, ?SL in Hi; discriminate Hi).
    + (* the host: it holds the argument *)
      apply Hv in Hi.
      destruct (proj1 (app_lam_slots_apart slot) Hi) as (A1 & A2 & A3 & A4 & A5 & A6).
      rows_goal ltac:(fun H => fail). congruence.
    + (* the occurrence lies in the freed node *)
      exfalso. assert (F <= i < F + 2) by (clear - Eo e; lia). contradiction.
    + (* a cell the rule did not write *)
      pose proof (app_lam_slot _ _ _ Hi (Hv _ eq_refl)) as Hl.
      destruct (app_lam_lnk_apart _ _ Hl) as (A1 & A2 & A3 & A4 & A5 & A6).
      assert (~ T <= i < T + 2) as NT by assumption.
      assert (~ F <= i < F + 2) as NF by assumption.
      assert (i <> occ) as Nocc by assumption.
      assert (slot_of argm <> Some slot) as Na
        by (intros Hs; pose proof (Hhome _ _ Hi Ca Hs) as E; clear - E NT; lia).
      rows_goal ltac:(fun H => clear - H A4 A6 Nocc; lia). exact Hl.
  - rows_in Hi;
      try (apply Hv in Hi; rewrite ?SZ, ?SL in Hi; discriminate Hi).
    + (* the host: it holds the body *)
      apply Hv in Hi.
      destruct (proj2 (app_lam_slots_apart slot) Hi) as (A1 & A2 & A3 & A4 & A5 & A6).
      rows_goal ltac:(fun H => clear - H A4 A6 No; lia). congruence.
    + (* the occurrence: it holds the argument *)
      apply Hv in Hi.
      destruct (proj1 (app_lam_slots_apart slot) Hi) as (A1 & A2 & A3 & A4 & A5 & A6).
      rows_goal ltac:(fun H => fail). congruence.
    + (* a cell the rule did not write *)
      pose proof (app_lam_slot _ _ _ Hi (Hv _ eq_refl)) as Hl.
      destruct (app_lam_lnk_apart _ _ Hl) as (A1 & A2 & A3 & A4 & A5 & A6).
      assert (~ T <= i < T + 2) as NT by assumption.
      assert (~ F <= i < F + 2) as NF by assumption.
      assert (i <> occ) as Nocc by assumption.
      assert (slot_of argm <> Some slot) as Na
        by (intros Hs; pose proof (Hhome _ _ Hi Ca Hs) as E; clear - E NT; lia).
      assert (slot_of body <> Some slot) as Nb
        by (intros Hs; pose proof (Hhome _ _ Hi Cb Hs) as E; clear - E NF; lia).
      rows_goal ltac:(fun H => clear - H A4 A6 Nocc; lia). exact Hl.
Qed.

Lemma app_lam_length :
  MEM_length (free F 2 (free T 2
                (link host (if decide (occ = F + 1) then argm else body)
                   (link occ argm s)))) = L.
Proof.
  destruct app_lam_ranges as (R1 & R2 & R3 & R4 & R5 & R6 & R7 & R8).
  repeat first [apply free_length_same | apply link_length_same];
    try (clear - R1 R2 R3 R5; lia); try (symmetry; exact EL); intros x Hx;
    destruct (decide (occ = F + 1));
    first [ now destruct (proj1 (app_lam_slots_apart x) Hx)
          | now destruct (proj2 (app_lam_slots_apart x) Hx) ].
Qed.

Lemma app_lam_array_wf :
  array_wf (free F 2 (free T 2
              (link host (if decide (occ = F + 1) then argm else body)
                 (link occ argm s)))).
Proof.
  destruct app_lam_ranges as (R1 & R2 & R3 & R4 & R5 & R6 & R7 & R8).
  intros k Hk. rewrite app_lam_length.
  match type of Hk with is_Some (MEM ?st !! k) => change (is_Some (mem_get k st)) in Hk end.
  rewrite !free_get, !link_get in Hk. rows_in Hk;
    first
      [ match goal with a : _ <= k < _ |- _ => clear - R2 R3 a; lia end
      | match goal with
        | e : slot_of _ = Some k |- _ =>
            destruct (decide (occ = F + 1));
            first [ now destruct (proj1 (app_lam_slots_apart k) e)
                  | now destruct (proj2 (app_lam_slots_apart k) e) ]
        end
      | subst k; first [exact R1 | exact R5]
      | destruct Hw as (Hwf & _); rewrite EL; exact (Hwf k Hk) ].
Qed.

Lemma app_lam_slots_in_range :
  slots_in_range (free F 2 (free T 2
                    (link host (if decide (occ = F + 1) then argm else body)
                       (link occ argm s)))).
Proof.
  destruct app_lam_cells as (Ca & Cb).
  destruct Hw as (_ & _ & Hrange).
  assert (forall p, node_size (ptr LNK p 0 0) = 0) as NL
    by (intros p; destruct (node_size_ptr LNK p 0) as (H & _);
        [reflexivity|reflexivity|exact H]).
  intros i x k Hi Hk. rewrite app_lam_length, EL.
  rewrite !free_get, !link_get in Hi.
  destruct (decide (occ = F + 1)); rows_in Hi;
    first
      [ injection Hi as <-; change (node_size 0) with 0 in Hk; lia
      | injection Hi as <-; rewrite NL in Hk; lia
      | eapply Hrange; [|exact Hk];
        first [exact Hi | rewrite Cb; exact Hi | rewrite Ca; exact Hi] ].
Qed.

Lemma app_lam_new_cells :
  mem_get host (free F 2 (free T 2
                  (link host (if decide (occ = F + 1) then argm else body)
                     (link occ argm s))))
  = (if decide (occ = F + 1) then argm else body) /\
  (occ <> F + 1 ->
   mem_get occ (free F 2 (free T 2
                  (link host (if decide (occ = F + 1) then argm else body)
                     (link occ argm s)))) = argm) /\
  (forall i, T <= i < T + 2 \/ F <= i < F + 2 ->
     mem_get i (free F 2 (free T 2
                  (link host (if decide (occ = F + 1) then argm else body)
                     (link occ argm s)))) = Some 0).
Proof.
  destruct app_lam_ranges as (R1 & R2 & R3 & R4 & R5 & R6 & R7 & R8).
  destruct Hh as (Hh1 & Hh2 & Hh3).
  split; [|split].
  - rewrite !free_get, !link_get.
    rewrite decide_False by (clear - Hh2 Hh3; lia).
    rewrite decide_False by (clear - R4 Hh1; lia).
    rewrite decide_False.
    + now rewrite decide_True.
    + intros Hs. destruct (decide (occ = F + 1)).
      * destruct (proj1 (app_lam_slots_apart host) Hs) as (_ & ? & _). congruence.
      * destruct (proj2 (app_lam_slots_apart host) Hs) as (_ & ? & _). congruence.
  - intros No. rewrite !free_get, !link_get.
    rewrite decide_False by (clear - R8 No; lia).
    rewrite decide_False by (clear - R7 Hscope; lia).
    rewrite (decide_False (P := occ = F + 1)) by exact No.
    rewrite decide_False.
    + rewrite decide_False by exact R6. rewrite decide_False.
      * now rewrite decide_True.
      * intros Hs. destruct (proj1 (app_lam_slots_apart occ) Hs) as (_ & _ & _ & _ & ? & _).
        congruence.
    + intros Hs. destruct (proj2 (app_lam_slots_apart occ) Hs) as (_ & _ & _ & _ & ? & _).
      congruence.
  - intros i Hi. rewrite !free_get.
    destruct (decide (F <= i < F + 2)); [reflexivity|].
    rewrite decide_True by (clear - Hi n; lia). reflexivity.
Qed.

Lemma app_lam_all fuel :
  exists s',
    app_lam fuel host term func s = Some s' /\
    well_linked s' /\ MEM_length s' = L /\ RE2 s' = F :: T :: RE2 s /\
    mem_get host s' = (if decide (occ = F + 1) then argm else body) /\
    (occ <> F + 1 -> mem_get occ s' = argm) /\
    (forall i, T <= i < T + 2 \/ F <= i < F + 2 -> mem_get i s' = Some 0).
Proof.
  eexists. split; [apply app_lam_unfold|].
  split; [|split; [exact app_lam_length|split; [|exact app_lam_new_cells]]].
  - unfold well_linked. split; [|split].
    + exact app_lam_array_wf.
    + exact app_lam_bonded.
    + exact app_lam_slots_in_range.
  - now rewrite !RE2_free2, !RE2_link.
Qed.

End AppLam.

(** X21. APP-LAM, [(λx:b a)], when the variable is used, on a well-linked
    heap: the host holds the App, the first slot of the App holds the Lam,
    the cell [occ] holds the variable of the Lam, the two nodes and the
    host are apart, the argument is not that very variable, and argument
    and body are terms (not back-links).  Whatever the budget, the rule
    succeeds without collecting anything; it moves the argument into the
    occurrence and the body into the host, or the argument itself into the
    host when the body is the variable; it zeroes the four cells of the
    App and the Lam and pushes both positions on the size-2 stack; the
    length of the array is kept, and the heap is again well linked. *)
Theorem app_lam_graph (fuel : nat) (host term func occ : N) (s : State) :
  well_linked s ->
  mem_get host s = Some term -> get_tag term = APP ->
  mem_get (get_loc term 0) s = Some func -> get_tag func = LAM ->
  mem_get occ s = Some (ptr VAR (get_loc func 0) 0 0) ->
  tag_of (get_arg term 1 s) <> LNK ->
  tag_of (get_arg func 1 s) <> LNK ->
  get_loc term 0 + 2 <= get_loc func 0 \/ get_loc func 0 + 2 <= get_loc term 0 ->
  host <> get_loc term 0 + 1 /\ host <> get_loc func 0 /\
  host <> get_loc func 0 + 1 ->
  occ <> get_loc term 0 + 1 ->
  exists s',
    app_lam fuel host term func s = Some s' /\
    well_linked s' /\
    MEM_length s' = MEM_length s /\
    RE2 s' = get_loc func 0 :: get_loc term 0 :: RE2 s /\
    mem_get host s'
    = (if decide (occ = get_loc func 0 + 1) then get_arg term 1 s
       else get_arg func 1 s) /\
    (occ <> get_loc func 0 + 1 -> mem_get occ s' = get_arg term 1 s) /\
    (forall i, get_loc term 0 <= i < get_loc term 0 + 2 \/
               get_loc func 0 <= i < get_loc func 0 + 2 ->
               mem_get i s' = Some 0).
Proof.
  intros Hw Hhost Tterm Hfunc Tfunc Hocc Hargm Hbody Hapart Hh Hscope.
  assert (mem_get (get_loc func 0) s = Some (ptr LNK occ 0 0)) as Hbinder.
  { destruct Hw as (_ & Hbd & _).
    apply (Hbd occ (ptr VAR (get_loc func 0) 0 0)); [exact Hocc|].
    rewrite (proj1 (binder_slot_tag _)) by apply var_tag.
    rewrite get_loc_0, get_pos_ptr by (unfold VAR; lia). reflexivity. }
  apply (app_lam_all host term func s (MEM_length s) (get_loc term 0)
           (get_loc func 0) occ (get_arg term 1 s) (get_arg func 1 s)); auto.
Qed.

Lemma app_lam_graph_witness :
  exists s',
    app_lam 4 0 (ptr APP 1 0 0) (ptr LAM 3 0 0) (heap_of S1_text) = Some s' /\
    well_linked s' /\ RE2 s' = [3; 1] /\
    mem_get 0 s' = Some (ptr LAM 5 0 0).
Proof.
  destruct (app_lam_graph 4 0 (ptr APP 1 0 0) (ptr LAM 3 0 0) 4 (heap_of S1_text))
    as (s' & H1 & H2 & _ & H4 & H5 & _).
  - apply check_linked_sound. vm_compute. reflexivity.
  - vm_compute. reflexivity.
  - reflexivity.
  - vm_compute. reflexivity.
  - reflexivity.
  - vm_compute. reflexivity.
  - vm_compute. discriminate.
  - vm_compute. discriminate.
  - left. vm_compute. discriminate.
  - repeat split; vm_compute; discriminate.
  - vm_compute. discriminate.
  - exists s'. split; [exact H1|]. split; [exact H2|].
    split; [rewrite H4; vm_compute; reflexivity|].
    rewrite H5. vm_compute. reflexivity.
Defined.

(** ** The reader and the printed form of a Par *)

Lemma eat_ok str rest r :
  skip_spaces (code r) = str ++ rest ->
  eat str r = Ret (tt, with_code rest r).
Proof.
  intros Hc. unfold eat, consume, skip, pbind, get_code, set_code, pret. simpl.
  rewrite Hc, take_app_length, drop_app_length.
  destruct (decide (str = str)); [reflexivity|congruence].
Qed.

Lemma eat_fail str r :
  (forall rest, skip_spaces (code r) <> str ++ rest) ->
  eat str r = Throw (bad_parse ++ str).
Proof.
  intros Hno. unfold eat, consume, skip, pbind, get_code, set_code, pret. simpl.
  destruct (decide (take (List.length str) (skip_spaces (code r)) = str))
    as [E|]; [|reflexivity].
  exfalso. apply (Hno (drop (List.length str) (skip_spaces (code r)))).
  pose proof (take_drop (List.length str) (skip_spaces (code r))) as Htd.
  rewrite E in Htd. now symmetry.
Qed.

Lemma parse_numb_ok n rest r :
  code r = number_to_string n ++ rest ->
  (forall x, head rest = Some x -> is_digit x = false) ->
  parse_numb r = Ret (n, with_code rest r).
Proof.
  intros Hcode Hrest. unfold parse_numb, pbind, get_code, set_code, pret.
  rewrite Hcode, take_numb_number by assumption. reflexivity.
Qed.

(** X22. The reader wants a Par written [&c<> a b], with nothing between
    the brackets: on a text that starts with [&], a color and [<], and
    goes on with anything but [>] (spaces and newlines aside), as in the
    form [&c<a b>] that [show_term] prints, [read] throws
    ["Bad parse: >"]. *)
Theorem read_par_brackets (fuel : nat) (col : N) (rest : jstring) (s : State) :
  head (skip_spaces rest) <> Some 62 ->
  read (S fuel) (js "&" ++ number_to_string col ++ js "<" ++ rest) s
  = Throw (js "Bad parse: >").
Proof.
  intros Hrest. unfold read.
  set (r0 := mkReader _ ∅ ∅ ∅ ∅ ∅ [] (reset_mem s)).
  assert (parse_term (S fuel) 0 r0 = Throw (js "Bad parse: >")) as Hp.
  { simpl. unfold pbind at 1. unfold skip at 1. unfold pbind at 1.
    unfold get_code at 1. unfold set_code at 1. unfold pbind at 1.
    unfold get_code at 1. cbn [code r0].
    change (js "&" ++ number_to_string col ++ js "<" ++ rest)
      with (38 :: number_to_string col ++ 60 :: rest).
    change (skip_spaces (38 :: number_to_string col ++ 60 :: rest))
      with (38 :: number_to_string col ++ 60 :: rest).
    cbv iota.
    change (38 =? 955) with false. change (38 =? 40) with false.
    change (38 =? 38) with true. cbv iota.
    unfold pbind at 1.
    rewrite (eat_ok (js "&") (number_to_string col ++ 60 :: rest)) by reflexivity.
    unfold pbind at 1.
    rewrite (parse_numb_ok col (60 :: rest))
      by (try reflexivity; intros x [= <-]; reflexivity).
    unfold pbind at 1.
    rewrite (eat_ok (js "<") rest) by reflexivity.
    unfold pbind at 1.
    rewrite eat_fail; [reflexivity|].
    intros rest' Hc. apply Hrest. cbn [code with_code] in Hc. rewrite Hc. reflexivity. }
  unfold pbind. rewrite Hp. reflexivity.
Qed.

Lemma read_par_brackets_witness :
  read 5 (js "&0<λx:x λy:y>") init = Throw (js "Bad parse: >").
Proof.
  change (js "&0<λx:x λy:y>")
    with (js "&" ++ number_to_string 0 ++ js "<" ++ js "λx:x λy:y>").
  apply read_par_brackets. vm_compute. discriminate.
Defined.

(** ** Annihilating LET-PAR on a well-linked heap *)

Lemma RE3_free3 p st : RE3 (free p 3 st) = p :: RE3 st.
Proof. now destruct (free_stacks p 3 st) as (_ & _ & _ & ->). Qed.

Lemma RE3_free2 p st : RE3 (free p 2 st) = RE3 st.
Proof. now destruct (free_stacks p 2 st) as (_ & _ & _ & ->). Qed.

Lemma RE2_free3 p st : RE2 (free p 3 st) = RE2 st.
Proof. now destruct (free_stacks p 3 st) as (_ & _ & -> & _). Qed.

Lemma RE3_link pos v st : RE3 (link pos v st) = RE3 st.
Proof. apply link_REs. Qed.

Lemma subst_used fuel occ v st :
  subst fuel (Some (ptr LNK occ 0 0)) v st = Some (link occ v st).
Proof.
  unfold subst. simpl. rewrite lnk_tag. change (LNK =? NIL) with false. cbv iota.
  rewrite get_loc_0, get_pos_ptr by (unfold LNK; lia). reflexivity.
Qed.

Section LetParAnnihilate.

Variables (host term expr : N) (s : State).
Variables (L D E o0 o1 t0 t1 : N) (a b : Val).
Hypothesis EL : L = MEM_length s.
Hypothesis ED : D = get_loc term 0.
Hypothesis EE : E = get_loc expr 0.
Hypothesis Ea : a = get_arg expr 0 s.
Hypothesis Eb : b = get_arg expr 1 s.
Hypothesis Hw : well_linked s.
Hypothesis Hhost : mem_get host s = Some term.
Hypothesis Tterm : get_tag term = DP0 \/ get_tag term = DP1.
Hypothesis Hexpr : mem_get (D + 2) s = Some expr.
Hypothesis Texpr : get_tag expr = PAR.
Hypothesis Ho0 : mem_get o0 s = Some t0.
Hypothesis Tt0 : get_tag t0 = DP0.
Hypothesis Lt0 : get_loc t0 0 = D.
Hypothesis Ho1 : mem_get o1 s = Some t1.
Hypothesis Tt1 : get_tag t1 = DP1.
Hypothesis Lt1 : get_loc t1 0 = D.
Hypothesis Ha : tag_of a <> LNK.
Hypothesis Hb : tag_of b <> LNK.
Hypothesis Hapart : D + 3 <= E \/ E + 2 <= D.
Hypothesis Hocc : ~ (E <= o0 < E + 2) /\ ~ (E <= o1 < E + 2).

Lemma let_par_cells :
  mem_get E s = a /\ mem_get (E + 1) s = b /\
  mem_get D s = Some (ptr LNK o0 0 0) /\
  mem_get (D + 1) s = Some (ptr LNK o1 0 0).
Proof.
  destruct Hw as (_ & Hbd & _).
  split; [subst; reflexivity|].
  split; [subst; unfold get_arg; now rewrite (get_loc_add _ 1)|].
  split.
  - apply (Hbd o0 t0); [exact Ho0|].
    rewrite (proj1 (proj2 (binder_slot_tag _))) by exact Tt0. now rewrite Lt0.
  - apply (Hbd o1 t1); [exact Ho1|].
    rewrite (proj1 (proj2 (proj2 (binder_slot_tag _)))) by exact Tt1.
    now rewrite get_loc_add, Lt1.
Qed.

(** The host is the occurrence of its own projection. *)
Lemma let_par_host :
  (get_tag term = DP0 -> host = o0) /\ (get_tag term = DP1 -> host = o1).
Proof.
  destruct Hw as (_ & Hbd & _).
  destruct let_par_cells as (_ & _ & C0 & C1).
  split; intros Tt; apply lnk_inj.
  - assert (mem_get D s = Some (ptr LNK host 0 0)) as Hx; [|congruence].
    apply (Hbd host term); [exact Hhost|].
    rewrite (proj1 (proj2 (binder_slot_tag _))) by exact Tt. now rewrite ED.
  - assert (mem_get (D + 1) s = Some (ptr LNK host 0 0)) as Hx; [|congruence].
    apply (Hbd host term); [exact Hhost|].
    rewrite (proj1 (proj2 (proj2 (binder_slot_tag _)))) by exact Tt.
    now rewrite get_loc_add, ED.
Qed.

Lemma let_par_ranges :
  D + 3 <= L /\ E + 2 <= L /\ o0 < L /\ o1 < L /\ o0 <> o1 /\
  ~ (D <= o0 < D + 3) /\ ~ (D <= o1 < D + 3).
Proof.
  destruct Hw as (Hwf & Hbd & Hrange).
  destruct let_par_cells as (Ca & Cb & C0 & C1).
  assert (o0 < L) as H0 by (subst L; apply Hwf; unfold mem_get in Ho0; eauto).
  assert (o1 < L) as H1 by (subst L; apply Hwf; unfold mem_get in Ho1; eauto).
  assert (node_size term = 3) as N1
    by (unfold node_size; destruct Tterm as [-> | ->]; reflexivity).
  assert (node_size expr = 2) as N2 by (unfold node_size; rewrite Texpr; reflexivity).
  pose proof (Hrange host term 2 Hhost ltac:(rewrite N1; reflexivity)) as H2.
  pose proof (Hrange (D + 2) expr 1 Hexpr ltac:(rewrite N2; reflexivity)) as H3.
  rewrite get_loc_add in H2, H3. rewrite <- ED, <- EL in H2. rewrite <- EE, <- EL in H3.
  assert (forall o t, mem_get o s = Some t -> get_tag t = DP0 \/ get_tag t = DP1 ->
                      ~ (D <= o < D + 3)) as Hout.
  { intros o t Ho Tt Hr.
    assert (o = D \/ o = D + 1 \/ o = D + 2) as [->|[->| ->]] by (clear - Hr; lia).
    - rewrite C0 in Ho. injection Ho as <-. rewrite lnk_tag in Tt.
      destruct Tt; discriminate.
    - rewrite C1 in Ho. injection Ho as <-. rewrite lnk_tag in Tt.
      destruct Tt; discriminate.
    - rewrite Hexpr in Ho. injection Ho as <-. rewrite Texpr in Tt.
      destruct Tt; discriminate. }
  split; [clear - H2; lia|]. split; [clear - H3; lia|].
  split; [exact H0|]. split; [exact H1|]. split; [|split].
  - intros E01. rewrite E01 in Ho0. rewrite Ho1 in Ho0. injection Ho0 as <-.
    rewrite Tt1 in Tt0. discriminate.
  - apply (Hout o0 t0 Ho0). now left.
  - apply (Hout o1 t1 Ho1). now right.
Qed.

Lemma let_par_lnk_apart slot h :
  mem_get slot s = Some (ptr LNK h 0 0) ->
  slot < L /\ slot <> o0 /\ slot <> o1 /\ slot <> D + 2 /\
  ~ (E <= slot < E + 2) /\ (slot = D -> h = o0) /\ (slot = D + 1 -> h = o1).
Proof.
  intros Hl. destruct Hw as (Hwf & _ & _).
  destruct let_par_cells as (Ca & Cb & C0 & C1).
  assert (forall o t, mem_get o s = Some t -> get_tag t <> LNK -> slot <> o) as Hne.
  { intros o t Ho Tt ->. rewrite Ho in Hl. injection Hl as ->.
    now rewrite lnk_tag in Tt. }
  split; [subst L; apply Hwf; unfold mem_get in Hl; eauto|].
  split; [apply (Hne _ _ Ho0); rewrite Tt0; discriminate|].
  split; [apply (Hne _ _ Ho1); rewrite Tt1; discriminate|].
  split; [apply (Hne _ _ Hexpr); rewrite Texpr; discriminate|].
  split; [|split].
  - intros Hr. assert (slot = E \/ slot = E + 1) as [->| ->] by (clear - Hr; lia).
    + apply Ha. rewrite <- Ca, Hl. simpl. apply lnk_tag.
    + apply Hb. rewrite <- Cb, Hl. simpl. apply lnk_tag.
  - intros ->. rewrite C0 in Hl. injection Hl as Hx. symmetry. now apply lnk_inj.
  - intros ->. rewrite C1 in Hl. injection Hl as Hx. symmetry. now apply lnk_inj.
Qed.

Lemma let_par_slot h v slot :
  mem_get h s = v -> slot_of v = Some slot ->
  mem_get slot s = Some (ptr LNK h 0 0).
Proof.
  intros Hv Hs. destruct v as [p|]; [|discriminate].
  destruct Hw as (_ & Hbd & _). exact (Hbd h p slot Hv Hs).
Qed.

(** The binder slots of the two components. *)
Lemma let_par_slots_apart slot :
  (slot_of a = Some slot ->
     slot < L /\ slot <> o0 /\ slot <> o1 /\ ~ (D <= slot < D + 3) /\
     ~ (E <= slot < E + 2) /\ slot_of b <> Some slot) /\
  (slot_of b = Some slot ->
     slot < L /\ slot <> o0 /\ slot <> o1 /\ ~ (D <= slot < D + 3) /\
     ~ (E <= slot < E + 2)).
Proof.
  destruct let_par_cells as (Ca & Cb & C0 & C1).
  destruct Hocc as (Hoc0 & Hoc1).
  split.
  - intros Hs. pose proof (let_par_slot _ _ _ Ca Hs) as Hl.
    destruct (let_par_lnk_apart _ _ Hl) as (A1 & A2 & A3 & A4 & A5 & A6 & A7).
    do 3 (split; [assumption|]). split; [|split; [assumption|]].
    + clear - A4 A6 A7 Hoc0 Hoc1. lia.
    + intros Hs'. pose proof (let_par_slot _ _ _ Cb Hs') as Hl'.
      assert (E = E + 1) as Hx by (apply lnk_inj; congruence). clear - Hx. lia.
  - intros Hs. pose proof (let_par_slot _ _ _ Cb Hs) as Hl.
    destruct (let_par_lnk_apart _ _ Hl) as (A1 & A2 & A3 & A4 & A5 & A6 & A7).
    do 3 (split; [assumption|]). split; [|assumption].
    clear - A4 A6 A7 Hoc0 Hoc1. lia.
Qed.

Lemma let_par_unfold fuel :
  let_par_annihilate fuel host term expr s
  = Some (free E 2 (free D 3
            (link host (if get_tag term =? DP0 then a else b)
               (link o1 b (link o0 a s))))).
Proof.
  destruct let_par_cells as (Ca & Cb & C0 & C1).
  destruct let_par_ranges as (R1 & R2 & R3 & R4 & R5 & R6 & R7).
  destruct Hocc as (Hoc0 & Hoc1).
  assert (forall x, slot_of a <> Some x \/ ~ (D <= x < D + 3) /\ ~ (E <= x < E + 2)) as Sa.
  { intros x. destruct (decide (slot_of a = Some x)) as [Hs|]; [right|now left].
    destruct (proj1 (let_par_slots_apart x) Hs) as (_ & _ & _ & ? & ? & _). auto. }
  assert (forall x, slot_of b <> Some x \/ ~ (D <= x < D + 3) /\ ~ (E <= x < E + 2)) as Sb.
  { intros x. destruct (decide (slot_of b = Some x)) as [Hs|]; [right|now left].
    destruct (proj2 (let_par_slots_apart x) Hs) as (_ & _ & _ & ? & ?). auto. }
  unfold let_par_annihilate.
  assert (get_arg term 0 s = Some (ptr LNK o0 0 0)) as ->
    by (unfold get_arg; rewrite <- ED; exact C0).
  assert (get_arg expr 0 s = a) as -> by (symmetry; exact Ea).
  rewrite subst_used. simpl.
  assert (get_arg term 1 (link o0 a s) = Some (ptr LNK o1 0 0)) as ->.
  { unfold get_arg. rewrite get_loc_add, <- ED, link_get.
    rewrite decide_False by (destruct (Sa (D + 1)) as [?|[? _]]; [assumption|clear - H; lia]).
    rewrite decide_False by (clear - R6; lia). exact C1. }
  assert (get_arg expr 1 (link o0 a s) = b) as ->.
  { unfold get_arg. rewrite get_loc_add, <- EE, link_get.
    rewrite decide_False by (destruct (Sa (E + 1)) as [?|[_ ?]]; [assumption|clear - H; lia]).
    rewrite decide_False by (clear - Hoc0; lia). exact Cb. }
  rewrite subst_used. simpl. rewrite <- ED, <- EE.
  assert (forall k, k = 0 \/ k = 1 ->
            get_arg expr k (link o1 b (link o0 a s)) = mem_get (E + k) s) as Hread.
  { intros k Hk. unfold get_arg. rewrite get_loc_add, <- EE, !link_get.
    rewrite decide_False
      by (destruct (Sb (E + k)) as [?|[_ ?]]; [assumption|clear - H Hk; lia]).
    rewrite decide_False by (clear - Hoc1 Hk; lia).
    rewrite decide_False
      by (destruct (Sa (E + k)) as [?|[_ ?]]; [assumption|clear - H Hk; lia]).
    rewrite decide_False by (clear - Hoc0 Hk; lia). reflexivity. }
  destruct (get_tag term =? DP0).
  - rewrite Hread by now left. rewrite N.add_0_r, Ca. reflexivity.
  - rewrite Hread by now right. rewrite Cb. reflexivity.
Qed.

Ltac rows_in H :=
  repeat match type of H with
    | (if @decide ?P ?d then _ else _) = _ => destruct (@decide P d)
    | is_Some (if @decide ?P ?d then _ else _) => destruct (@decide P d)
    end.

Ltac rows_goal small :=
  repeat match goal with
    | |- (if @decide ?P ?d then _ else _) = _ =>
        let Hyes := fresh "Hyes" in
        destruct (@decide P d) as [Hyes|?];
        try (exfalso; first [contradiction | congruence | small Hyes])
    end.

(** The state after the rule, with the host named as the occurrence it
    is. *)
Lemma let_par_state :
  (get_tag term = DP0 /\ host = o0 /\ (if get_tag term =? DP0 then a else b) = a) \/
  (get_tag term = DP1 /\ host = o1 /\ (if get_tag term =? DP0 then a else b) = b).
Proof.
  destruct let_par_host as (H0 & H1).
  destruct Tterm as [Tt|Tt]; [left|right]; rewrite Tt; auto.
Qed.

Lemma let_par_bonded :
  bonded (free E 2 (free D 3
            (link host (if get_tag term =? DP0 then a else b)
               (link o1 b (link o0 a s))))).
Proof.
  destruct let_par_cells as (Ca & Cb & C0 & C1).
  destruct let_par_ranges as (R1 & R2 & R3 & R4 & R5 & R6 & R7).
  assert (slot_of (Some 0) = None) as SZ by reflexivity.
  assert (forall p, slot_of (Some (ptr LNK p 0 0)) = None) as SL
    by (intros p; apply binder_slot_lnk).
  intros i x slot Hi Hslot.
  assert (forall v, v = Some x -> slot_of v = Some slot) as Hv
    by (intros v ->; exact Hslot).
  assert (forall h v, mem_get i s = Some x -> mem_get h s = v ->
                      slot_of v = Some slot -> h = i) as Hhome.
  { intros h v Hx Hh' Hs. apply lnk_inj.
    pose proof (let_par_slot _ _ _ Hh' Hs) as Hl'.
    pose proof (let_par_slot _ _ _ Hx (Hv _ eq_refl)) as Hl. congruence. }
  destruct let_par_state as [(Tt & Eh & Ex)|(Tt & Eh & Ex)]; rewrite Ex, Eh in *;
    rewrite !free_get, !link_get in Hi; rewrite !free_get, !link_get;
    rows_in Hi;
    try (apply Hv in Hi; rewrite ?SZ, ?SL in Hi; discriminate Hi).
  - (* Dp0 at the host; the first occurrence *)
    apply Hv in Hi.
    destruct (proj1 (let_par_slots_apart slot) Hi) as (A1 & A2 & A3 & A4 & A5 & A6).
    rows_goal ltac:(fun H => fail). congruence.
  - (* the second occurrence *)
    apply Hv in Hi.
    destruct (proj2 (let_par_slots_apart slot) Hi) as (A1 & A2 & A3 & A4 & A5).
    assert (slot_of a <> Some slot) as Na
      by (intros Hs; now destruct (proj1 (let_par_slots_apart slot) Hs) as (_ & _ & _ & _ & _ & ?)).
    rows_goal ltac:(fun H => fail). congruence.
  - (* a cell the rule did not write *)
    pose proof (let_par_slot _ _ _ Hi (Hv _ eq_refl)) as Hl.
    destruct (let_par_lnk_apart _ _ Hl) as (A1 & A2 & A3 & A4 & A5 & A6 & A7).
    assert (~ E <= i < E + 2) as NE by assumption.
    assert (i <> o0) as N0 by assumption.
    assert (i <> o1) as N1 by assumption.
    assert (slot_of a <> Some slot) as Na
      by (intros Hs; pose proof (Hhome _ _ Hi Ca Hs) as Hx; clear - Hx NE; lia).
    assert (slot_of b <> Some slot) as Nb
      by (intros Hs; pose proof (Hhome _ _ Hi Cb Hs) as Hx; clear - Hx NE; lia).
    rows_goal ltac:(fun H => clear - H A4 A6 A7 N0 N1; lia). exact Hl.
  - (* Dp1 at the host; the second occurrence *)
    apply Hv in Hi.
    destruct (proj2 (let_par_slots_apart slot) Hi) as (A1 & A2 & A3 & A4 & A5).
    rows_goal ltac:(fun H => fail). congruence.
  - (* the first occurrence *)
    apply Hv in Hi.
    destruct (proj1 (let_par_slots_apart slot) Hi) as (A1 & A2 & A3 & A4 & A5 & A6).
    rows_goal ltac:(fun H => fail). congruence.
  - (* a cell the rule did not write *)
    pose proof (let_par_slot _ _ _ Hi (Hv _ eq_refl)) as Hl.
    destruct (let_par_lnk_apart _ _ Hl) as (A1 & A2 & A3 & A4 & A5 & A6 & A7).
    assert (~ E <= i < E + 2) as NE by assumption.
    assert (i <> o0) as N0 by assumption.
    assert (i <> o1) as N1 by assumption.
    assert (slot_of a <> Some slot) as Na
      by (intros Hs; pose proof (Hhome _ _ Hi Ca Hs) as Hx; clear - Hx NE; lia).
    assert (slot_of b <> Some slot) as Nb
      by (intros Hs; pose proof (Hhome _ _ Hi Cb Hs) as Hx; clear - Hx NE; lia).
    rows_goal ltac:(fun H => clear - H A4 A6 A7 N0 N1; lia). exact Hl.
Qed.

Lemma let_par_slot_bound x :
  slot_of (if get_tag term =? DP0 then a else b) = Some x \/
  slot_of a = Some x \/ slot_of b = Some x -> x < L.
Proof.
  intros H.
  assert (slot_of a = Some x \/ slot_of b = Some x) as [Hs|Hs]
    by (destruct (get_tag term =? DP0); tauto).
  - now destruct (proj1 (let_par_slots_apart x) Hs).
  - now destruct (proj2 (let_par_slots_apart x) Hs).
Qed.

Lemma let_par_length :
  MEM_length (free E 2 (free D 3
                (link host (if get_tag term =? DP0 then a else b)
                   (link o1 b (link o0 a s))))) = L.
Proof.
  destruct let_par_ranges as (R1 & R2 & R3 & R4 & R5 & R6 & R7).
  assert (host < L) as Rh
    by (destruct let_par_state as [(_ & -> & _)|(_ & -> & _)]; assumption).
  repeat first [apply free_length_same | apply link_length_same];
    try (clear - R1 R2 R3 R4 Rh; lia); try (symmetry; exact EL);
    intros x Hx; apply let_par_slot_bound; auto.
Qed.

Lemma let_par_array_wf :
  array_wf (free E 2 (free D 3
              (link host (if get_tag term =? DP0 then a else b)
                 (link o1 b (link o0 a s))))).
Proof.
  destruct let_par_ranges as (R1 & R2 & R3 & R4 & R5 & R6 & R7).
  assert (host < L) as Rh
    by (destruct let_par_state as [(_ & -> & _)|(_ & -> & _)]; assumption).
  intros k Hk. rewrite let_par_length.
  match type of Hk with is_Some (MEM ?st !! k) => change (is_Some (mem_get k st)) in Hk end.
  rewrite !free_get, !link_get in Hk. rows_in Hk;
    first
      [ match goal with r : _ <= k < _ |- _ => clear - R1 R2 r; lia end
      | match goal with
        | e : slot_of _ = Some k |- _ => apply let_par_slot_bound; auto
        end
      | subst k; first [exact Rh | exact R3 | exact R4]
      | destruct Hw as (Hwf & _); rewrite EL; exact (Hwf k Hk) ].
Qed.

Lemma let_par_slots_in_range :
  slots_in_range (free E 2 (free D 3
                    (link host (if get_tag term =? DP0 then a else b)
                       (link o1 b (link o0 a s))))).
Proof.
  destruct let_par_cells as (Ca & Cb & _).
  destruct Hw as (_ & _ & Hrange).
  assert (forall p, node_size (ptr LNK p 0 0) = 0) as NL
    by (intros p; destruct (node_size_ptr LNK p 0) as (H & _);
        [reflexivity|reflexivity|exact H]).
  intros i x k Hi Hk. rewrite let_par_length, EL.
  rewrite !free_get, !link_get in Hi.
  destruct (get_tag term =? DP0); rows_in Hi;
    first
      [ injection Hi as <-; change (node_size 0) with 0 in Hk; lia
      | injection Hi as <-; rewrite NL in Hk; lia
      | eapply Hrange; [|exact Hk];
        first [exact Hi | rewrite Cb; exact Hi | rewrite Ca; exact Hi] ].
Qed.

Lemma let_par_new_cells :
  mem_get o0 (free E 2 (free D 3
                (link host (if get_tag term =? DP0 then a else b)
                   (link o1 b (link o0 a s))))) = a /\
  mem_get o1 (free E 2 (free D 3
                (link host (if get_tag term =? DP0 then a else b)
                   (link o1 b (link o0 a s))))) = b /\
  (forall i, D <= i < D + 3 \/ E <= i < E + 2 ->
     mem_get i (free E 2 (free D 3
                  (link host (if get_tag term =? DP0 then a else b)
                     (link o1 b (link o0 a s))))) = Some 0).
Proof.
  destruct let_par_ranges as (R1 & R2 & R3 & R4 & R5 & R6 & R7).
  destruct Hocc as (Hoc0 & Hoc1).
  assert (forall o, o = o0 \/ o = o1 ->
            slot_of a <> Some o /\ slot_of b <> Some o) as Hno.
  { intros o Ho. split; intros Hs.
    - destruct (proj1 (let_par_slots_apart o) Hs) as (_ & ? & ? & _).
      destruct Ho; congruence.
    - destruct (proj2 (let_par_slots_apart o) Hs) as (_ & ? & ? & _).
      destruct Ho; congruence. }
  destruct (Hno o0 ltac:(now left)) as (Na0 & Nb0).
  destruct (Hno o1 ltac:(now right)) as (Na1 & Nb1).
  split; [|split].
  - destruct let_par_state as [(Tt & Eh & Ex)|(Tt & Eh & Ex)]; rewrite Ex, Eh;
      rewrite !free_get, !link_get;
      rows_goal ltac:(fun H => fail); reflexivity.
  - destruct let_par_state as [(Tt & Eh & Ex)|(Tt & Eh & Ex)]; rewrite Ex, Eh;
      rewrite !free_get, !link_get;
      rows_goal ltac:(fun H => fail); reflexivity.
  - intros i Hi. rewrite !free_get.
    destruct (decide (E <= i < E + 2)); [reflexivity|].
    rewrite decide_True by (clear - Hi n; lia). reflexivity.
Qed.

Lemma let_par_all fuel :
  exists s',
    let_par_annihilate fuel host term expr s = Some s' /\
    well_linked s' /\ MEM_length s' = L /\
    RE3 s' = D :: RE3 s /\ RE2 s' = E :: RE2 s /\
    mem_get o0 s' = a /\ mem_get o1 s' = b /\
    (forall i, D <= i < D + 3 \/ E <= i < E + 2 -> mem_get i s' = Some 0).
Proof.
  eexists. split; [apply let_par_unfold|].
  split; [|split; [exact let_par_length|split; [|split; [|exact let_par_new_cells]]]].
  - unfold well_linked. split; [|split].
    + exact let_par_array_wf.
    + exact let_par_bonded.
    + exact let_par_slots_in_range.
  - now rewrite RE3_free2, RE3_free3, !RE3_link.
  - now rewrite RE2_free2, RE2_free3, !RE2_link.
Qed.

End LetParAnnihilate.

(** X23. Annihilating LET-PAR, [!A<x y> = &A<a b>], when both projections
    are used, on a well-linked heap: the host holds a Dp0 or a Dp1 of the
    duplicator, whose expression slot holds the Par; the cells [o0] and
    [o1] hold its Dp0 and its Dp1 (the host is one of them); the two
    nodes are apart, neither occurrence lies in the Par node, and the two
    components are terms (not back-links).  Whatever the budget, the rule
    succeeds without collecting: the first occurrence receives the first
    component and the second the second, the three cells of the
    duplicator and the two of the Par are zeroed, their positions are
    pushed on the size-3 and the size-2 stack, the length of the array is
    kept, and the heap is again well linked. *)
Theorem let_par_annihilate_graph
    (fuel : nat) (host term expr o0 o1 t0 t1 : N) (s : State) :
  well_linked s ->
  mem_get host s = Some term -> get_tag term = DP0 \/ get_tag term = DP1 ->
  mem_get (get_loc term 0 + 2) s = Some expr -> get_tag expr = PAR ->
  mem_get o0 s = Some t0 -> get_tag t0 = DP0 -> get_loc t0 0 = get_loc term 0 ->
  mem_get o1 s = Some t1 -> get_tag t1 = DP1 -> get_loc t1 0 = get_loc term 0 ->
  tag_of (get_arg expr 0 s) <> LNK ->
  tag_of (get_arg expr 1 s) <> LNK ->
  get_loc term 0 + 3 <= get_loc expr 0 \/ get_loc expr 0 + 2 <= get_loc term 0 ->
  ~ (get_loc expr 0 <= o0 < get_loc expr 0 + 2) /\
  ~ (get_loc expr 0 <= o1 < get_loc expr 0 + 2) ->
  exists s',
    let_par_annihilate fuel host term expr s = Some s' /\
    well_linked s' /\
    MEM_length s' = MEM_length s /\
    RE3 s' = get_loc term 0 :: RE3 s /\
    RE2 s' = get_loc expr 0 :: RE2 s /\
    mem_get o0 s' = get_arg expr 0 s /\
    mem_get o1 s' = get_arg expr 1 s /\
    (forall i, get_loc term 0 <= i < get_loc term 0 + 3 \/
               get_loc expr 0 <= i < get_loc expr 0 + 2 ->
               mem_get i s' = Some 0).
Proof.
  intros Hw Hhost Tterm Hexpr Texpr Ho0 Tt0 Lt0 Ho1 Tt1 Lt1 Ha Hb Hapart Hocc.
  apply (let_par_all host term expr s (MEM_length s) (get_loc term 0)
           (get_loc expr 0) o0 o1 t0 t1 (get_arg expr 0 s) (get_arg expr 1 s)); auto.
Qed.

Lemma let_par_annihilate_graph_witness :
  exists s',
    let_par_annihilate 4 10 (ptr DP0 1 0 0) (ptr PAR 4 0 0)
      (heap_of annihilate_text) = Some s' /\
    well_linked s' /\ RE3 s' = [1] /\ RE2 s' = [4] /\
    mem_get 10 s' = Some (ptr LAM 6 0 0) /\
    mem_get 11 s' = Some (ptr LAM 8 0 0).
Proof.
  destruct (let_par_annihilate_graph 4 10 (ptr DP0 1 0 0) (ptr PAR 4 0 0) 10 11
              (ptr DP0 1 0 0) (ptr DP1 1 0 0) (heap_of annihilate_text))
    as (s' & H1 & H2 & _ & H4 & H5 & H6 & H7 & _).
  - apply check_linked_sound. vm_compute. reflexivity.
  - vm_compute. reflexivity.
  - left. reflexivity.
  - vm_compute. reflexivity.
  - reflexivity.
  - vm_compute. reflexivity.
  - reflexivity.
  - reflexivity.
  - vm_compute. reflexivity.
  - reflexivity.
  - reflexivity.
  - vm_compute. discriminate.
  - vm_compute. discriminate.
  - left. vm_compute. discriminate.
  - split; intros [_ H]; vm_compute in H; discriminate H.
  - exists s'. split; [exact H1|]. split; [exact H2|].
    split; [rewrite H4; vm_compute; reflexivity|].
    split; [rewrite H5; vm_compute; reflexivity|].
    split; [rewrite H6; vm_compute; reflexivity|].
    rewrite H7. vm_compute. reflexivity.
Defined.

(** ** LET-LAM on a well-linked heap *)

Lemma slot_of_plain tag pos c0 :
  tag < 16 -> c0 < 256 -> tag <> VAR -> tag <> DP0 -> tag <> DP1 ->
  slot_of (Some (ptr tag pos c0 0)) = None.
Proof.
  intros Ht Hc0 H1 H2 H3. unfold slot_of. simpl.
  apply binder_slot_tag; rewrite get_tag_ptr by lia; assumption.
Qed.

Lemma slot_of_var pos : slot_of (Some (ptr VAR pos 0 0)) = Some pos.
Proof.
  unfold slot_of. simpl.
  rewrite (proj1 (binder_slot_tag _)) by apply var_tag.
  rewrite get_loc_0, get_pos_ptr by (unfold VAR; lia). reflexivity.
Qed.

Ltac drop_none :=
  repeat match goal with
    | |- context [@decide (None = Some ?i) ?d] =>
        destruct (@decide (None = Some i) d) as [?|_]; [discriminate|]
    end.

Lemma node_size_const pos c0 :
  c0 < 256 ->
  node_size (ptr LAM pos 0 0) = 2 /\ node_size (ptr PAR pos c0 0) = 2 /\
  node_size (ptr DP0 pos c0 0) = 3 /\ node_size (ptr DP1 pos c0 0) = 3 /\
  node_size (ptr VAR pos 0 0) = 0 /\ node_size (ptr LNK pos 0 0) = 0.
Proof.
  intros Hc.
  destruct (node_size_ptr LAM pos 0) as (H1 & _); [reflexivity|reflexivity|].
  destruct (node_size_ptr PAR pos c0) as (H2 & _); [reflexivity|exact Hc|].
  destruct (node_size_ptr DP0 pos c0) as (H3 & _); [reflexivity|exact Hc|].
  destruct (node_size_ptr DP1 pos c0) as (H4 & _); [reflexivity|exact Hc|].
  destruct (node_size_ptr VAR pos 0) as (H5 & _); [reflexivity|reflexivity|].
  destruct (node_size_ptr LNK pos 0) as (H6 & _); [reflexivity|reflexivity|].
  split; [exact H1|]. split; [exact H2|]. split; [exact H3|].
  split; [exact H4|]. split; [exact H5|exact H6].
Qed.

(** A node of size 2 or 3 taken when both reuse stacks are empty. *)
Lemma alloc_fresh_node n s :
  RE2 s = [] -> RE3 s = [] -> n = 2 \/ n = 3 ->
  exists s1,
    alloc n s = (MEM_length s, s1) /\
    RE2 s1 = [] /\ RE3 s1 = [] /\
    MEM_length s1 = MEM_length s + n /\
    (forall i, mem_get i s1
               = if decide (MEM_length s <= i < MEM_length s + n) then Some 0
                 else mem_get i s).
Proof.
  intros H2 H3 Hn.
  destruct (alloc_fresh_get n s) as (P & Q & Len & G);
    [destruct Hn as [-> | ->]; assumption|destruct Hn as [-> | ->]; reflexivity|].
  destruct (alloc n s) as [p s1]. simpl in P, Q, Len, G. subst p.
  exists s1. split; [reflexivity|].
  unfold registers in Q. injection Q as _ _ Q2 Q3 _ _ _.
  split; [congruence|]. split; [congruence|]. split; [exact Len|exact G].
Qed.

(** Four fresh nodes of sizes 2, 2, 2 and 3. *)
Lemma alloc_2223 s :
  RE2 s = [] -> RE3 s = [] ->
  exists s1 s2 s3 s4,
    alloc 2 s = (MEM_length s, s1) /\
    alloc 2 s1 = (MEM_length s + 2, s2) /\
    alloc 2 s2 = (MEM_length s + 4, s3) /\
    alloc 3 s3 = (MEM_length s + 6, s4) /\
    RE2 s4 = [] /\ RE3 s4 = [] /\
    MEM_length s4 = MEM_length s + 9 /\
    (forall j, mem_get j s4
               = if decide (MEM_length s <= j < MEM_length s + 9) then Some 0
                 else mem_get j s).
Proof.
  intros HRE2 HRE3.
  destruct (alloc_fresh_node 2 s) as (s1 & A1 & B1 & C1 & Len1 & G1); auto.
  destruct (alloc_fresh_node 2 s1) as (s2 & A2 & B2 & C2 & Len2 & G2); auto.
  destruct (alloc_fresh_node 2 s2) as (s3 & A3 & B3 & C3 & Len3 & G3); auto.
  destruct (alloc_fresh_node 3 s3) as (s4 & A4 & B4 & C4 & Len4 & G4); auto.
  exists s1, s2, s3, s4.
  split; [exact A1|].
  split; [rewrite A2; f_equal; lia|].
  split; [rewrite A3; f_equal; lia|].
  split; [rewrite A4; f_equal; lia|].
  split; [exact B4|]. split; [exact C4|]. split; [lia|].
  intros j. rewrite G4, G3, G2, G1.
  repeat case_decide; try lia; reflexivity.
Qed.

Section LetLam.

Variables (host term expr : N) (s : State).
Variables (L D F o0 o1 ox t0 t1 tx col : N) (f : Val).
Hypothesis EL : L = MEM_length s.
Hypothesis ED : D = get_loc term 0.
Hypothesis EF : F = get_loc expr 0.
Hypothesis Ecol : col = get_ex0 term.
Hypothesis Ef : f = get_arg expr 1 s.
Hypothesis Hw : well_linked s.
Hypothesis HRE2 : RE2 s = [].
Hypothesis HRE3 : RE3 s = [].
Hypothesis Hhost : mem_get host s = Some term.
Hypothesis Tterm : get_tag term = DP0 \/ get_tag term = DP1.
Hypothesis Hexpr : mem_get (D + 2) s = Some expr.
Hypothesis Texpr : get_tag expr = LAM.
Hypothesis Ho0 : mem_get o0 s = Some t0.
Hypothesis Tt0 : get_tag t0 = DP0.
Hypothesis Lt0 : get_loc t0 0 = D.
Hypothesis Ho1 : mem_get o1 s = Some t1.
Hypothesis Tt1 : get_tag t1 = DP1.
Hypothesis Lt1 : get_loc t1 0 = D.
Hypothesis Hox : mem_get ox s = Some tx.
Hypothesis Ttx : get_tag tx = VAR.
Hypothesis Ltx : get_loc tx 0 = F.
Hypothesis Hf : tag_of f <> LNK.
Hypothesis Hocc : o0 <> F + 1 /\ o1 <> F + 1.

Lemma let_lam_cells :
  mem_get (F + 1) s = f /\
  mem_get D s = Some (ptr LNK o0 0 0) /\
  mem_get (D + 1) s = Some (ptr LNK o1 0 0) /\
  mem_get F s = Some (ptr LNK ox 0 0).
Proof.
  destruct Hw as (_ & Hbd & _).
  split; [subst; unfold get_arg; now rewrite (get_loc_add _ 1)|].
  split; [|split].
  - apply (Hbd o0 t0); [exact Ho0|].
    rewrite (proj1 (proj2 (binder_slot_tag _))) by exact Tt0. now rewrite Lt0.
  - apply (Hbd o1 t1); [exact Ho1|].
    rewrite (proj1 (proj2 (proj2 (binder_slot_tag _)))) by exact Tt1.
    now rewrite get_loc_add, Lt1.
  - apply (Hbd ox tx); [exact Hox|].
    rewrite (proj1 (binder_slot_tag _)) by exact Ttx. now rewrite Ltx.
Qed.

Lemma let_lam_host :
  (get_tag term = DP0 -> host = o0) /\ (get_tag term = DP1 -> host = o1).
Proof.
  destruct Hw as (_ & Hbd & _).
  destruct let_lam_cells as (_ & C0 & C1 & _).
  split; intros Tt; apply lnk_inj.
  - assert (mem_get D s = Some (ptr LNK host 0 0)) as Hx; [|congruence].
    apply (Hbd host term); [exact Hhost|].
    rewrite (proj1 (proj2 (binder_slot_tag _))) by exact Tt. now rewrite ED.
  - assert (mem_get (D + 1) s = Some (ptr LNK host 0 0)) as Hx; [|congruence].
    apply (Hbd host term); [exact Hhost|].
    rewrite (proj1 (proj2 (proj2 (binder_slot_tag _)))) by exact Tt.
    now rewrite get_loc_add, ED.
Qed.

Lemma let_lam_ranges :
  D + 3 <= L /\ F + 2 <= L /\ o0 < L /\ o1 < L /\ ox < L /\
  o0 <> o1 /\ o0 <> ox /\ o1 <> ox /\
  ~ (D <= o0 < D + 3) /\ ~ (D <= o1 < D + 3) /\ ~ (D <= ox < D + 3) /\
  ~ (F <= o0 < F + 2) /\ ~ (F <= o1 < F + 2) /\ ox <> F.
Proof.
  destruct Hw as (Hwf & Hbd & Hrange).
  destruct let_lam_cells as (Cf & C0 & C1 & Cx).
  destruct Hocc as (Hoc0 & Hoc1).
  assert (o0 < L) as H0 by (subst L; apply Hwf; unfold mem_get in Ho0; eauto).
  assert (o1 < L) as H1 by (subst L; apply Hwf; unfold mem_get in Ho1; eauto).
  assert (ox < L) as Hx by (subst L; apply Hwf; unfold mem_get in Hox; eauto).
  assert (node_size term = 3) as N1
    by (unfold node_size; destruct Tterm as [-> | ->]; reflexivity).
  assert (node_size expr = 2) as N2 by (unfold node_size; rewrite Texpr; reflexivity).
  pose proof (Hrange host term 2 Hhost ltac:(rewrite N1; reflexivity)) as H2.
  pose proof (Hrange (D + 2) expr 1 Hexpr ltac:(rewrite N2; reflexivity)) as H3.
  rewrite get_loc_add in H2, H3. rewrite <- ED, <- EL in H2. rewrite <- EF, <- EL in H3.
  assert (forall o t, mem_get o s = Some t -> get_tag t <> LNK -> get_tag t <> LAM ->
                      ~ (D <= o < D + 3) /\ o <> F) as Hout.
  { intros o t Ho TL TM. split.
    - intros Hr.
      assert (o = D \/ o = D + 1 \/ o = D + 2) as [->|[->| ->]] by (clear - Hr; lia).
      + rewrite C0 in Ho. injection Ho as <-. now rewrite lnk_tag in TL.
      + rewrite C1 in Ho. injection Ho as <-. now rewrite lnk_tag in TL.
      + rewrite Hexpr in Ho. injection Ho as <-. now rewrite Texpr in TM.
    - intros ->. rewrite Cx in Ho. injection Ho as <-. now rewrite lnk_tag in TL. }
  assert (forall o o' t t', mem_get o s = Some t -> mem_get o' s = Some t' ->
                            get_tag t <> get_tag t' -> o <> o') as Hdiff
    by (intros o o' t t' Ho Ho' Tne ->; rewrite Ho in Ho'; injection Ho' as <-; now apply Tne).
  destruct (Hout o0 t0 Ho0) as (O0a & O0b); [rewrite Tt0; discriminate..|].
  destruct (Hout o1 t1 Ho1) as (O1a & O1b); [rewrite Tt1; discriminate..|].
  destruct (Hout ox tx Hox) as (Oxa & Oxb); [rewrite Ttx; discriminate..|].
  split; [clear - H2; lia|]. split; [clear - H3; lia|].
  do 3 (split; [assumption|]).
  split; [apply (Hdiff _ _ _ _ Ho0 Ho1); rewrite Tt0, Tt1; discriminate|].
  split; [apply (Hdiff _ _ _ _ Ho0 Hox); rewrite Tt0, Ttx; discriminate|].
  split; [apply (Hdiff _ _ _ _ Ho1 Hox); rewrite Tt1, Ttx; discriminate|].
  do 3 (split; [assumption|]).
  split; [clear - O0b Hoc0; lia|]. split; [clear - O1b Hoc1; lia|]. exact Oxb.
Qed.

Lemma let_lam_lnk_apart slot h :
  mem_get slot s = Some (ptr LNK h 0 0) ->
  slot < L /\ slot <> o0 /\ slot <> o1 /\ slot <> ox /\ slot <> D + 2 /\
  slot <> F + 1 /\ (slot = D -> h = o0) /\ (slot = D + 1 -> h = o1) /\
  (slot = F -> h = ox).
Proof.
  intros Hl. destruct Hw as (Hwf & _ & _).
  destruct let_lam_cells as (Cf & C0 & C1 & Cx).
  assert (forall o t, mem_get o s = Some t -> get_tag t <> LNK -> slot <> o) as Hne.
  { intros o t Ho Tt ->. rewrite Ho in Hl. injection Hl as ->.
    now rewrite lnk_tag in Tt. }
  split; [subst L; apply Hwf; unfold mem_get in Hl; eauto|].
  split; [apply (Hne _ _ Ho0); rewrite Tt0; discriminate|].
  split; [apply (Hne _ _ Ho1); rewrite Tt1; discriminate|].
  split; [apply (Hne _ _ Hox); rewrite Ttx; discriminate|].
  split; [apply (Hne _ _ Hexpr); rewrite Texpr; discriminate|].
  split; [|split; [|split]].
  - intros ->. apply Hf. rewrite <- Cf, Hl. simpl. apply lnk_tag.
  - intros ->. rewrite C0 in Hl. injection Hl as Hx. symmetry. now apply lnk_inj.
  - intros ->. rewrite C1 in Hl. injection Hl as Hx. symmetry. now apply lnk_inj.
  - intros ->. rewrite Cx in Hl. injection Hl as Hx. symmetry. now apply lnk_inj.
Qed.

Lemma let_lam_slot h v slot :
  mem_get h s = v -> slot_of v = Some slot ->
  mem_get slot s = Some (ptr LNK h 0 0).
Proof.
  intros Hv Hs. destruct v as [p|]; [|discriminate].
  destruct Hw as (_ & Hbd & _). exact (Hbd h p slot Hv Hs).
Qed.

(** The binder slot of the body of the Lam. *)
Lemma let_lam_body_slot slot :
  slot_of f = Some slot ->
  slot < L /\ slot <> o0 /\ slot <> o1 /\ slot <> ox /\
  ~ (D <= slot < D + 3) /\ slot <> F + 1 /\ (slot = F -> ox = F + 1).
Proof.
  destruct let_lam_cells as (Cf & C0 & C1 & Cx).
  destruct Hocc as (Hoc0 & Hoc1).
  intros Hs. pose proof (let_lam_slot _ _ _ Cf Hs) as Hl.
  destruct (let_lam_lnk_apart _ _ Hl) as (A1 & A2 & A3 & A4 & A5 & A6 & A7 & A8 & A9).
  do 4 (split; [assumption|]).
  split; [clear - A5 A7 A8 Hoc0 Hoc1; lia|]. split; [assumption|].
  intros E; symmetry; now apply A9.
Qed.

(** When the body of the Lam is its own variable. *)
Lemma let_lam_identity : ox = F + 1 -> slot_of f = Some F.
Proof.
  destruct let_lam_cells as (Cf & _).
  intros E. rewrite E, Cf in Hox. rewrite Hox. unfold slot_of. simpl.
  rewrite (proj1 (binder_slot_tag _)) by exact Ttx. now rewrite Ltx.
Qed.

Variables (oc lk : N).
Hypothesis Eoc : oc = if decide (ox = F + 1) then L + 8 else ox.
Hypothesis Elk : lk = if get_tag term =? DP0 then L else L + 2.

Ltac rows_in H :=
  repeat match type of H with
    | (if @decide ?P ?d then _ else _) = _ => destruct (@decide P d)
    | is_Some (if @decide ?P ?d then _ else _) => destruct (@decide P d)
    end.

Ltac rows_goal small :=
  repeat match goal with
    | |- (if @decide ?P ?d then _ else _) = _ =>
        let Hrow := fresh "Hrow" in
        destruct (@decide P d) as [Hrow|Hrow];
        try (exfalso; first [contradiction | small Hrow])
    end.

Lemma let_lam_state :
  (get_tag term = DP0 /\ host = o0 /\ lk = L) \/
  (get_tag term = DP1 /\ host = o1 /\ lk = L + 2).
Proof.
  destruct let_lam_host as (H0 & H1).
  destruct Tterm as [Tt|Tt]; [left|right]; rewrite Elk, Tt; auto.
Qed.

Lemma let_lam_oc :
  (ox = F + 1 /\ oc = L + 8) \/ (ox <> F + 1 /\ oc = ox).
Proof.
  rewrite Eoc. destruct (decide (ox = F + 1)); [left|right]; auto.
Qed.

(** The rule with its four allocations and its four reads resolved. *)
Lemma let_lam_unfold fuel :
  exists s4,
    (forall j, mem_get j s4
               = if decide (L <= j < L + 9) then Some 0 else mem_get j s) /\
    RE2 s4 = [] /\ RE3 s4 = [] /\ MEM_length s4 = L + 9 /\
    let_lam fuel host term expr s
    = Some (free F 2 (free D 3
        (link host (Some (ptr LAM lk 0 0))
        (link oc (Some (ptr PAR (L + 4) col 0))
        (link o1 (Some (ptr LAM (L + 2) 0 0))
        (link o0 (Some (ptr LAM L 0 0))
        (link (L + 8) f
        (link (L + 5) (Some (ptr VAR (L + 2) 0 0))
        (link (L + 4) (Some (ptr VAR L 0 0))
        (link (L + 3) (Some (ptr DP1 (L + 6) col 0))
        (link (L + 1) (Some (ptr DP0 (L + 6) col 0)) s4))))))))))).
Proof.
  destruct let_lam_ranges
    as (R1 & R2 & R3 & R4 & R5 & R6 & R7 & R8 & R9 & R10 & R11 & R12 & R13 & R14).
  destruct let_lam_cells as (Cf & C0 & C1 & Cx).
  assert (col < 256) as Hcol by (subst col; apply get_ex0_bound).
  destruct (alloc_2223 s HRE2 HRE3)
    as (s1 & s2 & s3 & s4 & A1 & A2 & A3 & A4 & Q2 & Q3 & Len & G).
  rewrite <- EL in A1, A2, A3, A4, Len, G.
  exists s4. split; [exact G|]. split; [exact Q2|]. split; [exact Q3|].
  split; [exact Len|].
  unfold let_lam. rewrite A1. cbv beta iota. rewrite A2. cbv beta iota.
  rewrite A3. cbv beta iota. rewrite A4. cbv beta iota zeta.
  rewrite <- ED, <- EF, <- Ecol, <- Elk.
  replace (L + 2 + 1) with (L + 3) by lia. replace (L + 4 + 1) with (L + 5) by lia.
  replace (L + 6 + 2) with (L + 8) by lia. rewrite !N.add_0_r.
  destruct (slot_of_ptr (L + 6) col Hcol) as (S0 & S1 & _).
  assert (forall p, slot_of (Some (ptr LAM p 0 0)) = None) as SLAM
    by (intros p; apply slot_of_plain; [reflexivity|reflexivity|discriminate..]).
  pose proof slot_of_var as SVAR.
  match goal with |- context [get_arg expr 1 ?st] =>
    assert (get_arg expr 1 st = f) as -> end.
  { unfold get_arg. rewrite get_loc_add, <- EF, !link_get, G, S0, S1, !SVAR.
    rewrite !if_decide_some.
    rows_goal ltac:(fun H => clear - H R2; lia). exact Cf. }
  match goal with |- context [get_arg term 0 ?st] =>
    assert (get_arg term 0 st = Some (ptr LNK o0 0 0)) as -> end.
  { unfold get_arg. rewrite <- ED, !link_get, G, S0, S1, !SVAR.
    rewrite !if_decide_some.
    rows_goal ltac:(fun H =>
      first [ clear - H R1; lia
            | destruct (let_lam_body_slot _ H) as (_ & _ & _ & _ & B5 & _);
              clear - B5; lia ]).
    exact C0. }
  rewrite subst_used. simpl.
  match goal with |- context [get_arg term 1 ?st] =>
    assert (get_arg term 1 st = Some (ptr LNK o1 0 0)) as -> end.
  { unfold get_arg. rewrite get_loc_add, <- ED, !link_get, G, S0, S1, !SVAR, SLAM.
    rewrite !if_decide_some. drop_none.
    rows_goal ltac:(fun H =>
      first [ clear - H R1 R9; lia
            | destruct (let_lam_body_slot _ H) as (_ & _ & _ & _ & B5 & _);
              clear - B5; lia ]).
    exact C1. }
  rewrite subst_used. simpl.
  match goal with |- context [get_arg expr 0 ?st] =>
    assert (get_arg expr 0 st = Some (ptr LNK oc 0 0)) as -> end.
  { unfold get_arg. rewrite <- EF, !link_get, G, S0, S1, !SVAR, !SLAM.
    rewrite !if_decide_some. drop_none.
    rewrite decide_False by (clear - R13; lia).
    rewrite decide_False by (clear - R12; lia).
    destruct let_lam_oc as [(Ei & ->)|(Ni & ->)].
    - rewrite decide_True by (exact (let_lam_identity Ei)). reflexivity.
    - rewrite decide_False
        by (intros Hs; destruct (let_lam_body_slot _ Hs) as (_ & _ & _ & _ & _ & _ & B7);
            now apply Ni, B7).
      rows_goal ltac:(fun H => clear - H R2; lia). exact Cx. }
  rewrite subst_used. simpl. reflexivity.
Qed.


(** The cells after the rule, as a table read from the top: the first
    row that applies gives the cell. *)
Lemma let_lam_table fuel :
  exists s',
    let_lam fuel host term expr s = Some s' /\
    MEM_length s' = L + 9 /\ RE3 s' = [D] /\ RE2 s' = [F] /\
    forall i, mem_get i s'
    = if decide (F <= i < F + 2) then Some 0
      else if decide (D <= i < D + 3) then Some 0
      else if decide (i = host) then Some (ptr LAM lk 0 0)
      else if decide (i = oc) then Some (ptr PAR (L + 4) col 0)
      else if decide (i = o1) then Some (ptr LAM (L + 2) 0 0)
      else if decide (i = o0) then Some (ptr LAM L 0 0)
      else if decide (slot_of f = Some i) then Some (ptr LNK (L + 8) 0 0)
      else if decide (i = L + 8) then f
      else if decide (i = L + 2) then Some (ptr LNK (L + 5) 0 0)
      else if decide (i = L + 5) then Some (ptr VAR (L + 2) 0 0)
      else if decide (i = L) then Some (ptr LNK (L + 4) 0 0)
      else if decide (i = L + 4) then Some (ptr VAR L 0 0)
      else if decide (i = L + 7) then Some (ptr LNK (L + 3) 0 0)
      else if decide (i = L + 3) then Some (ptr DP1 (L + 6) col 0)
      else if decide (i = L + 6) then Some (ptr LNK (L + 1) 0 0)
      else if decide (i = L + 1) then Some (ptr DP0 (L + 6) col 0)
      else if decide (L <= i < L + 9) then Some 0
      else mem_get i s.
Proof.
  destruct let_lam_ranges
    as (R1 & R2 & R3 & R4 & R5 & R6 & R7 & R8 & R9 & R10 & R11 & R12 & R13 & R14).
  destruct (let_lam_unfold fuel) as (s4 & G & Q2 & Q3 & Len & ->).
  assert (col < 256) as Hcol by (subst col; apply get_ex0_bound).
  destruct (slot_of_ptr (L + 6) col Hcol) as (S0 & S1 & _).
  assert (forall p, slot_of (Some (ptr LAM p 0 0)) = None) as SLAM
    by (intros p; apply slot_of_plain; [reflexivity|reflexivity|discriminate..]).
  assert (forall p, slot_of (Some (ptr PAR p col 0)) = None) as SPAR
    by (intros p; apply slot_of_plain; [reflexivity|exact Hcol|discriminate..]).
  pose proof slot_of_var as SVAR.
  assert (host < L) as Rh
    by (destruct let_lam_state as [(_ & -> & _)|(_ & -> & _)]; assumption).
  assert (oc < L + 9) as Roc
    by (destruct let_lam_oc as [(_ & ->)|(_ & ->)]; clear - R5; lia).
  assert (lk = L \/ lk = L + 2) as Hlk
    by (destruct let_lam_state as [(_ & _ & ->)|(_ & _ & ->)]; auto).
  eexists. split; [reflexivity|]. split; [|split; [|split]].
  - repeat first [apply free_length_same | apply link_length_same];
      try (clear - R1 R2 R3 R4 Rh Roc; lia); try exact Len;
      intros x Hx; rewrite ?S0, ?S1, ?SVAR, ?SLAM, ?SPAR in Hx;
      try discriminate Hx; try (injection Hx as <-; clear; lia);
      destruct (let_lam_body_slot _ Hx) as (B1 & _); clear - B1; lia.
  - rewrite RE3_free2, RE3_free3, !RE3_link, Q3. reflexivity.
  - rewrite RE2_free2, RE2_free3, !RE2_link, Q2. reflexivity.
  - intros i. rewrite !free_get, !link_get, G, S0, S1, !SVAR, !SLAM, SPAR.
    rewrite !if_decide_some. drop_none.
    replace (L + 6 + 1) with (L + 7) by (clear; lia). reflexivity.
Qed.

Section LetLamTable.

Variable s' : State.
Hypothesis Hlen : MEM_length s' = L + 9.
Hypothesis Htab : forall i, mem_get i s'
    = if decide (F <= i < F + 2) then Some 0
      else if decide (D <= i < D + 3) then Some 0
      else if decide (i = host) then Some (ptr LAM lk 0 0)
      else if decide (i = oc) then Some (ptr PAR (L + 4) col 0)
      else if decide (i = o1) then Some (ptr LAM (L + 2) 0 0)
      else if decide (i = o0) then Some (ptr LAM L 0 0)
      else if decide (slot_of f = Some i) then Some (ptr LNK (L + 8) 0 0)
      else if decide (i = L + 8) then f
      else if decide (i = L + 2) then Some (ptr LNK (L + 5) 0 0)
      else if decide (i = L + 5) then Some (ptr VAR (L + 2) 0 0)
      else if decide (i = L) then Some (ptr LNK (L + 4) 0 0)
      else if decide (i = L + 4) then Some (ptr VAR L 0 0)
      else if decide (i = L + 7) then Some (ptr LNK (L + 3) 0 0)
      else if decide (i = L + 3) then Some (ptr DP1 (L + 6) col 0)
      else if decide (i = L + 6) then Some (ptr LNK (L + 1) 0 0)
      else if decide (i = L + 1) then Some (ptr DP0 (L + 6) col 0)
      else if decide (L <= i < L + 9) then Some 0
      else mem_get i s.

Lemma let_lam_bonded : bonded s'.
Proof.
  destruct let_lam_ranges
    as (R1 & R2 & R3 & R4 & R5 & R6 & R7 & R8 & R9 & R10 & R11 & R12 & R13 & R14).
  destruct let_lam_cells as (Cf & C0 & C1 & Cx).
  assert (col < 256) as Hcol by (subst col; apply get_ex0_bound).
  assert (forall p, slot_of (Some (ptr DP0 p col 0)) = Some p) as SD0
    by (intros p; now destruct (slot_of_ptr p col Hcol) as (? & _)).
  assert (forall p, slot_of (Some (ptr DP1 p col 0)) = Some (p + 1)) as SD1
    by (intros p; now destruct (slot_of_ptr p col Hcol) as (_ & ? & _)).
  assert (forall p, slot_of (Some (ptr LAM p 0 0)) = None) as SLAM
    by (intros p; apply slot_of_plain; [reflexivity|reflexivity|discriminate..]).
  assert (forall p, slot_of (Some (ptr PAR p col 0)) = None) as SPAR
    by (intros p; apply slot_of_plain; [reflexivity|exact Hcol|discriminate..]).
  pose proof slot_of_var as SVAR.
  assert (slot_of (Some 0) = None) as SZ by reflexivity.
  assert (forall p, slot_of (Some (ptr LNK p 0 0)) = None) as SL
    by (intros p; apply binder_slot_lnk).
  assert (host = o0 \/ host = o1) as Hh
    by (destruct let_lam_state as [(_ & -> & _)|(_ & -> & _)]; auto).
  assert (forall x, slot_of f = Some x -> x < L) as Bf
    by (intros x Hx; now destruct (let_lam_body_slot _ Hx) as (? & _)).
  intros i x slot Hi Hslot.
  assert (forall v, v = Some x -> slot_of v = Some slot) as Hv
    by (intros v ->; exact Hslot).
  rewrite Htab in Hi.
  destruct let_lam_oc as [(Ei & Eo)|(Ni & Eo)]; rewrite Eo in *; rows_in Hi;
    try (apply Hv in Hi; rewrite ?SZ, ?SL, ?SLAM, ?SPAR in Hi; discriminate Hi);
    try (apply Hv in Hi; rewrite ?SD0, ?SD1, ?SVAR in Hi; injection Hi as <-;
         subst i; rewrite Htab, ?Eo;
         rows_goal ltac:(fun H =>
           first [ clear - H R1 R2 R3 R4 R5 Hh; lia
                 | apply Bf in H; clear - H; lia ]);
         reflexivity).
  - (* the body is the variable: a cell the rule did not write *)
    pose proof (let_lam_slot _ _ _ Hi (Hv _ eq_refl)) as Hl.
    destruct (let_lam_lnk_apart _ _ Hl) as (A1 & A2 & A3 & A4 & A5 & A6 & A7 & A8 & A9).
    assert (~ F <= slot < F + 2) as N1 by (clear - A6 A9 Ei n; lia).
    assert (~ D <= slot < D + 3) as N2 by (clear - A5 A7 A8 n3 n4; lia).
    assert (slot <> host) as N3 by (clear - A2 A3 Hh; lia).
    assert (slot_of f <> Some slot) as Nf.
    { intros Hs. pose proof (let_lam_slot _ _ _ Cf Hs) as Hl'.
      assert (F + 1 = i) as Hx by (apply lnk_inj; congruence). clear - Hx n. lia. }
    rewrite Htab.
    rows_goal ltac:(fun H => clear - H A1 A2 A3 N1 N2 N3; lia). exact Hl.
  - (* the moved body *)
    apply Hv in Hi.
    destruct (let_lam_body_slot _ Hi) as (B1 & B2 & B3 & B4 & B5 & B6 & B7).
    assert (~ F <= slot < F + 2) as N1 by (clear - B6 B7 Ni; lia).
    assert (slot <> host) as N3 by (clear - B2 B3 Hh; lia).
    rewrite Htab.
    rows_goal ltac:(fun H => clear - H B1 B2 B3 B4 B5 N1 N3; lia).
    subst i. reflexivity.
  - (* a cell the rule did not write *)
    pose proof (let_lam_slot _ _ _ Hi (Hv _ eq_refl)) as Hl.
    destruct (let_lam_lnk_apart _ _ Hl) as (A1 & A2 & A3 & A4 & A5 & A6 & A7 & A8 & A9).
    assert (~ F <= slot < F + 2) as N1 by (clear - A6 A9 n2; lia).
    assert (~ D <= slot < D + 3) as N2 by (clear - A5 A7 A8 n3 n4; lia).
    assert (slot <> host) as N3 by (clear - A2 A3 Hh; lia).
    assert (slot_of f <> Some slot) as Nf.
    { intros Hs. pose proof (let_lam_slot _ _ _ Cf Hs) as Hl'.
      assert (F + 1 = i) as Hx by (apply lnk_inj; congruence). clear - Hx n. lia. }
    rewrite Htab.
    rows_goal ltac:(fun H => clear - H A1 A2 A3 A4 N1 N2 N3; lia). exact Hl.
Qed.

Lemma let_lam_array_wf : array_wf s'.
Proof.
  destruct let_lam_ranges
    as (R1 & R2 & R3 & R4 & R5 & R6 & R7 & R8 & R9 & R10 & R11 & R12 & R13 & R14).
  assert (host < L) as Rh
    by (destruct let_lam_state as [(_ & -> & _)|(_ & -> & _)]; assumption).
  assert (oc < L + 9) as Roc
    by (destruct let_lam_oc as [(_ & ->)|(_ & ->)]; clear - R5; lia).
  intros k Hk. rewrite Hlen.
  change (is_Some (mem_get k s')) in Hk. rewrite Htab in Hk. rows_in Hk;
    first
      [ match goal with r : _ <= k < _ |- _ => clear - R1 R2 r; lia end
      | match goal with
        | e : slot_of f = Some k |- _ =>
            destruct (let_lam_body_slot _ e) as (B1 & _); clear - B1; lia
        end
      | match goal with e : k = _ |- _ => clear - e Rh Roc R3 R4; lia end
      | destruct Hw as (Hwf & _); specialize (Hwf k Hk); clear - Hwf EL; lia ].
Qed.

Lemma let_lam_slots_in_range : slots_in_range s'.
Proof.
  destruct let_lam_cells as (Cf & _).
  destruct Hw as (_ & _ & Hrange).
  assert (col < 256) as Hcol by (subst col; apply get_ex0_bound).
  assert (forall h x k, mem_get h s = Some x -> k < node_size x ->
                        get_loc x k < L + 9) as Hold
    by (intros h x k Hx Hk; pose proof (Hrange h x k Hx Hk); lia).
  assert (lk = L \/ lk = L + 2) as Hlk
    by (destruct let_lam_state as [(_ & _ & ->)|(_ & _ & ->)]; auto).
  assert (forall p, node_size (ptr LAM p 0 0) = 2 /\ node_size (ptr PAR p col 0) = 2 /\
                    node_size (ptr DP0 p col 0) = 3 /\ node_size (ptr DP1 p col 0) = 3 /\
                    node_size (ptr VAR p 0 0) = 0 /\ node_size (ptr LNK p 0 0) = 0) as NS
    by (intros p; apply node_size_const; exact Hcol).
  assert (forall t p c k, t < 16 -> c < 256 -> get_loc (ptr t p c 0) k = p + k) as GL
    by (intros; apply get_loc_ptr; lia).
  intros i x k Hi Hk. rewrite Hlen.
  rewrite Htab in Hi. rows_in Hi;
    first
      [ injection Hi as <-; change (node_size 0) with 0 in Hk; clear - Hk; lia
      | injection Hi as <-;
        first [ rewrite (proj1 (NS _)) in Hk
              | rewrite (proj1 (proj2 (NS _))) in Hk
              | rewrite (proj1 (proj2 (proj2 (NS _)))) in Hk
              | rewrite (proj1 (proj2 (proj2 (proj2 (NS _))))) in Hk
              | rewrite (proj1 (proj2 (proj2 (proj2 (proj2 (NS _)))))) in Hk
              | rewrite (proj2 (proj2 (proj2 (proj2 (proj2 (NS _)))))) in Hk ];
        rewrite GL by (first [reflexivity | exact Hcol]);
        clear - Hk Hlk; lia
      | eapply Hold; [|exact Hk]; first [exact Hi | rewrite Cf; exact Hi] ].
Qed.

Lemma let_lam_new_cells :
  mem_get o0 s' = Some (ptr LAM L 0 0) /\
  mem_get o1 s' = Some (ptr LAM (L + 2) 0 0) /\
  mem_get L s' = Some (ptr LNK (L + 4) 0 0) /\
  mem_get (L + 1) s' = Some (ptr DP0 (L + 6) col 0) /\
  mem_get (L + 2) s' = Some (ptr LNK (L + 5) 0 0) /\
  mem_get (L + 3) s' = Some (ptr DP1 (L + 6) col 0) /\
  mem_get (L + 4) s' = Some (ptr VAR L 0 0) /\
  mem_get (L + 5) s' = Some (ptr VAR (L + 2) 0 0) /\
  mem_get (L + 6) s' = Some (ptr LNK (L + 1) 0 0) /\
  mem_get (L + 7) s' = Some (ptr LNK (L + 3) 0 0) /\
  mem_get (L + 8) s' = (if decide (ox = F + 1) then Some (ptr PAR (L + 4) col 0) else f) /\
  (ox <> F + 1 -> mem_get ox s' = Some (ptr PAR (L + 4) col 0)) /\
  (forall x, slot_of f = Some x -> x <> F -> mem_get x s' = Some (ptr LNK (L + 8) 0 0)) /\
  (forall i, D <= i < D + 3 \/ F <= i < F + 2 -> mem_get i s' = Some 0).
Proof.
  destruct let_lam_ranges
    as (R1 & R2 & R3 & R4 & R5 & R6 & R7 & R8 & R9 & R10 & R11 & R12 & R13 & R14).
  assert (host < L) as Rh
    by (destruct let_lam_state as [(_ & -> & _)|(_ & -> & _)]; assumption).
  assert (forall x, slot_of f = Some x -> x < L) as Bf
    by (intros x Hx; now destruct (let_lam_body_slot _ Hx) as (? & _)).
  assert (oc = L + 8 \/ oc = ox) as Roc
    by (destruct let_lam_oc as [(_ & ->)|(_ & ->)]; auto).
  assert (forall o, o = o0 \/ o = o1 -> slot_of f <> Some o) as Hno.
  { intros o Ho Hs. destruct (let_lam_body_slot _ Hs) as (_ & ? & ? & _).
    destruct Ho; congruence. }
  pose proof (Hno o0 ltac:(now left)) as Nf0.
  pose proof (Hno o1 ltac:(now right)) as Nf1.
  split; [|split].
  - rewrite Htab.
    destruct let_lam_state as [(_ & Eh & El)|(_ & Eh & El)]; rewrite Eh, El;
      rows_goal ltac:(fun H => clear - H R3 R5 R6 R7 R9 R12 Roc; lia);
      reflexivity.
  - rewrite Htab.
    destruct let_lam_state as [(_ & Eh & El)|(_ & Eh & El)]; rewrite Eh, El;
      rows_goal ltac:(fun H => clear - H R4 R5 R6 R8 R10 R13 Roc; lia);
      reflexivity.
  - do 8 (split; [rewrite Htab;
                   rows_goal ltac:(fun H =>
                     first [ clear - H R1 R2 R3 R4 R5 Rh Roc; lia
                           | apply Bf in H; clear - H; lia ]);
                   reflexivity|]).
    split; [|split; [|split]].
    + rewrite Htab. destruct let_lam_oc as [(Ei & Eo)|(Ni & Eo)]; rewrite Eo.
      * rewrite (decide_True _ _ Ei).
        rows_goal ltac:(fun H => clear - H R1 R2 R3 R4 Rh; lia). reflexivity.
      * rewrite (decide_False _ _ Ni).
        rows_goal ltac:(fun H =>
          first [ clear - H R1 R2 R3 R4 R5 Rh; lia
                | apply Bf in H; clear - H; lia ]).
        reflexivity.
    + intros Ni. rewrite Htab.
      destruct let_lam_oc as [(Ei & Eo)|(_ & Eo)]; [contradiction|]. rewrite Eo.
      assert (ox <> host) as Nh
        by (destruct let_lam_state as [(_ & -> & _)|(_ & -> & _)]; auto).
      rows_goal ltac:(fun H => clear - H R11 R14 Ni Nh; lia). reflexivity.
    + intros x Hx Nx. rewrite Htab.
      destruct (let_lam_body_slot _ Hx) as (B1 & B2 & B3 & B4 & B5 & B6 & B7).
      assert (x <> host) as Nh
        by (destruct let_lam_state as [(_ & -> & _)|(_ & -> & _)]; auto).
      assert (x <> oc) as No by (clear - Roc B1 B4; lia).
      rows_goal ltac:(fun H => clear - H B1 B2 B3 B5 B6 Nx Nh No; lia). reflexivity.
    + intros i Hi. rewrite Htab.
      destruct (decide (F <= i < F + 2)); [reflexivity|].
      rewrite decide_True by (clear - Hi n; lia). reflexivity.
Qed.

Lemma let_lam_linked : well_linked s'.
Proof.
  unfold well_linked. split; [|split].
  - exact let_lam_array_wf.
  - exact let_lam_bonded.
  - exact let_lam_slots_in_range.
Qed.

End LetLamTable.

Lemma let_lam_all fuel :
  exists s',
    let_lam fuel host term expr s = Some s' /\
    well_linked s' /\ MEM_length s' = L + 9 /\ RE3 s' = [D] /\ RE2 s' = [F] /\
    mem_get o0 s' = Some (ptr LAM L 0 0) /\
    mem_get o1 s' = Some (ptr LAM (L + 2) 0 0) /\
    mem_get L s' = Some (ptr LNK (L + 4) 0 0) /\
    mem_get (L + 1) s' = Some (ptr DP0 (L + 6) col 0) /\
    mem_get (L + 2) s' = Some (ptr LNK (L + 5) 0 0) /\
    mem_get (L + 3) s' = Some (ptr DP1 (L + 6) col 0) /\
    mem_get (L + 4) s' = Some (ptr VAR L 0 0) /\
    mem_get (L + 5) s' = Some (ptr VAR (L + 2) 0 0) /\
    mem_get (L + 6) s' = Some (ptr LNK (L + 1) 0 0) /\
    mem_get (L + 7) s' = Some (ptr LNK (L + 3) 0 0) /\
    mem_get (L + 8) s' = (if decide (ox = F + 1) then Some (ptr PAR (L + 4) col 0) else f) /\
    (ox <> F + 1 -> mem_get ox s' = Some (ptr PAR (L + 4) col 0)) /\
    (forall x, slot_of f = Some x -> x <> F -> mem_get x s' = Some (ptr LNK (L + 8) 0 0)) /\
    (forall i, D <= i < D + 3 \/ F <= i < F + 2 -> mem_get i s' = Some 0).
Proof.
  destruct (let_lam_table fuel) as (s' & E & Hlen & H3 & H2 & Htab).
  exists s'. split; [exact E|]. split; [exact (let_lam_linked s' Hlen Htab)|].
  split; [exact Hlen|]. split; [exact H3|]. split; [exact H2|].
  exact (let_lam_new_cells s' Htab).
Qed.

End LetLam.



(** ** Commuting LET-PAR on a well-linked heap *)

(** Four fresh nodes of sizes 2, 2, 3 and 3. *)
Lemma alloc_2233 s :
  RE2 s = [] -> RE3 s = [] ->
  exists s1 s2 s3 s4,
    alloc 2 s = (MEM_length s, s1) /\
    alloc 2 s1 = (MEM_length s + 2, s2) /\
    alloc 3 s2 = (MEM_length s + 4, s3) /\
    alloc 3 s3 = (MEM_length s + 7, s4) /\
    RE2 s4 = [] /\ RE3 s4 = [] /\
    MEM_length s4 = MEM_length s + 10 /\
    (forall j, mem_get j s4
               = if decide (MEM_length s <= j < MEM_length s + 10) then Some 0
                 else mem_get j s).
Proof.
  intros HRE2 HRE3.
  destruct (alloc_fresh_node 2 s) as (s1 & A1 & B1 & C1 & Len1 & G1); auto.
  destruct (alloc_fresh_node 2 s1) as (s2 & A2 & B2 & C2 & Len2 & G2); auto.
  destruct (alloc_fresh_node 3 s2) as (s3 & A3 & B3 & C3 & Len3 & G3); auto.
  destruct (alloc_fresh_node 3 s3) as (s4 & A4 & B4 & C4 & Len4 & G4); auto.
  exists s1, s2, s3, s4.
  split; [exact A1|].
  split; [rewrite A2; f_equal; lia|].
  split; [rewrite A3; f_equal; lia|].
  split; [rewrite A4; f_equal; lia|].
  split; [exact B4|]. split; [exact C4|]. split; [lia|].
  intros j. rewrite G4, G3, G2, G1.
  repeat case_decide; try lia; reflexivity.
Qed.

Section LetParCommute.

Variables (host term expr : N) (s : State).
Variables (L D E o0 o1 t0 t1 col ecol lk : N) (a b : Val).
Hypothesis EL : L = MEM_length s.
Hypothesis ED : D = get_loc term 0.
Hypothesis EE : E = get_loc expr 0.
Hypothesis Ecol : col = get_ex0 term.
Hypothesis Eecol : ecol = get_ex0 expr.
Hypothesis Elk : lk = if get_tag term =? DP0 then L else L + 2.
Hypothesis Ea : a = get_arg expr 0 s.
Hypothesis Eb : b = get_arg expr 1 s.
Hypothesis Hw : well_linked s.
Hypothesis HRE2 : RE2 s = [].
Hypothesis HRE3 : RE3 s = [].
Hypothesis Hhost : mem_get host s = Some term.
Hypothesis Tterm : get_tag term = DP0 \/ get_tag term = DP1.
Hypothesis Hexpr : mem_get (D + 2) s = Some expr.
Hypothesis Texpr : get_tag expr = PAR.
Hypothesis Ho0 : mem_get o0 s = Some t0.
Hypothesis Tt0 : get_tag t0 = DP0.
Hypothesis Lt0 : get_loc t0 0 = D.
Hypothesis Ho1 : mem_get o1 s = Some t1.
Hypothesis Tt1 : get_tag t1 = DP1.
Hypothesis Lt1 : get_loc t1 0 = D.
Hypothesis Ha : tag_of a <> LNK.
Hypothesis Hb : tag_of b <> LNK.
Hypothesis Hapart : D + 3 <= E \/ E + 2 <= D.
Hypothesis Hocc : ~ (E <= o0 < E + 2) /\ ~ (E <= o1 < E + 2).

Lemma let_par_commute_cells :
  mem_get E s = a /\ mem_get (E + 1) s = b /\
  mem_get D s = Some (ptr LNK o0 0 0) /\
  mem_get (D + 1) s = Some (ptr LNK o1 0 0).
Proof.
  exact (let_par_cells term expr s D E o0 o1 t0 t1 a b ED EE Ea Eb Hw Hexpr
           Ho0 Tt0 Lt0 Ho1 Tt1 Lt1 Ha Hb Hapart Hocc).
Qed.

Lemma let_par_commute_ranges :
  D + 3 <= L /\ E + 2 <= L /\ o0 < L /\ o1 < L /\ o0 <> o1 /\
  ~ (D <= o0 < D + 3) /\ ~ (D <= o1 < D + 3).
Proof.
  exact (let_par_ranges host term expr s L D E o0 o1 t0 t1 a b EL ED EE Ea Eb Hw
           Hhost Tterm Hexpr Texpr Ho0 Tt0 Lt0 Ho1 Tt1 Lt1 Ha Hb Hapart Hocc).
Qed.

Lemma let_par_commute_lnk_apart slot h :
  mem_get slot s = Some (ptr LNK h 0 0) ->
  slot < L /\ slot <> o0 /\ slot <> o1 /\ slot <> D + 2 /\
  ~ (E <= slot < E + 2) /\ (slot = D -> h = o0) /\ (slot = D + 1 -> h = o1).
Proof.
  exact (let_par_lnk_apart term expr s L D E o0 o1 t0 t1 a b EL ED EE Ea Eb Hw
           Hexpr Texpr Ho0 Tt0 Lt0 Ho1 Tt1 Lt1 Ha Hb Hapart Hocc slot h).
Qed.

Lemma let_par_commute_slots_apart slot :
  (slot_of a = Some slot ->
     slot < L /\ slot <> o0 /\ slot <> o1 /\ ~ (D <= slot < D + 3) /\
     ~ (E <= slot < E + 2) /\ slot_of b <> Some slot) /\
  (slot_of b = Some slot ->
     slot < L /\ slot <> o0 /\ slot <> o1 /\ ~ (D <= slot < D + 3) /\
     ~ (E <= slot < E + 2)).
Proof.
  exact (let_par_slots_apart term expr s L D E o0 o1 t0 t1 a b EL ED EE Ea Eb Hw
           Hexpr Texpr Ho0 Tt0 Lt0 Ho1 Tt1 Lt1 Ha Hb Hapart Hocc slot).
Qed.

Lemma let_par_commute_state :
  (get_tag term = DP0 /\ host = o0 /\ lk = L) \/
  (get_tag term = DP1 /\ host = o1 /\ lk = L + 2).
Proof.
  destruct (let_par_host host term expr s D E o0 o1 t0 t1 a b ED EE Ea Eb Hw
              Hhost Hexpr Ho0 Tt0 Lt0 Ho1 Tt1 Lt1 Ha Hb Hapart Hocc) as (H0 & H1).
  destruct Tterm as [Tt|Tt]; [left|right]; rewrite Elk, Tt; auto.
Qed.

Ltac rows_in H :=
  repeat match type of H with
    | (if @decide ?P ?d then _ else _) = _ => destruct (@decide P d)
    | is_Some (if @decide ?P ?d then _ else _) => destruct (@decide P d)
    end.

Ltac rows_goal small :=
  repeat match goal with
    | |- (if @decide ?P ?d then _ else _) = _ =>
        let Hrow := fresh "Hrow" in
        destruct (@decide P d) as [Hrow|Hrow];
        try (exfalso; first [contradiction | small Hrow])
    end.

(** The rule with its four allocations and its four reads resolved. *)
Lemma let_par_commute_unfold fuel :
  exists s4,
    (forall j, mem_get j s4
               = if decide (L <= j < L + 10) then Some 0 else mem_get j s) /\
    RE2 s4 = [] /\ RE3 s4 = [] /\ MEM_length s4 = L + 10 /\
    let_par_commute fuel host term expr s
    = Some (free E 2 (free D 3
        (link host (Some (ptr PAR lk ecol 0))
        (link o1 (Some (ptr PAR (L + 2) ecol 0))
        (link o0 (Some (ptr PAR L ecol 0))
        (link (L + 9) b
        (link (L + 6) a
        (link (L + 3) (Some (ptr DP1 (L + 7) col 0))
        (link (L + 2) (Some (ptr DP1 (L + 4) col 0))
        (link (L + 1) (Some (ptr DP0 (L + 7) col 0))
        (link L (Some (ptr DP0 (L + 4) col 0)) s4))))))))))).
Proof.
  destruct let_par_commute_ranges as (R1 & R2 & R3 & R4 & R5 & R6 & R7).
  destruct let_par_commute_cells as (Ca & Cb & C0 & C1).
  destruct Hocc as (Hoc0 & Hoc1).
  assert (col < 256) as Hcol by (subst col; apply get_ex0_bound).
  assert (ecol < 256) as Hecol by (subst ecol; apply get_ex0_bound).
  destruct (alloc_2233 s HRE2 HRE3)
    as (s1 & s2 & s3 & s4 & A1 & A2 & A3 & A4 & Q2 & Q3 & Len & G).
  rewrite <- EL in A1, A2, A3, A4, Len, G.
  exists s4. split; [exact G|]. split; [exact Q2|]. split; [exact Q3|].
  split; [exact Len|].
  unfold let_par_commute. rewrite A1. cbv beta iota. rewrite A2. cbv beta iota.
  rewrite A3. cbv beta iota. rewrite A4. cbv beta iota zeta.
  rewrite <- ED, <- EE, <- Ecol, <- Eecol, <- Elk.
  replace (L + 2 + 1) with (L + 3) by lia. replace (L + 4 + 2) with (L + 6) by lia.
  replace (L + 7 + 2) with (L + 9) by lia. rewrite !N.add_0_r.
  assert (forall p, slot_of (Some (ptr DP0 p col 0)) = Some p) as SD0
    by (intros p; now destruct (slot_of_ptr p col Hcol) as (? & _)).
  assert (forall p, slot_of (Some (ptr DP1 p col 0)) = Some (p + 1)) as SD1
    by (intros p; now destruct (slot_of_ptr p col Hcol) as (_ & ? & _)).
  assert (forall p, slot_of (Some (ptr PAR p ecol 0)) = None) as SPAR
    by (intros p; apply slot_of_plain; [reflexivity|exact Hecol|discriminate..]).
  assert (forall x, slot_of a = Some x -> ~ (D <= x < D + 3) /\ ~ (E <= x < E + 2)) as Sa
    by (intros x Hs; destruct (proj1 (let_par_commute_slots_apart x) Hs) as (_ & _ & _ & ? & ? & _);
        auto).
  assert (forall x, slot_of b = Some x -> ~ (D <= x < D + 3) /\ ~ (E <= x < E + 2)) as Sb
    by (intros x Hs; destruct (proj2 (let_par_commute_slots_apart x) Hs) as (_ & _ & _ & ? & ?);
        auto).
  match goal with |- context [get_arg expr 0 ?st] =>
    assert (get_arg expr 0 st = a) as -> end.
  { unfold get_arg. rewrite <- EE, !link_get, G, !SD0, !SD1.
    rewrite !if_decide_some.
    rows_goal ltac:(fun H => clear - H R2; lia). exact Ca. }
  match goal with |- context [get_arg expr 1 ?st] =>
    assert (get_arg expr 1 st = b) as -> end.
  { unfold get_arg. rewrite get_loc_add, <- EE, !link_get, G, !SD0, !SD1.
    rewrite !if_decide_some.
    rows_goal ltac:(fun H =>
      first [ clear - H R2; lia
            | destruct (Sa _ H) as (_ & Hx); clear - Hx; lia ]).
    exact Cb. }
  match goal with |- context [get_arg term 0 ?st] =>
    assert (get_arg term 0 st = Some (ptr LNK o0 0 0)) as -> end.
  { unfold get_arg. rewrite <- ED, !link_get, G, !SD0, !SD1.
    rewrite !if_decide_some.
    rows_goal ltac:(fun H =>
      first [ clear - H R1; lia
            | destruct (Sa _ H) as (Hx & _); clear - Hx; lia
            | destruct (Sb _ H) as (Hx & _); clear - Hx; lia ]).
    exact C0. }
  rewrite subst_used. simpl.
  match goal with |- context [get_arg term 1 ?st] =>
    assert (get_arg term 1 st = Some (ptr LNK o1 0 0)) as -> end.
  { unfold get_arg. rewrite get_loc_add, <- ED, !link_get, G, !SD0, !SD1, SPAR.
    rewrite !if_decide_some. drop_none.
    rows_goal ltac:(fun H =>
      first [ clear - H R1 R6; lia
            | destruct (Sa _ H) as (Hx & _); clear - Hx; lia
            | destruct (Sb _ H) as (Hx & _); clear - Hx; lia ]).
    exact C1. }
  rewrite subst_used. simpl. reflexivity.
Qed.

(** The cells after the rule, as a table read from the top: the first
    row that applies gives the cell. *)
Lemma let_par_commute_table fuel :
  exists s',
    let_par_commute fuel host term expr s = Some s' /\
    MEM_length s' = L + 10 /\ RE3 s' = [D] /\ RE2 s' = [E] /\
    forall i, mem_get i s'
    = if decide (E <= i < E + 2) then Some 0
      else if decide (D <= i < D + 3) then Some 0
      else if decide (i = host) then Some (ptr PAR lk ecol 0)
      else if decide (i = o1) then Some (ptr PAR (L + 2) ecol 0)
      else if decide (i = o0) then Some (ptr PAR L ecol 0)
      else if decide (slot_of b = Some i) then Some (ptr LNK (L + 9) 0 0)
      else if decide (i = L + 9) then b
      else if decide (slot_of a = Some i) then Some (ptr LNK (L + 6) 0 0)
      else if decide (i = L + 6) then a
      else if decide (i = L + 8) then Some (ptr LNK (L + 3) 0 0)
      else if decide (i = L + 3) then Some (ptr DP1 (L + 7) col 0)
      else if decide (i = L + 5) then Some (ptr LNK (L + 2) 0 0)
      else if decide (i = L + 2) then Some (ptr DP1 (L + 4) col 0)
      else if decide (i = L + 7) then Some (ptr LNK (L + 1) 0 0)
      else if decide (i = L + 1) then Some (ptr DP0 (L + 7) col 0)
      else if decide (i = L + 4) then Some (ptr LNK L 0 0)
      else if decide (i = L) then Some (ptr DP0 (L + 4) col 0)
      else if decide (L <= i < L + 10) then Some 0
      else mem_get i s.
Proof.
  destruct let_par_commute_ranges as (R1 & R2 & R3 & R4 & R5 & R6 & R7).
  destruct (let_par_commute_unfold fuel) as (s4 & G & Q2 & Q3 & Len & ->).
  assert (col < 256) as Hcol by (subst col; apply get_ex0_bound).
  assert (ecol < 256) as Hecol by (subst ecol; apply get_ex0_bound).
  assert (forall p, slot_of (Some (ptr DP0 p col 0)) = Some p) as SD0
    by (intros p; now destruct (slot_of_ptr p col Hcol) as (? & _)).
  assert (forall p, slot_of (Some (ptr DP1 p col 0)) = Some (p + 1)) as SD1
    by (intros p; now destruct (slot_of_ptr p col Hcol) as (_ & ? & _)).
  assert (forall p, slot_of (Some (ptr PAR p ecol 0)) = None) as SPAR
    by (intros p; apply slot_of_plain; [reflexivity|exact Hecol|discriminate..]).
  assert (host < L) as Rh
    by (destruct let_par_commute_state as [(_ & -> & _)|(_ & -> & _)]; assumption).
  eexists. split; [reflexivity|]. split; [|split; [|split]].
  - repeat first [apply free_length_same | apply link_length_same];
      try (clear - R1 R2 R3 R4 Rh; lia); try exact Len;
      intros x Hx; rewrite ?SD0, ?SD1, ?SPAR in Hx;
      try discriminate Hx; try (injection Hx as <-; clear; lia);
      first [ destruct (proj1 (let_par_commute_slots_apart x) Hx) as (B1 & _)
            | destruct (proj2 (let_par_commute_slots_apart x) Hx) as (B1 & _) ];
      clear - B1; lia.
  - rewrite RE3_free2, RE3_free3, !RE3_link, Q3. reflexivity.
  - rewrite RE2_free2, RE2_free3, !RE2_link, Q2. reflexivity.
  - intros i. rewrite !free_get, !link_get, G, !SD0, !SD1, !SPAR.
    rewrite !if_decide_some. drop_none.
    replace (L + 7 + 1) with (L + 8) by (clear; lia).
    replace (L + 4 + 1) with (L + 5) by (clear; lia). reflexivity.
Qed.

Section CommuteTable.

Variable s' : State.
Hypothesis Hlen : MEM_length s' = L + 10.
Hypothesis Htab : forall i, mem_get i s'
    = if decide (E <= i < E + 2) then Some 0
      else if decide (D <= i < D + 3) then Some 0
      else if decide (i = host) then Some (ptr PAR lk ecol 0)
      else if decide (i = o1) then Some (ptr PAR (L + 2) ecol 0)
      else if decide (i = o0) then Some (ptr PAR L ecol 0)
      else if decide (slot_of b = Some i) then Some (ptr LNK (L + 9) 0 0)
      else if decide (i = L + 9) then b
      else if decide (slot_of a = Some i) then Some (ptr LNK (L + 6) 0 0)
      else if decide (i = L + 6) then a
      else if decide (i = L + 8) then Some (ptr LNK (L + 3) 0 0)
      else if decide (i = L + 3) then Some (ptr DP1 (L + 7) col 0)
      else if decide (i = L + 5) then Some (ptr LNK (L + 2) 0 0)
      else if decide (i = L + 2) then Some (ptr DP1 (L + 4) col 0)
      else if decide (i = L + 7) then Some (ptr LNK (L + 1) 0 0)
      else if decide (i = L + 1) then Some (ptr DP0 (L + 7) col 0)
      else if decide (i = L + 4) then Some (ptr LNK L 0 0)
      else if decide (i = L) then Some (ptr DP0 (L + 4) col 0)
      else if decide (L <= i < L + 10) then Some 0
      else mem_get i s.

Lemma let_par_commute_bonded : bonded s'.
Proof.
  destruct let_par_commute_ranges as (R1 & R2 & R3 & R4 & R5 & R6 & R7).
  destruct let_par_commute_cells as (Ca & Cb & C0 & C1).
  assert (col < 256) as Hcol by (subst col; apply get_ex0_bound).
  assert (ecol < 256) as Hecol by (subst ecol; apply get_ex0_bound).
  assert (forall p, slot_of (Some (ptr DP0 p col 0)) = Some p) as SD0
    by (intros p; now destruct (slot_of_ptr p col Hcol) as (? & _)).
  assert (forall p, slot_of (Some (ptr DP1 p col 0)) = Some (p + 1)) as SD1
    by (intros p; now destruct (slot_of_ptr p col Hcol) as (_ & ? & _)).
  assert (forall p, slot_of (Some (ptr PAR p ecol 0)) = None) as SPAR
    by (intros p; apply slot_of_plain; [reflexivity|exact Hecol|discriminate..]).
  assert (slot_of (Some 0) = None) as SZ by reflexivity.
  assert (forall p, slot_of (Some (ptr LNK p 0 0)) = None) as SL
    by (intros p; apply binder_slot_lnk).
  assert (host = o0 \/ host = o1) as Hh
    by (destruct let_par_commute_state as [(_ & -> & _)|(_ & -> & _)]; auto).
  assert (forall x, slot_of a = Some x -> x < L) as Ba
    by (intros x Hx; now destruct (proj1 (let_par_commute_slots_apart x) Hx) as (? & _)).
  assert (forall x, slot_of b = Some x -> x < L) as Bb
    by (intros x Hx; now destruct (proj2 (let_par_commute_slots_apart x) Hx) as (? & _)).
  intros i x slot Hi Hslot.
  assert (forall v, v = Some x -> slot_of v = Some slot) as Hv
    by (intros v ->; exact Hslot).
  rewrite Htab in Hi. rows_in Hi;
    try (apply Hv in Hi; rewrite ?SZ, ?SL, ?SPAR in Hi; discriminate Hi);
    try (apply Hv in Hi; rewrite ?SD0, ?SD1 in Hi; injection Hi as <-;
         subst i; rewrite Htab;
         rows_goal ltac:(fun H =>
           first [ clear - H R1 R2 R3 R4 Hh; lia
                 | apply Ba in H; clear - H; lia
                 | apply Bb in H; clear - H; lia ]);
         reflexivity).
  - (* the second component, moved *)
    apply Hv in Hi.
    destruct (proj2 (let_par_commute_slots_apart slot) Hi) as (B1 & B2 & B3 & B4 & B5).
    assert (slot <> host) as N3 by (clear - B2 B3 Hh; lia).
    rewrite Htab.
    rows_goal ltac:(fun H => clear - H B1 B2 B3 B4 B5 N3; lia).
    subst i. reflexivity.
  - (* the first component, moved *)
    apply Hv in Hi.
    destruct (proj1 (let_par_commute_slots_apart slot) Hi) as (B1 & B2 & B3 & B4 & B5 & B6).
    assert (slot <> host) as N3 by (clear - B2 B3 Hh; lia).
    rewrite Htab.
    rows_goal ltac:(fun H => clear - H B1 B2 B3 B4 B5 N3; lia).
    subst i. reflexivity.
  - (* a cell the rule did not write *)
    pose proof (let_par_slot s Hw _ _ _ Hi (Hv _ eq_refl)) as Hl.
    destruct (let_par_commute_lnk_apart _ _ Hl) as (A1 & A2 & A3 & A4 & A5 & A6 & A7).
    assert (~ D <= slot < D + 3) as N2 by (clear - A4 A6 A7 n2 n3; lia).
    assert (slot <> host) as N3 by (clear - A2 A3 Hh; lia).
    assert (forall h v, mem_get h s = v -> slot_of v = Some slot -> h = i) as Hhome.
    { intros h v Hh' Hs. apply lnk_inj.
      pose proof (let_par_slot s Hw _ _ _ Hh' Hs) as Hl'. congruence. }
    assert (slot_of a <> Some slot) as Na
      by (intros Hs; pose proof (Hhome _ _ Ca Hs) as Hx; clear - Hx n; lia).
    assert (slot_of b <> Some slot) as Nb
      by (intros Hs; pose proof (Hhome _ _ Cb Hs) as Hx; clear - Hx n; lia).
    rewrite Htab.
    rows_goal ltac:(fun H => clear - H A1 A2 A3 A5 N2 N3; lia). exact Hl.
Qed.

Lemma let_par_commute_array_wf : array_wf s'.
Proof.
  destruct let_par_commute_ranges as (R1 & R2 & R3 & R4 & R5 & R6 & R7).
  assert (host < L) as Rh
    by (destruct let_par_commute_state as [(_ & -> & _)|(_ & -> & _)]; assumption).
  intros k Hk. rewrite Hlen.
  change (is_Some (mem_get k s')) in Hk. rewrite Htab in Hk. rows_in Hk;
    first
      [ match goal with r : _ <= k < _ |- _ => clear - R1 R2 r; lia end
      | match goal with
        | e : slot_of a = Some k |- _ =>
            destruct (proj1 (let_par_commute_slots_apart _) e) as (B1 & _); clear - B1; lia
        | e : slot_of b = Some k |- _ =>
            destruct (proj2 (let_par_commute_slots_apart _) e) as (B1 & _); clear - B1; lia
        end
      | match goal with e : k = _ |- _ => clear - e Rh R3 R4; lia end
      | destruct Hw as (Hwf & _); specialize (Hwf k Hk); clear - Hwf EL; lia ].
Qed.

Lemma let_par_commute_slots_in_range : slots_in_range s'.
Proof.
  destruct let_par_commute_cells as (Ca & Cb & _).
  destruct Hw as (_ & _ & Hrange).
  assert (col < 256) as Hcol by (subst col; apply get_ex0_bound).
  assert (ecol < 256) as Hecol by (subst ecol; apply get_ex0_bound).
  assert (forall h x k, mem_get h s = Some x -> k < node_size x ->
                        get_loc x k < L + 10) as Hold
    by (intros h x k Hx Hk; pose proof (Hrange h x k Hx Hk); lia).
  assert (lk = L \/ lk = L + 2) as Hlk
    by (destruct let_par_commute_state as [(_ & _ & ->)|(_ & _ & ->)]; auto).
  assert (forall p, node_size (ptr PAR p ecol 0) = 2) as NP
    by (intros p; now destruct (node_size_const p ecol Hecol) as (_ & ? & _)).
  assert (forall p, node_size (ptr DP0 p col 0) = 3) as ND0
    by (intros p; now destruct (node_size_const p col Hcol) as (_ & _ & ? & _)).
  assert (forall p, node_size (ptr DP1 p col 0) = 3) as ND1
    by (intros p; now destruct (node_size_const p col Hcol) as (_ & _ & _ & ? & _)).
  assert (forall p, node_size (ptr LNK p 0 0) = 0) as NL
    by (intros p; now destruct (node_size_const p 0 eq_refl) as (_ & _ & _ & _ & _ & ?)).
  assert (forall t p c k, t < 16 -> c < 256 -> get_loc (ptr t p c 0) k = p + k) as GL
    by (intros; apply get_loc_ptr; lia).
  intros i x k Hi Hk. rewrite Hlen.
  rewrite Htab in Hi. rows_in Hi;
    first
      [ injection Hi as <-; change (node_size 0) with 0 in Hk; clear - Hk; lia
      | injection Hi as <-;
        first [ rewrite NP in Hk | rewrite ND0 in Hk | rewrite ND1 in Hk
              | rewrite NL in Hk ];
        rewrite GL by (first [reflexivity | exact Hcol | exact Hecol]);
        clear - Hk Hlk; lia
      | eapply Hold; [|exact Hk];
        first [exact Hi | rewrite Ca; exact Hi | rewrite Cb; exact Hi] ].
Qed.

Lemma let_par_commute_new_cells :
    mem_get o0 s' = Some (ptr PAR L ecol 0) /\
    mem_get o1 s' = Some (ptr PAR (L + 2) ecol 0) /\
    mem_get L s' = Some (ptr DP0 (L + 4) col 0) /\
    mem_get (L + 1) s' = Some (ptr DP0 (L + 7) col 0) /\
    mem_get (L + 2) s' = Some (ptr DP1 (L + 4) col 0) /\
    mem_get (L + 3) s' = Some (ptr DP1 (L + 7) col 0) /\
    mem_get (L + 4) s' = Some (ptr LNK L 0 0) /\
    mem_get (L + 5) s' = Some (ptr LNK (L + 2) 0 0) /\
    mem_get (L + 6) s' = a /\
    mem_get (L + 7) s' = Some (ptr LNK (L + 1) 0 0) /\
    mem_get (L + 8) s' = Some (ptr LNK (L + 3) 0 0) /\
    mem_get (L + 9) s' = b /\
    (forall x, slot_of a = Some x -> mem_get x s' = Some (ptr LNK (L + 6) 0 0)) /\
    (forall x, slot_of b = Some x -> mem_get x s' = Some (ptr LNK (L + 9) 0 0)) /\
    (forall i, D <= i < D + 3 \/ E <= i < E + 2 -> mem_get i s' = Some 0).
Proof.
  destruct let_par_commute_ranges as (R1 & R2 & R3 & R4 & R5 & R6 & R7).
  destruct Hocc as (Hoc0 & Hoc1).
  assert (host < L) as Rh
    by (destruct let_par_commute_state as [(_ & -> & _)|(_ & -> & _)]; assumption).
  assert (forall x, slot_of a = Some x -> x < L) as Ba
    by (intros x Hx; now destruct (proj1 (let_par_commute_slots_apart x) Hx) as (? & _)).
  assert (forall x, slot_of b = Some x -> x < L) as Bb
    by (intros x Hx; now destruct (proj2 (let_par_commute_slots_apart x) Hx) as (? & _)).
  assert (forall o, o = o0 \/ o = o1 ->
            slot_of a <> Some o /\ slot_of b <> Some o) as Hno.
  { intros o Ho. split; intros Hs.
    - destruct (proj1 (let_par_commute_slots_apart o) Hs) as (_ & ? & ? & _).
      destruct Ho; congruence.
    - destruct (proj2 (let_par_commute_slots_apart o) Hs) as (_ & ? & ? & _).
      destruct Ho; congruence. }
  destruct (Hno o0 ltac:(now left)) as (Na0 & Nb0).
  destruct (Hno o1 ltac:(now right)) as (Na1 & Nb1).
  split; [|split].
  - rewrite Htab.
    destruct let_par_commute_state as [(_ & Eh & El)|(_ & Eh & El)]; rewrite Eh, El;
      rows_goal ltac:(fun H => clear - H R3 R5 R6 Hoc0; lia);
      reflexivity.
  - rewrite Htab.
    destruct let_par_commute_state as [(_ & Eh & El)|(_ & Eh & El)]; rewrite Eh, El;
      rows_goal ltac:(fun H => clear - H R4 R5 R7 Hoc1; lia);
      reflexivity.
  - do 10 (split; [rewrite Htab;
                    rows_goal ltac:(fun H =>
                      first [ clear - H R1 R2 R3 R4 Rh; lia
                            | apply Ba in H; clear - H; lia
                            | apply Bb in H; clear - H; lia ]);
                    reflexivity|]).
    split; [|split].
    + intros x Hx. rewrite Htab.
      destruct (proj1 (let_par_commute_slots_apart x) Hx) as (B1 & B2 & B3 & B4 & B5 & B6).
      assert (x <> host) as Nh
        by (destruct let_par_commute_state as [(_ & -> & _)|(_ & -> & _)]; auto).
      rows_goal ltac:(fun H => clear - H B1 B2 B3 B4 B5 Nh; lia). reflexivity.
    + intros x Hx. rewrite Htab.
      destruct (proj2 (let_par_commute_slots_apart x) Hx) as (B1 & B2 & B3 & B4 & B5).
      assert (x <> host) as Nh
        by (destruct let_par_commute_state as [(_ & -> & _)|(_ & -> & _)]; auto).
      rows_goal ltac:(fun H => clear - H B1 B2 B3 B4 B5 Nh; lia). reflexivity.
    + intros i Hi. rewrite Htab.
      destruct (decide (E <= i < E + 2)); [reflexivity|].
      rewrite decide_True by (clear - Hi n; lia). reflexivity.
Qed.

Lemma let_par_commute_linked : well_linked s'.
Proof.
  unfold well_linked. split; [|split].
  - exact let_par_commute_array_wf.
  - exact let_par_commute_bonded.
  - exact let_par_commute_slots_in_range.
Qed.

End CommuteTable.

Lemma let_par_commute_all fuel :
  exists s',
    let_par_commute fuel host term expr s = Some s' /\
    well_linked s' /\ MEM_length s' = L + 10 /\ RE3 s' = [D] /\ RE2 s' = [E] /\
    mem_get o0 s' = Some (ptr PAR L ecol 0) /\
    mem_get o1 s' = Some (ptr PAR (L + 2) ecol 0) /\
    mem_get L s' = Some (ptr DP0 (L + 4) col 0) /\
    mem_get (L + 1) s' = Some (ptr DP0 (L + 7) col 0) /\
    mem_get (L + 2) s' = Some (ptr DP1 (L + 4) col 0) /\
    mem_get (L + 3) s' = Some (ptr DP1 (L + 7) col 0) /\
    mem_get (L + 4) s' = Some (ptr LNK L 0 0) /\
    mem_get (L + 5) s' = Some (ptr LNK (L + 2) 0 0) /\
    mem_get (L + 6) s' = a /\
    mem_get (L + 7) s' = Some (ptr LNK (L + 1) 0 0) /\
    mem_get (L + 8) s' = Some (ptr LNK (L + 3) 0 0) /\
    mem_get (L + 9) s' = b /\
    (forall x, slot_of a = Some x -> mem_get x s' = Some (ptr LNK (L + 6) 0 0)) /\
    (forall x, slot_of b = Some x -> mem_get x s' = Some (ptr LNK (L + 9) 0 0)) /\
    (forall i, D <= i < D + 3 \/ E <= i < E + 2 -> mem_get i s' = Some 0).
Proof.
  destruct (let_par_commute_table fuel) as (s' & Hs & Hlen & H3 & H2 & Htab).
  exists s'. split; [exact Hs|]. split; [exact (let_par_commute_linked s' Hlen Htab)|].
  split; [exact Hlen|]. split; [exact H3|]. split; [exact H2|].
  exact (let_par_commute_new_cells s' Htab).
Qed.

End LetParCommute.


#[local] Arguments N.mul : simpl never.

(** ** LET-CTR on a well-linked heap *)

Lemma get_ex1_bound p : get_ex1 p < 256.
Proof.
  unfold get_ex1. change 255 with (N.ones 8). rewrite N.land_ones.
  apply N.mod_lt. discriminate.
Qed.

Lemma bucket_registers n s s' : registers s' = registers s -> bucket n s' = bucket n s.
Proof.
  unfold registers, bucket. intros H. injection H as -> -> -> -> _ _ _. reflexivity.
Qed.

Lemma lnk_not_zero i : ptr LNK i 0 0 <> 0.
Proof.
  intros H. apply (f_equal get_tag) in H. rewrite lnk_tag in H. discriminate H.
Qed.

(** A fresh node leaves the heap as well formed as it was. *)
Lemma alloc_fresh_frame X n s :
  bucket n s = [] -> 0 < n ->
  array_wf s -> slots_in_range s -> bonded_but X s ->
  exists s1,
    alloc n s = (MEM_length s, s1) /\
    registers s1 = registers s /\
    MEM_length s1 = MEM_length s + n /\
    (forall i, mem_get i s1
               = if decide (MEM_length s <= i < MEM_length s + n) then Some 0
                 else mem_get i s) /\
    array_wf s1 /\ slots_in_range s1 /\ bonded_but X s1.
Proof.
  intros Hb Hn Hwf Hrange Hbd.
  destruct (alloc_fresh_get n s Hb Hn) as (P & Q & Len & G).
  destruct (alloc n s) as [p s1]. simpl in P, Q, Len, G. subst p.
  exists s1. split; [reflexivity|]. split; [exact Q|]. split; [exact Len|].
  split; [exact G|]. split; [|split].
  - intros k Hk. change (is_Some (mem_get k s1)) in Hk. rewrite G in Hk.
    destruct (decide _) as [r|r]; [lia|]. specialize (Hwf k Hk). lia.
  - intros i c k Hi Hk. rewrite G in Hi.
    destruct (decide _) as [r|r].
    + injection Hi as <-. change (node_size 0) with 0 in Hk. lia.
    + specialize (Hrange i c k Hi Hk). lia.
  - intros i c slot HX Hi Hs. rewrite G in Hi.
    destruct (decide _) as [r|r]; [injection Hi as <-; discriminate Hs|].
    pose proof (Hbd i c slot HX Hi Hs) as Hl. rewrite G.
    rewrite decide_False; [exact Hl|].
    intros r'. assert (slot < MEM_length s) as Hlt
      by (apply Hwf; unfold mem_get in Hl; rewrite Hl; eauto).
    lia.
Qed.

Ltac cell_rows_in H :=
  repeat match type of H with
    | (if @decide ?P ?d then _ else _) = _ => destruct (@decide P d)
    | is_Some (if @decide ?P ?d then _ else _) => destruct (@decide P d)
    end.

Ltac cell_rows small :=
  repeat match goal with
    | |- (if @decide ?P ?d then _ else _) = _ =>
        let Hrow := fresh "Hrow" in
        destruct (@decide P d) as [Hrow|Hrow];
        try (exfalso; first [contradiction | small Hrow])
    end.

Section LetCtr.

Variables (host term expr : N) (s : State).
Variables (L D E n func o0 o1 t0 t1 lk : N).
Hypothesis EL : L = MEM_length s.
Hypothesis ED : D = get_loc term 0.
Hypothesis EE : E = get_loc expr 0.
Hypothesis En : n = get_ex0 expr.
Hypothesis Efunc : func = get_ex1 expr.
Hypothesis Elk : lk = if get_tag term =? DP0 then L else L + n.
Hypothesis Hw : well_linked s.
Hypothesis Hn : 0 < n.
Hypothesis Hbucket : bucket n s = [].
Hypothesis HRE3 : RE3 s = [].
Hypothesis Hhost : mem_get host s = Some term.
Hypothesis Tterm : get_tag term = DP0 \/ get_tag term = DP1.
Hypothesis Hexpr : mem_get (D + 2) s = Some expr.
Hypothesis Texpr : get_tag expr = CTR.
Hypothesis Ho0 : mem_get o0 s = Some t0.
Hypothesis Tt0 : get_tag t0 = DP0.
Hypothesis Lt0 : get_loc t0 0 = D.
Hypothesis Ho1 : mem_get o1 s = Some t1.
Hypothesis Tt1 : get_tag t1 = DP1.
Hypothesis Lt1 : get_loc t1 0 = D.
Hypothesis Hfields : forall j, j < n -> tag_of (mem_get (E + j) s) <> LNK.
Hypothesis Hocc : ~ (E <= o0 < E + n) /\ ~ (E <= o1 < E + n).

Lemma let_ctr_cells :
  mem_get D s = Some (ptr LNK o0 0 0) /\
  mem_get (D + 1) s = Some (ptr LNK o1 0 0).
Proof.
  destruct Hw as (_ & Hbd & _). split.
  - apply (Hbd o0 t0); [exact Ho0|].
    rewrite (proj1 (proj2 (binder_slot_tag _))) by exact Tt0. now rewrite Lt0.
  - apply (Hbd o1 t1); [exact Ho1|].
    rewrite (proj1 (proj2 (proj2 (binder_slot_tag _)))) by exact Tt1.
    now rewrite get_loc_add, Lt1.
Qed.

Lemma let_ctr_state :
  (get_tag term = DP0 /\ host = o0 /\ lk = L) \/
  (get_tag term = DP1 /\ host = o1 /\ lk = L + n).
Proof.
  destruct Hw as (_ & Hbd & _). destruct let_ctr_cells as (C0 & C1).
  destruct Tterm as [Tt|Tt]; [left|right]; rewrite Elk, Tt;
    (split; [reflexivity|split; [|reflexivity]]); apply lnk_inj.
  - assert (mem_get D s = Some (ptr LNK host 0 0)) as Hx; [|congruence].
    apply (Hbd host term); [exact Hhost|].
    rewrite (proj1 (proj2 (binder_slot_tag _))) by exact Tt. now rewrite ED.
  - assert (mem_get (D + 1) s = Some (ptr LNK host 0 0)) as Hx; [|congruence].
    apply (Hbd host term); [exact Hhost|].
    rewrite (proj1 (proj2 (proj2 (binder_slot_tag _)))) by exact Tt.
    now rewrite get_loc_add, ED.
Qed.

Lemma let_ctr_ranges :
  D + 3 <= L /\ E + n <= L /\ o0 < L /\ o1 < L /\ host < L /\ o0 <> o1 /\
  n < 256 /\ func < 256.
Proof.
  destruct Hw as (Hwf & Hbd & Hrange).
  assert (o0 < L) as H0 by (subst L; apply Hwf; unfold mem_get in Ho0; eauto).
  assert (o1 < L) as H1 by (subst L; apply Hwf; unfold mem_get in Ho1; eauto).
  assert (node_size term = 3) as N1
    by (unfold node_size; destruct Tterm as [-> | ->]; reflexivity).
  assert (node_size expr = n) as N2
    by (unfold node_size; rewrite Texpr, <- En; reflexivity).
  pose proof (Hrange host term 2 Hhost ltac:(rewrite N1; reflexivity)) as H2.
  pose proof (Hrange (D + 2) expr (n - 1) Hexpr ltac:(rewrite N2; clear - Hn; lia)) as H3.
  rewrite get_loc_add in H2, H3. rewrite <- ED, <- EL in H2. rewrite <- EE, <- EL in H3.
  split; [clear - H2; lia|]. split; [clear - H3 Hn; lia|].
  split; [exact H0|]. split; [exact H1|]. split; [|split; [|split]].
  - destruct let_ctr_state as [(_ & -> & _)|(_ & -> & _)]; assumption.
  - intros E01. rewrite E01 in Ho0. rewrite Ho1 in Ho0. injection Ho0 as <-.
    rewrite Tt1 in Tt0. discriminate.
  - rewrite En. apply get_ex0_bound.
  - rewrite Efunc. apply get_ex1_bound.
Qed.

(** The cells the loop must not take for binder slots. *)
Lemma let_ctr_plain i h :
  i = o0 \/ i = o1 \/ i = D + 2 \/ E <= i < E + n ->
  mem_get i s <> Some (ptr LNK h 0 0).
Proof.
  intros Hi Hl.
  assert (tag_of (mem_get i s) = LNK) as Ht by (rewrite Hl; simpl; apply lnk_tag).
  destruct Hi as [->|[->|[->|Hr]]].
  - rewrite Ho0 in Ht. simpl in Ht. rewrite Tt0 in Ht. discriminate.
  - rewrite Ho1 in Ht. simpl in Ht. rewrite Tt1 in Ht. discriminate.
  - rewrite Hexpr in Ht. simpl in Ht. rewrite Texpr in Ht. discriminate.
  - apply (Hfields (i - E)); [clear - Hr; lia|].
    replace (E + (i - E)) with i by (clear - Hr; lia). exact Ht.
Qed.

(** The two constructor nodes, taken fresh. *)
Lemma let_ctr_init :
  exists s1 s2,
    alloc n s = (L, s1) /\ alloc n s1 = (L + n, s2) /\
    fields_split s L n D E o0 o1 0 s2.
Proof.
  destruct let_ctr_ranges as (R1 & R2 & R3 & R4 & Rh & R5 & R6 & R7).
  destruct let_ctr_cells as (C0 & C1).
  destruct Hw as (Hwf & Hbd & Hrange).
  assert (bonded_but (fun i => E <= i < E + 0) s) as Hbd0
    by (intros i c slot _ Hi Hs; exact (Hbd i c slot Hi Hs)).
  destruct (alloc_fresh_frame _ n s Hbucket Hn Hwf Hrange Hbd0)
    as (s1 & A1 & Q1 & Len1 & G1 & wf1 & rg1 & bd1).
  assert (bucket n s1 = []) as Hb1 by (rewrite (bucket_registers _ _ _ Q1); exact Hbucket).
  destruct (alloc_fresh_frame _ n s1 Hb1 Hn wf1 rg1 bd1)
    as (s2 & A2 & Q2 & Len2 & G2 & wf2 & rg2 & bd2).
  rewrite <- EL in *. rewrite Len1 in A2, Len2, G2.
  exists s1, s2. split; [exact A1|]. split; [exact A2|].
  assert (forall i, mem_get i s2
            = if decide (L <= i < L + 2 * n) then Some 0 else mem_get i s) as G.
  { intros i. rewrite G2, G1. repeat case_decide; try lia; reflexivity. }
  unfold fields_split.
  split; [lia|]. split; [congruence|]. split; [exact wf2|]. split; [exact rg2|].
  split; [exact bd2|].
  split; [intros i Hi _; rewrite G; rewrite decide_False by lia; reflexivity|].
  split; [rewrite G; rewrite decide_False by lia; exact C0|].
  split; [rewrite G; rewrite decide_False by lia; exact C1|].
  split; [intros j Hj; lia|].
  intros j Hj. split; rewrite G; rewrite decide_True by lia; reflexivity.
Qed.

(** One turn of the loop. *)
Lemma let_ctr_step k st :
  k < n -> fields_split s L n D E o0 o1 k st ->
  exists st1,
    alloc 3 st = (L + 2 * n + 3 * k, st1) /\
    fields_split s L n D E o0 o1 (k + 1)
      (link (L + 2 * n + 3 * k + 2)
         (get_arg expr k
            (link (L + n + k) (Some (ptr DP1 (L + 2 * n + 3 * k) 0 0))
               (link (L + k) (Some (ptr DP0 (L + 2 * n + 3 * k) 0 0)) st1)))
         (link (L + n + k) (Some (ptr DP1 (L + 2 * n + 3 * k) 0 0))
            (link (L + k) (Some (ptr DP0 (L + 2 * n + 3 * k) 0 0)) st1))).
Proof.
  intros Hk (Hlen & Hreg & Hwf & Hrg & Hbd & Hkeep & HD & HD1 & Hnew & Hzero).
  destruct let_ctr_ranges as (R1 & R2 & R3 & R4 & Rh & R5 & R6 & R7).
  destruct Hocc as (Hoc0 & Hoc1).
  remember (L + 2 * n + 3 * k) as lt eqn:Elt.
  assert (bucket 3 st = []) as Hb3
    by (rewrite (bucket_registers _ _ _ Hreg); exact HRE3).
  destruct (alloc_fresh_frame _ 3 st Hb3 eq_refl Hwf Hrg Hbd)
    as (st1 & A1 & Q1 & Len1 & G1 & wf1 & rg1 & bd1).
  rewrite Hlen in A1, Len1, G1.
  exists st1. split; [exact A1|].
  remember (mem_get (E + k) s) as a eqn:Ea.
  assert (mem_get (E + k) st = a) as Ha.
  { rewrite Ea. apply Hkeep; [clear - R2 Hk; lia|].
    intros h. apply let_ctr_plain. right. right. right. clear - Hk. lia. }
  destruct (slot_of_ptr lt 0 eq_refl) as (S0 & S1 & _).
  assert (forall x, slot_of a = Some x ->
                    mem_get x st = Some (ptr LNK (E + k) 0 0)) as Hsig.
  { intros x Hx. destruct a as [c|]; [|discriminate].
    apply (Hbd (E + k) c x); [clear; lia|exact Ha|exact Hx]. }
  assert (forall x, slot_of a = Some x -> x < lt) as Hsiglt.
  { intros x Hx. rewrite <- Hlen. apply Hwf. specialize (Hsig x Hx).
    unfold mem_get in Hsig. rewrite Hsig. eauto. }
  assert (get_arg expr k
            (link (L + n + k) (Some (ptr DP1 lt 0 0))
               (link (L + k) (Some (ptr DP0 lt 0 0)) st1)) = a) as ->.
  { unfold get_arg. rewrite get_loc_add, <- EE, !link_get, G1, S0, S1, !if_decide_some.
    cell_rows ltac:(fun H => clear - H R2 Hk Elt; lia). exact Ha. }
  match goal with |- fields_split _ _ _ _ _ _ _ _ ?x => remember x as st4 eqn:E4 end.
  assert (forall i, mem_get i st4
            = if decide (slot_of a = Some i) then Some (ptr LNK (lt + 2) 0 0)
              else if decide (i = lt + 2) then a
              else if decide (i = lt + 1) then Some (ptr LNK (L + n + k) 0 0)
              else if decide (i = L + n + k) then Some (ptr DP1 lt 0 0)
              else if decide (i = lt) then Some (ptr LNK (L + k) 0 0)
              else if decide (i = L + k) then Some (ptr DP0 lt 0 0)
              else if decide (lt <= i < lt + 3) then Some 0
              else mem_get i st) as T.
  { intros i. rewrite E4, !link_get, G1, S0, S1, !if_decide_some. reflexivity. }
  assert (MEM_length st4 = lt + 3) as Len4.
  { rewrite E4. repeat apply link_length_same; try exact Len1;
      try (clear - Hk Elt; lia);
      intros x Hx; rewrite ?S0, ?S1 in Hx;
      first [ injection Hx as <-; clear; lia
            | apply Hsiglt in Hx; clear - Hx; lia ]. }
  assert (registers st4 = registers s) as Reg4
    by (rewrite E4, !link_registers, Q1; exact Hreg).
  clear E4 G1 wf1 rg1 bd1 A1 Len1 Q1 st1.
  (* what a cell that is not the back-link of the field tells *)
  assert (forall x v, slot_of a = Some x -> mem_get x st = v ->
            (tag_of v <> LNK \/ exists h, v = Some (ptr LNK h 0 0) /\ h <> E + k) ->
            False) as Hno.
  { intros x v Hx Hv Hc. rewrite (Hsig x Hx) in Hv. subst v.
    destruct Hc as [Hc|(h & Hc & Hh)].
    - apply Hc. simpl. apply lnk_tag.
    - injection Hc as Hc. apply lnk_inj in Hc. congruence. }
  unfold fields_split.
  split; [rewrite Len4, Elt; clear; lia|]. split; [exact Reg4|].
  split; [|split; [|split; [|split; [|split; [|split; [|split]]]]]].
  - (* array_wf *)
    intros x Hx. rewrite Len4. change (is_Some (mem_get x st4)) in Hx.
    rewrite T in Hx. cell_rows_in Hx;
      first
        [ match goal with e : slot_of a = Some x |- _ =>
            apply Hsiglt in e; clear - e; lia end
        | match goal with e : x = _ |- _ => clear - e Hk Elt; lia end
        | match goal with r : _ <= x < _ |- _ => clear - r; lia end
        | apply Hwf in Hx; rewrite Hlen in Hx; clear - Hx; lia ].
  - (* slots_in_range *)
    destruct (node_size_const lt 0 eq_refl) as (_ & _ & ND0 & ND1 & _).
    assert (forall p, node_size (ptr LNK p 0 0) = 0) as NL
      by (intros p; now destruct (node_size_const p 0 eq_refl) as (_ & _ & _ & _ & _ & ?)).
    assert (forall t p j, t < 16 -> get_loc (ptr t p 0 0) j = p + j) as GL
      by (intros; apply get_loc_ptr; lia).
    intros i c j Hi Hj. rewrite Len4. rewrite T in Hi. cell_rows_in Hi;
      first
        [ injection Hi as <-; change (node_size 0) with 0 in Hj; clear - Hj; lia
        | injection Hi as <-; rewrite NL in Hj; clear - Hj; lia
        | injection Hi as <-; first [rewrite ND0 in Hj | rewrite ND1 in Hj];
          rewrite GL by reflexivity; clear - Hj; lia
        | rewrite <- Ha in Hi; pose proof (Hrg _ _ _ Hi Hj) as Hx;
          rewrite Hlen in Hx; clear - Hx; lia
        | pose proof (Hrg _ _ _ Hi Hj) as Hx; rewrite Hlen in Hx; clear - Hx; lia ].
  - (* bonded_but *)
    assert (slot_of (Some 0) = None) as SZ by reflexivity.
    assert (forall p, slot_of (Some (ptr LNK p 0 0)) = None) as SL
      by (intros p; apply binder_slot_lnk).
    assert (forall x, lt <= x -> mem_get x st = None) as Hend.
    { intros x Hx. destruct (mem_get x st) as [c|] eqn:Hc; [|reflexivity].
      assert (x < MEM_length st) as Hlt
        by (apply Hwf; unfold mem_get in Hc; rewrite Hc; eauto).
      rewrite Hlen in Hlt. clear - Hlt Hx. lia. }
    intros i c slot HX Hi Hslot.
    assert (forall v, v = Some c -> slot_of v = Some slot) as Hv
      by (intros v ->; exact Hslot).
    rewrite T in Hi. cell_rows_in Hi;
      try (apply Hv in Hi; rewrite ?SZ, ?SL in Hi; discriminate Hi);
      try (apply Hv in Hi; rewrite ?S0, ?S1 in Hi; injection Hi as <-; subst i;
           rewrite T;
           cell_rows ltac:(fun H =>
             first [ clear - H Hk Elt; lia
                   | apply Hsiglt in H; clear - H; lia ]);
           reflexivity).
    + (* the field, moved *)
      apply Hv in Hi. rewrite T. rewrite decide_True by exact Hi. now subst i.
    + (* a cell the turn did not write *)
      assert (mem_get slot st = Some (ptr LNK i 0 0)) as Hl
        by (apply (Hbd i c slot); [clear - HX; lia|exact Hi|exact Hslot]).
      assert (slot < lt) as Hslt.
      { destruct (decide (slot < lt)) as [?|Hge]; [assumption|].
        rewrite Hend in Hl by (clear - Hge; lia). discriminate Hl. }
      assert (slot_of a <> Some slot) as Nsig.
      { intros Hx. rewrite (Hsig _ Hx) in Hl. injection Hl as Hl.
        apply lnk_inj in Hl. clear - Hl HX. lia. }
      assert (slot <> L + k /\ slot <> L + n + k) as (Nk0 & Nk1).
      { destruct (Hzero k ltac:(clear - Hk; lia)) as (Z0 & Z1).
        split; intros ->; rewrite Hl in *;
          match goal with H : Some _ = Some 0 |- _ =>
            injection H as H; now apply lnk_not_zero in H end. }
      rewrite T.
      cell_rows ltac:(fun H => clear - H Hslt Nk0 Nk1; lia). exact Hl.
  - (* the cells of the old heap that hold no back-link *)
    intros i Hi Hpl. rewrite T.
    cell_rows ltac:(fun H =>
      first [ clear - H Hi Elt; lia
            | apply Hsig in H; rewrite (Hkeep i Hi Hpl) in H;
              exact (Hpl _ H) ]).
    apply Hkeep; assumption.
  - (* the first binder slot of the duplicator *)
    rewrite T.
    cell_rows ltac:(fun H =>
      first [ clear - H R1 Elt; lia
            | apply Hsig in H; rewrite HD in H; injection H as H;
              apply lnk_inj in H; clear - H Hoc0 Hk; lia ]).
    exact HD.
  - (* the second *)
    rewrite T.
    cell_rows ltac:(fun H =>
      first [ clear - H R1 Elt; lia
            | apply Hsig in H; rewrite HD1 in H; injection H as H;
              apply lnk_inj in H; clear - H Hoc1 Hk; lia ]).
    exact HD1.
  - (* the fields split so far *)
    assert (forall t p, t < 16 -> t <> LNK -> tag_of (Some (ptr t p 0 0)) <> LNK) as Htag
      by (intros t p Ht Hne; simpl; rewrite get_tag_ptr by (clear - Ht; lia); exact Hne).
    intros j Hj. destruct (decide (j = k)) as [->|Hjk].
    + destruct (Hzero k ltac:(clear - Hk; lia)) as (Z0 & Z1).
      rewrite <- Elt, <- Ea.
      split; [|split; [|split; [|split]]]; rewrite T;
        cell_rows ltac:(fun H =>
          first [ clear - H Hk Elt; lia
                | exfalso; eapply (Hno _ _ H); [eassumption|]; left; discriminate
                | apply Hsiglt in H; clear - H Hk Elt; lia ]);
        reflexivity.
    + destruct (Hnew j ltac:(clear - Hj Hjk; lia)) as (N0 & N1 & N2 & N3 & N4).
      split; [|split; [|split; [|split]]]; rewrite T;
        cell_rows ltac:(fun H =>
          first [ clear - H Hj Hjk Hk Elt; lia
                | exfalso; eapply (Hno _ _ H); [eassumption|];
                  first [ left; apply Htag; [reflexivity|discriminate]
                        | right; eexists; split; [reflexivity|];
                          clear - R2 Hk; lia
                        | left; apply Hfields; clear - Hj Hk; lia ] ]);
        assumption.
  - (* the fields still to split *)
    intros j Hj. destruct (Hzero j ltac:(clear - Hj; lia)) as (Z0 & Z1).
    split; rewrite T;
      cell_rows ltac:(fun H =>
        first [ clear - H Hj Hk Elt; lia
              | exfalso; eapply (Hno _ _ H); [eassumption|]; left; discriminate ]);
      assumption.
Qed.

(** The whole loop. *)
Lemma let_ctr_loop : forall m k st,
  k + N.of_nat m = n -> fields_split s L n D E o0 o1 k st ->
  fields_split s L n D E o0 o1 n (let_ctr_fields expr L (L + n) k m st).
Proof.
  induction m as [|m IH]; intros k st Hkm Hinv.
  - assert (k = n) as Hx by (clear - Hkm; lia). rewrite Hx in Hinv. exact Hinv.
  - destruct (let_ctr_step k st) as (st1 & A1 & Hinv'); [clear - Hkm; lia|exact Hinv|].
    cbn [let_ctr_fields]. rewrite A1. cbv beta iota zeta.
    apply IH; [clear - Hkm; lia|exact Hinv'].
Qed.

Lemma slot_of_ctr p : slot_of (Some (ptr CTR p n func)) = None.
Proof.
  destruct let_ctr_ranges as (_ & _ & _ & _ & _ & _ & R6 & R7).
  unfold slot_of. simpl.
  apply binder_slot_tag; rewrite get_tag_ptr by (unfold CTR; lia); discriminate.
Qed.

(** The cells after the rule, from the heap [sn] the loop leaves. *)
Lemma let_ctr_table fuel :
  exists sn s',
    fields_split s L n D E o0 o1 n sn /\
    let_ctr fuel host term expr s = Some s' /\
    MEM_length s' = L + 5 * n /\
    RE3 s' = (if n =? 3 then [E; D] else [D]) /\
    forall i, mem_get i s'
    = if decide (E <= i < E + n) then Some 0
      else if decide (D <= i < D + 3) then Some 0
      else if decide (i = host) then Some (ptr CTR lk n func)
      else if decide (i = o1) then Some (ptr CTR (L + n) n func)
      else if decide (i = o0) then Some (ptr CTR L n func)
      else mem_get i sn.
Proof.
  destruct let_ctr_ranges as (R1 & R2 & R3 & R4 & Rh & R5 & R6 & R7).
  destruct Hocc as (Hoc0 & Hoc1).
  destruct let_ctr_init as (s1 & s2 & A1 & A2 & Hinv0).
  pose proof (let_ctr_loop (N.to_nat n) 0 s2 ltac:(rewrite N2Nat.id; reflexivity) Hinv0)
    as Hinv.
  remember (let_ctr_fields expr L (L + n) 0 (N.to_nat n) s2) as sn eqn:Esn.
  pose proof Hinv as (Hlen & Hreg & Hwf & Hrg & Hbd & Hkeep & HD & HD1 & Hnew & Hzero).
  exists sn. eexists. split; [exact Hinv|].
  assert (let_ctr fuel host term expr s
          = Some (free E n (free D 3
              (link host (Some (ptr CTR lk n func))
              (link o1 (Some (ptr CTR (L + n) n func))
              (link o0 (Some (ptr CTR L n func)) sn)))))) as ->.
  { unfold let_ctr. cbv zeta. rewrite <- En, <- Efunc, A1. cbv beta iota.
    rewrite A2. cbv beta iota. rewrite <- Esn, <- ED, <- EE, <- Elk.
    assert (get_arg term 0 sn = Some (ptr LNK o0 0 0)) as ->
      by (unfold get_arg; rewrite <- ED; exact HD).
    rewrite subst_used. simpl.
    assert (get_arg term 1 (link o0 (Some (ptr CTR L n func)) sn)
            = Some (ptr LNK o1 0 0)) as ->.
    { unfold get_arg. rewrite get_loc_add, <- ED, link_get, slot_of_ctr.
      drop_none. rewrite decide_False; [exact HD1|].
      intros Hx. destruct let_ctr_cells as (_ & C1). rewrite Hx in C1.
      exact (let_ctr_plain o0 _ ltac:(now left) C1). }
    rewrite subst_used. simpl. reflexivity. }
  split; [reflexivity|]. split; [|split].
  - repeat first [apply free_length_same | apply link_length_same];
      try (rewrite Hlen; clear; lia); try (clear - R1 R2 R3 R4 Rh; lia);
      intros x Hx; rewrite slot_of_ctr in Hx; discriminate Hx.
  - destruct (free_stacks E n
               (free D 3
                  (link host (Some (ptr CTR lk n func))
                  (link o1 (Some (ptr CTR (L + n) n func))
                  (link o0 (Some (ptr CTR L n func)) sn)))))
      as (_ & _ & _ & ->).
    rewrite RE3_free3, !RE3_link.
    assert (RE3 sn = []) as ->.
    { unfold registers in Hreg. injection Hreg as _ _ _ Hx _ _ _. congruence. }
    reflexivity.
  - intros i. rewrite !free_get, !link_get, !slot_of_ctr. drop_none. reflexivity.
Qed.

Section LetCtrTable.

Variables sn s' : State.
Hypothesis Hinv : fields_split s L n D E o0 o1 n sn.
Hypothesis Hlen' : MEM_length s' = L + 5 * n.
Hypothesis Htab : forall i, mem_get i s'
    = if decide (E <= i < E + n) then Some 0
      else if decide (D <= i < D + 3) then Some 0
      else if decide (i = host) then Some (ptr CTR lk n func)
      else if decide (i = o1) then Some (ptr CTR (L + n) n func)
      else if decide (i = o0) then Some (ptr CTR L n func)
      else mem_get i sn.

(** What the loop left of the old cells the rule reads. *)
Lemma let_ctr_kept :
  mem_get o0 sn = Some t0 /\ mem_get o1 sn = Some t1 /\
  mem_get (D + 2) sn = Some expr /\
  (forall j, j < n -> mem_get (E + j) sn = mem_get (E + j) s).
Proof.
  destruct let_ctr_ranges as (R1 & R2 & R3 & R4 & Rh & R5 & R6 & R7).
  destruct Hinv as (Hlen & Hreg & Hwf & Hrg & Hbd & Hkeep & HD & HD1 & Hnew & Hzero).
  split; [|split; [|split]].
  - rewrite <- Ho0. apply Hkeep; [exact R3|]. intros h. apply let_ctr_plain. now left.
  - rewrite <- Ho1. apply Hkeep; [exact R4|]. intros h. apply let_ctr_plain.
    right. now left.
  - rewrite <- Hexpr. apply Hkeep; [clear - R1; lia|]. intros h.
    apply let_ctr_plain. right. right. now left.
  - intros j Hj. apply Hkeep; [clear - R2 Hj; lia|]. intros h.
    apply let_ctr_plain. right. right. right. clear - Hj. lia.
Qed.

Lemma let_ctr_bonded : bonded s'.
Proof.
  destruct let_ctr_ranges as (R1 & R2 & R3 & R4 & Rh & R5 & R6 & R7).
  destruct let_ctr_kept as (K0 & K1 & K2 & KE).
  destruct Hinv as (Hlen & Hreg & Hwf & Hrg & Hbd & Hkeep & HD & HD1 & Hnew & Hzero).
  assert (slot_of (Some 0) = None) as SZ by reflexivity.
  assert (host = o0 \/ host = o1) as Hh
    by (destruct let_ctr_state as [(_ & -> & _)|(_ & -> & _)]; auto).
  intros i c slot Hi Hslot.
  assert (forall v, v = Some c -> slot_of v = Some slot) as Hv
    by (intros v ->; exact Hslot).
  rewrite Htab in Hi. cell_rows_in Hi;
    try (apply Hv in Hi; rewrite ?SZ, ?slot_of_ctr in Hi; discriminate Hi).
  assert (mem_get slot sn = Some (ptr LNK i 0 0)) as Hl
    by (apply (Hbd i c slot); assumption).
  assert (forall x v, mem_get x sn = v -> tag_of v <> LNK -> slot <> x) as Hne.
  { intros x v Hx Ht ->. apply Ht. rewrite <- Hx, Hl. simpl. apply lnk_tag. }
  assert (~ E <= slot < E + n) as N1.
  { intros Hr. apply (Hne slot _ eq_refl); [|reflexivity].
    replace slot with (E + (slot - E)) by (clear - Hr; lia).
    rewrite KE by (clear - Hr; lia). apply Hfields. clear - Hr. lia. }
  assert (slot <> o0) as N2
    by (apply (Hne _ _ K0); simpl; rewrite Tt0; discriminate).
  assert (slot <> o1) as N3
    by (apply (Hne _ _ K1); simpl; rewrite Tt1; discriminate).
  assert (slot <> D + 2) as N4
    by (apply (Hne _ _ K2); simpl; rewrite Texpr; discriminate).
  assert (slot <> D) as N5.
  { intros ->. rewrite HD in Hl. injection Hl as Hl. apply lnk_inj in Hl. congruence. }
  assert (slot <> D + 1) as N6.
  { intros ->. rewrite HD1 in Hl. injection Hl as Hl. apply lnk_inj in Hl. congruence. }
  rewrite Htab.
  cell_rows ltac:(fun H => clear - H N1 N2 N3 N4 N5 N6 Hh; lia). exact Hl.
Qed.

Lemma let_ctr_array_wf : array_wf s'.
Proof.
  destruct let_ctr_ranges as (R1 & R2 & R3 & R4 & Rh & R5 & R6 & R7).
  destruct Hinv as (Hlen & Hreg & Hwf & Hrg & Hbd & Hkeep & HD & HD1 & Hnew & Hzero).
  intros k Hk. rewrite Hlen'.
  change (is_Some (mem_get k s')) in Hk. rewrite Htab in Hk. cell_rows_in Hk;
    first
      [ match goal with r : _ <= k < _ |- _ => clear - R1 R2 r; lia end
      | match goal with e : k = _ |- _ => clear - e Rh R3 R4; lia end
      | apply Hwf in Hk; rewrite Hlen in Hk; clear - Hk; lia ].
Qed.

Lemma let_ctr_slots_in_range : slots_in_range s'.
Proof.
  destruct let_ctr_ranges as (R1 & R2 & R3 & R4 & Rh & R5 & R6 & R7).
  destruct Hinv as (Hlen & Hreg & Hwf & Hrg & Hbd & Hkeep & HD & HD1 & Hnew & Hzero).
  assert (lk = L \/ lk = L + n) as Hlk
    by (destruct let_ctr_state as [(_ & _ & ->)|(_ & _ & ->)]; auto).
  assert (forall p, node_size (ptr CTR p n func) = n) as NC.
  { intros p. unfold node_size.
    rewrite get_tag_ptr, get_ex0_ptr by (first [assumption | reflexivity]).
    reflexivity. }
  assert (forall p j, get_loc (ptr CTR p n func) j = p + j) as GL
    by (intros; apply get_loc_ptr; first [assumption | reflexivity]).
  intros i c j Hi Hj. rewrite Hlen'.
  rewrite Htab in Hi. cell_rows_in Hi;
    first
      [ injection Hi as <-; change (node_size 0) with 0 in Hj; clear - Hj; lia
      | injection Hi as <-; rewrite NC in Hj; rewrite GL; clear - Hj Hlk; lia
      | pose proof (Hrg _ _ _ Hi Hj) as Hx; rewrite Hlen in Hx; clear - Hx; lia ].
Qed.

Lemma let_ctr_new_cells :
    mem_get o0 s' = Some (ptr CTR L n func) /\
    mem_get o1 s' = Some (ptr CTR (L + n) n func) /\
    (forall j, j < n ->
       mem_get (L + j) s' = Some (ptr DP0 (L + 2 * n + 3 * j) 0 0) /\
       mem_get (L + n + j) s' = Some (ptr DP1 (L + 2 * n + 3 * j) 0 0) /\
       mem_get (L + 2 * n + 3 * j) s' = Some (ptr LNK (L + j) 0 0) /\
       mem_get (L + 2 * n + 3 * j + 1) s' = Some (ptr LNK (L + n + j) 0 0) /\
       mem_get (L + 2 * n + 3 * j + 2) s' = mem_get (E + j) s) /\
    (forall i, D <= i < D + 3 \/ E <= i < E + n -> mem_get i s' = Some 0).
Proof.
  destruct let_ctr_ranges as (R1 & R2 & R3 & R4 & Rh & R5 & R6 & R7).
  destruct Hocc as (Hoc0 & Hoc1).
  destruct let_ctr_cells as (C0 & C1).
  destruct Hinv as (Hlen & Hreg & Hwf & Hrg & Hbd & Hkeep & HD & HD1 & Hnew & Hzero).
  assert (forall o t, mem_get o s = Some t -> get_tag t <> CTR ->
            (forall h, mem_get o s <> Some (ptr LNK h 0 0)) ->
            ~ D <= o < D + 3) as Hout.
  { intros o t Ho Ht Hp Hr.
    assert (o = D \/ o = D + 1 \/ o = D + 2) as [->|[->| ->]] by (clear - Hr; lia).
    - exact (Hp _ C0).
    - exact (Hp _ C1).
    - rewrite Hexpr in Ho. injection Ho as <-. now apply Ht. }
  assert (~ D <= o0 < D + 3) as Nd0.
  { apply (Hout o0 t0 Ho0); [rewrite Tt0; discriminate|].
    intros h. apply let_ctr_plain. now left. }
  assert (~ D <= o1 < D + 3) as Nd1.
  { apply (Hout o1 t1 Ho1); [rewrite Tt1; discriminate|].
    intros h. apply let_ctr_plain. right. now left. }
  split; [|split; [|split]].
  - rewrite Htab.
    destruct let_ctr_state as [(_ & Eh & El)|(_ & Eh & El)]; rewrite Eh, El;
      cell_rows ltac:(fun H => clear - H R5 Hoc0 Nd0; lia); reflexivity.
  - rewrite Htab.
    destruct let_ctr_state as [(_ & Eh & El)|(_ & Eh & El)]; rewrite Eh, El;
      cell_rows ltac:(fun H => clear - H R5 Hoc1 Nd1; lia); reflexivity.
  - intros j Hj. destruct (Hnew j Hj) as (N0 & N1 & N2 & N3 & N4).
    split; [|split; [|split; [|split]]]; rewrite Htab;
      cell_rows ltac:(fun H => clear - H R1 R2 R3 R4 Rh; lia); assumption.
  - intros i Hi. rewrite Htab.
    destruct (decide (E <= i < E + n)); [reflexivity|].
    rewrite decide_True by (clear - Hi n0; lia). reflexivity.
Qed.

Lemma let_ctr_linked : well_linked s'.
Proof.
  unfold well_linked. split; [|split].
  - exact let_ctr_array_wf.
  - exact let_ctr_bonded.
  - exact let_ctr_slots_in_range.
Qed.

End LetCtrTable.

Lemma let_ctr_all fuel :
  exists s',
    let_ctr fuel host term expr s = Some s' /\
    well_linked s' /\ MEM_length s' = L + 5 * n /\
    RE3 s' = (if n =? 3 then [E; D] else [D]) /\
    mem_get o0 s' = Some (ptr CTR L n func) /\
    mem_get o1 s' = Some (ptr CTR (L + n) n func) /\
    (forall j, j < n ->
       mem_get (L + j) s' = Some (ptr DP0 (L + 2 * n + 3 * j) 0 0) /\
       mem_get (L + n + j) s' = Some (ptr DP1 (L + 2 * n + 3 * j) 0 0) /\
       mem_get (L + 2 * n + 3 * j) s' = Some (ptr LNK (L + j) 0 0) /\
       mem_get (L + 2 * n + 3 * j + 1) s' = Some (ptr LNK (L + n + j) 0 0) /\
       mem_get (L + 2 * n + 3 * j + 2) s' = mem_get (E + j) s) /\
    (forall i, D <= i < D + 3 \/ E <= i < E + n -> mem_get i s' = Some 0).
Proof.
  destruct (let_ctr_table fuel) as (sn & s' & Hinv & Hs & Hlen & H3 & Htab).
  exists s'. split; [exact Hs|]. split; [exact (let_ctr_linked sn s' Hinv Hlen Htab)|].
  split; [exact Hlen|]. split; [exact H3|].
  exact (let_ctr_new_cells sn s' Hinv Htab).
Qed.

End LetCtr.


